(* ===== verification/_CoqProject ===== *)
-Q . S2P
Prelude.v
Threads.v
GoStrings.v
GoNet.v
GoIO.v
LogOptions.v
LogScope.v
LogFormat.v
LogCores.v
Env.v
Containers.v
LogConfig.v
TextProto.v
ClientHello.v
HttpMessage.v
HeaderCodec.v
Query.v
HttpProxy.v
Tunnel.v
DomainPolicy.v
ConfigManager.v
ManagerThreads.v
Credentials.v
CredentialThreads.v
LoadBalance.v
RouteMatch.v
RouteCache.v
Mitm.v
Requests.v
Intercept.v
Socket.v
Dispatch.v
Iptables.v
Capture.v
Netfilter.v
XTables.v
Validation.v
CommandLine.v
Management.v
Commands.v
Diagnostics.v
Startup.v
Agent.v
Node.v
Pool.v
PoolThreads.v
Udp.v
