(* ===== verification/Prelude.v ===== *)
(** * Lhotse Agent: a verification library

    Lhotse Agent (package lhotse-agent) is a node agent that sits between the
    workloads of a machine and the network.  iptables rules send the traffic of
    the workloads to it; it reads the first bytes of a connection, decides by a
    domain policy whether the connection may go on, routes and forwards HTTP
    requests, intercepts TLS where it is told to, injects credentials, and
    tunnels everything else.

    ** The parts of the program and where they are modelled

    - GoStrings, GoNet, GoIO, TextProto: what the program uses of the standard
      library (strings, strconv, net addresses, bufio readers and writers over
      a byte stream that ends in an error, net/textproto).  Strings are byte
      strings, readers are the bytes still to come with the error that ends
      them and the size of the buffer.
    - ClientHello (pkg/protocol/tls/client_hello.go): peeking a ClientHello and
      finding its server name.
    - HttpMessage, HeaderCodec (pkg/protocol/http): request and response heads,
      the header map, tokens, derived fields; the writer of header blocks with
      its inverse.
    - Query: the encodings of net/url and encoding/json the program's requests
      use, with their readers.
    - HttpProxy (cmd/proxy/http.go): one HTTP exchange, from the dialled
      upstream connection to the bodies, the tunnel and the errors.
    - Tunnel (the same file): the two goroutines of a tunnel with the peers as
      steps; HttpProxy's [proxyTunnel] is what every schedule comes to.
    - DomainPolicy (cmd/proxy/domainpolicy/policy.go, cmd/proxy/domain_policy.go):
      compiling policy documents and deciding connections.
    - ConfigManager (domainpolicy/manager.go, handlers.go and
      runtimeconfig/manager.go, handlers.go): the two managers that fetch, cache
      and serve a configuration.  They are the same program text over different
      documents: the Section [Manager] is the shared life cycle, the Modules
      [PolicyManager] and [RuntimeManager] instantiate it.
    - Threads: any number of goroutines that take steps on a shared state, with
      the rule of rely and guarantee.  ManagerThreads, CredentialThreads and
      PoolThreads use it: the managers while several reloads are under way, the
      caches of the vault clients while several questions are, the connection
      pool while it is used from everywhere and released.
    - Credentials (pkg/credential, pkg/identity, cmd/proxy/credentials.go): the
      two caching clients of the vault and the injection of a credential.  The
      injection is proved against the classes [IdentityService] and
      [CredentialService], which the resolvers implement.
    - Requests: the requests of the managers, the vault clients and the
      certificate store (their [fetch], [Fetch], [Resolve] and
      [FetchAndReload]): what is sent, and what the servers read.
    - LoadBalance, RouteMatch, RouteCache (cmd/config, cmd/proxy/data/config.go):
      the balancers; the route tables, how they are loaded, and the choice of an
      endpoint for a request; the goroutine that saves them and the file.
    - Mitm (pkg/tls/mitm and parts of cmd/proxy/outbound.go): the certificate
      store, also under concurrency, the listener for one connection, protocol
      detection and the handler of intercepted requests.
    - Intercept (outbound.go): one intercepted connection from the peeked name
      to its end: certificate, handshake, the requests it relays and over which
      transport, the tunnel of other TLS traffic.
    - Dispatch (outbound.go, inbound.go, http.go, inbound_target.go,
      traffic_log.go, util/safe.go): a connection of either server from its
      original destination to its end, which composes everything above.
    - Iptables, Capture (iptables/pkg, clean-iptables/pkg): the rule builder
      with its two output formats, the configurator that writes the rules for a
      configuration, the DNS rules it shares with the cleaner.
    - Netfilter: no program text; it reads the rules the way netfilter does, to
      state what they achieve.
    - XTables (iptables/pkg/dependencies, run.go and run_linux.go): running a
      command, also again while the lock of iptables is taken; what is requested
      over netlink.
    - Validation (iptables/pkg/validation): the listeners and the client that
      try whether the capture works, as steps of goroutines.
    - CommandLine (the cmd packages): the flags and settings of the three
      commands and how cobra and viper resolve them.
    - Commands (iptables/pkg/cmd, clean-iptables/pkg/cmd): the commands that
      install, route and clean, from a configuration to the exit status.
    - Management (cmd/mgr): the handlers of the management server, the download
      of a new version.
    - Startup (cmd/proxy/server.go, cmd/server, cmd/upgrade): the start of the
      proxy with the wait for the first CA, the trust bundle, and its stop.
    - Agent: the process after its start: the phases of the reloads of both
      managers (ManagerThreads), refreshes of the CA, the stop of the managers,
      connections and their turns, in any order.
    - Diagnostics (iptables/pkg/log and the two config packages): the reader of
      traced packets, the texts of the configurations.
    - Node: no program text; the kernel with the rules of Capture and the agent
      beside it, to state what leaves a captured machine.
    - Socket (pkg/socket): socket options, original destinations of TCP and UDP
      traffic.
    - Pool (pkg/pool/pool.go): the connection pool.
    - Udp (cmd/proxy/udp.go): the sessions of the UDP proxy.
    - LogOptions, LogScope, LogFormat, LogCores, LogConfig (pkg/log): the
      option strings; scopes, labels and messages; the text of time stamps; the
      two cores that tee entries away; [Configure] and the flags.
    - Env (pkg/env), Containers (util/sets, util/sync/cow): the registry of
      environment variables; sets with their aliasing, the copy-on-write map and
      array under concurrency.

    Node is at the top, over Netfilter and Agent.  Agent begins with the process that Startup leaves behind
    (the managers of ConfigManager, the certificate store of Mitm, the tables of
    RouteMatch, the servers) and runs the connections of Dispatch on it, while
    reloads are under way in the managers and the store changes.  Udp handles the datagrams.  Management
    and Commands both drive Capture through XTables.

    This file holds what all of them share: the outcomes of Go calls (a value,
    an error, a panic), machine integers, tactics, invariants of transition
    systems.

    ** How the code is rendered

    A Go function becomes a function on values; what it changes is passed
    through: readers and writers for connections, records for objects behind a
    lock, tables with references for objects that several places share (the
    balancers of RouteMatch).  [error] results are [Err], panics are [Panic],
    and a nil pointer is [None].  Where several goroutines run (certificate
    store, managers, vault clients, listener, UDP sessions, pool) each critical
    section is one step of an inductive relation, and the theorems are about all
    reachable states.  A method that leaves the lock in between has phases, one
    value of an inductive type for each place it can be at; what a goroutine
    knows in its phase must survive the steps of the others.  For the methods
    that are also given as one function, a lemma ([Reload_alone],
    [credential_Resolve_alone], [get_loop_alone]) says that the function is the
    run of a goroutine the others leave alone.  The order in which a Go map is visited is an argument, and
    theorems hold for every order.  What a component logs is left out, except in
    the package log itself.  A whole process (Startup, Commands, Management) is
    a record of what it has done so far; an exit or a fatal message ends it.

    Code that is not in the repository is an argument or a class: net/url,
    golang.org/x/net/http/httpguts, Unicode case mapping, regular expressions,
    the JSON and YAML decoders, sha256, crypto/tls, viper, the parser of
    control messages, iptables itself, netlink, zap, the client of Google Cloud
    Logging; so are the clock, the random source, the
    disk and the network.  The laws some theorems need of them are fields of the
    classes or premises, and each such theorem has a witness at concrete
    instances.

    ** What the theorems show

    - The whole (Node, Agent, Dispatch): a TCP connection leaves a captured
      machine directly only if the configuration of the capture exempts it, and
      every other one meets the agent, which knows its destination; a connection of the running agent that sends
      anything upstream was allowed by the newest policy document received for
      the name it announced and its original destination; only connections to
      listed hosts are intercepted; every connection ends.
    - Forwarding (HttpProxy, Tunnel, HeaderCodec, HttpMessage): the forwarded
      head is parsed by the next hop to the same request; a chunked body is
      copied exactly and nothing after it is consumed; the client receives a
      prefix of what the upstream sent; every schedule of a tunnel relays
      prefixes, comes to its return when the peers have ended, and returns what
      [proxyTunnel] says; header blocks survive writing and parsing; token
      matching is the delimited occurrence.
    - Requests (Requests, Query): the servers read back the values that were put
      into queries and JSON bodies, whatever bytes they hold.
    - Inspection (ClientHello): parsing never panics, finds the encoded server
      name, and consumes nothing.
    - Policy (DomainPolicy, ConfigManager, ManagerThreads, Dispatch): a compiled
      policy decides as its document says; a loaded policy is never lost to a
      failure; concurrent reloads act as if made in the order of the lock, while
      the cache file may keep an older document than the one in force; nothing
      is forwarded around the policy; the refusal is a complete response.
    - Routing (LoadBalance, RouteMatch): the weighted round robin is exactly
      fair and bounded; a match block accepts what its fields say; endpoints
      belong to the service asked for; what loading installs; who can read the
      saved tables.
    - Interception and credentials (Mitm, Credentials, CredentialThreads): certificates are signed
      by the CA in force unless a request races with a rotation (both are
      shown); credentials answer the question that was asked, within their
      lifetime, whoever else uses the cache; injection replaces one header and no other.
    - Intercepted connections (Intercept): everything relayed goes to the
      original destination under the name of the handshake, which was made with
      a certificate for that name; what a failed handshake leaves behind.
    - The process (Startup, Management, Commands, CommandLine): how a start
      ends and that nothing listens unprepared; the wait for the CA ends and is
      prompt; a stop waits for connections, within limits; options take the
      documented precedence; an installation that ends normally has run every
      command once; a download never loses the program; the cleaner undoes a
      capture.
    - Execution and validation (XTables, Validation): commands repeated for the
      lock take effect once; a validation that passes saw the probe.
    - Logging and containers (the Log files, Env, Containers): option strings
      are maps; the registry of scopes is well typed; configuring does what was
      asked, as a whole or not at all; time stamps sort; lines reach the Unix
      socket once; the copy-on-write containers are linearizable; for which
      traced packets the reader knows a description.
    - Capture (Iptables, Capture, Netfilter): for every configuration the rules
      give each TCP packet the verdict the configuration asks for, outgoing and
      incoming; both output formats say the same; the cleaner deletes the DNS
      rules that were created.
    - Resources (Pool, PoolThreads, Udp): the pool keeps its limits under
      disciplined use and under every interleaving of its methods, and what a
      release in the middle of that use does; no UDP socket is lost; and where goroutines of a dead session interfere.

    ** Bounds and fuel

    Loops whose recursion is not structural take fuel: the loops over bytes
    (trailers, chunks, extensions, name lists, header lines) get the number of
    bytes still to come plus one, and every turn consumes at least one byte, so
    running out is excluded by the theorems (a result is stated, not assumed).
    A walk through iptables chains gets the depth of jumps, 3, which is more
    than the two levels of chains the configurator makes.  [outbound_loop] and
    [inbound_loop] of Dispatch run at most a chosen number of turns and say
    whether the connection ended.  [initializeCA] of Startup takes one unit per
    turn of its loop, and the theorem gives a bound after which the result does
    not change.  The drain of a server looks once per second; 31 looks reach past
    the limit of thirty seconds, where the process is ended.  Integers that wrap
    in the program wrap in the model ([wrap_u], [wrap_s]).

    ** What is not modelled

    The protobuf messages are generated code.  The main functions and root
    commands only dispatch; the types of the configuration file that nothing
    reads (redirects, rewrites, consistent hashing) and the helpers of the
    tests are left out.  The listener hand-over of the upgrader, keep-alive
    connections of the HTTP transports and the text cobra prints belong to
    libraries.  The parsers of JSON, YAML and certificates, TLS itself and the
    standard HTTP servers are libraries and appear as arguments. *)

From stdpp Require Export base tactics option list gmap strings pretty sets numbers sorting.
From Stdlib Require Export ZArith Lia.
From Stdlib Require Import Ascii.

(** ** Outcomes of Go calls

    A Go call either returns a value, returns a non-nil [error], or panics
    (nil dereference, index out of range, explicit [panic]).  The three are
    kept apart: an error is an ordinary value the caller handles, a panic
    unwinds the goroutine. *)

Inductive panic :=
  | NilDeref
  | IndexOutOfRange
  | DivideByZero
  | NilMapWrite
  | Explicit (msg : string).

Inductive result (E A : Type) :=
  | Ok (a : A)
  | Err (e : E)
  | Panic (p : panic).
Arguments Ok {E A} a.
Arguments Err {E A} e.
Arguments Panic {E A} p.

#[export] Instance panic_eq_dec : EqDecision panic.
Proof. solve_decision. Defined.

#[export] Instance result_eq_dec `{EqDecision E, EqDecision A} : EqDecision (result E A).
Proof. solve_decision. Defined.

#[export] Instance result_ret {E} : MRet (result E) := λ A a, Ok a.

#[export] Instance result_bind {E} : MBind (result E) := λ A B f m,
  match m with
  | Ok a => f a
  | Err e => Err e
  | Panic p => Panic p
  end.

#[export] Instance result_fmap {E} : FMap (result E) := λ A B f m,
  match m with
  | Ok a => Ok (f a)
  | Err e => Err e
  | Panic p => Panic p
  end.

(** [no_panic m]: the call returns, with a value or with an error. *)
Definition no_panic {E A} (m : result E A) : Prop :=
  ∀ p, m ≠ Panic p.

Lemma no_panic_ok {E A} (a : A) : no_panic (E:=E) (Ok a).
Proof. intros p; discriminate. Qed.

Lemma no_panic_err {E A} (e : E) : no_panic (A:=A) (Err e).
Proof. intros p; discriminate. Qed.

Lemma no_panic_bind {E A B} (m : result E A) (f : A → result E B) :
  no_panic m → (∀ a, m = Ok a → no_panic (f a)) → no_panic (m ≫= f).
Proof.
  intros Hm Hf p. destruct m as [a|e|q]; simpl; [by apply Hf|done|].
  intros ?; simplify_eq. by eapply Hm.
Qed.

Create HintDb lhotse.
#[export] Hint Resolve no_panic_ok no_panic_err no_panic_bind : lhotse.

(** ** Machine integers

    Go's fixed-width integers are [Z]; a conversion wraps. *)

Definition wrap_u (w : Z) (x : Z) : Z := x mod 2 ^ w.
Definition wrap_s (w : Z) (x : Z) : Z :=
  (x + 2 ^ (w - 1)) mod 2 ^ w - 2 ^ (w - 1).

Definition max_int64 : Z := 9223372036854775807.
Definition min_int64 : Z := -9223372036854775808.

Lemma pow_half w : (0 < w)%Z → (2 ^ w = 2 * 2 ^ (w - 1))%Z.
Proof. intros. rewrite <- Z.pow_succ_r by lia. f_equal. lia. Qed.

Lemma wrap_s_id w x : (0 < w)%Z → (- 2 ^ (w - 1) ≤ x < 2 ^ (w - 1))%Z → wrap_s w x = x.
Proof.
  intros Hw Hx. unfold wrap_s. rewrite (pow_half w Hw).
  rewrite Z.mod_small; lia.
Qed.

Lemma wrap_s_range w x : (0 < w)%Z → (- 2 ^ (w - 1) ≤ wrap_s w x < 2 ^ (w - 1))%Z.
Proof.
  intros Hw. unfold wrap_s. rewrite (pow_half w Hw).
  assert (0 < 2 ^ (w - 1))%Z by (apply Z.pow_pos_nonneg; lia).
  pose proof (Z.mod_pos_bound (x + 2 ^ (w - 1)) (2 * 2 ^ (w - 1))). lia.
Qed.

Lemma wrap_u_range w x : (0 ≤ w)%Z → (0 ≤ wrap_u w x < 2 ^ w)%Z.
Proof. intros. apply Z.mod_pos_bound. by apply Z.pow_pos_nonneg. Qed.

(** ** Automation shared by the components *)

(** Case analysis on every [match]/[if] of the goal, discarding the
    impossible branches. *)
Ltac cases := repeat (case_match; simplify_eq/=).

(** Case analysis on the outermost scrutinees of a hypothesis. *)
Ltac cases_in H :=
  repeat (match type of H with
          | context [match ?x with _ => _ end] => destruct x eqn:?
          end; simplify_eq/=).

(** Turn boolean tests of the context into propositions. *)
Ltac bools :=
  repeat match goal with
  | H : andb _ _ = true |- _ => apply andb_prop in H as [? ?]
  | H : andb _ _ = false |- _ => apply andb_false_iff in H
  | H : orb _ _ = true |- _ => apply orb_prop in H
  | H : orb _ _ = false |- _ => apply orb_false_elim in H as [? ?]
  | H : negb _ = true |- _ => apply negb_true_iff in H
  | H : negb _ = false |- _ => apply negb_false_iff in H
  | H : bool_decide _ = true |- _ => apply bool_decide_eq_true in H
  | H : bool_decide _ = false |- _ => apply bool_decide_eq_false in H
  | H : String.eqb _ _ = true |- _ => apply String.eqb_eq in H
  | H : String.eqb _ _ = false |- _ => apply String.eqb_neq in H
  | H : Ascii.eqb _ _ = true |- _ => apply Ascii.eqb_eq in H
  | H : Ascii.eqb _ _ = false |- _ => apply Ascii.eqb_neq in H
  | H : (_ =? _)%nat = true |- _ => apply Nat.eqb_eq in H
  | H : (_ =? _)%nat = false |- _ => apply Nat.eqb_neq in H
  | H : (_ <? _)%nat = true |- _ => apply Nat.ltb_lt in H
  | H : (_ <? _)%nat = false |- _ => apply Nat.ltb_ge in H
  | H : (_ <=? _)%nat = true |- _ => apply Nat.leb_le in H
  | H : (_ <=? _)%nat = false |- _ => apply Nat.leb_gt in H
  | H : (_ =? _)%Z = true |- _ => apply Z.eqb_eq in H
  | H : (_ =? _)%Z = false |- _ => apply Z.eqb_neq in H
  | H : (_ <? _)%Z = true |- _ => apply Z.ltb_lt in H
  | H : (_ <? _)%Z = false |- _ => apply Z.ltb_ge in H
  | H : (_ <=? _)%Z = true |- _ => apply Z.leb_le in H
  | H : (_ <=? _)%Z = false |- _ => apply Z.leb_gt in H
  end.

(** ** Transition systems

    The reflexive-transitive closure used for reachable states is stdpp's
    [rtc]; an invariant is closed under one step. *)

Definition invariant {S} (step : S → S → Prop) (P : S → Prop) : Prop :=
  ∀ s s', P s → step s s' → P s'.

Lemma invariant_reachable {S} (step : S → S → Prop) (P : S → Prop) s s' :
  invariant step P → P s → rtc step s s' → P s'.
Proof. intros Hinv Hs. induction 1; eauto. Qed.

(** every schedule leads to [P], whatever the steps are *)
Inductive surely {S} (step : S → S → Prop) (P : S → Prop) : S → Prop :=
  | surely_now s : P s → surely step P s
  | surely_later s : (∃ s', step s s') → (∀ s', step s s' → surely step P s') → surely step P s.

Lemma surely_measure {S} (step : S → S → Prop) (P I : S → Prop) (m : S → nat) :
  (∀ s, I s → P s ∨ ((∃ s', step s s') ∧ ∀ s', step s s' → I s' ∧ m s' < m s)) →
  ∀ s, I s → surely step P s.
Proof.
  intros H. cut (∀ n s, m s < n → I s → surely step P s).
  { intros Hn s Hs. apply (Hn (Datatypes.S (m s))); [lia|done]. }
  induction n as [|n IH]; intros s Hm Hs; [lia|]. destruct (H s Hs) as [|[Hex Hall]]; [by apply surely_now|].
  apply surely_later; [done|]. intros s' Hs'. destruct (Hall s' Hs'). apply IH; [lia|done].
Qed.

(** ** Lists *)

(** [m] occurs in [l] as a contiguous block. *)
Definition infix {A} (m l : list A) : Prop := ∃ a b, l = a ++ m ++ b.

Lemma infix_refl {A} (l : list A) : infix l l.
Proof. exists [], []. by rewrite app_nil_r. Qed.

Lemma infix_trans {A} (k m l : list A) : infix k m → infix m l → infix k l.
Proof.
  intros (a & b & ->) (c & d & ->). exists (c ++ a), (b ++ d).
  by rewrite <- !app_assoc.
Qed.

Lemma infix_take {A} n (l : list A) : infix (take n l) l.
Proof. exists [], (drop n l). by rewrite take_drop. Qed.

Lemma infix_drop {A} n (l : list A) : infix (drop n l) l.
Proof. exists (take n l), []. by rewrite app_nil_r, take_drop. Qed.

#[export] Hint Resolve infix_refl infix_take infix_drop infix_trans : lhotse.
