(* ===== verification/Threads.v ===== *)
(** * Goroutines over a shared state

    A method that several goroutines call at once is modelled by its phases: the
    places between two accesses to the shared state, with the values the
    goroutine holds there.  A critical section under a lock, an operation on a
    channel or on a sync.Map is one step.  Here is the transition system of all
    interleavings, and the rule by which its invariants are shown: what a
    goroutine knows in its phase has to survive what the others may do. *)

From S2P Require Export Prelude.

Section Threads.
Context {S L : Type}.
(** what a goroutine may begin with, and what is handed to it then *)
Variable starts : S → L → S → Prop.
(** a step of one goroutine; without a next phase it has returned *)
Variable lstep : S → L → S → option L → Prop.

Local Notation threads := (gmap nat L).

Definition set_thread (i : nat) (l : option L) (ths : threads) : threads :=
  match l with Some l => <[i := l]> ths | None => delete i ths end.

Lemma set_thread_Some i l' ths j lj :
  set_thread i l' ths !! j = Some lj ↔ (j = i ∧ l' = Some lj) ∨ (j ≠ i ∧ ths !! j = Some lj).
Proof.
  destruct l' as [l1|]; cbn; [rewrite lookup_insert_Some|rewrite lookup_delete_Some]; naive_solver.
Qed.

Lemma set_thread_other i l' ths j : j ≠ i → set_thread i l' ths !! j = ths !! j.
Proof. intros Hj. destruct l'; cbn; [by rewrite lookup_insert_ne|by rewrite lookup_delete_ne]. Qed.

Inductive tstep : S * threads → S * threads → Prop :=
  | t_go s ths i l s' : ths !! i = None → starts s l s' → tstep (s, ths) (s', <[i := l]> ths)
  | t_run s ths i l s' l' : ths !! i = Some l → lstep s l s' l' → tstep (s, ths) (s', set_thread i l' ths).

(** every goroutine is in a phase that [A] allows *)
Definition all_threads (A : S → L → Prop) (s : S) (ths : threads) : Prop := ∀ i l, ths !! i = Some l → A s l.

Lemma all_threads_set A s ths i l' : all_threads A s ths → (∀ l, l' = Some l → A s l) → all_threads A s (set_thread i l' ths).
Proof. intros Ha Hl j l [[_ Hj]|[_ Hj]]%set_thread_Some; [by apply Hl|by eapply Ha]. Qed.

Lemma all_threads_weaken (A B : S → L → Prop) s s' ths :
  (∀ l, A s l → B s' l) → all_threads A s ths → all_threads B s' ths.
Proof. intros Hab Ha i l Hl. by eapply Hab, Ha. Qed.

(** [I] is kept by every step, what a goroutine knows ([A]) by its own steps and,
    as they only change the state within [R], by those of the others *)
Lemma rely_guarantee (I : S → Prop) (A : S → L → Prop) (R : S → S → Prop) :
  (∀ s l s', I s → starts s l s' → I s' ∧ R s s' ∧ A s' l) →
  (∀ s l s' l', I s → A s l → lstep s l s' l' → I s' ∧ R s s' ∧ ∀ l1, l' = Some l1 → A s' l1) →
  (∀ s s' l, R s s' → A s l → A s' l) →
  invariant tstep (λ st, I st.1 ∧ all_threads A st.1 st.2).
Proof.
  intros Hgo Hrun Hstable st st' [HI HA] Hst. destruct Hst as [s ths i l s' _ Hs|s ths i l s' l' Hi Hs]; cbn [fst snd] in *.
  - destruct (Hgo s l s' HI Hs) as (HI' & HR & Hl). split; [done|].
    apply (all_threads_set A s' ths i (Some l)); [|by intros ? [= <-]].
    eapply all_threads_weaken; [|done]. intros l2. by apply Hstable.
  - destruct (Hrun s l s' l' HI (HA i l Hi) Hs) as (HI' & HR & Hl'). split; [done|].
    apply all_threads_set; [|done]. eapply all_threads_weaken; [|done]. intros l2. by apply Hstable.
Qed.

(** the same from a state without goroutines *)
Lemma rely_guarantee_reachable (I : S → Prop) (A : S → L → Prop) (R : S → S → Prop) s0 s ths :
  (∀ s l s', I s → starts s l s' → I s' ∧ R s s' ∧ A s' l) →
  (∀ s l s' l', I s → A s l → lstep s l s' l' → I s' ∧ R s s' ∧ ∀ l1, l' = Some l1 → A s' l1) →
  (∀ s s' l, R s s' → A s l → A s' l) →
  I s0 → rtc tstep (s0, ∅) (s, ths) → I s ∧ all_threads A s ths.
Proof.
  intros Hgo Hrun Hst HI Hr.
  refine (invariant_reachable tstep _ (s0, ∅) (s, ths) (rely_guarantee I A R Hgo Hrun Hst) _ Hr).
  split; [exact HI|]. by intros i l.
Qed.

(** the run of one goroutine while the others wait *)
Inductive alone : S → L → S → option L → Prop :=
  | alone_one s l s' l' : lstep s l s' l' → alone s l s' l'
  | alone_more s l s1 l1 s' l' : lstep s l s1 (Some l1) → alone s1 l1 s' l' → alone s l s' l'.

Lemma alone_tsteps s ths i l s' l' : ths !! i = Some l → alone s l s' l' →
  rtc tstep (s, ths) (s', set_thread i l' ths).
Proof.
  intros Hi Ha. revert ths Hi. induction Ha as [s l s' l' Hs|s l s1 l1 s' l' Hs _ IH]; intros ths Hi.
  - apply rtc_once. by eapply t_run.
  - eapply rtc_l; [by eapply (t_run s ths i l s1 (Some l1))|]. cbn [set_thread].
    specialize (IH (<[i:=l1]> ths)). rewrite lookup_insert_eq in IH. specialize (IH eq_refl).
    destruct l' as [l'|]; cbn in *; [by rewrite insert_insert_eq in IH|by rewrite delete_insert_eq in IH].
Qed.
End Threads.
