(* ===== verification/GoStrings.v ===== *)
(** * Go strings

    A Go [string] is a sequence of bytes; it is modelled by Rocq's [string],
    whose characters are 8-bit.  This file holds the functions of the Go
    packages [strings], [strconv] and [unicode/utf8] the program calls, with
    the lemmas on them that the components share.

    [strings.ToLower] has an ASCII fast path, modelled as it is; its result on
    a string with a byte at or above 0x80 depends on the Unicode tables, which
    are generated data: it is a member of the class [GoUnicode]. *)

From S2P Require Export Prelude.
From Stdlib Require Import Ascii.

Local Open Scope string_scope.
Local Open Scope nat_scope.

#[global] Arguments String.append !_ _ / : simpl nomatch.

(** ** Bytes *)

Definition byte_val (c : ascii) : Z := Z.of_N (N_of_ascii c).
Definition byte_of (z : Z) : ascii := ascii_of_N (Z.to_N z).

Definition is_digit (c : ascii) : bool := (48 <=? byte_val c)%Z && (byte_val c <=? 57)%Z.
Definition is_upper (c : ascii) : bool := (65 <=? byte_val c)%Z && (byte_val c <=? 90)%Z.
Definition is_ascii (c : ascii) : bool := (byte_val c <? 128)%Z.
Definition is_ascii_space (c : ascii) : bool :=
  ((9 <=? byte_val c)%Z && (byte_val c <=? 13)%Z) || (byte_val c =? 32)%Z.

Definition CR : ascii := "013"%char.
Definition LF : ascii := "010"%char.
Definition HTAB : ascii := "009"%char.
Definition CRLF : string := String CR (String LF "").

Lemma byte_val_range c : (0 ≤ byte_val c < 256)%Z.
Proof.
  unfold byte_val. pose proof (N_ascii_bounded c). lia.
Qed.

Lemma byte_of_val c : byte_of (byte_val c) = c.
Proof. unfold byte_of, byte_val. by rewrite N2Z.id, ascii_N_embedding. Qed.

Lemma byte_val_of z : (0 ≤ z < 256)%Z → byte_val (byte_of z) = z.
Proof.
  intros. unfold byte_of, byte_val. rewrite N_ascii_embedding by lia. lia.
Qed.

(** ** Slicing and searching *)

Fixpoint str_take (n : nat) (s : string) : string :=
  match n, s with
  | S n', String c s' => String c (str_take n' s')
  | _, _ => ""
  end.

Fixpoint str_drop (n : nat) (s : string) : string :=
  match n, s with
  | S n', String _ s' => str_drop n' s'
  | _, _ => s
  end.

#[global] Arguments str_take !_ !_ / : simpl nomatch.
#[global] Arguments str_drop !_ !_ / : simpl nomatch.

(** [strings.IndexByte] *)
Fixpoint IndexByte (s : string) (c : ascii) : option nat :=
  match s with
  | "" => None
  | String d s' => if Ascii.eqb d c then Some 0 else S <$> IndexByte s' c
  end.

(** [strings.LastIndexByte] *)
Fixpoint LastIndexByte (s : string) (c : ascii) : option nat :=
  match s with
  | "" => None
  | String d s' =>
      match LastIndexByte s' c with
      | Some i => Some (S i)
      | None => if Ascii.eqb d c then Some 0 else None
      end
  end.

Definition ContainsByte (s : string) (c : ascii) : bool :=
  match IndexByte s c with Some _ => true | None => false end.

Fixpoint HasPrefix (s p : string) {struct p} : bool :=
  match p, s with
  | "", _ => true
  | String b p', String a s' => Ascii.eqb a b && HasPrefix s' p'
  | String _ _, "" => false
  end.

(** [len(s) >= len(suffix) && s[len(s)-len(suffix):] == suffix] *)
Definition HasSuffix (s t : string) : bool :=
  (String.length t <=? String.length s)%nat &&
  String.eqb (str_drop (String.length s - String.length t) s) t.

Definition TrimPrefix (s p : string) : string :=
  if HasPrefix s p then str_drop (String.length p) s else s.

Definition TrimSuffix (s t : string) : string :=
  if HasSuffix s t then str_take (String.length s - String.length t) s else s.

(** [strings.Contains] *)
Fixpoint Contains (s t : string) : bool :=
  HasPrefix s t ||
  match s with "" => false | String _ s' => Contains s' t end.

(** [strings.Split s sep] for a one-byte separator *)
Fixpoint Split (s : string) (c : ascii) : list string :=
  match s with
  | "" => [""]
  | String d s' =>
      if Ascii.eqb d c then "" :: Split s' c
      else match Split s' c with
           | p :: ps => String d p :: ps
           | [] => [String d ""]
           end
  end.

Fixpoint Join (l : list string) (sep : string) : string :=
  match l with
  | [] => ""
  | [x] => x
  | x :: l' => x +:+ sep +:+ Join l' sep
  end.

(** [strings.SplitN s ":" 2]: the part before and after the first [c] *)
Definition Cut (s : string) (c : ascii) : option (string * string) :=
  match IndexByte s c with
  | Some i => Some (str_take i s, str_drop (S i) s)
  | None => None
  end.

(** ** Trimming *)

Fixpoint TrimLeftFunc (p : ascii → bool) (s : string) : string :=
  match s with
  | String c s' => if p c then TrimLeftFunc p s' else s
  | "" => ""
  end.

Fixpoint TrimRightFunc (p : ascii → bool) (s : string) : string :=
  match s with
  | "" => ""
  | String c s' =>
      match TrimRightFunc p s' with
      | "" => if p c then "" else String c ""
      | r => String c r
      end
  end.

(** [strings.Trim s cutset] for an ASCII cutset *)
Definition Trim (s : string) (p : ascii → bool) : string :=
  TrimRightFunc p (TrimLeftFunc p s).

Fixpoint str_rev_app (s acc : string) : string :=
  match s with
  | "" => acc
  | String c s' => str_rev_app s' (String c acc)
  end.
Definition str_rev (s : string) : string := str_rev_app s "".

(** The UTF-8 encodings of the Unicode white space above ASCII: U+0085,
    U+00A0 (two bytes); U+1680, U+2000..U+200A, U+2028, U+2029, U+202F,
    U+205F, U+3000 (three bytes). *)
Definition is_space2 (a b : ascii) : bool :=
  (byte_val a =? 194)%Z && ((byte_val b =? 133)%Z || (byte_val b =? 160)%Z).

Definition is_space3 (a b c : ascii) : bool :=
  let a := byte_val a in let b := byte_val b in let c := byte_val c in
  ((a =? 225)%Z && (b =? 154)%Z && (c =? 128)%Z) ||
  ((a =? 226)%Z && (b =? 128)%Z &&
     (((128 <=? c)%Z && (c <=? 138)%Z) || (c =? 168)%Z || (c =? 169)%Z || (c =? 175)%Z)) ||
  ((a =? 226)%Z && (b =? 129)%Z && (c =? 159)%Z) ||
  ((a =? 227)%Z && (b =? 128)%Z && (c =? 128)%Z).

(** [strings.TrimLeftFunc s unicode.IsSpace] *)
Fixpoint trim_space_left (s : string) : string :=
  match s with
  | String a s1 =>
      if is_ascii_space a then trim_space_left s1 else
      match s1 with
      | String b s2 =>
          if is_space2 a b then trim_space_left s2 else
          match s2 with
          | String c s3 => if is_space3 a b c then trim_space_left s3 else s
          | "" => s
          end
      | "" => s
      end
  | "" => ""
  end.

(** the same from the other end: the argument is reversed *)
Fixpoint trim_space_rev (s : string) : string :=
  match s with
  | String a s1 =>
      if is_ascii_space a then trim_space_rev s1 else
      match s1 with
      | String b s2 =>
          if is_space2 b a then trim_space_rev s2 else
          match s2 with
          | String c s3 => if is_space3 c b a then trim_space_rev s3 else s
          | "" => s
          end
      | "" => s
      end
  | "" => ""
  end.

(** [strings.TrimSpace] *)
Definition TrimSpace (s : string) : string :=
  str_rev (trim_space_rev (str_rev (trim_space_left s))).

(** ** Case *)

Definition ascii_lower (c : ascii) : ascii :=
  if is_upper c then byte_of (byte_val c + 32) else c.

Fixpoint str_map (f : ascii → ascii) (s : string) : string :=
  match s with "" => "" | String c s' => String (f c) (str_map f s') end.

Fixpoint str_forall (p : ascii → bool) (s : string) : bool :=
  match s with "" => true | String c s' => p c && str_forall p s' end.

(** Case mapping of strings with a non-ASCII byte. *)
Class GoUnicode := unicode_to_lower : string → string.

Section ToLower.
Context {U : GoUnicode}.

(** [strings.ToLower] *)
Definition ToLower (s : string) : string :=
  if str_forall is_ascii s then str_map ascii_lower s else unicode_to_lower s.
End ToLower.

(** [strings.EqualFold s t] for an ASCII [t]: a rune of [s] folds to an ASCII
    letter when it is that letter in either case, U+017F (long s) or U+212A
    (Kelvin sign). *)
Fixpoint EqualFoldASCII (s t : string) : bool :=
  match s, t with
  | "", "" => true
  | String a s1, String b t' =>
      if is_ascii a then Ascii.eqb (ascii_lower a) (ascii_lower b) && EqualFoldASCII s1 t'
      else match s1 with
      | String a2 s2 =>
          if (byte_val a =? 197)%Z && (byte_val a2 =? 191)%Z
          then Ascii.eqb (ascii_lower b) "s" && EqualFoldASCII s2 t'
          else match s2 with
          | String a3 s3 =>
              if (byte_val a =? 226)%Z && (byte_val a2 =? 132)%Z && (byte_val a3 =? 170)%Z
              then Ascii.eqb (ascii_lower b) "k" && EqualFoldASCII s3 t'
              else false
          | "" => false
          end
      | "" => false
      end
  | _, _ => false
  end.

(** ** Runes: [for _, r := range s]; an invalid byte is U+FFFD *)

Definition cont_byte (c : ascii) : option Z :=
  let v := byte_val c in
  if (128 <=? v)%Z && (v <=? 191)%Z then Some (v - 128)%Z else None.

Definition rune_error : Z := 65533.

Definition decode2 (a b : ascii) : option Z :=
  b ← cont_byte b;
  let v := byte_val a in
  if (194 <=? v)%Z && (v <=? 223)%Z then Some ((v - 192) * 64 + b)%Z else None.

Definition decode3 (a b c : ascii) : option Z :=
  b ← cont_byte b; c ← cont_byte c;
  let v := byte_val a in
  let r := ((v - 224) * 4096 + b * 64 + c)%Z in
  if (224 <=? v)%Z && (v <=? 239)%Z && (2048 <=? r)%Z
     && negb ((55296 <=? r)%Z && (r <=? 57343)%Z)
  then Some r else None.

Definition decode4 (a b c d : ascii) : option Z :=
  b ← cont_byte b; c ← cont_byte c; d ← cont_byte d;
  let v := byte_val a in
  let r := ((v - 240) * 262144 + b * 4096 + c * 64 + d)%Z in
  if (240 <=? v)%Z && (v <=? 244)%Z && (65536 <=? r)%Z && (r <=? 1114111)%Z
  then Some r else None.

Fixpoint runes (s : string) : list Z :=
  match s with
  | "" => []
  | String a s1 =>
      if is_ascii a then byte_val a :: runes s1 else
      match s1 with
      | "" => [rune_error]
      | String b s2 =>
          match decode2 a b with
          | Some r => r :: runes s2
          | None =>
              match s2 with
              | "" => rune_error :: runes s1
              | String c s3 =>
                  match decode3 a b c with
                  | Some r => r :: runes s3
                  | None =>
                      match s3 with
                      | "" => rune_error :: runes s1
                      | String d s4 =>
                          match decode4 a b c d with
                          | Some r => r :: runes s4
                          | None => rune_error :: runes s1
                          end
                      end
                  end
              end
          end
      end
  end.

(** ** Numbers *)

Inductive num_error := ErrSyntax | ErrRange.

#[export] Instance num_error_eq_dec : EqDecision num_error.
Proof. solve_decision. Defined.

Definition digit_val (base : Z) (c : ascii) : option Z :=
  let v := byte_val c in
  let d := if is_digit c then Some (v - 48)%Z
           else if (97 <=? v)%Z && (v <=? 122)%Z then Some (v - 87)%Z
           else if is_upper c then Some (v - 55)%Z
           else None in
  d ≫= λ d, if (d <? base)%Z then Some d else None.

Fixpoint parse_digits (base : Z) (s : string) (acc : Z) : option Z :=
  match s with
  | "" => Some acc
  | String c s' =>
      match digit_val base c with
      | Some d => parse_digits base s' (acc * base + d)
      | None => None
      end
  end.

(** [strconv.ParseInt s base 64] for an explicit base: the value (clamped when
    out of range, 0 on a syntax error) and the error. *)
Definition ParseInt (s : string) (base : Z) : Z * option num_error :=
  let neg := HasPrefix s "-" in
  let body := if neg || HasPrefix s "+" then str_drop 1 s else s in
  if String.eqb body "" then (0%Z, Some ErrSyntax) else
  match parse_digits base body 0 with
  | None => (0%Z, Some ErrSyntax)
  | Some v =>
      let v := if neg then (- v)%Z else v in
      if (v <? min_int64)%Z then (min_int64, Some ErrRange)
      else if (max_int64 <? v)%Z then (max_int64, Some ErrRange)
      else (v, None)
  end.

(** [strconv.Atoi] on a 64-bit platform *)
Definition Atoi (s : string) : Z * option num_error := ParseInt s 10.

(** [strconv.Itoa], [fmt.Sprintf "%d"] *)
Definition Itoa (z : Z) : string := pretty z.

(** [strconv.ParseBool] *)
Definition ParseBool (s : string) : option bool :=
  if decide (s ∈ ["1"; "t"; "T"; "true"; "TRUE"; "True"]) then Some true
  else if decide (s ∈ ["0"; "f"; "F"; "false"; "FALSE"; "False"]) then Some false
  else None.

(** Byte-wise string order, as [<] on Go strings. *)
Definition str_lt (s t : string) : bool :=
  match String.compare s t with Lt => true | _ => false end.
Definition str_le (s t : string) : bool := negb (str_lt t s).

(** ** Laws *)

Lemma str_app_nil_r s : s +:+ "" = s.
Proof. induction s; simpl; congruence. Qed.

Lemma str_app_assoc a b c : (a +:+ b) +:+ c = a +:+ b +:+ c.
Proof. induction a; simpl; [done|congruence]. Qed.

Lemma str_length_app a b : String.length (a +:+ b) = String.length a + String.length b.
Proof. induction a; simpl; [done|congruence]. Qed.

Lemma str_take_drop n s : str_take n s +:+ str_drop n s = s.
Proof. revert s; induction n; intros [|c s]; simpl; congruence. Qed.

Lemma str_length_drop n s : String.length (str_drop n s) = String.length s - n.
Proof. revert s; induction n; intros [|c s]; simpl; auto. Qed.

Lemma str_length_take n s : String.length (str_take n s) = n `min` String.length s.
Proof. revert s; induction n; intros [|c s]; simpl; auto. Qed.

Lemma str_take_app s t : str_take (String.length s) (s +:+ t) = s.
Proof. induction s; simpl; [by destruct t|congruence]. Qed.

Lemma str_drop_app s t : str_drop (String.length s) (s +:+ t) = t.
Proof. induction s; simpl; [by destruct t|done]. Qed.

Lemma str_drop_S_app s c t : str_drop (S (String.length s)) (s +:+ String c t) = t.
Proof. induction s; simpl; [by destruct t|done]. Qed.

Lemma str_take_ge n s : String.length s ≤ n → str_take n s = s.
Proof.
  revert s; induction n; intros [|c s]; simpl; intros; try done; try lia.
  f_equal. apply IHn. lia.
Qed.

Lemma str_drop_ge n s : String.length s ≤ n → str_drop n s = "".
Proof.
  revert s; induction n; intros [|c s]; simpl; intros; try done; try lia.
  apply IHn. lia.
Qed.

Lemma str_app_inj_l s t u : s +:+ t = s +:+ u → t = u.
Proof. induction s; simpl; intros; simplify_eq; auto. Qed.

Lemma str_app_inj_r s t u : s +:+ u = t +:+ u → s = t.
Proof.
  revert t. induction s as [|c s IH]; intros [|d t] H; simpl in *; auto.
  - apply (f_equal String.length) in H. simpl in H. rewrite str_length_app in H. lia.
  - apply (f_equal String.length) in H. simpl in H. rewrite str_length_app in H. lia.
  - injection H as -> H. f_equal. auto.
Qed.

Lemma str_app_inj_len a b s t :
  a +:+ s = b +:+ t → String.length a = String.length b → a = b ∧ s = t.
Proof.
  revert b. induction a as [|c a IH]; intros [|d b]; simpl; intros H Hl; simplify_eq; [done|].
  destruct (IH b); [done..|]. by subst.
Qed.

Lemma IndexByte_None s c : IndexByte s c = None ↔ str_forall (λ d, negb (Ascii.eqb d c)) s = true.
Proof.
  induction s as [|d s IH]; simpl; [done|].
  destruct (Ascii.eqb d c); simpl; [split; discriminate|].
  rewrite <- IH. by destruct (IndexByte s c).
Qed.

Lemma IndexByte_Some s c i :
  IndexByte s c = Some i ↔ ∃ a b, s = a +:+ String c b ∧ String.length a = i ∧ IndexByte a c = None.
Proof.
  revert i; induction s as [|d s IH]; intros i; simpl.
  - split; [done|]. intros (a & b & H & _). by destruct a.
  - destruct (Ascii.eqb_spec d c) as [->|Hne].
    + split.
      * intros ?; simplify_eq. by exists "", s.
      * intros ([|x a] & b & H & <- & Ha); simpl in *; simplify_eq; [done|].
        by rewrite Ascii.eqb_refl in Ha.
    + split.
      * destruct (IndexByte s c) as [j|]; simpl; intros; simplify_eq.
        destruct (IH j) as [(a & b & -> & <- & Ha) _]; [done|].
        exists (String d a), b. simpl. rewrite Ha.
        apply Ascii.eqb_neq in Hne. by rewrite Hne.
      * intros ([|x a] & b & H & <- & Ha); simpl in *; simplify_eq.
        destruct (Ascii.eqb x c); [done|].
        destruct (IndexByte a c) eqn:E; [done|].
        by rewrite (proj2 (IH (String.length a))) by eauto.
Qed.

Lemma IndexByte_app_None a b c : IndexByte a c = None → IndexByte (a +:+ String c b) c = Some (String.length a).
Proof. intros. apply IndexByte_Some. eauto. Qed.

Lemma LastIndexByte_None s c : LastIndexByte s c = None ↔ IndexByte s c = None.
Proof.
  induction s as [|d s IH]; simpl; [done|].
  destruct (LastIndexByte s c), (IndexByte s c), (Ascii.eqb d c); simpl in *;
    naive_solver.
Qed.

Lemma LastIndexByte_app a b c :
  LastIndexByte b c = None → LastIndexByte (a +:+ String c b) c = Some (String.length a).
Proof.
  intros Hb. induction a as [|d a IH]; simpl.
  - by rewrite Hb, Ascii.eqb_refl.
  - by rewrite IH.
Qed.

Lemma HasPrefix_spec s p : HasPrefix s p = true ↔ ∃ t, s = p +:+ t.
Proof.
  revert s; induction p as [|b p IH]; intros s; simpl.
  - split; [|done]. by exists s.
  - destruct s as [|a s]; [split; [done|]; by intros [t ?]|].
    rewrite andb_true_iff, IH, Ascii.eqb_eq. split.
    + intros [-> [t ->]]. by exists t.
    + intros [t H]. simplify_eq/=. eauto.
Qed.

Lemma HasPrefix_app p t : HasPrefix (p +:+ t) p = true.
Proof. apply HasPrefix_spec. eauto. Qed.

Lemma HasSuffix_spec s t : HasSuffix s t = true ↔ ∃ u, s = u +:+ t.
Proof.
  unfold HasSuffix. rewrite andb_true_iff, String.eqb_eq, Nat.leb_le. split.
  - intros [Hl Ht]. exists (str_take (String.length s - String.length t) s).
    rewrite <- Ht at 2. by rewrite str_take_drop.
  - intros [u ->]. rewrite str_length_app. split; [lia|].
    replace (_ + _ - _) with (String.length u) by lia. apply str_drop_app.
Qed.

Lemma TrimPrefix_app p s : TrimPrefix (p +:+ s) p = s.
Proof. unfold TrimPrefix. by rewrite HasPrefix_app, str_drop_app. Qed.

Lemma TrimSuffix_app s t : TrimSuffix (s +:+ t) t = s.
Proof.
  unfold TrimSuffix. rewrite (proj2 (HasSuffix_spec _ _)) by eauto.
  rewrite str_length_app. replace (_ + _ - _) with (String.length s) by lia.
  apply str_take_app.
Qed.

Lemma str_forall_app p a b : str_forall p (a +:+ b) = str_forall p a && str_forall p b.
Proof. induction a; simpl; [done|]. by rewrite IHa, andb_assoc. Qed.

Lemma str_map_app f a b : str_map f (a +:+ b) = str_map f a +:+ str_map f b.
Proof. induction a; simpl; [done|congruence]. Qed.

Lemma Split_nonempty s c : Split s c ≠ [].
Proof. destruct s as [|d s]; simpl; [done|]. by destruct (Ascii.eqb d c), (Split s c). Qed.

Lemma Split_no_sep s c : IndexByte s c = None → Split s c = [s].
Proof.
  induction s as [|d s IH]; simpl; [done|].
  destruct (Ascii.eqb d c); [done|].
  destruct (IndexByte s c); simpl; [done|]. intros _. by rewrite IH.
Qed.

Lemma Split_app s c t : IndexByte s c = None → Split (s +:+ String c t) c = s :: Split t c.
Proof.
  induction s as [|d s IH]; simpl; [by rewrite Ascii.eqb_refl|].
  destruct (Ascii.eqb d c); [done|].
  destruct (IndexByte s c); simpl; [done|]. intros _. by rewrite IH.
Qed.

(** Splitting and joining with the same separator gives the parts back. *)
Lemma Split_Join l c :
  l ≠ [] → Forall (λ s, IndexByte s c = None) l → Split (Join l (String c "")) c = l.
Proof.
  intros Hne Hl. induction Hl as [|s l Hs Hl IH]; [done|].
  destruct l as [|s' l]; simpl; [by apply Split_no_sep|].
  rewrite Split_app by done. f_equal. by apply IH.
Qed.

Lemma Split_parts_no_sep s c : Forall (λ p, IndexByte p c = None) (Split s c).
Proof.
  induction s as [|d s IH]; simpl; [by repeat constructor|].
  destruct (Ascii.eqb d c) eqn:E; [by constructor|].
  destruct (Split s c) as [|p ps]; inversion IH; subst; constructor; simpl; try done.
  - by rewrite E.
  - rewrite E. match goal with H : IndexByte p c = None |- _ => by rewrite H end.
Qed.

Lemma Join_Split s c : Join (Split s c) (String c "") = s.
Proof.
  induction s as [|d s IH]; simpl; [done|].
  pose proof (Split_nonempty s c) as Hne.
  destruct (Ascii.eqb d c) eqn:E.
  - apply Ascii.eqb_eq in E as ->. destruct (Split s c) eqn:Es; [done|].
    simpl in *. by rewrite IH.
  - destruct (Split s c) as [|p [|q ps]] eqn:Es; [done| |]; simpl in *; by rewrite <- IH.
Qed.

(** *** Decimal numbers *)

Lemma digit_val_pretty x : (x < 10)%N → digit_val 10 (pretty_N_char x) = Some (Z.of_N x).
Proof.
  intros Hx. destruct x as [|p]; [done|]. do 4 (destruct p as [p|p|]; try lia; try done).
Qed.

Lemma parse_digits_pretty x s : (0 < x)%N →
  parse_digits 10 (pretty_N_go x s) 0 = parse_digits 10 s (Z.of_N x).
Proof.
  revert s. induction (N.lt_wf_0 x) as [x _ IH]. intros s Hx. rewrite pretty_N_go_step by done.
  assert (x = 10 * (x / 10) + x `mod` 10)%N as Hdm by (apply N.div_mod; lia).
  assert (x `mod` 10 < 10)%N as Hm by (apply N.mod_lt; lia).
  destruct (decide (x / 10 = 0)%N) as [H0|H0].
  - rewrite H0, pretty_N_go_0. cbn [parse_digits]. rewrite digit_val_pretty by done. f_equal. lia.
  - rewrite IH; [|apply N.div_lt; lia|lia]. cbn [parse_digits]. rewrite digit_val_pretty by done. f_equal. lia.
Qed.

Lemma pretty_go_digits x s : str_forall is_digit s = true → str_forall is_digit (pretty_N_go x s) = true.
Proof.
  revert s. induction (N.lt_wf_0 x) as [x _ IH]. intros s Hs.
  destruct (decide (0 < x)%N) as [Hx|Hx].
  - rewrite pretty_N_go_step by done. apply IH; [apply N.div_lt; lia|]. simpl. rewrite Hs, andb_true_r.
    assert (x `mod` 10 < 10)%N as Hm by (apply N.mod_lt; lia). revert Hm. generalize (x `mod` 10)%N.
    intros [|p] Hp; [done|]. do 4 (destruct p as [p|p|]; try lia; try done).
  - replace x with 0%N by lia. by rewrite pretty_N_go_0.
Qed.

Lemma pretty_go_length x s : String.length s <= String.length (pretty_N_go x s).
Proof.
  revert s. induction (N.lt_wf_0 x) as [x _ IH]. intros s. destruct (decide (0 < x)%N) as [Hx|Hx].
  - rewrite pretty_N_go_step by done. etrans; [|apply IH; apply N.div_lt; lia]. simpl. lia.
  - replace x with 0%N by lia. by rewrite pretty_N_go_0.
Qed.

Lemma Itoa_S n : Itoa (Z.of_nat (S n)) = pretty_N_go (N.pos (Pos.of_succ_nat n)) "".
Proof. reflexivity. Qed.

(** A natural number is printed with digits only, at least one. *)
Lemma Itoa_nat_digits n : str_forall is_digit (Itoa (Z.of_nat n)) = true ∧ Itoa (Z.of_nat n) ≠ "".
Proof.
  destruct n as [|n]; [done|]. rewrite Itoa_S. split; [by apply pretty_go_digits|].
  rewrite pretty_N_go_step by done. intros E.
  pose proof (pretty_go_length (N.pos (Pos.of_succ_nat n) / 10)
    (String (pretty_N_char (N.pos (Pos.of_succ_nat n) `mod` 10)) "")) as Hl. rewrite E in Hl. simpl in Hl. lia.
Qed.

Lemma parse_Itoa n : parse_digits 10 (Itoa (Z.of_nat n)) 0 = Some (Z.of_nat n).
Proof.
  destruct n as [|n]; [done|]. rewrite Itoa_S. by rewrite parse_digits_pretty.
Qed.

Lemma digits_no_sign s : str_forall is_digit s = true → HasPrefix s "-" = false ∧ HasPrefix s "+" = false.
Proof.
  destruct s as [|c s]; [done|]. simpl. intros [Hc _]%andb_prop.
  destruct c as [[] [] [] [] [] [] [] []]; try discriminate Hc; done.
Qed.

(** [strconv.Atoi] inverts [strconv.Itoa] on the naturals of an int. *)
Lemma Atoi_Itoa n : (Z.of_nat n ≤ max_int64)%Z → Atoi (Itoa (Z.of_nat n)) = (Z.of_nat n, None).
Proof.
  intros Hn. destruct (Itoa_nat_digits n) as [Hd Hne]. destruct (digits_no_sign _ Hd) as [H1 H2].
  unfold Atoi, ParseInt. rewrite H1, H2. cbn [orb]. apply String.eqb_neq in Hne as ->.
  rewrite parse_Itoa. unfold min_int64, max_int64 in *.
  replace (_ <? _)%Z with false by (symmetry; apply Z.ltb_ge; lia).
  by replace (_ <? _)%Z with false by (symmetry; apply Z.ltb_ge; lia).
Qed.

#[export] Hint Rewrite str_app_nil_r str_app_assoc str_length_app str_length_drop
  str_length_take str_take_app str_drop_app str_take_drop TrimPrefix_app TrimSuffix_app : gostr.
