(* ===== verification/GoNet.v ===== *)
(** * Go addresses

    The functions of the Go package [net] the program calls on host, port and
    IP strings: [SplitHostPort], [JoinHostPort], [ParseIP], [ParseCIDR] and the
    methods of [IP] and [IPNet].  A [net.IP] is the list of its bytes (4 or 16
    of them, or none for nil). *)

From S2P Require Export GoStrings.
From Stdlib Require Import Ascii.

Local Open Scope string_scope.
Local Open Scope nat_scope.

(** ** Host and port *)

(** [net.SplitHostPort]; the errors are not told apart by the program. *)
Definition SplitHostPort (hp : string) : option (string * string) :=
  match LastIndexByte hp ":" with
  | None => None
  | Some i =>
      if HasPrefix hp "[" then
        match IndexByte hp "]" with
        | None => None
        | Some e =>
            if (S e =? i) then
              if ContainsByte (str_drop 1 hp) "[" || ContainsByte (str_drop (S e) hp) "]"
              then None
              else Some (str_take (e - 1) (str_drop 1 hp), str_drop (S i) hp)
            else None
        end
      else
        let host := str_take i hp in
        if ContainsByte host ":" || ContainsByte hp "[" || ContainsByte hp "]"
        then None else Some (host, str_drop (S i) hp)
  end.

(** [net.JoinHostPort] *)
Definition JoinHostPort (host port : string) : string :=
  if ContainsByte host ":" || ContainsByte host "%"
  then "[" +:+ host +:+ "]:" +:+ port
  else host +:+ ":" +:+ port.

(** ** IP addresses *)

Abbreviation IP := (list Z).

Definition v4InV6Prefix : list Z := [0;0;0;0;0;0;0;0;0;0;255;255]%Z.

Definition To4 (ip : IP) : option IP :=
  if length ip =? 4 then Some ip
  else if (length ip =? 16) && bool_decide (take 12 ip = v4InV6Prefix) then Some (drop 12 ip)
  else None.

Definition IPv4 (a b c d : Z) : IP := (v4InV6Prefix ++ [a;b;c;d])%list.

(** one octet of a dotted quad: digits, no leading zero, at most 255 *)
Definition parse_octet (s : string) : option Z :=
  if String.eqb s "" then None
  else if HasPrefix s "0" && negb (String.eqb s "0") then None
  else if negb (str_forall is_digit s) then None
  else match parse_digits 10 s 0 with
       | Some v => if (v <=? 255)%Z then Some v else None
       | None => None
       end.

Definition parseIPv4 (s : string) : option (list Z) :=
  match Split s "." with
  | [a; b; c; d] =>
      a ← parse_octet a; b ← parse_octet b; c ← parse_octet c; d ← parse_octet d;
      Some [a; b; c; d]
  | _ => None
  end.

(** up to four hexadecimal digits: the value, how many, and the rest; [None]
    when a fifth digit follows *)
Fixpoint parse_hex_group (fuel : nat) (s : string) (acc : Z) (n : nat)
  : option (Z * nat * string) :=
  match s with
  | "" => Some (acc, n, "")
  | String c s' =>
      match digit_val 16 c with
      | None => Some (acc, n, s)
      | Some d =>
          match fuel with
          | O => None
          | S fuel' => parse_hex_group fuel' s' (acc * 16 + d)%Z (S n)
          end
      end
  end.

(** the loop of [netip.parseIPv6]: the remaining text, the bytes so far and
    the position of the ellipsis; [fuel] bounds the eight groups *)
Fixpoint ipv6_groups (fuel : nat) (s : string) (acc : list Z) (ell : option nat)
  : option (list Z * option nat) :=
  match fuel with
  | O => if String.eqb s "" then Some (acc, ell) else None
  | S fuel' =>
      match parse_hex_group 4 s 0 0 with
      | None => None
      | Some (_, O, _) => None
      | Some (v, _, rest) =>
          if HasPrefix rest "." then
            if (match ell with None => negb (length acc =? 12) | Some _ => false end)
               || (16 <? length acc + 4)
            then None
            else q ← parseIPv4 s; Some ((acc ++ q)%list, ell)
          else
            let acc := (acc ++ [v / 256; v mod 256]%Z)%list in
            match rest with
            | "" => Some (acc, ell)
            | String c rest =>
                if negb (Ascii.eqb c ":") || String.eqb rest "" then None
                else if HasPrefix rest ":" then
                  match ell with
                  | Some _ => None
                  | None =>
                      let rest := str_drop 1 rest in
                      if String.eqb rest "" then Some (acc, Some (length acc))
                      else ipv6_groups fuel' rest acc (Some (length acc))
                  end
                else ipv6_groups fuel' rest acc ell
            end
      end
  end.

(** [netip.parseIPv6] for a text without a zone *)
Definition parseIPv6 (s : string) : option (list Z) :=
  let lead := HasPrefix s "::" in
  let s := if lead then str_drop 2 s else s in
  if lead && String.eqb s "" then Some (replicate 16 0%Z) else
  match ipv6_groups 8 s [] (if lead then Some 0 else None) with
  | None => None
  | Some (acc, ell) =>
      match ell with
      | Some e =>
          if length acc <? 16
          then Some (take e acc ++ replicate (16 - length acc) 0%Z ++ drop e acc)%list
          else None
      | None => if length acc =? 16 then Some acc else None
      end
  end.

(** which of '.', ':' and '%' comes first decides the family *)
Fixpoint addr_kind (s : string) : option ascii :=
  match s with
  | "" => None
  | String c s' =>
      if Ascii.eqb c "." || Ascii.eqb c ":" || Ascii.eqb c "%" then Some c else addr_kind s'
  end.

(** [netip.ParseAddr] without zones: 4 or 16 bytes *)
Definition ParseAddr (s : string) : option (list Z) :=
  match addr_kind s with
  | Some c =>
      if Ascii.eqb c "." then parseIPv4 s
      else if Ascii.eqb c ":" then if ContainsByte s "%" then None else parseIPv6 s
      else None
  | None => None
  end.

Definition As16 (a : list Z) : IP :=
  if length a =? 4 then (v4InV6Prefix ++ a)%list else a.

(** [net.ParseIP]: the 16-byte form, or nil *)
Definition ParseIP (s : string) : option IP := As16 <$> ParseAddr s.

(** [IP.Equal] *)
Definition ip_equal (a b : IP) : bool :=
  bool_decide (a = b) ||
  ((length a =? 4) && (length b =? 16) && bool_decide ((v4InV6Prefix ++ a)%list = b)) ||
  ((length a =? 16) && (length b =? 4) && bool_decide (a = (v4InV6Prefix ++ b)%list)).

(** ** Networks *)

Record IPNet := { net_ip : IP; net_mask : list Z }.

#[export] Instance ipnet_eq_dec : EqDecision IPNet.
Proof. solve_decision. Defined.

(** [net.CIDRMask ones bits], byte by byte *)
Definition mask_byte (ones : Z) (i : nat) : Z :=
  let k := Z.max 0 (Z.min 8 (ones - 8 * Z.of_nat i)) in
  (256 - 2 ^ (8 - k))%Z.
Definition CIDRMask (ones : Z) (bytes : nat) : list Z :=
  mask_byte ones <$> seq 0 bytes.

(** [IP.Mask] *)
Definition ip_mask (ip : IP) (mask : list Z) : IP :=
  let ip := if (length mask =? 4) && (length ip =? 16) && bool_decide (take 12 ip = v4InV6Prefix)
            then drop 12 ip else ip in
  if length ip =? length mask then zip_with Z.land ip mask else [].

(** [net.ParseCIDR]: the address and the network *)
Definition ParseCIDR (s : string) : option (IP * IPNet) :=
  '(addr, bits) ← Cut s "/";
  a ← ParseAddr addr;
  n ← (if String.eqb bits "" || negb (str_forall is_digit bits) then None
       else parse_digits 10 bits 0);
  if (Z.of_nat (8 * length a) <? n)%Z then None else
  let m := CIDRMask n (length a) in
  Some (As16 a, {| net_ip := ip_mask (As16 a) m; net_mask := m |}).

(** [IPNet.Contains] *)
Definition net_contains (n : IPNet) (ip : IP) : bool :=
  let nn := match To4 (net_ip n) with Some x => x | None => net_ip n end in
  let m := if (length (net_mask n) =? 16) && (length nn =? 4)
           then drop 12 (net_mask n) else net_mask n in
  let ip := match To4 ip with Some x => x | None => ip end in
  ((length nn =? 4) || (length nn =? 16)) && (length m =? length nn) &&
  (length ip =? length nn) &&
  bool_decide (zip_with Z.land nn m = zip_with Z.land ip m).

(** [IP.IsLoopback] *)
Definition IsLoopback (ip : IP) : bool :=
  match To4 ip with
  | Some (a :: _) => (a =? 127)%Z
  | _ => bool_decide (ip = (replicate 15 0%Z ++ [1%Z])%list)
  end.

(** [IP.IsLinkLocalUnicast] and [IP.IsLinkLocalMulticast] *)
Definition IsLinkLocalUnicast (ip : IP) : bool :=
  match To4 ip with
  | Some (a :: b :: _) => (a =? 169)%Z && (b =? 254)%Z
  | Some _ => false
  | None => (length ip =? 16) && (nth 0 ip 0 =? 254)%Z && (Z.land (nth 1 ip 0) 192 =? 128)%Z
  end.

Definition IsLinkLocalMulticast (ip : IP) : bool :=
  match To4 ip with
  | Some (a :: b :: c :: _) => (a =? 224)%Z && (b =? 0)%Z && (c =? 0)%Z
  | Some _ => false
  | None => (length ip =? 16) && (nth 0 ip 0 =? 255)%Z && (Z.land (nth 1 ip 0) 15 =? 2)%Z
  end.

(** ** Printing *)

Definition dotted (l : list Z) : string := Join (Itoa <$> l) ".".

(** the 16-bit groups of an IPv6 address and their digits *)
Definition hex_digit (d : Z) : string :=
  String (byte_of (if (d <? 10)%Z then 48 + d else 87 + d)%Z) "".

Definition hex_group (x : Z) : string :=
  (if (4096 <=? x)%Z then hex_digit (x / 4096) else "") +:+
  (if (256 <=? x)%Z then hex_digit (x / 256 mod 16) else "") +:+
  (if (16 <=? x)%Z then hex_digit (x / 16 mod 16) else "") +:+ hex_digit (x mod 16).

Fixpoint groups_of (l : list Z) : list Z :=
  match l with a :: b :: r => (256 * a + b)%Z :: groups_of r | _ => [] end.

Fixpoint zero_run (gs : list Z) : nat :=
  match gs with 0%Z :: r => S (zero_run r) | _ => 0 end.

(** the first longest run of at least two zero groups *)
Fixpoint best_run (i : nat) (gs : list Z) (s e : nat) : nat * nat :=
  match gs with
  | [] => (s, e)
  | _ :: r =>
      let l := zero_run gs in
      if (2 <=? l) && (e - s <? l) then best_run (S i) r i (i + l) else best_run (S i) r s e
  end.

Definition ipv6_string (ip : IP) : string :=
  let gs := groups_of ip in
  let '(s, e) := best_run 0 gs 0 0 in
  if s =? e then Join (hex_group <$> gs) ":"
  else Join (hex_group <$> take s gs) ":" +:+ "::" +:+ Join (hex_group <$> drop e gs) ":".

(** [IP.String] on addresses of 4 or 16 bytes *)
Definition ip_string (ip : IP) : string :=
  match To4 ip with Some a => dotted a | None => ipv6_string ip end.

(** the number of leading ones of a mask *)
Definition mask_ones (m : list Z) : nat :=
  let ones (b : Z) := length (filter (λ i, Z.testbit b (Z.of_nat i) = true) (seq 0 8)) in
  foldr Nat.add 0 (ones <$> m).

(** [IPNet.String] of a network that [ParseCIDR] returned *)
Definition net_string (n : IPNet) : string :=
  let nn := match To4 (net_ip n) with Some x => x | None => net_ip n end in
  let m := if (length (net_mask n) =? 16) && (length nn =? 4) then drop 12 (net_mask n) else net_mask n in
  ip_string nn +:+ "/" +:+ Itoa (Z.of_nat (mask_ones m)).

(** ** Tests on concrete addresses *)

Example split_v4 : SplitHostPort "10.0.0.1:80" = Some ("10.0.0.1", "80").
Proof. reflexivity. Qed.
Example split_v6 : SplitHostPort "[2001:db8::1]:443" = Some ("2001:db8::1", "443").
Proof. reflexivity. Qed.
Example split_bad : SplitHostPort "2001:db8::1" = None ∧ SplitHostPort "example.com" = None.
Proof. split; reflexivity. Qed.
Example parse_v6 : ParseIP "2001:db8::1" = Some [32;1;13;184;0;0;0;0;0;0;0;0;0;0;0;1]%Z.
Proof. reflexivity. Qed.
Example parse_v6_v4 : ParseIP "::ffff:1.2.3.4" = ParseIP "1.2.3.4".
Proof. reflexivity. Qed.
Example parse_bad : ParseIP "1.2.3" = None ∧ ParseIP "01.2.3.4" = None ∧ ParseIP "1.2.3.256" = None.
Proof. repeat split; reflexivity. Qed.
Example cidr_contains :
  match ParseCIDR "198.51.100.0/24", ParseIP "198.51.100.25", ParseIP "198.51.101.25" with
  | Some (_, n), Some a, Some b => net_contains n a = true ∧ net_contains n b = false
  | _, _, _ => False
  end.
Proof. split; reflexivity. Qed.

Example cidr_string :
  (λ '(_, n), net_string n) <$> ParseCIDR "10.1.2.3/8" = Some "10.0.0.0/8" ∧
  (λ '(_, n), net_string n) <$> ParseCIDR "2001:db8:0:0:1::5/64" = Some "2001:db8::/64" ∧
  (λ '(_, n), net_string n) <$> ParseCIDR "::6/128" = Some "::6/128".
Proof. repeat split; reflexivity. Qed.

(** ** Laws *)

Lemma ContainsByte_false s c : ContainsByte s c = false ↔ IndexByte s c = None.
Proof. unfold ContainsByte. destruct (IndexByte s c); naive_solver. Qed.

(** Splitting what [JoinHostPort] joined gives the host and port back. *)
Lemma SplitHostPort_plain host port :
  IndexByte host ":" = None → IndexByte host "[" = None → IndexByte host "]" = None →
  IndexByte port ":" = None → IndexByte port "[" = None → IndexByte port "]" = None →
  SplitHostPort (host +:+ ":" +:+ port) = Some (host, port).
Proof.
  intros Hc Ho Hcl Hpc Hpo Hpcl. unfold SplitHostPort.
  change (":" +:+ port) with (String ":" port).
  rewrite LastIndexByte_app by (by apply LastIndexByte_None).
  assert (HasPrefix (host +:+ String ":" port) "[" = false) as ->.
  { destruct host as [|c host]; simpl; [done|].
    destruct (Ascii.eqb c "[") eqn:E; [|done]. simpl in Ho. by rewrite E in Ho. }
  assert (∀ c, IndexByte host c = None → IndexByte port c = None → c ≠ ":"%char →
    ContainsByte (host +:+ String ":" port) c = false) as Hno.
  { intros c H1 H2 Hne. apply ContainsByte_false, IndexByte_None.
    apply IndexByte_None in H1, H2. rewrite str_forall_app.
    cbn [str_forall]. rewrite H1, H2. apply not_eq_sym, Ascii.eqb_neq in Hne. by rewrite Hne. }
  rewrite str_take_app, !Hno by done.
  rewrite (proj2 (ContainsByte_false _ _)) by done. cbn [orb].
  by rewrite str_drop_S_app.
Qed.

Lemma SplitHostPort_no_colon s : IndexByte s ":" = None → SplitHostPort s = None.
Proof. intros H. unfold SplitHostPort. by rewrite (proj2 (LastIndexByte_None _ _)). Qed.

Lemma As16_length a : length a = 4 ∨ length a = 16 → length (As16 a) = 16.
Proof.
  unfold As16. intros [H|H]; rewrite H; simpl; [by rewrite H|done].
Qed.

Lemma net_contains_family n ip :
  net_contains n ip = true →
  length (default ip (To4 ip)) = length (default (net_ip n) (To4 (net_ip n))).
Proof.
  unfold net_contains, default. intros H. bools.
  by destruct (To4 ip), (To4 (net_ip n)).
Qed.
