(* ===== verification/GoIO.v ===== *)
(** * Go byte slices and buffered readers

    A [[]byte] is a list of 8-bit characters.  Slicing and indexing panic out
    of range, as in Go (the model checks against the length, which is the
    stricter bound: Go allows reslicing up to the capacity).

    A [bufio.Reader] over a connection is the list of the bytes the
    connection still delivers, the error it fails with afterwards and the size
    of the buffer. *)

From S2P Require Export GoStrings.
From Stdlib Require Import Ascii.

Local Open Scope nat_scope.

Abbreviation bytes := (list ascii).

Definition to_string (b : bytes) : string := String.string_of_list_ascii b.
Definition of_string (s : string) : bytes := String.list_ascii_of_string s.

Lemma of_to_string b : of_string (to_string b) = b.
Proof. apply String.list_ascii_of_string_of_list_ascii. Qed.
Lemma to_of_string s : to_string (of_string s) = s.
Proof. apply String.string_of_list_ascii_of_string. Qed.

(** ** Slices *)

Section Slices.
Context {E : Type}.

(** [b[i]] *)
Definition index (b : bytes) (i : nat) : result E ascii :=
  match b !! i with Some c => Ok c | None => Panic IndexOutOfRange end.

(** [b[i:j]] *)
Definition slice (b : bytes) (i j : nat) : result E bytes :=
  if (i <=? j) && (j <=? length b) then Ok (take (j - i) (drop i b))
  else Panic IndexOutOfRange.

(** [int(binary.BigEndian.Uint16(b))] *)
Definition Uint16 (b : bytes) : result E nat :=
  match b with
  | x :: y :: _ => Ok (Z.to_nat (byte_val x * 256 + byte_val y))
  | _ => Panic IndexOutOfRange
  end.
End Slices.

Lemma index_no_panic {E} b i : i < length b → no_panic (index (E:=E) b i).
Proof.
  intros H p. unfold index. destruct (lookup_lt_is_Some_2 b i H) as [c ->]. done.
Qed.

Lemma slice_ok {E} b i j : i ≤ j → j ≤ length b →
  slice (E:=E) b i j = Ok (take (j - i) (drop i b)).
Proof.
  intros. unfold slice. by rewrite (proj2 (Nat.leb_le _ _)), (proj2 (Nat.leb_le _ _)).
Qed.

Lemma slice_length {E} b i j s : slice (E:=E) b i j = Ok s → length s = j - i ∧ j ≤ length b ∧ i ≤ j.
Proof.
  unfold slice. intros H. destruct (_ && _) eqn:Hb; simplify_eq. bools.
  rewrite length_take, length_drop. lia.
Qed.

Lemma slice_infix {E} b i j s : slice (E:=E) b i j = Ok s → infix s b.
Proof.
  unfold slice. intros H. destruct (_ && _); simplify_eq.
  eapply infix_trans; [apply infix_take|apply infix_drop].
Qed.

Lemma Uint16_ok {E} b : 2 ≤ length b → ∃ n, Uint16 (E:=E) b = Ok n ∧ (Z.of_nat n < 65536)%Z.
Proof.
  destruct b as [|x [|y b]]; simpl; [lia..|]. intros _.
  eexists; split; [done|]. pose proof (byte_val_range x). pose proof (byte_val_range y). lia.
Qed.

(** ** Big-endian encodings *)

Definition u8 (n : nat) : bytes := [byte_of (Z.of_nat n)].
Definition u16 (n : nat) : bytes :=
  [byte_of (Z.of_nat n / 256); byte_of (Z.of_nat n mod 256)].
Definition u24 (n : nat) : bytes :=
  [byte_of (Z.of_nat n / 65536); byte_of (Z.of_nat n / 256 mod 256); byte_of (Z.of_nat n mod 256)].

Lemma Uint16_u16 {E} n b : (Z.of_nat n < 65536)%Z → Uint16 (E:=E) (u16 n ++ b) = Ok n.
Proof.
  intros. unfold Uint16, u16. simpl. f_equal.
  rewrite !byte_val_of.
  - rewrite Z.mul_comm, <- Z.div_mod by lia. lia.
  - apply Z.mod_pos_bound. lia.
  - split; [apply Z.div_pos; lia|apply Z.div_lt_upper_bound; lia].
Qed.

Lemma u24_val n : (Z.of_nat n < 16777216)%Z →
  match u24 n with
  | [a; b; c] => Z.to_nat (byte_val a * 65536 + byte_val b * 256 + byte_val c) = n
  | _ => False
  end.
Proof.
  intros. unfold u24. rewrite !byte_val_of.
  - pose proof (Z.div_mod (Z.of_nat n) 256). pose proof (Z.div_mod (Z.of_nat n / 256) 256).
    rewrite Z.div_div in * by lia. change (256 * 256)%Z with 65536%Z in *. lia.
  - apply Z.mod_pos_bound. lia.
  - apply Z.mod_pos_bound. lia.
  - split; [apply Z.div_pos; lia|apply Z.div_lt_upper_bound; lia].
Qed.

(** ** Buffered readers *)

Inductive read_error :=
  | EOF
  | ErrUnexpectedEOF
  | ErrBufferFull
  | ErrTimeout
  | ErrNet (msg : string).

#[export] Instance read_error_eq_dec : EqDecision read_error.
Proof. solve_decision. Defined.

Record reader := mk_reader {
  rd_data : bytes;        (* what the connection still delivers *)
  rd_fail : read_error;   (* and the error after that *)
  rd_size : nat           (* size of the buffer *)
}.

(** [bufio.Reader.Peek]: the bytes available, and the error *)
Definition Peek (r : reader) (n : nat) : bytes * option read_error :=
  if rd_size r <? n then (take (rd_size r) (rd_data r), Some ErrBufferFull)
  else if n <=? length (rd_data r) then (take n (rd_data r), None)
  else (rd_data r, Some (rd_fail r)).

(** [bufio.Reader.Discard], and reads of what was peeked *)
Definition consume (n : nat) (r : reader) : reader :=
  {| rd_data := drop n (rd_data r); rd_fail := rd_fail r; rd_size := rd_size r |}.

(** ** Reasoning about code over slices *)

Section Steps.
Context {E A : Type}.

Lemma no_panic_index_bind b i (f : ascii → result E A) :
  i < length b → (∀ c, b !! i = Some c → no_panic (f c)) → no_panic (index b i ≫= f).
Proof.
  intros Hi Hf. unfold index. destruct (lookup_lt_is_Some_2 b i Hi) as [c Hc].
  rewrite Hc. by apply Hf.
Qed.

Lemma no_panic_slice_bind b i j (f : bytes → result E A) :
  i ≤ j → j ≤ length b → (∀ s, length s = j - i → no_panic (f s)) →
  no_panic (slice b i j ≫= f).
Proof.
  intros Hi Hj Hf. rewrite slice_ok by done. simpl. apply Hf.
  rewrite length_take, length_drop. lia.
Qed.

Lemma no_panic_Uint16_bind b (f : nat → result E A) :
  2 ≤ length b → (∀ n, no_panic (f n)) → no_panic (Uint16 b ≫= f).
Proof. intros Hb Hf. destruct (Uint16_ok (E:=E) b Hb) as (n & -> & _). by apply Hf. Qed.

(** what a successful run guarantees of its value *)
Definition post (m : result E A) (P : A → Prop) : Prop := ∀ a, m = Ok a → P a.

Lemma post_ok a (P : A → Prop) : P a → post (Ok a) P.
Proof. by intros ? ? [= <-]. Qed.
Lemma post_err e (P : A → Prop) : post (Err e) P.
Proof. by intros ?. Qed.
Lemma post_panic p (P : A → Prop) : post (Panic p) P.
Proof. by intros ?. Qed.

Lemma post_index_bind b i (f : ascii → result E A) P :
  (∀ c, post (f c) P) → post (index b i ≫= f) P.
Proof. intros Hf. unfold index. destruct (b !! i); [apply Hf|apply post_panic]. Qed.

Lemma post_slice_bind b i j (f : bytes → result E A) P :
  (∀ s, infix s b → post (f s) P) → post (slice b i j ≫= f) P.
Proof.
  destruct (slice b i j) eqn:Hs; intros Hf; simpl; [|apply post_err|apply post_panic].
  eapply Hf, slice_infix, Hs.
Qed.

Lemma post_Uint16_bind b (f : nat → result E A) P :
  (∀ n, post (f n) P) → post (Uint16 b ≫= f) P.
Proof.
  destruct b as [|x [|y b]]; intros Hf; simpl; [apply post_panic..|apply Hf].
Qed.

Lemma post_mono m (P Q : A → Prop) : post m P → (∀ a, P a → Q a) → post m Q.
Proof. unfold post. eauto. Qed.

(** evaluating the reads of a slice whose parts are known *)
Lemma index_bind_app a c b i (f : ascii → result E A) :
  i = length a → index (a ++ c :: b) i ≫= f = f c.
Proof. intros ->. unfold index. by rewrite list_lookup_middle. Qed.

Lemma index_bind_u8 n b (f : ascii → result E A) :
  index (u8 n ++ b) 0 ≫= f = f (byte_of (Z.of_nat n)).
Proof. done. Qed.

Lemma slice_bind_app a m b i j (f : bytes → result E A) :
  i = length a → j = i + length m → slice (a ++ m ++ b) i j ≫= f = f m.
Proof.
  intros -> ->. rewrite slice_ok by (rewrite ?length_app; lia). simpl. f_equal.
  rewrite drop_app_length. replace (_ + _ - _) with (length m) by lia.
  by rewrite take_app_length.
Qed.

Lemma slice_bind_head m b j (f : bytes → result E A) :
  j = length m → slice (m ++ b) 0 j ≫= f = f m.
Proof. intros ->. exact (slice_bind_app [] m b 0 (length m) f eq_refl eq_refl). Qed.

Lemma slice_bind_tail a b i n (f : bytes → result E A) :
  i = length a → n = length (a ++ b) → slice (a ++ b) i n ≫= f = f b.
Proof.
  intros -> ->. rewrite <- (app_nil_r b) at 1.
  rewrite slice_bind_app; [done|done|by rewrite length_app].
Qed.

Lemma Uint16_bind_u16 n (f : nat → result E A) :
  (Z.of_nat n < 65536)%Z → Uint16 (u16 n) ≫= f = f n.
Proof. intros. rewrite <- (app_nil_r (u16 n)), Uint16_u16 by done. done. Qed.
End Steps.

(** one step of a [no_panic] proof *)
Ltac np_step :=
  match goal with
  | |- no_panic (Ok _) => apply no_panic_ok
  | |- no_panic (Err _) => apply no_panic_err
  | |- no_panic (if ?b then _ else _) => destruct b eqn:?; bools
  | |- no_panic (index _ _ ≫= _) => apply no_panic_index_bind; [lia|intros ? ?]
  | |- no_panic (slice _ _ _ ≫= _) => apply no_panic_slice_bind; [lia|lia|intros ? ?]
  | |- no_panic (Uint16 _ ≫= _) => apply no_panic_Uint16_bind; [lia|intros ?]
  end.

(** one step of a [post] proof *)
Ltac post_step :=
  match goal with
  | |- post (Ok _) _ => apply post_ok
  | |- post (Err _) _ => apply post_err
  | |- post (Panic _) _ => apply post_panic
  | |- post (if ?b then _ else _) _ => destruct b eqn:?
  | |- post (index _ _ ≫= _) _ => apply post_index_bind; intros ?
  | |- post (slice _ _ _ ≫= _) _ => apply post_slice_bind; intros ? ?
  | |- post (Uint16 _ ≫= _) _ => apply post_Uint16_bind; intros ?
  end.
