(* ===== verification/LogOptions.v ===== *)
(** * Logging options (pkg/log/options.go)

    The options of the logging package keep the level of every scope in one
    string, "scope:level,scope:level", which a command line can also set.  This
    file models the options, the getters and setters over these strings and the
    parser of one entry, and shows that the strings written by the program
    implement a finite map from scopes to levels. *)

From Stdlib Require Import Ascii.
From S2P Require Export GoStrings.

(** ** Levels *)

Notation Level := Z (only parsing).
Definition NoneLevel : Level := 0.
Definition FatalLevel : Level := 1.
Definition ErrorLevel : Level := 2.
Definition WarnLevel : Level := 3.
Definition InfoLevel : Level := 4.
Definition DebugLevel : Level := 5.

Definition DefaultScopeName : string := "default".
Definition OverrideScopeName : string := "all".
Definition defaultOutputLevel : Level := InfoLevel.
Definition defaultStackTraceLevel : Level := NoneLevel.
Definition defaultRotationMaxAge : Z := 30.
Definition defaultRotationMaxSize : Z := 100 * 1024 * 1024.
Definition defaultRotationMaxBackups : Z := 1000.

(** The maps of the program; a missing key reads as the zero value. *)
Definition levelToString (l : Level) : string :=
  if (l =? DebugLevel)%Z then "debug" else
  if (l =? InfoLevel)%Z then "info" else
  if (l =? WarnLevel)%Z then "warn" else
  if (l =? ErrorLevel)%Z then "error" else
  if (l =? FatalLevel)%Z then "fatal" else
  if (l =? NoneLevel)%Z then "none" else "".

Definition stringToLevel (s : string) : option Level :=
  if String.eqb s "debug" then Some DebugLevel else
  if String.eqb s "info" then Some InfoLevel else
  if String.eqb s "warn" then Some WarnLevel else
  if String.eqb s "error" then Some ErrorLevel else
  if String.eqb s "fatal" then Some FatalLevel else
  if String.eqb s "none" then Some NoneLevel else None.

(** ** The options

    The monitored resource is a pointer into a foreign library: a reference. *)

Record Options := mk_options {
  OutputPaths : list string;
  ErrorOutputPaths : list string;
  RotateOutputPath : string;
  RotationMaxSize : Z;
  RotationMaxAge : Z;
  RotationMaxBackups : Z;
  JSONEncoding : bool;
  LogGrpc : bool;
  outputLevels : string;
  logCallers : string;
  stackTraceLevels : string;
  useStackdriverFormat : bool;
  teeToStackdriver : bool;
  stackdriverTargetProject : string;
  stackdriverQuotaProject : string;
  stackdriverLogName : string;
  stackdriverResource : option nat;
  teeToUDSServer : bool;
  udsSocketAddress : string;
  udsServerPath : string
}.

Definition DefaultOptions : Options := {|
  OutputPaths := ["stdout"];
  ErrorOutputPaths := ["stderr"];
  RotateOutputPath := "";
  RotationMaxSize := defaultRotationMaxSize;
  RotationMaxAge := defaultRotationMaxAge;
  RotationMaxBackups := defaultRotationMaxBackups;
  JSONEncoding := false;
  LogGrpc := false;
  outputLevels := DefaultScopeName +:+ ":" +:+ levelToString defaultOutputLevel;
  logCallers := "";
  stackTraceLevels := DefaultScopeName +:+ ":" +:+ levelToString defaultStackTraceLevel;
  useStackdriverFormat := false;
  teeToStackdriver := false;
  stackdriverTargetProject := "";
  stackdriverQuotaProject := "";
  stackdriverLogName := "";
  stackdriverResource := None;
  teeToUDSServer := false;
  udsSocketAddress := "";
  udsServerPath := ""
|}.

(** [o] with other strings, gRPC flag, and tee settings *)
Definition set_levels (o : Options) (out callers stack : string) (grpc : bool) : Options :=
  mk_options (OutputPaths o) (ErrorOutputPaths o) (RotateOutputPath o) (RotationMaxSize o)
    (RotationMaxAge o) (RotationMaxBackups o) (JSONEncoding o) grpc out callers stack
    (useStackdriverFormat o) (teeToStackdriver o) (stackdriverTargetProject o)
    (stackdriverQuotaProject o) (stackdriverLogName o) (stackdriverResource o)
    (teeToUDSServer o) (udsSocketAddress o) (udsServerPath o).

Definition set_tees (o : Options) (format tee : bool) (target quota name : string)
    (mr : option nat) (uds : bool) (addr path : string) : Options :=
  mk_options (OutputPaths o) (ErrorOutputPaths o) (RotateOutputPath o) (RotationMaxSize o)
    (RotationMaxAge o) (RotationMaxBackups o) (JSONEncoding o) (LogGrpc o) (outputLevels o)
    (logCallers o) (stackTraceLevels o) format tee target quota name mr uds addr path.

Definition WithStackdriverLoggingFormat (o : Options) : Options :=
  set_tees o true (teeToStackdriver o) (stackdriverTargetProject o) (stackdriverQuotaProject o)
    (stackdriverLogName o) (stackdriverResource o) (teeToUDSServer o) (udsSocketAddress o) (udsServerPath o).

Definition WithTeeToStackdriverWithQuotaProject (o : Options) (project quotaProject logName : string)
    (mr : option nat) : Options :=
  set_tees o (useStackdriverFormat o) true project quotaProject logName mr
    (teeToUDSServer o) (udsSocketAddress o) (udsServerPath o).

Definition WithTeeToStackdriver (o : Options) (project logName : string) (mr : option nat) : Options :=
  set_tees o (useStackdriverFormat o) true project project logName mr
    (teeToUDSServer o) (udsSocketAddress o) (udsServerPath o).

Definition WithTeeToUDS (o : Options) (addr path : string) : Options :=
  set_tees o (useStackdriverFormat o) (teeToStackdriver o) (stackdriverTargetProject o)
    (stackdriverQuotaProject o) (stackdriverLogName o) (stackdriverResource o) true addr path.

(** ** Level strings

    [SetOutputLevel] and [SetStackTraceLevel] are the same text over two
    fields, and so are the getters: [set_level] and [get_level] are that text. *)

(** the loop that overwrites the first entry passing a test and returns *)
Fixpoint replace_first (p : string → bool) (sl : string) (levels : list string) : option (list string) :=
  match levels with
  | [] => None
  | ol :: rest => if p ol then Some (sl :: rest) else cons ol <$> replace_first p sl rest
  end.

Definition set_level (field scope : string) (level : Level) : string :=
  let sl := scope +:+ ":" +:+ levelToString level in
  let levels := Split field ","%char in
  match (if String.eqb scope DefaultScopeName
         then replace_first (λ ol, negb (ContainsByte ol ":"%char)) sl levels else None) with
  | Some levels => Join levels ","
  | None =>
      match replace_first (λ ol, HasPrefix ol (scope +:+ ":")) sl levels with
      | Some levels => Join levels ","
      | None => Join (levels ++ [sl]) ","
      end
  end.

Definition convertScopedLevel (sl : string) : result string (string * Level) :=
  match (match Split sl ":"%char with
         | [l] => Some (DefaultScopeName, l)
         | [s; l] => Some (s, l)
         | _ => None
         end) with
  | None => Err ("invalid output level format '" +:+ sl +:+ "'")
  | Some (s, l) =>
      match stringToLevel l with
      | None => Err ("invalid output level '" +:+ sl +:+ "'")
      | Some level => Ok (s, level)
      end
  end.

Fixpoint find_first (p : string → bool) (levels : list string) : option string :=
  match levels with
  | [] => None
  | ol :: rest => if p ol then Some ol else find_first p rest
  end.

Definition get_level (field scope : string) : result string Level :=
  let levels := Split field ","%char in
  match (if String.eqb scope DefaultScopeName
         then find_first (λ ol, negb (ContainsByte ol ":"%char)) levels else None) with
  | Some ol => snd <$> convertScopedLevel ol
  | None =>
      match find_first (λ ol, HasPrefix ol (scope +:+ ":")) levels with
      | Some ol => snd <$> convertScopedLevel ol
      | None => Err ("no level defined for scope '" +:+ scope +:+ "'")
      end
  end.

Definition SetOutputLevel (o : Options) (scope : string) (level : Level) : Options :=
  set_levels o (set_level (outputLevels o) scope level) (logCallers o) (stackTraceLevels o) (LogGrpc o).
Definition GetOutputLevel (o : Options) (scope : string) : result string Level :=
  get_level (outputLevels o) scope.
Definition SetStackTraceLevel (o : Options) (scope : string) (level : Level) : Options :=
  set_levels o (outputLevels o) (logCallers o) (set_level (stackTraceLevels o) scope level) (LogGrpc o).
Definition GetStackTraceLevel (o : Options) (scope : string) : result string Level :=
  get_level (stackTraceLevels o) scope.

(** ** Callers *)

Definition set_callers (field scope : string) (include : bool) : string :=
  let scopes := (λ s, if String.eqb s scope then "" else s) <$> Split field ","%char in
  if include then
    match replace_first (String.eqb "") scope scopes with
    | Some scopes => Join scopes ","
    | None => Join (scopes ++ [scope]) ","
    end
  else Join scopes ",".

Definition SetLogCallers (o : Options) (scope : string) (include : bool) : Options :=
  set_levels o (outputLevels o) (set_callers (logCallers o) scope include) (stackTraceLevels o) (LogGrpc o).
Definition GetLogCallers (o : Options) (scope : string) : bool :=
  existsb (String.eqb scope) (Split (logCallers o) ","%char).

Example set_example : outputLevels (SetOutputLevel (SetOutputLevel DefaultOptions "grpc" WarnLevel)
  "default" ErrorLevel) = "default:error,grpc:warn".
Proof. reflexivity. Qed.

(** ** The abstract map

    [render al] is the string of an association list.  As long as the names
    hold no separator, the setters and getters act on it as on a map. *)

Definition plain (s : string) : Prop := IndexByte s ","%char = None ∧ IndexByte s ":"%char = None.
Definition valid_level (l : Level) : Prop := (0 ≤ l ≤ 5)%Z.
Definition entry (e : string * Level) : string := e.1 +:+ ":" +:+ levelToString e.2.
Definition render (al : list (string * Level)) : string := Join (entry <$> al) ",".
Definition entry_ok (e : string * Level) : Prop := plain e.1 ∧ valid_level e.2.

Fixpoint assoc_set (al : list (string * Level)) (s : string) (l : Level) : list (string * Level) :=
  match al with
  | [] => [(s, l)]
  | e :: al => if String.eqb e.1 s then (s, l) :: al else e :: assoc_set al s l
  end.

Fixpoint assoc_get (al : list (string * Level)) (s : string) : option Level :=
  match al with
  | [] => None
  | e :: al => if String.eqb e.1 s then Some e.2 else assoc_get al s
  end.

Lemma valid_level_cases l : valid_level l → l ∈ [0; 1; 2; 3; 4; 5]%Z.
Proof. unfold valid_level. intros. rewrite !elem_of_cons. lia. Qed.

Lemma levelToString_plain l : valid_level l → plain (levelToString l).
Proof.
  intros Hl%valid_level_cases. rewrite !elem_of_cons in Hl.
  by destruct Hl as [->|[->|[->|[->|[->|[->|[]%elem_of_nil]]]]]].
Qed.

(** the two tables are inverse to each other *)
Lemma stringToLevel_of l : valid_level l → stringToLevel (levelToString l) = Some l.
Proof.
  intros Hl%valid_level_cases. rewrite !elem_of_cons in Hl.
  by destruct Hl as [->|[->|[->|[->|[->|[->|[]%elem_of_nil]]]]]].
Qed.

Lemma IndexByte_app_no a b c : IndexByte a c = None → IndexByte b c = None → IndexByte (a +:+ b) c = None.
Proof. rewrite !IndexByte_None, str_forall_app. by intros -> ->. Qed.

Lemma Split_colon s t : IndexByte s ":"%char = None → Split (s +:+ ":" +:+ t) ":"%char = s :: Split t ":"%char.
Proof. exact (Split_app s ":"%char t). Qed.

Lemma entry_no_comma e : entry_ok e → IndexByte (entry e) ","%char = None.
Proof.
  intros [[H1 _] [H2 _]%levelToString_plain]. unfold entry. apply IndexByte_app_no; [done|].
  by apply (IndexByte_app_no ":").
Qed.

Lemma Split_entry e : entry_ok e → Split (entry e) ":"%char = [e.1; levelToString e.2].
Proof.
  intros [[_ H1] [_ H2]%levelToString_plain]. unfold entry.
  rewrite Split_colon by done. by rewrite Split_no_sep.
Qed.

Lemma convert_entry e : entry_ok e → convertScopedLevel (entry e) = Ok e.
Proof.
  intros He. unfold convertScopedLevel. rewrite Split_entry by done.
  destruct He as [_ He]. rewrite stringToLevel_of by done. by destruct e.
Qed.

Lemma entry_has_colon e : entry_ok e → ContainsByte (entry e) ":"%char = true.
Proof.
  intros [[_ H] _]. unfold ContainsByte, entry.
  change (":" +:+ levelToString e.2) with (String ":" (levelToString e.2)). by rewrite IndexByte_app_None.
Qed.

(** an entry has the prefix "scope:" exactly when it is the entry of that scope *)
Lemma entry_prefix e s : plain e.1 → plain s → HasPrefix (entry e) (s +:+ ":") = String.eqb e.1 s.
Proof.
  intros [_ H1] [_ H2]. destruct (String.eqb_spec e.1 s) as [<-|Hne].
  - apply HasPrefix_spec. exists (levelToString e.2). unfold entry. by rewrite str_app_assoc.
  - destruct (HasPrefix (entry e) (s +:+ ":")) eqn:E; [|done].
    apply HasPrefix_spec in E as [t E]. unfold entry in E. rewrite str_app_assoc in E.
    apply (f_equal (λ x, Split x ":"%char)) in E.
    rewrite !Split_colon in E by done. by simplify_eq.
Qed.

Section Map.
Variable al : list (string * Level).
Hypothesis Hok : Forall entry_ok al.

Lemma Split_render : al ≠ [] → Split (render al) ","%char = entry <$> al.
Proof.
  intros Hne. unfold render. apply Split_Join; [by destruct al|].
  apply Forall_fmap. eapply Forall_impl; [done|]. intros e. apply entry_no_comma.
Qed.

Lemma no_bare_find : find_first (λ ol, negb (ContainsByte ol ":"%char)) (entry <$> al) = None.
Proof. induction Hok as [|e l He Hl IH]; [done|].
  rewrite fmap_cons. cbn [find_first]. rewrite entry_has_colon by done. by apply IH. Qed.

Lemma no_bare_replace sl : replace_first (λ ol, negb (ContainsByte ol ":"%char)) sl (entry <$> al) = None.
Proof.
  induction Hok as [|e l He Hl IH]; [done|].
  rewrite fmap_cons. cbn [replace_first]. rewrite entry_has_colon by done. cbn [negb]. by rewrite IH.
Qed.

Lemma find_entry s : plain s →
  find_first (λ ol, HasPrefix ol (s +:+ ":")) (entry <$> al) =
  (λ l, entry (s, l)) <$> assoc_get al s.
Proof.
  intros Hs. induction Hok as [|e l He Hl IH]; [done|].
  rewrite fmap_cons. cbn [find_first assoc_get].
  rewrite entry_prefix by (done || apply He). destruct (String.eqb_spec e.1 s) as [<-|]; [|by apply IH].
  by destruct e.
Qed.

Lemma replace_entry s l : plain s →
  match replace_first (λ ol, HasPrefix ol (s +:+ ":")) (entry (s, l)) (entry <$> al) with
  | Some levels => levels
  | None => (entry <$> al) ++ [entry (s, l)]
  end = entry <$> assoc_set al s l.
Proof.
  intros Hs. induction Hok as [|e r He Hr IH]; [done|].
  rewrite fmap_cons. cbn [replace_first assoc_set].
  rewrite entry_prefix by (done || apply He). destruct (String.eqb e.1 s); [done|].
  specialize (IH Hr). rewrite fmap_cons, <- IH. by destruct (replace_first _ _ (entry <$> r)).
Qed.

(** the setter rewrites the string as the map is updated *)
Lemma set_level_render s l : al ≠ [] → plain s → set_level (render al) s l = render (assoc_set al s l).
Proof.
  intros Hne Hs. unfold set_level. rewrite Split_render, no_bare_replace by done.
  replace (if String.eqb s DefaultScopeName then None else None) with (@None (list string)) by (by case_match).
  pose proof (replace_entry s l Hs) as Hr. unfold entry at 1 3 in Hr. cbn [fst snd] in Hr.
  unfold render. rewrite <- Hr. by destruct (replace_first _ _ _).
Qed.

Lemma assoc_get_ok s l : plain s → assoc_get al s = Some l → entry_ok (s, l).
Proof.
  intros Hs. induction Hok as [|e r He Hr IH]; [done|]. simpl. case_match; bools; [|by apply IH].
  subst. intros [= <-]. by destruct e.
Qed.

(** the getter reads the map *)
Lemma get_level_render s : al ≠ [] → plain s →
  get_level (render al) s =
  match assoc_get al s with
  | Some l => Ok l
  | None => Err ("no level defined for scope '" +:+ s +:+ "'")
  end.
Proof.
  intros Hne Hs. unfold get_level. rewrite Split_render, no_bare_find by done.
  replace (if String.eqb s DefaultScopeName then None else None) with (@None string) by (by case_match).
  rewrite find_entry by done. destruct (assoc_get al s) as [l|] eqn:E; simpl; [|done].
  rewrite convert_entry; [done|]. by apply assoc_get_ok.
Qed.
End Map.

Lemma assoc_set_ok al s l : Forall entry_ok al → entry_ok (s, l) → Forall entry_ok (assoc_set al s l).
Proof.
  intros Hal He. induction Hal as [|e r He' Hr IH]; simpl; [by constructor|].
  case_match; by constructor.
Qed.

Lemma assoc_set_nonempty al s l : assoc_set al s l ≠ [].
Proof. destruct al; simpl; [done|]. by case_match. Qed.

Lemma assoc_set_keys al s l : (assoc_set al s l).*1 = if decide (s ∈ al.*1) then al.*1 else al.*1 ++ [s].
Proof.
  induction al as [|e r IH]; simpl; [done|]. destruct (String.eqb_spec e.1 s) as [<-|Hne].
  - by rewrite decide_True by set_solver.
  - rewrite fmap_cons, IH. repeat case_decide; set_solver.
Qed.

Lemma assoc_set_NoDup al s l : NoDup al.*1 → NoDup (assoc_set al s l).*1.
Proof.
  intros Hnd. rewrite assoc_set_keys. case_decide as Hin; [done|].
  apply NoDup_app. split; [done|]. split; [set_solver|]. apply NoDup_singleton.
Qed.

Lemma assoc_get_elem al s l : NoDup al.*1 → (s, l) ∈ al ↔ assoc_get al s = Some l.
Proof.
  induction al as [|[t k] r IH]; simpl; [by rewrite elem_of_nil|].
  rewrite NoDup_cons, elem_of_cons. intros [Hni Hnd]. specialize (IH Hnd).
  destruct (String.eqb_spec t s) as [->|Hne]; simpl.
  - split; [intros [[= ->]|Hin]; [done|]|intros [= ->]; by left].
    destruct Hni. apply list_elem_of_fmap. by exists (s, l).
  - rewrite <- IH. split; [intros [[= -> ->]|]; done|by right].
Qed.

Lemma assoc_get_set al s l t : assoc_get (assoc_set al s l) t = if String.eqb s t then Some l else assoc_get al t.
Proof.
  induction al as [|e r IH]; simpl; [done|].
  destruct (String.eqb_spec e.1 s) as [<-|]; simpl; [by case_match|].
  rewrite IH. destruct (String.eqb_spec e.1 t), (String.eqb_spec s t); congruence.
Qed.

(** ** The caller list is a set *)

Definition caller_ok (s : string) : Prop := s ≠ "" ∧ IndexByte s ","%char = None.

Lemma existsb_eqb_elem s (l : list string) : existsb (String.eqb s) l = true ↔ s ∈ l.
Proof.
  rewrite existsb_exists. setoid_rewrite String.eqb_eq. split; [intros (? & H & ->)|intros H; exists s; split; [|done]];
    by apply list_elem_of_In.
Qed.

Lemma replace_first_elem s t l l' : s ≠ "" → t ≠ "" →
  replace_first (String.eqb "") s l = Some l' → t ∈ l' ↔ t = s ∨ t ∈ l.
Proof.
  intros Hs Ht. revert l'. induction l as [|x l IH]; intros l'; [done|]. cbn [replace_first].
  destruct (String.eqb_spec "" x) as [<-|Hx]; [intros [= <-]; set_solver|].
  destruct (replace_first _ s l) as [r|]; [|done]. intros [= <-]. specialize (IH r eq_refl). set_solver.
Qed.

Lemma replace_first_Forall (P : string → Prop) p s l l' : P s → Forall P l →
  replace_first p s l = Some l' → Forall P l' ∧ l' ≠ [].
Proof.
  intros Hs Hl. revert l'. induction Hl as [|x l Hx Hl IH]; intros l'; [done|]. cbn [replace_first].
  case_match; [intros [= <-]; split; [by constructor|done]|].
  destruct (replace_first p s l) as [r|]; [|done]. intros [= <-].
  destruct (IH r eq_refl). split; [by constructor|done].
Qed.

Lemma blanked_elem scope t (l : list string) : t ≠ "" →
  t ∈ (λ s, if String.eqb s scope then "" else s) <$> l ↔ t ≠ scope ∧ t ∈ l.
Proof.
  intros Ht. rewrite list_elem_of_fmap. split.
  - intros (y & -> & Hy). by destruct (String.eqb_spec y scope).
  - intros [Hne Hin]. exists t. by destruct (String.eqb_spec t scope).
Qed.

Lemma set_callers_spec field scope include t : caller_ok scope → t ≠ "" →
  t ∈ Split (set_callers field scope include) ","%char ↔
  if include then t = scope ∨ t ∈ Split field ","%char else t ≠ scope ∧ t ∈ Split field ","%char.
Proof.
  intros [Hs Hc] Ht. unfold set_callers.
  set (scopes := _ <$> Split field _).
  assert (Forall (λ p, IndexByte p ","%char = None) scopes) as Hf.
  { apply Forall_fmap. eapply Forall_impl; [apply Split_parts_no_sep|]. intros x Hx. simpl. by case_match. }
  assert (scopes ≠ []) as Hne.
  { intros E. apply fmap_nil_inv in E. by apply Split_nonempty in E. }
  pose proof (blanked_elem scope t (Split field ","%char) Ht) as Hb. fold scopes in Hb.
  destruct include; [|by rewrite Split_Join].
  destruct (replace_first _ scope scopes) as [r|] eqn:E.
  - destruct (replace_first_Forall _ _ _ _ _ Hc Hf E). rewrite Split_Join by done.
    rewrite (replace_first_elem _ _ _ _ Hs Ht E), Hb. destruct (decide (t = scope)); tauto.
  - rewrite Split_Join; [|by destruct scopes|apply Forall_app; by repeat constructor].
    rewrite elem_of_app, Hb, list_elem_of_singleton. destruct (decide (t = scope)); tauto.
Qed.

(** ** The options as abstract state

    A client sees three things: the level of a scope, the stack level of a
    scope, and whether its callers are logged. *)

Inductive option_op :=
  | OpOutput (scope : string) (l : Level)
  | OpStack (scope : string) (l : Level)
  | OpCallers (scope : string) (include : bool).

Definition run_op (o : Options) (op : option_op) : Options :=
  match op with
  | OpOutput s l => SetOutputLevel o s l
  | OpStack s l => SetStackTraceLevel o s l
  | OpCallers s b => SetLogCallers o s b
  end.

Record spec_options := mk_spec {
  spec_output : gmap string Level;
  spec_stack : gmap string Level;
  spec_callers : gset string
}.

Definition spec_default : spec_options :=
  mk_spec {[DefaultScopeName := InfoLevel]} {[DefaultScopeName := NoneLevel]} ∅.

Definition spec_op (a : spec_options) (op : option_op) : spec_options :=
  match op with
  | OpOutput s l => mk_spec (<[s := l]> (spec_output a)) (spec_stack a) (spec_callers a)
  | OpStack s l => mk_spec (spec_output a) (<[s := l]> (spec_stack a)) (spec_callers a)
  | OpCallers s true => mk_spec (spec_output a) (spec_stack a) ({[s]} ∪ spec_callers a)
  | OpCallers s false => mk_spec (spec_output a) (spec_stack a) (spec_callers a ∖ {[s]})
  end.

Definition op_ok (op : option_op) : Prop :=
  match op with
  | OpOutput s l | OpStack s l => plain s ∧ valid_level l
  | OpCallers s _ => caller_ok s
  end.

Definition levels_refine (field : string) (m : gmap string Level) : Prop :=
  ∃ al, al ≠ [] ∧ Forall entry_ok al ∧ NoDup al.*1 ∧ field = render al ∧ ∀ s, assoc_get al s = m !! s.

Definition refines (o : Options) (a : spec_options) : Prop :=
  levels_refine (outputLevels o) (spec_output a) ∧ levels_refine (stackTraceLevels o) (spec_stack a) ∧
  ∀ s, s ≠ "" → s ∈ Split (logCallers o) ","%char ↔ s ∈ spec_callers a.

Lemma levels_refine_set field m s l : plain s → valid_level l →
  levels_refine field m → levels_refine (set_level field s l) (<[s := l]> m).
Proof.
  intros Hs Hl (al & Hne & Hok & Hnd & -> & Hm). exists (assoc_set al s l).
  split; [apply assoc_set_nonempty|]. split; [by apply assoc_set_ok|]. split; [by apply assoc_set_NoDup|].
  split; [by apply set_level_render|]. intros t. rewrite assoc_get_set, Hm.
  destruct (String.eqb_spec s t) as [->|]; [by rewrite lookup_insert_eq|by rewrite lookup_insert_ne].
Qed.

Lemma levels_refine_get field m s : plain s → levels_refine field m →
  get_level field s = match m !! s with
                      | Some l => Ok l
                      | None => Err ("no level defined for scope '" +:+ s +:+ "'")
                      end.
Proof. intros Hs (al & Hne & Hok & _ & -> & Hm). by rewrite get_level_render, Hm. Qed.

Lemma levels_refine_single l : valid_level l →
  levels_refine (DefaultScopeName +:+ ":" +:+ levelToString l) {[DefaultScopeName := l]}.
Proof.
  intros Hl. exists [(DefaultScopeName, l)]. split; [done|].
  split; [by apply Forall_singleton|]. split; [apply NoDup_singleton|]. split; [done|].
  intros s. cbn [assoc_get fst snd]. destruct (String.eqb_spec DefaultScopeName s) as [<-|].
  - by rewrite lookup_singleton_eq.
  - by rewrite lookup_singleton_ne.
Qed.

Lemma refines_default : refines DefaultOptions spec_default.
Proof.
  split; [by apply levels_refine_single|]. split; [by apply levels_refine_single|].
  intros s Hs. cbn. set_solver.
Qed.

Lemma refines_step o a op : op_ok op → refines o a → refines (run_op o op) (spec_op a op).
Proof.
  intros Hop (H1 & H2 & H3). destruct op as [s l|s l|s b]; cbn [op_ok] in Hop.
  - destruct Hop. split; [by apply levels_refine_set|]. done.
  - destruct Hop. split; [done|]. split; [by apply levels_refine_set|done].
  - destruct b; (split; [done|]; split; [done|]); intros t Ht;
      cbn [run_op spec_op SetLogCallers set_levels logCallers spec_callers];
      rewrite set_callers_spec by done; rewrite H3 by done; set_solver.
Qed.

Lemma refines_run ops o a : Forall op_ok ops → refines o a → refines (foldl run_op o ops) (foldl spec_op a ops).
Proof.
  intros Hops. revert o a. induction Hops as [|op ops Hop _ IH]; intros o a Ha; [done|].
  apply IH. by apply refines_step.
Qed.

(** C25: starting from the defaults, whatever levels and callers are set, in
    whatever order, the option strings behave as two finite maps and a set: a
    getter returns what was set last for that very scope, setting one scope
    changes no other, and an unset scope is reported as such.  (Scope names
    hold no comma and no colon, which registration enforces.) *)
Theorem options_refine_maps ops s : Forall op_ok ops → plain s →
  let o := foldl run_op DefaultOptions ops in
  let a := foldl spec_op spec_default ops in
  GetOutputLevel o s = match spec_output a !! s with
                       | Some l => Ok l
                       | None => Err ("no level defined for scope '" +:+ s +:+ "'")
                       end ∧
  GetStackTraceLevel o s = match spec_stack a !! s with
                           | Some l => Ok l
                           | None => Err ("no level defined for scope '" +:+ s +:+ "'")
                           end ∧
  (s ≠ "" → GetLogCallers o s = bool_decide (s ∈ spec_callers a)).
Proof.
  intros Hops Hs o a.
  destruct (refines_run ops _ _ Hops refines_default) as (H1 & H2 & H3). fold o a in H1, H2, H3.
  split; [by apply levels_refine_get|]. split; [by apply levels_refine_get|].
  intros Hne. apply eq_bool_prop_intro. rewrite bool_decide_spec, <- H3 by done.
  rewrite <- existsb_eqb_elem. unfold GetLogCallers. by destruct (existsb _ _).
Qed.

Lemma options_refine_maps_witness :
  let o := foldl run_op DefaultOptions [OpOutput "grpc" DebugLevel; OpCallers "grpc" true; OpOutput "grpc" WarnLevel] in
  GetOutputLevel o "grpc" = Ok WarnLevel ∧ GetStackTraceLevel o "grpc" = Err "no level defined for scope 'grpc'" ∧
  ("grpc" ≠ "" → GetLogCallers o "grpc" = true).
Proof.
  apply (options_refine_maps [OpOutput "grpc" DebugLevel; OpCallers "grpc" true; OpOutput "grpc" WarnLevel] "grpc");
    [|by split].
  repeat constructor; unfold DebugLevel, WarnLevel; (lia || done).
Defined.

(** A string from the command line is not covered: with a bare level in front
    of a "default:" entry, setting the level of the default scope is not what
    the getter returns. *)
Lemma set_default_not_effective :
  let o := set_levels DefaultOptions "default:error,info" "" "" false in
  GetOutputLevel (SetOutputLevel o DefaultScopeName WarnLevel) DefaultScopeName = Ok ErrorLevel.
Proof. reflexivity. Qed.
