(* ===== verification/LogScope.v ===== *)
(** * Logging scopes (pkg/log/scope.go, default.go, zapcore_handler.go, config.go, logr.go)

    Scopes are objects behind pointers: the registry maps names to pointers,
    configuring the package changes levels through them, and [WithLabels] makes
    copies whose list of label keys may share its backing array with the
    original.  The model keeps the pointers and the arrays.

    Values of type [interface{}] are the class [GoValue]; writing an entry
    (zap) is the environment, so logging a message produces the entries that
    are written. *)

From Stdlib Require Import Ascii.
From S2P Require Export LogOptions.

(** [*structured.Error] of istio.io/pkg: the fields the handler reads *)
Record structured_error := mk_serror {
  MoreInfo : string; Impact : string; Action : string; LikelyCause : string;
  serr_Err : option string
}.

(** What the program does with arbitrary values: type assertions and fmt. *)
Class GoValue (V : Type) := {
  as_string : V → option string;
  as_error : V → option structured_error;
  of_string : string → V;
  fmt_v : option V → string;
  fmt_T : V → string;
  Sprint : list V → string;
  Sprintf : string → list V → string
}.

Inductive ZapLevel := ZDebug | ZInfo | ZWarn | ZError | ZFatal.

Definition toLevel (l : ZapLevel) : Level :=
  match l with
  | ZFatal => FatalLevel | ZError => ErrorLevel | ZWarn => WarnLevel
  | ZInfo => InfoLevel | ZDebug => DebugLevel
  end.

(** a missing key of the map reads as the zero of zap's levels, Info *)
Definition toZapLevel (l : Level) : ZapLevel :=
  if (l =? FatalLevel)%Z then ZFatal else if (l =? ErrorLevel)%Z then ZError else
  if (l =? WarnLevel)%Z then ZWarn else if (l =? InfoLevel)%Z then ZInfo else
  if (l =? DebugLevel)%Z then ZDebug else ZInfo.

(** ** Slices of strings: an array and a length, from its start *)

Record slice := mk_slice { s_array : option nat; s_len : nat }.
Definition nil_slice : slice := mk_slice None 0.

Definition contents (arrays : gmap nat (list string)) (s : slice) : list string :=
  match s_array s with
  | Some a => take (s_len s) (default [] (arrays !! a))
  | None => []
  end.

Definition capacity (arrays : gmap nat (list string)) (s : slice) : nat :=
  match s_array s with Some a => length (default [] (arrays !! a)) | None => 0 end.

(** an address that is not in use *)
Definition new_ptr {A} (m : gmap nat A) : nat := fresh (dom m : gset nat).

Lemma new_ptr_None {A} (m : gmap nat A) : m !! new_ptr m = None.
Proof. apply (not_elem_of_dom (D:=gset nat)), is_fresh. Qed.

Section Scopes.
Context {V : Type} `{GoValue V}.
(** the capacity the runtime gives a new array: [grow old needed] *)
Context (grow : nat → nat → nat).

(** Go's [append]: in place while there is capacity, else in a new array *)
Definition append (arrays : gmap nat (list string)) (s : slice) (x : string) :
    gmap nat (list string) * slice :=
  match s_array s with
  | Some a =>
      if s_len s <? capacity arrays s
      then (alter (λ l, <[s_len s := x]> l) a arrays, mk_slice (Some a) (S (s_len s)))
      else
        let a' := new_ptr arrays in
        let cap := grow (capacity arrays s) (S (s_len s)) in
        (<[a' := contents arrays s ++ [x] ++ replicate (cap - S (s_len s)) ""]> arrays,
         mk_slice (Some a') (S (s_len s)))
  | None =>
      let a' := new_ptr arrays in
      (<[a' := [x] ++ replicate (grow 0 1 - 1) ""]> arrays, mk_slice (Some a') 1)
  end.

(** ** Scopes and the registry *)

Record Scope := mk_scope {
  name : string;
  nameToEmit : string;
  description : string;
  callerSkip : Z;
  sc_outputLevel : Level;
  sc_stackTraceLevel : Level;
  sc_logCallers : bool;
  labelKeys : slice;
  labels : gmap string V
}.

Record logging := mk_logging {
  scopes : gmap string nat;
  heap : gmap nat Scope;
  arrays : gmap nat (list string);
  logGrpc : bool;
  useJSON : bool
}.

Definition set_heap (w : logging) (h : gmap nat Scope) : logging :=
  mk_logging (scopes w) h (arrays w) (logGrpc w) (useJSON w).

Definition scope_SetOutputLevel (p : nat) (l : Level) (w : logging) : logging :=
  set_heap w (alter (λ s, mk_scope (name s) (nameToEmit s) (description s) (callerSkip s)
    l (sc_stackTraceLevel s) (sc_logCallers s) (labelKeys s) (labels s)) p (heap w)).

Definition scope_SetStackTraceLevel (p : nat) (l : Level) (w : logging) : logging :=
  set_heap w (alter (λ s, mk_scope (name s) (nameToEmit s) (description s) (callerSkip s)
    (sc_outputLevel s) l (sc_logCallers s) (labelKeys s) (labels s)) p (heap w)).

Definition scope_SetLogCallers (p : nat) (b : bool) (w : logging) : logging :=
  set_heap w (alter (λ s, mk_scope (name s) (nameToEmit s) (description s) (callerSkip s)
    (sc_outputLevel s) (sc_stackTraceLevel s) b (labelKeys s) (labels s)) p (heap w)).

(** the getters; every scope that was registered has its object *)
Definition scope_GetOutputLevel (p : nat) (w : logging) : option Level := sc_outputLevel <$> heap w !! p.
Definition scope_GetStackTraceLevel (p : nat) (w : logging) : option Level := sc_stackTraceLevel <$> heap w !! p.
Definition scope_GetLogCallers (p : nat) (w : logging) : option bool := sc_logCallers <$> heap w !! p.

Definition clear_labels (p : nat) (w : logging) : logging :=
  set_heap w (alter (λ s, mk_scope (name s) (nameToEmit s) (description s) (callerSkip s)
    (sc_outputLevel s) (sc_stackTraceLevel s) (sc_logCallers s) (labelKeys s) ∅) p (heap w)).

(** [strings.ContainsAny name ":,."] *)
Definition bad_name (n : string) : bool :=
  ContainsByte n ":"%char || ContainsByte n ","%char || ContainsByte n "."%char.

Definition RegisterScope (w : logging) (n desc : string) (skip : Z) : result string (logging * nat) :=
  if bad_name n then
    Panic (Explicit ("scope name " +:+ n +:+ " is invalid, it cannot contain colons, commas, or periods"))
  else
    match scopes w !! n with
    | Some p => Ok (clear_labels p w, p)
    | None =>
        let p := new_ptr (heap w) in
        let s := mk_scope n (if String.eqb n DefaultScopeName then "" else n) desc skip
                   InfoLevel NoneLevel false nil_slice ∅ in
        Ok (mk_logging (<[n := p]> (scopes w)) (<[p := s]> (heap w)) (arrays w) (logGrpc w) (useJSON w), p)
    end.

Definition FindScope (w : logging) (n : string) : option nat := scopes w !! n.
Definition Scopes (w : logging) : gmap string nat := scopes w.

Definition Name (s : Scope) : string := name s.
Definition Description (s : Scope) : string := description s.

(** ** Labels *)

Definition set_label (s : Scope) (k : string) (v : V) (keys : slice) : Scope :=
  mk_scope (name s) (nameToEmit s) (description s) (callerSkip s) (sc_outputLevel s)
    (sc_stackTraceLevel s) (sc_logCallers s) keys (<[k := v]> (labels s)).

Definition label_error : string := "WithLabels error".

(** the loop of [WithLabels] over pairs; a key that is not a string ends it *)
(** the labels of a scope that is labelled are copied one by one *)
Definition copyStringInterfaceMap (m : gmap string V) : gmap string V := map_fold (λ k v out, <[k := v]> out) ∅ m.

Lemma copyStringInterfaceMap_eq m : copyStringInterfaceMap m = m.
Proof.
  unfold copyStringInterfaceMap. apply (map_fold_weak_ind (λ r m, r = m)); [done|]. by intros k v m' r _ ->.
Qed.

Fixpoint with_labels (arrays : gmap nat (list string)) (out : Scope) (kvlist : list V) :
    gmap nat (list string) * Scope :=
  match kvlist with
  | keyi :: v :: rest =>
      match as_string keyi with
      | None => (arrays, set_label out label_error
                   (of_string ("label name " +:+ fmt_v (Some keyi) +:+ " must be a string, got " +:+ fmt_T keyi +:+ " "))
                   (labelKeys out))
      | Some key =>
          let '(arrays, keys) := append arrays (labelKeys out) key in
          with_labels arrays (set_label out key v keys) rest
      end
  | _ => (arrays, out)
  end.

(** the copy gets a map of its own and shares the slice of keys *)
Definition WithLabels (w : logging) (p : nat) (kvlist : list V) : result string (logging * nat) :=
  match heap w !! p with
  | None => Panic NilDeref
  | Some s =>
      let q := new_ptr (heap w) in
      let '(arrs, out) :=
        if Nat.odd (length kvlist) then
          (arrays w, set_label s label_error
             (of_string ("even number of parameters required, got " +:+ Itoa (Z.of_nat (length kvlist))))
             (labelKeys s))
        else with_labels (arrays w) s kvlist in
      Ok (mk_logging (scopes w) (<[q := out]> (heap w)) arrs (logGrpc w) (useJSON w), q)
  end.

(** ** Writing a message

    [zapcore.Core.Write] is the environment: it may report an error. *)

Inductive field :=
  | FString (key value : string)
  | FReflect (key : string) (v : option V).

Record Entry := mk_entry {
  e_message : string;
  e_level : ZapLevel;
  e_logger : string;
  e_caller : option Z;
  e_stack : bool;
  e_fields : list field
}.

Inductive event :=
  | Written (e : Entry)
  | SinkError (err : string)
  | Exit (code : Z).

Definition appendNotEmptyField (fields : list field) (key value : string) : list field :=
  if String.eqb key "" || String.eqb value "" then fields else fields ++ [FString key value].

Definition appendNotEmptyString (sb key value : string) : string :=
  if String.eqb key "" || String.eqb value "" then sb else sb +:+ key +:+ "=" +:+ value +:+ " ".

Definition toErrString (err : option string) : string :=
  match err with None => "" | Some e => e end.

(** the scope is compared as a pointer with the default scope *)
Definition dumpStack (w : logging) (level : ZapLevel) (p : nat) (s : Scope) : bool :=
  let thresh := if decide (scopes w !! DefaultScopeName = Some p) then toLevel level
                else match level with ZFatal => FatalLevel | _ => ErrorLevel end in
  (thresh <=? sc_stackTraceLevel s)%Z.

Definition callerSkipOffset : Z := 4.

(** the write function of the patch table, then the report of its error *)
Definition emit (core : Entry → option string) (w : logging) (p : nat) (s : Scope) (level : ZapLevel)
    (msg : string) (fields : list field) : list event :=
  let e := mk_entry msg level (nameToEmit s)
             (if sc_logCallers s then Some (callerSkip s + callerSkipOffset)%Z else None)
             (dumpStack w level p s) fields in
  match level with
  | ZFatal => [Written e; Exit 1]
  | _ => match core e with
         | None => [Written e]
         | Some err => [Written e; SinkError err]
         end
  end.

Definition error_fields (ie : option structured_error) (msg : string) : list field * string :=
  match ie with
  | None => ([], msg)
  | Some ie =>
      let fields := appendNotEmptyField [] "message" msg in
      let fields := appendNotEmptyField fields "moreInfo" (MoreInfo ie) in
      let fields := appendNotEmptyField fields "impact" (Impact ie) in
      let fields := appendNotEmptyField fields "action" (Action ie) in
      let fields := appendNotEmptyField fields "likelyCause" (LikelyCause ie) in
      (appendNotEmptyField fields "err" (toErrString (serr_Err ie)), "")
  end.

Definition error_text (sb : string) (ie : option structured_error) : string :=
  match ie with
  | None => sb
  | Some ie =>
      let sb := appendNotEmptyString sb "moreInfo" (MoreInfo ie) in
      let sb := appendNotEmptyString sb "impact" (Impact ie) in
      let sb := appendNotEmptyString sb "action" (Action ie) in
      let sb := appendNotEmptyString sb "likelyCause" (LikelyCause ie) in
      appendNotEmptyString sb "err" (toErrString (serr_Err ie))
  end.

Fixpoint label_text (sb : string) (space : bool) (keys : list string) (lbl : gmap string V) : string :=
  match keys with
  | [] => sb
  | k :: keys =>
      let sb := if space then sb +:+ " " else sb in
      label_text (sb +:+ k +:+ "=" +:+ fmt_v (lbl !! k)) true keys lbl
  end.

Definition handler := logging → Level → nat → Scope → option structured_error → string → list event.

Definition ZapLogHandlerCallbackFunc (core : Entry → option string) : handler := λ w level p s ie msg,
  let keys := contents (arrays w) (labelKeys s) in
  if useJSON w then
    let '(fields, msg) := error_fields ie msg in
    emit core w p s (toZapLevel level) msg (fields ++ ((λ k, FReflect k (labels s !! k)) <$> keys))
  else
    let sb := if match ie with Some _ => true | None => false end || negb (length keys =? 0)
              then msg +:+ String HTAB "" else msg in
    emit core w p s (toZapLevel level) (label_text (error_text sb ie) false keys (labels s)) [].

(** the method kept for compatibility; its argument ps is not used *)
Definition scope_emit (core : Entry → option string) (w : logging) (p : nat) (s : Scope) (level : ZapLevel) (ps : bool)
    (msg : string) (fields : list field) : list event := emit core w p s level msg fields.

Definition registerDefaultHandler (hs : list handler) (h : handler) : list handler := hs ++ [h].

(** the handlers after the init function of zapcore_handler.go *)
Definition init_handlers (core : Entry → option string) : list handler :=
  registerDefaultHandler [] (ZapLogHandlerCallbackFunc core).

(** the process is gone after the first exit *)
Fixpoint until_exit (evs : list event) : list event :=
  match evs with
  | [] => []
  | Exit c :: _ => [Exit c]
  | ev :: evs => ev :: until_exit evs
  end.

Definition callHandlers (hs : list handler) (w : logging) (severity : Level) (p : nat) (s : Scope)
    (ie : option structured_error) (msg : string) : list event :=
  until_exit (concat ((λ h : handler, h w severity p s ie msg) <$> hs)).

Definition getErrorStruct (args : list V) : result string (option structured_error * nat) :=
  match args with
  | [] => Panic IndexOutOfRange
  | a :: _ => match as_error a with Some ie => Ok (Some ie, 1) | None => Ok (None, 0) end
  end.

Definition enabled (s : Scope) (l : Level) : bool := (l <=? sc_outputLevel s)%Z.

(** The five severities have the same two texts each. *)
Definition log_print (severity : Level) (hs : list handler) (w : logging) (p : nat) (args : list V) :
    result string (list event) :=
  match heap w !! p with
  | None => Panic NilDeref
  | Some s =>
      if enabled s severity then
        '(ie, firstIdx) ← getErrorStruct args;
        mret (callHandlers hs w severity p s ie (Sprint (drop firstIdx args)))
      else mret []
  end.

Definition log_printf (severity : Level) (hs : list handler) (w : logging) (p : nat) (args : list V) :
    result string (list event) :=
  match heap w !! p with
  | None => Panic NilDeref
  | Some s =>
      if enabled s severity then
        '(ie, firstIdx) ← getErrorStruct args;
        match args !! firstIdx with
        | None => Panic IndexOutOfRange
        | Some a =>
            let msg := Sprint [a] in
            let msg := if 1 <? length args then Sprintf msg (drop (S firstIdx) args) else msg in
            mret (callHandlers hs w severity p s ie msg)
        end
      else mret []
  end.

Definition Fatal := log_print FatalLevel.
Definition Fatala := Fatal.
Definition Fatalf := log_printf FatalLevel.
Definition FatalEnabled (s : Scope) : bool := enabled s FatalLevel.
Definition Error := log_print ErrorLevel.
Definition Errora := Error.
Definition Errorf := log_printf ErrorLevel.
Definition ErrorEnabled (s : Scope) : bool := enabled s ErrorLevel.
Definition Warn := log_print WarnLevel.
Definition Warna := Warn.
Definition Warnf := log_printf WarnLevel.
Definition WarnEnabled (s : Scope) : bool := enabled s WarnLevel.
Definition Info := log_print InfoLevel.
Definition Infoa := Info.
Definition Infof := log_printf InfoLevel.
Definition InfoEnabled (s : Scope) : bool := enabled s InfoLevel.
Definition Debug := log_print DebugLevel.
Definition Debuga := Debug.
Definition Debugf := log_printf DebugLevel.
Definition DebugEnabled (s : Scope) : bool := enabled s DebugLevel.

(** The functions of default.go call the methods of the default scope, which
    is registered when the package is loaded. *)
Definition registerDefaultScope (w : logging) : result string (logging * nat) :=
  RegisterScope w DefaultScopeName "Unscoped logging messages." 1.

(** The enabler of the captured loggers (config.go) asks the default scope. *)
Definition capture_enabler (s : Scope) (l : ZapLevel) : bool :=
  match l with
  | ZError => ErrorEnabled s
  | ZWarn => WarnEnabled s
  | ZInfo => InfoEnabled s
  | _ => DebugEnabled s
  end.

(** ** Configuring the scopes (config.go) *)

Definition GrpcScopeName : string := "grpc".

Definition set_all (setter : nat → Level → logging → logging) (l : Level)
    (allScopes : gmap string nat) (w : logging) : logging :=
  foldr (λ p, setter p l) w (map_to_list allScopes).*2.

Fixpoint process_entries (allScopes : gmap string nat) (levels : list string)
    (setter : nat → Level → logging → logging) (w : logging) : logging * result string unit :=
  match levels with
  | [] => (w, Ok tt)
  | sl :: levels =>
      match convertScopedLevel sl with
      | Err err => (w, Err err)
      | Panic p => (w, Panic p)
      | Ok (s, l) =>
          match allScopes !! s with
          | Some scope => process_entries allScopes levels setter (setter scope l w)
          | None =>
              if String.eqb s OverrideScopeName then (set_all setter l allScopes w, Ok tt)
              else if String.eqb s GrpcScopeName then
                match RegisterScope w GrpcScopeName "" 3 with
                | Ok (w, grpcScope) =>
                    (setter grpcScope l (mk_logging (scopes w) (heap w) (arrays w) true (useJSON w)), Ok tt)
                | Err err => (w, Err err)
                | Panic p => (w, Panic p)
                end
              else process_entries allScopes levels setter w
          end
      end
  end.

Definition processLevels (allScopes : gmap string nat) (arg : string)
    (setter : nat → Level → logging → logging) (w : logging) : logging * result string unit :=
  process_entries allScopes (Split arg ","%char) setter w.

Fixpoint process_callers (allScopes : gmap string nat) (sc : list string) (w : logging) : logging * bool :=
  match sc with
  | [] => (w, false)
  | s :: sc =>
      if String.eqb s "" then process_callers allScopes sc w
      else if String.eqb s OverrideScopeName then
        (foldr (λ p, scope_SetLogCallers p true) w (map_to_list allScopes).*2, true)
      else match allScopes !! s with
           | Some p => process_callers allScopes sc (scope_SetLogCallers p true w)
           | None => process_callers allScopes sc w
           end
  end.

Definition updateScopes (options : Options) (w : logging) : logging * Options * result string unit :=
  let allScopes := Scopes w in
  match processLevels allScopes (outputLevels options) scope_SetOutputLevel w with
  | (w, Ok _) =>
      match processLevels allScopes (stackTraceLevels options) scope_SetStackTraceLevel w with
      | (w, Ok _) =>
          match process_callers allScopes (Split (logCallers options) ","%char) w with
          | (w, true) => (w, options, Ok tt)
          | (w, false) =>
              (w, if logGrpc w
                  then set_levels options (outputLevels options) (logCallers options) (stackTraceLevels options) true
                  else options, Ok tt)
          end
      | (w, r) => (w, options, r)
      end
  | (w, r) => (w, options, r)
  end.

(** ** The adapter for logr (logr.go) *)

Definition debugLevelThreshold : Z := 3.

Definition logr_Enabled (s : Scope) (level : Z) : bool :=
  if (debugLevelThreshold <? level)%Z then DebugEnabled s else InfoEnabled s.

Definition trimNewline (msg : string) : string :=
  if String.length msg =? 0 then msg
  else let lc := String.length msg - 1 in
       match String.get lc msg with
       | Some c => if Ascii.eqb c LF then str_take lc msg else msg
       | None => msg
       end.

Definition logr_Info (hs : list handler) (w : logging) (p : nat) (level : Z) (msg : string)
    (kv : list V) : result string (logging * list event) :=
  '(w, q) ← WithLabels w p kv;
  evs ← (if (debugLevelThreshold <? level)%Z then Debug else Info) hs w q [of_string (trimNewline msg)];
  mret (w, evs).

Definition logr_Error (hs : list handler) (w : logging) (p : nat) (err : option string) (msg : string)
    (kv : list V) : result string (logging * list event) :=
  match heap w !! p with
  | None => Panic NilDeref
  | Some s =>
      if ErrorEnabled s then
        '(w, q) ← WithLabels w p kv;
        evs ← Error hs w q [of_string (match err with
                                       | None => trimNewline msg
                                       | Some e => e +:+ ": " +:+ msg
                                       end)];
        mret (w, evs)
      else mret (w, [])
  end.

(** the adapter is the pointer of its scope; names and V levels are dropped *)
Definition NewLogrAdapter (l : nat) : nat := l.
Definition logr_V (p : nat) (level : Z) : nat := NewLogrAdapter p.
Definition logr_WithName (p : nat) (name : string) : nat := p.

Definition logr_WithValues (w : logging) (p : nat) (kv : list V) : result string (logging * nat) :=
  WithLabels w p kv.

(** ** Slices and appends *)

Definition wf_slice (arrays : gmap nat (list string)) (s : slice) : Prop :=
  match s_array s with
  | None => s_len s = 0
  | Some a => ∃ l, arrays !! a = Some l ∧ s_len s ≤ length l
  end.

(** [r] is out of reach of an append to [s] *)
Definition out_of_reach (arrays : gmap nat (list string)) (s r : slice) : Prop :=
  s_array r ≠ s_array s ∨ s_len r ≤ s_len s ∨ capacity arrays s = s_len s.

(** what happens to a slice when an array is added *)
Lemma slice_new_array (A : gmap nat (list string)) (l : list string) r : wf_slice A r →
  let A' := <[new_ptr A := l]> A in
  wf_slice A' r ∧ contents A' r = contents A r ∧ s_array r ≠ Some (new_ptr A).
Proof.
  unfold wf_slice, contents. destruct (s_array r) as [a|]; [|done]. intros (la & Ha & Hl).
  assert (new_ptr A ≠ a) as Hne by (intros <-; by rewrite new_ptr_None in Ha).
  cbn zeta. rewrite lookup_insert_ne by done. repeat split; [eauto|congruence].
Qed.

Lemma append_in_place (A : gmap nat (list string)) a l n x r : A !! a = Some l → n < length l → wf_slice A r →
  let A' := alter (λ l, <[n := x]> l) a A in
  wf_slice A' r ∧ (s_array r ≠ Some a ∨ s_len r ≤ n → contents A' r = contents A r).
Proof.
  intros Ha Hn. unfold wf_slice, contents. destruct (s_array r) as [b|]; [|by auto]. intros (lb & Hb & Hl).
  cbn zeta. destruct (decide (a = b)) as [<-|Hne].
  - rewrite Hb in Ha. simplify_eq. rewrite lookup_alter_eq, Hb. cbn.
    split; [eexists; split; [done|]; by rewrite length_insert|].
    intros [?|Hle]; [done|]. by rewrite take_insert_ge by lia.
  - rewrite lookup_alter_ne by done. eauto.
Qed.

Lemma append_spec A s x : wf_slice A s →
  let '(A', s') := append A s x in
  wf_slice A' s' ∧ contents A' s' = contents A s ++ [x] ∧
  ∀ r, wf_slice A r → out_of_reach A s r →
    wf_slice A' r ∧ contents A' r = contents A r ∧ out_of_reach A' s' r.
Proof.
  destruct s as [[a|] n]; unfold append; cbn [s_array s_len]; intros Hs.
  - destruct Hs as (l & Ha & Hl). cbn [s_array s_len] in *.
    assert (capacity A (mk_slice (Some a) n) = length l) as Hcap by (unfold capacity; cbn; by rewrite Ha).
    rewrite Hcap. destruct (n <? length l) eqn:Hn; bools.
    + split; [|split].
      * exists (<[n := x]> l). rewrite lookup_alter_eq, Ha, length_insert. split; [done|cbn; lia].
      * unfold contents. cbn [s_array s_len]. rewrite lookup_alter_eq, Ha. cbn.
        rewrite (take_S_r _ _ x) by (by apply list_lookup_insert_eq). by rewrite take_insert_ge by lia.
      * intros r Hr Ho. destruct (append_in_place A a l n x r Ha Hn Hr) as [Hw Hc].
        unfold out_of_reach in *. cbn [s_array s_len] in *. rewrite Hcap in Ho.
        assert (s_array r ≠ Some a ∨ s_len r ≤ n) as Hk by (destruct Ho as [?|[?|?]]; [by left|by right|lia]).
        split; [done|]. split; [by apply Hc|]. destruct Hk; [by left|right; left; lia].
    + assert (length (contents A (mk_slice (Some a) n)) = n) as Hlen.
      { unfold contents. cbn. rewrite Ha. cbn. rewrite length_take. lia. }
      split; [|split].
      * eexists. rewrite lookup_insert_eq. split; [done|]. rewrite !length_app, Hlen. cbn [length s_len]. lia.
      * unfold contents at 1. cbn [s_array s_len]. rewrite lookup_insert_eq. cbn [default].
        rewrite app_assoc. apply take_app_length'. rewrite length_app, Hlen. cbn. lia.
      * intros r Hr _. destruct (slice_new_array A (contents A (mk_slice (Some a) n) ++ [x] ++
          replicate (grow (length l) (S n) - S n) "") r Hr) as (? & ? & ?).
        split; [done|]. split; [done|]. by left.
  - cbn in Hs. subst n. split; [|split].
    + eexists. rewrite lookup_insert_eq. split; [done|]. cbn. lia.
    + unfold contents. cbn [s_array s_len]. by rewrite lookup_insert_eq.
    + intros r Hr _. destruct (slice_new_array A ([x] ++ replicate (grow 0 1 - 1) "") r Hr) as (? & ? & ?).
      split; [done|]. split; [done|]. by left.
Qed.

(** ** Labels *)

Fixpoint flatten (kvs : list (V * V)) : list V :=
  match kvs with [] => [] | (k, v) :: kvs => k :: v :: flatten kvs end.

(** the pairs have string keys [ks] *)
Definition string_keys (kvs : list (V * V)) (ks : list string) : Prop :=
  Forall2 (λ kv k, as_string kv.1 = Some k) kvs ks.

Definition add_labels (m : gmap string V) (kvs : list (V * V)) (ks : list string) : gmap string V :=
  foldl (λ m kv, <[kv.1 := kv.2]> m) m (zip ks kvs.*2).

Lemma with_labels_spec kvs ks A s : string_keys kvs ks → wf_slice A (labelKeys s) →
  let '(A', t) := with_labels A s (flatten kvs) in
  wf_slice A' (labelKeys t) ∧ contents A' (labelKeys t) = contents A (labelKeys s) ++ ks ∧
  t = mk_scope (name s) (nameToEmit s) (description s) (callerSkip s) (sc_outputLevel s)
        (sc_stackTraceLevel s) (sc_logCallers s) (labelKeys t) (add_labels (labels s) kvs ks) ∧
  ∀ r, wf_slice A r → out_of_reach A (labelKeys s) r → wf_slice A' r ∧ contents A' r = contents A r.
Proof.
  intros Hks. revert A s. induction Hks as [|[k v] key kvs ks Hk Hks IH]; intros A s Hs.
  - cbn. rewrite app_nil_r. by destruct s.
  - cbn [flatten with_labels]. cbn [fst] in Hk. rewrite Hk.
    pose proof (append_spec A (labelKeys s) key Hs) as Ha. destruct (append A (labelKeys s) key) as [A1 keys].
    destruct Ha as (Hw & Hc & Hr). specialize (IH A1 (set_label s key v keys) Hw).
    destruct (with_labels A1 _ (flatten kvs)) as [A' t]. destruct IH as (Hw' & Hc' & Ht & Hr').
    split; [done|]. split; [by rewrite Hc'; cbn; rewrite Hc, <- app_assoc|]. split; [exact Ht|].
    intros r Hwr Hor. destruct (Hr r Hwr Hor) as (H1 & H2 & H3). destruct (Hr' r H1 H3) as [H4 H5].
    split; [done|]. by rewrite H5.
Qed.

(** ** Well-formed states *)

Record log_wf (w : logging) : Prop := mk_log_wf {
  wf_registry : ∀ n p, scopes w !! n = Some p → bad_name n = false ∧ ∃ s, heap w !! p = Some s ∧ name s = n;
  wf_keys : ∀ p s, heap w !! p = Some s → wf_slice (arrays w) (labelKeys s)
}.

Definition empty_logging : logging := mk_logging ∅ ∅ ∅ false false.

(** distinct names are distinct objects *)
Lemma registry_inj w n m p : log_wf w → scopes w !! n = Some p → scopes w !! m = Some p → n = m.
Proof.
  intros Hw Hn Hm. destruct (wf_registry w Hw n p Hn) as (_ & s & Hs & <-).
  destruct (wf_registry w Hw m p Hm) as (_ & t & Ht & <-). congruence.
Qed.

(** A change of one scope that keeps its name and keys. *)
Lemma wf_alter w p f : (∀ s, name (f s) = name s) → (∀ s, labelKeys (f s) = labelKeys s) →
  log_wf w → log_wf (set_heap w (alter f p (heap w))).
Proof.
  intros Hn Hk [H1 H2]. split; cbn.
  - intros n q Hq. destruct (H1 n q Hq) as (Hb & s & Hs & Hns). split; [done|].
    rewrite lookup_alter. case_decide as E; [|eauto]. rewrite E, Hs. cbn. eexists. split; [done|]. by rewrite Hn.
  - intros q s. rewrite lookup_alter. case_decide as E; [|apply H2].
    intros (t & Ht & ->)%fmap_Some. rewrite Hk. by apply (H2 p).
Qed.

Lemma wf_register w n d k w' p : log_wf w → RegisterScope w n d k = Ok (w', p) →
  log_wf w' ∧ scopes w' !! n = Some p ∧ (∀ m q, scopes w !! m = Some q → scopes w' !! m = Some q).
Proof.
  intros Hw. unfold RegisterScope. destruct (bad_name n) eqn:Hb; [done|].
  destruct (scopes w !! n) as [q|] eqn:Hq; intros [= <- <-].
  - split; [by apply wf_alter|]. auto.
  - destruct Hw as [H1 H2]. split; [|split; [by cbn; rewrite lookup_insert_eq|]].
    + split; cbn.
      * intros m q. rewrite lookup_insert. case_decide as E.
        -- intros [= <-]. subst m. split; [done|]. rewrite lookup_insert_eq. eauto.
        -- intros Hm. destruct (H1 m q Hm) as (Hbm & s & Hs & Hn). split; [done|].
           exists s. rewrite lookup_insert_ne; [done|]. intros <-. by rewrite new_ptr_None in Hs.
      * intros q s. rewrite lookup_insert. case_decide; [by intros [= <-]|apply H2].
    + intros m q Hm. cbn. rewrite lookup_insert_ne; [done|]. intros ->. congruence.
Qed.

(** *** What every configuration step keeps, a configuration keeps *)

Section Closed.
Variable P : logging → Prop.
Hypothesis P_output : ∀ p l w, P w → P (scope_SetOutputLevel p l w).
Hypothesis P_stack : ∀ p l w, P w → P (scope_SetStackTraceLevel p l w).
Hypothesis P_callers : ∀ p b w, P w → P (scope_SetLogCallers p b w).
Hypothesis P_register : ∀ w n d k w' p, P w → RegisterScope w n d k = Ok (w', p) → P w'.
Hypothesis P_grpc : ∀ w, P w → P (mk_logging (scopes w) (heap w) (arrays w) true (useJSON w)).

Lemma closed_process allScopes setter levels w :
  (∀ p l w, P w → P (setter p l w)) → P w → P (process_entries allScopes levels setter w).1.
Proof.
  intros Hset. revert w. induction levels as [|sl levels IH]; intros w Hw; [done|]. cbn [process_entries].
  destruct (convertScopedLevel sl) as [[s l]|?|?]; [|done..].
  destruct (allScopes !! s) as [p|]; [apply IH; by apply Hset|].
  destruct (String.eqb s OverrideScopeName).
  { cbn. unfold set_all. induction (map_to_list allScopes).*2; cbn; auto. }
  destruct (String.eqb s GrpcScopeName); [|by apply IH].
  destruct (RegisterScope w GrpcScopeName "" 3) as [[w1 q]|?|?] eqn:E; [|done..]. cbn. eauto.
Qed.

Lemma closed_callers allScopes sc w : P w → P (process_callers allScopes sc w).1.
Proof.
  revert w. induction sc as [|s sc IH]; intros w Hw; [done|]. cbn [process_callers].
  destruct (String.eqb s ""); [by apply IH|]. destruct (String.eqb s OverrideScopeName).
  { cbn. induction (map_to_list allScopes).*2; cbn; auto. }
  destruct (allScopes !! s); auto.
Qed.

Lemma closed_update o w : P w → P (updateScopes o w).1.1.
Proof.
  intros Hw. unfold updateScopes, processLevels.
  pose proof (closed_process (Scopes w) scope_SetOutputLevel (Split (outputLevels o) ","%char) w P_output Hw) as H1.
  destruct (process_entries _ _ scope_SetOutputLevel w) as [w1 [?|?|?]]; [|done..].
  pose proof (closed_process (Scopes w) scope_SetStackTraceLevel (Split (stackTraceLevels o) ","%char) w1 P_stack H1) as H2.
  destruct (process_entries _ _ scope_SetStackTraceLevel w1) as [w2 [?|?|?]]; [|done..].
  pose proof (closed_callers (Scopes w) (Split (logCallers o) ","%char) w2 H2) as H3.
  by destruct (process_callers _ _ w2) as [w3 []].
Qed.
End Closed.

Lemma with_labels_wf A s kv : wf_slice A (labelKeys s) →
  let '(A', t) := with_labels A s kv in
  wf_slice A' (labelKeys t) ∧ name t = name s ∧
  ∀ r, wf_slice A r → wf_slice A' r.
Proof.
  remember (length kv) as n eqn:Hn. revert kv Hn A s.
  induction (lt_wf n) as [n _ IH]. intros [|k [|v kv]] -> A s Hs; [done..|]. cbn [with_labels].
  destruct (as_string k) as [key|]; [|done].
  pose proof (append_spec A (labelKeys s) key Hs) as Ha.
  assert (∀ r, wf_slice A r → wf_slice (append A (labelKeys s) key).1 r) as Hall.
  { clear -Hs. intros r Hr. unfold append. destruct (s_array (labelKeys s)) as [a|] eqn:Ea; [|by apply slice_new_array].
    unfold wf_slice in Hs. rewrite Ea in Hs. destruct Hs as (l & Hl & Hlen).
    case_match eqn:Hc; [|by apply slice_new_array]. bools. unfold capacity in Hc. rewrite Ea, Hl in Hc.
    by destruct (append_in_place A a l _ key r Hl Hc Hr). }
  destruct (append A (labelKeys s) key) as [A1 keys]. destruct Ha as (Hw & _ & _).
  specialize (IH (length kv) ltac:(cbn; lia) kv eq_refl A1 (set_label s key v keys) Hw).
  destruct (with_labels A1 _ kv) as [A' t]. destruct IH as (H1 & H2 & H3). split; [done|]. split; [done|]. auto.
Qed.

Lemma WithLabels_wf w p kv w' q : log_wf w → WithLabels w p kv = Ok (w', q) → log_wf w'.
Proof.
  intros Hw. unfold WithLabels. destruct (heap w !! p) as [s|] eqn:Hs; [|done].
  pose proof (wf_keys w Hw p s Hs) as Hk.
  destruct (if Nat.odd (length kv) then _ else _) as [A' t] eqn:E. intros [= <- <-].
  assert (wf_slice A' (labelKeys t) ∧ name t = name s ∧ ∀ r, wf_slice (arrays w) r → wf_slice A' r) as (H1 & H2 & H3).
  { destruct (Nat.odd (length kv)); [by injection E as <- <-|].
    pose proof (with_labels_wf (arrays w) s kv Hk) as Hl. by rewrite E in Hl. }
  split; cbn.
  - intros n r Hr. destruct (wf_registry w Hw n r Hr) as (Hb & u & Hu & Hn). split; [done|].
    exists u. rewrite lookup_insert_ne; [done|]. intros <-. by rewrite new_ptr_None in Hu.
  - intros r u. rewrite lookup_insert. case_decide; [by intros [= <-]|]. intros Hu. by apply H3, (wf_keys w Hw r).
Qed.

(** what the package does to its state *)
Inductive log_step : logging → logging → Prop :=
  | step_register w n d k w' p : RegisterScope w n d k = Ok (w', p) → log_step w w'
  | step_labels w p kv w' q : WithLabels w p kv = Ok (w', q) → log_step w w'
  | step_output w p l : log_step w (scope_SetOutputLevel p l w)
  | step_stack w p l : log_step w (scope_SetStackTraceLevel p l w)
  | step_callers w p b : log_step w (scope_SetLogCallers p b w)
  | step_configure w o : log_step w (updateScopes o w).1.1.

Lemma log_step_wf : invariant log_step log_wf.
Proof.
  intros w w' Hw Hst. destruct Hst; [by eapply wf_register|by eapply WithLabels_wf|by apply wf_alter..|].
  apply (closed_update log_wf); [..|done]; intros; try by apply wf_alter.
  - by eapply wf_register.
  - by destruct H0.
Qed.

Lemma log_step_scopes w w' : log_step w w' → scopes w ⊆ scopes w'.
Proof.
  assert (∀ w n d k w' p, RegisterScope w n d k = Ok (w', p) → scopes w ⊆ scopes w') as Hreg.
  { intros w0 n d k w1 p. unfold RegisterScope. destruct (bad_name n); [done|].
    destruct (scopes w0 !! n) eqn:E; intros [= <- <-]; [done|]. by apply insert_subseteq. }
  intros Hst. destruct Hst as [| w p kv w' q Hl| | | |]; [by eapply Hreg| |done..|].
  - unfold WithLabels in Hl. destruct (heap w !! p); [|done]. destruct (if Nat.odd _ then _ else _).
    by injection Hl as <- <-.
  - apply (closed_update (λ w', scopes w ⊆ scopes w')); try done.
    intros w0 n d k w1 p Hs Hr. etrans; [done|by eapply Hreg].
Qed.

(** C26: in every state the package can reach, the registry is well typed:
    every registered name is free of colons, commas and periods and leads to
    a live scope that carries exactly this name (so no two names share a
    scope), every scope's list of label keys lies within its array, and a name
    once registered keeps its scope. *)
Theorem registry_well_formed w w' : rtc log_step empty_logging w → rtc log_step w w' →
  (∀ n p, scopes w' !! n = Some p →
     bad_name n = false ∧ ∃ s, heap w' !! p = Some s ∧ Name s = n) ∧
  (∀ p s, heap w' !! p = Some s → length (contents (arrays w') (labelKeys s)) = s_len (labelKeys s)) ∧
  (∀ n p, FindScope w n = Some p → FindScope w' n = Some p).
Proof.
  intros Hr Hr'. assert (log_wf w) as Hw.
  { eapply (invariant_reachable log_step log_wf); [apply log_step_wf| |done]. split; by intros ? ?. }
  assert (log_wf w') as Hw' by (by eapply (invariant_reachable log_step log_wf); [apply log_step_wf| |]).
  split; [apply Hw'|]. split.
  - intros p s Hs. pose proof (wf_keys w' Hw' p s Hs) as Hk. unfold wf_slice, contents in *.
    destruct (s_array (labelKeys s)); [|by rewrite Hk]. destruct Hk as (l & -> & Hl). cbn. rewrite length_take. lia.
  - intros n p Hn. assert (scopes w ⊆ scopes w') as Hs; [|by eapply lookup_weaken].
    clear -Hr'. induction Hr' as [|w w1 w' Hst _ IH]; [done|]. etrans; [by apply log_step_scopes|done].
Qed.

(** Labelling a scope with pairs whose keys are strings gives a new scope
    with the labels of the old one overwritten by the pairs, its keys in
    order, and its levels; and no scope that exists changes, the old one
    included, unless it shares its array of keys with the old one, is longer,
    and the array had room left behind the keys of the old one (a registered
    scope has no array, so labelling one disturbs nothing). *)
Theorem WithLabels_independent w p s kvs ks :
  rtc log_step empty_logging w → heap w !! p = Some s → string_keys kvs ks →
  ∃ w' q t, WithLabels w p (flatten kvs) = Ok (w', q) ∧ heap w !! q = None ∧ heap w' !! q = Some t ∧
    contents (arrays w') (labelKeys t) = contents (arrays w) (labelKeys s) ++ ks ∧
    labels t = add_labels (labels s) kvs ks ∧
    (name t, sc_outputLevel t, sc_stackTraceLevel t, sc_logCallers t)
      = (name s, sc_outputLevel s, sc_stackTraceLevel s, sc_logCallers s) ∧
    ∀ r u, heap w !! r = Some u →
      heap w' !! r = Some u ∧
      (out_of_reach (arrays w) (labelKeys s) (labelKeys u) →
       contents (arrays w') (labelKeys u) = contents (arrays w) (labelKeys u)).
Proof.
  intros Hr Hs Hks. assert (log_wf w) as Hw.
  { eapply (invariant_reachable log_step log_wf); [apply log_step_wf| |done]. split; by intros ? ?. }
  pose proof (with_labels_spec kvs ks (arrays w) s Hks (wf_keys w Hw p s Hs)) as Hl.
  assert (Nat.odd (length (flatten kvs)) = false) as Hodd.
  { clear. induction kvs as [|[k v] kvs IH]; [done|]. exact IH. }
  unfold WithLabels. rewrite Hs, Hodd. destruct (with_labels (arrays w) s (flatten kvs)) as [A' t].
  destruct Hl as (_ & Hc & Ht & Hf). eexists _, _, t. split; [done|]. split; [apply new_ptr_None|].
  cbn. split; [by rewrite lookup_insert_eq|]. split; [done|]. split; [by rewrite Ht|]. split; [by rewrite Ht|].
  intros r u Hu. rewrite lookup_insert_ne; [|intros E; by rewrite <- E, new_ptr_None in Hu].
  split; [done|]. intros Ho. by apply Hf; [apply (wf_keys w Hw r)|].
Qed.

(** ** What a configuration does

    Section [Setter] is about one of the two level fields: [upd] writes it. *)

Section Setter.
Variable upd : Level → Scope → Scope.
Hypothesis upd_upd : ∀ l k s, upd l (upd k s) = upd l s.
Let setter (p : nat) (l : Level) (w : logging) : logging := set_heap w (alter (upd l) p (heap w)).

Lemma set_all_lookup l ps w p :
  heap (foldr (λ p, setter p l) w ps) !! p = if decide (p ∈ ps) then upd l <$> heap w !! p else heap w !! p.
Proof.
  induction ps as [|q ps IH]; [done|]. cbn [foldr]. unfold setter at 1. cbn [set_heap heap].
  rewrite lookup_alter. destruct (decide (q = p)) as [->|Hne]; rewrite IH.
  - rewrite (decide_True (P:=p ∈ p :: ps)) by (by left). destruct (decide (p ∈ ps)); [|done].
    destruct (heap w !! p); cbn; [by rewrite upd_upd|done].
  - destruct (decide (p ∈ ps)).
    + by rewrite decide_True by (by right).
    + by rewrite decide_False by set_solver.
Qed.

Lemma set_all_rest l ps w : let w' := foldr (λ p, setter p l) w ps in w' = set_heap w (heap w').
Proof. cbn zeta. induction ps as [|q ps IH]; cbn; [by destruct w|]. by rewrite IH. Qed.

(** the level an entry list gives a scope, with the override first *)
Definition effective (al : list (string * Level)) (n : string) : option Level :=
  match assoc_get al OverrideScopeName with Some l => Some l | None => assoc_get al n end.

Lemma process_entries_effect al w0 w :
  (∀ n m p, w0 !! n = Some p → w0 !! m = Some p → n = m) →
  w0 !! OverrideScopeName = None → (w0 !! GrpcScopeName = None → assoc_get al GrpcScopeName = None) →
  Forall entry_ok al → NoDup al.*1 →
  ∃ h, process_entries w0 (entry <$> al) setter w = (set_heap w h, Ok tt) ∧
    ∀ n p, w0 !! n = Some p →
      h !! p = match effective al n with Some l => upd l <$> heap w !! p | None => heap w !! p end.
Proof.
  intros Hinj Hov. revert w. induction al as [|[t l] al IH]; intros w Hg Hok Hnd.
  { exists (heap w). split; [by destruct w|]. done. }
  apply Forall_cons in Hok as [He Hok]. apply NoDup_cons in Hnd as [Hni Hnd].
  assert (w0 !! GrpcScopeName = None → t ≠ GrpcScopeName ∧ assoc_get al GrpcScopeName = None) as Hg'.
  { intros E. specialize (Hg E). cbn in Hg. by destruct (String.eqb_spec t GrpcScopeName). }
  assert (assoc_get al t = None) as Hnt.
  { destruct (assoc_get al t) as [k|] eqn:E; [|done]. apply assoc_get_elem in E; [|done].
    destruct Hni. apply list_elem_of_fmap. by exists (t, k). }
  rewrite fmap_cons. cbn [process_entries]. rewrite convert_entry by done.
  destruct (w0 !! t) as [q|] eqn:Hq.
  - destruct (IH (setter q l w)) as (h & Hp & Hh); [by intros E; apply Hg'|done..|].
    exists h. rewrite Hp. split; [done|]. intros n p Hn. rewrite (Hh n p Hn). unfold effective. cbn [assoc_get fst snd].
    destruct (String.eqb_spec t OverrideScopeName) as [->|_]; [congruence|]. cbn. rewrite lookup_alter.
    destruct (String.eqb_spec t n) as [->|Hne].
    + assert (q = p) as -> by congruence. rewrite decide_True, Hnt by done.
      destruct (assoc_get al OverrideScopeName), (heap w !! p); cbn; by rewrite ?upd_upd.
    + rewrite decide_False; [done|]. intros ->. by eapply Hne, Hinj.
  - destruct (String.eqb_spec t OverrideScopeName) as [->|Hno].
    + exists (heap (set_all setter l w0 w)). split; [f_equal; apply set_all_rest|].
      intros n p Hn. unfold effective. cbn [assoc_get fst]. rewrite String.eqb_refl.
      unfold set_all. rewrite set_all_lookup, decide_True; [done|].
      apply list_elem_of_fmap. exists (n, p). by rewrite elem_of_map_to_list.
    + destruct (String.eqb_spec t GrpcScopeName) as [->|_]; [by destruct (Hg' Hq)|].
      destruct (IH w) as (h & Hp & Hh); [by intros E; apply Hg'|done..|].
      exists h. split; [done|]. intros n p Hn. rewrite (Hh n p Hn). unfold effective. cbn [assoc_get fst snd].
      apply String.eqb_neq in Hno as ->. destruct (String.eqb_spec t n) as [->|]; [congruence|done].
Qed.

Lemma processLevels_effect field m w0 w :
  (∀ n m p, w0 !! n = Some p → w0 !! m = Some p → n = m) →
  w0 !! OverrideScopeName = None → (w0 !! GrpcScopeName = None → m !! GrpcScopeName = None) →
  levels_refine field m →
  ∃ h, processLevels w0 field setter w = (set_heap w h, Ok tt) ∧
    ∀ n p, w0 !! n = Some p →
      h !! p = match m !! OverrideScopeName, m !! n with
               | Some l, _ | None, Some l => upd l <$> heap w !! p
               | None, None => heap w !! p
               end.
Proof.
  intros Hinj Hov Hg (al & Hne & Hok & Hnd & -> & Hm). unfold processLevels.
  rewrite Split_render by done. rewrite <- Hm in Hg.
  destruct (process_entries_effect al w0 w Hinj Hov Hg Hok Hnd) as (h & Hp & Hh).
  exists h. split; [done|]. intros n p Hn. rewrite (Hh n p Hn). unfold effective. rewrite !Hm.
  by destruct (m !! OverrideScopeName), (m !! n).
Qed.
End Setter.

Definition upd_output (l : Level) (s : Scope) : Scope :=
  mk_scope (name s) (nameToEmit s) (description s) (callerSkip s) l (sc_stackTraceLevel s)
    (sc_logCallers s) (labelKeys s) (labels s).
Definition upd_stack (l : Level) (s : Scope) : Scope :=
  mk_scope (name s) (nameToEmit s) (description s) (callerSkip s) (sc_outputLevel s) l
    (sc_logCallers s) (labelKeys s) (labels s).
Definition upd_callers (s : Scope) : Scope :=
  mk_scope (name s) (nameToEmit s) (description s) (callerSkip s) (sc_outputLevel s)
    (sc_stackTraceLevel s) true (labelKeys s) (labels s).

(** whether the list asks for the callers of scope [n] *)
Definition asks_callers (sc : list string) (n : string) : Prop :=
  OverrideScopeName ∈ sc ∨ (n ≠ "" ∧ n ∈ sc).

Lemma process_callers_effect w0 sc w :
  (∀ n m p, w0 !! n = Some p → w0 !! m = Some p → n = m) → w0 !! OverrideScopeName = None →
  ∃ h b, process_callers w0 sc w = (set_heap w h, b) ∧
    ∀ n p, w0 !! n = Some p →
      (asks_callers sc n → h !! p = upd_callers <$> heap w !! p) ∧
      (¬ asks_callers sc n → h !! p = heap w !! p).
Proof.
  intros Hinj Hov. revert w. induction sc as [|s sc IH]; intros w.
  { exists (heap w), false. split; [by destruct w|]. intros n p _. unfold asks_callers. split; [set_solver|done]. }
  cbn [process_callers]. destruct (String.eqb_spec s "") as [->|Hs].
  { destruct (IH w) as (h & b & Hp & Hh). exists h, b. split; [done|]. intros n p Hn.
    destruct (Hh n p Hn) as [H1 H2]. unfold asks_callers in *. split; intros Ha; [apply H1|apply H2]; set_solver. }
  destruct (String.eqb_spec s OverrideScopeName) as [->|Hno].
  - eexists (heap (foldr (λ p, scope_SetLogCallers p true) w (map_to_list w0).*2)), true. split.
    { f_equal. exact (set_all_rest (λ _, upd_callers) NoneLevel (map_to_list w0).*2 w). }
    intros n p Hn. unfold asks_callers. split; [|set_solver]. intros _.
    pose proof (set_all_lookup (λ _, upd_callers) (λ _ _ _, eq_refl) NoneLevel (map_to_list w0).*2 w p) as Ha.
    rewrite decide_True in Ha; [exact Ha|]. apply list_elem_of_fmap. exists (n, p). by rewrite elem_of_map_to_list.
  - destruct (w0 !! s) as [q|] eqn:Hq.
    + destruct (IH (scope_SetLogCallers q true w)) as (h & b & Hp & Hh). exists h, b. split; [by rewrite Hp|].
      intros n p Hn. destruct (Hh n p Hn) as [H1 H2]. cbn in H1, H2. rewrite lookup_alter in H1, H2.
      unfold asks_callers in *. destruct (decide (s = n)) as [->|Hne].
      * assert (q = p) as -> by congruence. rewrite decide_True in H1, H2 by done.
        split; [|set_solver]. intros _.
        destruct (decide (OverrideScopeName ∈ sc ∨ n ≠ "" ∧ n ∈ sc)) as [Ha|Ha].
        -- rewrite (H1 Ha). by destruct (heap w !! p).
        -- rewrite (H2 Ha). by destruct (heap w !! p).
      * assert (q ≠ p) by (intros ->; by eapply Hne, Hinj). rewrite decide_False in H1, H2 by done.
        split; intros Ha; [apply H1|apply H2]; set_solver.
    + destruct (IH w) as (h & b & Hp & Hh). exists h, b. split; [done|]. intros n p Hn.
      destruct (Hh n p Hn) as [H1 H2]. assert (s ≠ n) by (intros ->; congruence).
      unfold asks_callers in *. split; intros Ha; [apply H1|apply H2]; set_solver.
Qed.

(** the level a specification gives a scope, the override first *)
Definition spec_level (m : gmap string Level) (n : string) (old : Level) : Level :=
  match m !! OverrideScopeName, m !! n with Some l, _ | None, Some l => l | None, None => old end.

Lemma updateScopes_effect w o a :
  log_wf w → scopes w !! OverrideScopeName = None →
  (scopes w !! GrpcScopeName = None → spec_output a !! GrpcScopeName = None ∧ spec_stack a !! GrpcScopeName = None) →
  refines o a →
  ∃ w' o', updateScopes o w = (w', o', Ok tt) ∧ scopes w' = scopes w ∧
    ∀ n p s, FindScope w n = Some p → heap w !! p = Some s →
      ∃ s', heap w' !! p = Some s' ∧ Name s' = n ∧
        sc_outputLevel s' = spec_level (spec_output a) n (sc_outputLevel s) ∧
        sc_stackTraceLevel s' = spec_level (spec_stack a) n (sc_stackTraceLevel s) ∧
        sc_logCallers s' = sc_logCallers s || bool_decide (OverrideScopeName ∈ spec_callers a)
                           || bool_decide (n ≠ "" ∧ n ∈ spec_callers a).
Proof.
  intros Hw Hov Hg (H1 & H2 & H3).
  assert (∀ n m p, scopes w !! n = Some p → scopes w !! m = Some p → n = m) as Hinj
    by (intros; by eapply registry_inj).
  destruct (processLevels_effect upd_output (λ _ _ _, eq_refl) _ _ (scopes w) w Hinj Hov (λ E, proj1 (Hg E)) H1)
    as (h1 & Hp1 & Hh1).
  destruct (processLevels_effect upd_stack (λ _ _ _, eq_refl) _ _ (scopes w) (set_heap w h1) Hinj Hov
    (λ E, proj2 (Hg E)) H2) as (h2 & Hp2 & Hh2).
  destruct (process_callers_effect (scopes w) (Split (logCallers o) ","%char) (set_heap w h2) Hinj Hov)
    as (h3 & b & Hp3 & Hh3).
  exists (set_heap w h3), (updateScopes o w).1.2. unfold updateScopes, Scopes.
  change (processLevels (scopes w) (outputLevels o) scope_SetOutputLevel w = (set_heap w h1, Ok tt)) in Hp1. rewrite Hp1.
  change (processLevels (scopes w) (stackTraceLevels o) scope_SetStackTraceLevel (set_heap w h1)
    = (set_heap w h2, Ok tt)) in Hp2. rewrite Hp2.
  change (process_callers (scopes w) (Split (logCallers o) ","%char) (set_heap w h2) = (set_heap w h3, b)) in Hp3.
  rewrite Hp3. split; [by destruct b|]. split; [done|].
  intros n p s Hn Hs. specialize (Hh1 n p Hn). specialize (Hh2 n p Hn). cbn [heap set_heap] in *.
  rewrite Hs in Hh1. destruct (Hh3 n p Hn) as [Ha Hb].
  assert (Name s = n) as Hname by (destruct (wf_registry w Hw n p Hn) as (_ & u & Hu & <-); by simplify_eq).
  assert (∃ s2, h2 !! p = Some s2 ∧ Name s2 = n ∧ sc_logCallers s2 = sc_logCallers s ∧
    sc_outputLevel s2 = spec_level (spec_output a) n (sc_outputLevel s) ∧
    sc_stackTraceLevel s2 = spec_level (spec_stack a) n (sc_stackTraceLevel s)) as (s2 & Hs2 & Hn2 & Hc & Ho & Hst).
  { unfold spec_level.
    destruct (spec_output a !! OverrideScopeName), (spec_output a !! n);
      cbn in Hh1; rewrite Hh1 in Hh2;
      destruct (spec_stack a !! OverrideScopeName), (spec_stack a !! n); cbn in Hh2; eauto 10. }
  assert (asks_callers (Split (logCallers o) ","%char) n ↔
    OverrideScopeName ∈ spec_callers a ∨ (n ≠ "" ∧ n ∈ spec_callers a)) as Hask.
  { unfold asks_callers. rewrite (H3 OverrideScopeName) by done.
    destruct (decide (n = "")) as [->|Hne]; [tauto|]. by rewrite (H3 n Hne). }
  destruct (decide (OverrideScopeName ∈ spec_callers a ∨ (n ≠ "" ∧ n ∈ spec_callers a))) as [Hy|Hy].
  - exists (upd_callers s2). rewrite Ha by (by apply Hask). rewrite Hs2. repeat split; try done. cbn. clear -Hy.
    repeat case_bool_decide; rewrite ?orb_true_r; naive_solver.
  - exists s2. rewrite Hb by (by rewrite Hask). repeat split; try done. rewrite Hc.
    repeat case_bool_decide; rewrite ?orb_false_r; naive_solver.
Qed.

(** C27: configuring the package with options made by setting levels and
    callers never fails and does what was asked: every registered scope gets
    the output and stack level set last for it, or the one set for "all" if
    there is one, or keeps its own; its callers are logged if that was asked
    for it or for "all" (or before); and a message of any severity is then
    handed on exactly when the scope's new level admits it.  (Unless "all" is
    a scope, and unless the unregistered scope "grpc" is mentioned, which ends
    the processing of the list.) *)
Theorem configure_follows_options w ops :
  rtc log_step empty_logging w → scopes w !! OverrideScopeName = None →
  Forall op_ok ops →
  let o := foldl run_op DefaultOptions ops in
  let a := foldl spec_op spec_default ops in
  (scopes w !! GrpcScopeName = None → spec_output a !! GrpcScopeName = None ∧ spec_stack a !! GrpcScopeName = None) →
  ∃ w' o', updateScopes o w = (w', o', Ok tt) ∧
    ∀ n p s, FindScope w n = Some p → heap w !! p = Some s →
      ∃ s', heap w' !! p = Some s' ∧ Name s' = n ∧
        sc_outputLevel s' = spec_level (spec_output a) n (sc_outputLevel s) ∧
        sc_stackTraceLevel s' = spec_level (spec_stack a) n (sc_stackTraceLevel s) ∧
        sc_logCallers s' = sc_logCallers s || bool_decide (OverrideScopeName ∈ spec_callers a)
                           || bool_decide (n ≠ "" ∧ n ∈ spec_callers a) ∧
        ∀ sev h arg, as_error arg = None →
          log_print sev [h] w' p [arg] =
          Ok (if (sev <=? spec_level (spec_output a) n (sc_outputLevel s))%Z
              then until_exit (h w' sev p s' None (Sprint [arg])) else []).
Proof.
  intros Hr Hov Hops o a Hg. assert (log_wf w) as Hw.
  { eapply (invariant_reachable log_step log_wf); [apply log_step_wf| |done]. split; by intros ? ?. }
  destruct (updateScopes_effect w o a Hw Hov Hg (refines_run _ _ _ Hops refines_default))
    as (w' & o' & Hu & _ & Hall).
  exists w', o'. split; [done|]. intros n p s Hn Hs.
  destruct (Hall n p s Hn Hs) as (s' & Hs' & Hname & Ho & Hst & Hc). exists s'. repeat (split; [done|]).
  intros sev h arg Harg. unfold log_print, enabled, getErrorStruct, callHandlers.
  rewrite Hs', Ho. destruct (sev <=? _)%Z; [|done]. rewrite Harg. cbn. by rewrite app_nil_r.
Qed.
End Scopes.

(** ** Concrete instances

    Values are strings; the runtime doubles the capacity of short slices. *)

#[export] Instance string_values : GoValue string := {
  as_string := Some;
  as_error := λ _, None;
  of_string := λ s, s;
  fmt_v := λ v, default "<nil>" v;
  fmt_T := λ _, "string";
  Sprint := λ l, Join l "";
  Sprintf := λ s _, s
}.

Definition double_cap (old needed : nat) : nat := if 2 * old <? needed then needed else 2 * old.

Definition ok_state {A B} (d : A) (r : result string (A * B)) : A := match r with Ok (a, _) => a | _ => d end.

Definition w0 : logging (V:=string) := empty_logging.
Definition w1 : logging (V:=string) := ok_state w0 (registerDefaultScope w0).
Definition w2 : logging (V:=string) := ok_state w1 (RegisterScope w1 "klog" "" 0).

Lemma w2_reachable : rtc (log_step double_cap) w0 w2.
Proof.
  eapply rtc_l; [by eapply (step_register double_cap w0 DefaultScopeName "Unscoped logging messages." 1)|].
  eapply rtc_l; [by eapply (step_register double_cap w1 "klog" "" 0)|]. apply rtc_refl.
Qed.

Lemma registry_well_formed_witness :
  (∀ n p, scopes w2 !! n = Some p → bad_name n = false ∧ ∃ s, heap w2 !! p = Some s ∧ Name s = n) ∧
  (∀ p s, heap w2 !! p = Some s → length (contents (arrays w2) (labelKeys s)) = s_len (labelKeys s)) ∧
  (∀ n p, FindScope w2 n = Some p → FindScope w2 n = Some p).
Proof. apply (registry_well_formed double_cap w2 w2); [apply w2_reachable|apply rtc_refl]. Defined.

Lemma WithLabels_independent_witness : ∃ s w' q t,
  heap w2 !! 0 = Some s ∧
  WithLabels double_cap w2 0 ["k"; "v"] = Ok (w', q) ∧ heap w' !! q = Some t ∧
  contents (arrays w') (labelKeys t) = ["k"] ∧ labels t !! "k" = Some "v".
Proof.
  destruct (heap w2 !! 0) as [s|] eqn:Hs; [|discriminate Hs].
  destruct (WithLabels_independent double_cap w2 0 s [("k", "v")] ["k"] w2_reachable Hs
    ltac:(repeat constructor)) as (w' & q & t & H1 & _ & H2 & H3 & H4 & _).
  vm_compute in Hs. injection Hs as <-. eexists _, w', q, t. split; [done|]. split; [exact H1|]. split; [exact H2|].
  split; [rewrite H3; done|]. rewrite H4. done.
Defined.

Lemma configure_follows_options_witness :
  let ops := [OpOutput "klog" DebugLevel] in
  let o := foldl run_op DefaultOptions ops in
  ∃ w' o', updateScopes o w2 = (w', o', Ok tt) ∧
    ∃ p s', FindScope w2 "klog" = Some p ∧ heap w' !! p = Some s' ∧ sc_outputLevel s' = DebugLevel.
Proof.
  intros ops o.
  destruct (configure_follows_options double_cap w2 ops w2_reachable) as (w' & o' & Hu & Hall);
    [done|by repeat constructor|done|].
  exists w', o'. split; [exact Hu|].
  destruct (scopes w2 !! "klog") as [p|] eqn:Hp; [|discriminate Hp].
  destruct (heap w2 !! p) as [s|] eqn:Hs.
  2:{ vm_compute in Hp. injection Hp as <-. discriminate Hs. }
  destruct (Hall "klog" p s Hp Hs) as (s' & Hs' & _ & Hl & _). by exists p, s'.
Defined.

(** Two copies of a scope with three labels share the room behind the keys:
    labelling the scope again renames the last label of the first copy. *)
Lemma label_keys_clobbered :
  let wa := ok_state w2 (WithLabels double_cap w2 0 ["a"; "1"; "b"; "2"; "c"; "3"]) in
  let wb := ok_state wa (WithLabels double_cap wa 2 ["x"; "4"]) in
  let wc := ok_state wb (WithLabels double_cap wb 2 ["y"; "5"]) in
  (s ← heap wb !! 3; Some (contents (arrays wb) (labelKeys s))) = Some ["a"; "b"; "c"; "x"] ∧
  (s ← heap wc !! 3; Some (contents (arrays wc) (labelKeys s))) = Some ["a"; "b"; "c"; "y"].
Proof. by vm_compute. Qed.

(** An entry for the unregistered scope "grpc" ends the processing of the
    list: the level asked for after it is not set. *)
Lemma grpc_entry_ends_list :
  let '(w', _, r) := updateScopes (set_levels DefaultOptions "grpc:debug,klog:debug" "" "default:none" false) w2 in
  r = Ok tt ∧ (p ← FindScope w' "klog"; s ← heap w' !! p; Some (sc_outputLevel s)) = Some InfoLevel.
Proof. by vm_compute. Qed.

(** With the level "none" a fatal message neither is written nor exits. *)
Lemma fatal_without_exit core :
  Fatal [ZapLogHandlerCallbackFunc core] (scope_SetOutputLevel 0 NoneLevel w2) 0 ["bye"] = Ok [] ∧
  Fatal [ZapLogHandlerCallbackFunc core] w2 0 ["bye"] = Ok [Written (mk_entry "bye" ZFatal "" None false []); Exit 1].
Proof. split; by vm_compute. Qed.
