(* ===== verification/LogFormat.v ===== *)
(** * Time stamps of the log (pkg/log/config.go, formatDate)

    The encoder writes the 27 bytes of a time stamp one by one.  The theorem is
    that sorting time stamps as strings sorts them in time. *)

From Stdlib Require Import Ascii.
From S2P Require Export GoStrings.

(** What [t.UTC()] yields: the parts of [Date], [Clock] and [Nanosecond]. *)
Record civil := mk_civil {
  year : Z; month : Z; day : Z; hour : Z; minute : Z; second : Z; nanosecond : Z
}.

Definition micros (t : civil) : Z := Z.quot (nanosecond t) 1000.

(** [byte(z) + '0'], in eight bits *)
Definition digit (z : Z) : ascii := byte_of (wrap_u 8 (wrap_u 8 z + 48)).

(** [(z / d) % 10], with Go's truncating operators *)
Definition place (z d : Z) : Z := Z.rem (Z.quot z d) 10.

Definition formatDate (t : civil) : string :=
  let m := micros t in
  Strings.String.string_of_list_ascii [
    digit (place (year t) 1000); digit (place (year t) 100);
    digit (place (year t) 10); digit (Z.rem (year t) 10); "-";
    digit (Z.quot (month t) 10); digit (Z.rem (month t) 10); "-";
    digit (Z.quot (day t) 10); digit (Z.rem (day t) 10); "T";
    digit (Z.quot (hour t) 10); digit (Z.rem (hour t) 10); ":";
    digit (Z.quot (minute t) 10); digit (Z.rem (minute t) 10); ":";
    digit (Z.quot (second t) 10); digit (Z.rem (second t) 10); ".";
    digit (place m 100000); digit (place m 10000); digit (place m 1000);
    digit (place m 100); digit (place m 10); digit (Z.rem m 10); "Z"]%char.

Example formatDate_example :
  formatDate (mk_civil 2024 2 9 23 5 7 120034567) = "2024-02-09T23:05:07.120034Z".
Proof. reflexivity. Qed.

(** ** Numbers in fixed width *)

(** [k] decimal digits of [z] *)
Fixpoint pad (k : nat) (z : Z) : string :=
  match k with
  | O => ""
  | S k => String (digit (place z (10 ^ Z.of_nat k))) (pad k z)
  end.

Definition civil_ok (t : civil) : Prop :=
  (0 ≤ year t < 10000 ∧ 0 ≤ month t < 100 ∧ 0 ≤ day t < 100 ∧ 0 ≤ hour t < 100 ∧
   0 ≤ minute t < 100 ∧ 0 ≤ second t < 100 ∧ 0 ≤ nanosecond t < 1000000000)%Z.

Definition fields (t : civil) : list Z :=
  [year t; month t; day t; hour t; minute t; second t; micros t].

Fixpoint lex (a b : list Z) : comparison :=
  match a, b with
  | x :: a, y :: b => match Z.compare x y with Eq => lex a b | c => c end
  | _, _ => Eq
  end.

Lemma place_small z : (0 ≤ z < 100)%Z → place z 10 = Z.quot z 10.
Proof.
  intros Hz. unfold place. rewrite Z.quot_div_nonneg by lia. apply Z.rem_small.
  split; [apply Z.div_pos; lia|]. apply Z.div_lt_upper_bound; lia.
Qed.

Lemma place_1 z : place z 1 = Z.rem z 10.
Proof. unfold place. by rewrite Z.quot_1_r. Qed.

Lemma formatDate_pad t : civil_ok t →
  formatDate t = pad 4 (year t) +:+ "-" +:+ pad 2 (month t) +:+ "-" +:+ pad 2 (day t) +:+ "T" +:+
    pad 2 (hour t) +:+ ":" +:+ pad 2 (minute t) +:+ ":" +:+ pad 2 (second t) +:+ "." +:+ pad 6 (micros t) +:+ "Z".
Proof.
  intros (_ & Hm & Hd & Hh & Hmin & Hs & _). unfold formatDate. cbn [pad String.append Strings.String.string_of_list_ascii].
  change (10 ^ Z.of_nat 0)%Z with 1%Z. rewrite !place_1.
  change (10 ^ Z.of_nat 1)%Z with 10%Z. by rewrite (place_small (month t)), (place_small (day t)), (place_small (hour t)), (place_small (minute t)), (place_small (second t)) by done.
Qed.

(** ** Comparing strings *)

Lemma compare_app a b x y : String.length a = String.length b →
  String.compare (a +:+ x) (b +:+ y) =
  match String.compare a b with Eq => String.compare x y | c => c end.
Proof.
  revert b. induction a as [|c a IH]; intros [|d b]; cbn; try done. intros [= Hl].
  destruct (Ascii.compare c d); [by apply IH|done..].
Qed.

Lemma compare_refl s : String.compare s s = Eq.
Proof.
  induction s as [|c s IH]; cbn; [done|]. unfold Ascii.compare. by rewrite N.compare_refl.
Qed.

Lemma digit_compare x y : (0 ≤ x < 10)%Z → (0 ≤ y < 10)%Z → Ascii.compare (digit x) (digit y) = Z.compare x y.
Proof.
  intros Hx Hy. unfold Ascii.compare.
  assert (∀ z, (0 ≤ z < 10)%Z → N_of_ascii (digit z) = Z.to_N (z + 48)) as Hd.
  { intros z Hz. unfold digit, wrap_u, byte_of. rewrite !Z.mod_small by (rewrite ?Z.mod_small; lia).
    apply N_ascii_embedding. lia. }
  rewrite !Hd, Z2N.inj_compare by lia. rewrite !(Z.add_comm _ 48). apply Z.add_compare_mono_l.
Qed.

Lemma place_range z d : (0 ≤ z)%Z → (0 < d)%Z → (0 ≤ place z d < 10)%Z.
Proof.
  intros Hz Hd. unfold place. rewrite Z.quot_div_nonneg by lia.
  rewrite Z.rem_mod_nonneg by (try lia; apply Z.div_pos; lia). apply Z.mod_pos_bound. lia.
Qed.

Lemma pad_length k z : String.length (pad k z) = k.
Proof. induction k; cbn; [done|]. by f_equal. Qed.

(** the digits of a number depend on the number modulo a power of ten only *)
Lemma place_mod z k j : (0 ≤ z)%Z → j < k →
  place (z mod 10 ^ Z.of_nat k) (10 ^ Z.of_nat j) = place z (10 ^ Z.of_nat j).
Proof.
  intros Hz Hj. unfold place.
  assert (0 < 10 ^ Z.of_nat j)%Z as Hp by (apply Z.pow_pos_nonneg; lia).
  assert (0 < 10 ^ Z.of_nat k)%Z as Hk by (apply Z.pow_pos_nonneg; lia).
  pose proof (Z.mod_pos_bound z (10 ^ Z.of_nat k) Hk) as Hb.
  rewrite !Z.quot_div_nonneg by lia. rewrite !Z.rem_mod_nonneg by (try lia; apply Z.div_pos; lia).
  replace (10 ^ Z.of_nat k)%Z with (10 ^ Z.of_nat j * (10 * 10 ^ (Z.of_nat k - Z.of_nat j - 1)))%Z.
  2:{ rewrite <- Z.pow_succ_r by lia. rewrite <- Z.pow_add_r by lia. f_equal. lia. }
  set (q := (10 ^ (Z.of_nat k - Z.of_nat j - 1))%Z).
  assert (0 < q)%Z by (apply Z.pow_pos_nonneg; lia).
  rewrite Z.rem_mul_r by lia. rewrite (Z.mul_comm (10 ^ Z.of_nat j)), Z.div_add by lia.
  rewrite (Z.div_small (z mod 10 ^ Z.of_nat j)), Z.add_0_l by (apply Z.mod_pos_bound; lia).
  rewrite Z.rem_mul_r by lia. rewrite (Z.mul_comm 10), Z.mod_add, Z.mod_mod by lia. done.
Qed.

Lemma pad_mod k z : (0 ≤ z)%Z → pad k (z mod 10 ^ Z.of_nat k) = pad k z.
Proof.
  intros Hz. assert (∀ j, j ≤ k → pad j (z mod 10 ^ Z.of_nat k) = pad j z) as Ha; [|by apply Ha].
  induction j as [|j IH]; intros Hj; [done|]. cbn. by rewrite place_mod, IH by lia.
Qed.

Lemma pad_compare k x y : (0 ≤ x < 10 ^ Z.of_nat k)%Z → (0 ≤ y < 10 ^ Z.of_nat k)%Z →
  String.compare (pad k x) (pad k y) = Z.compare x y.
Proof.
  revert x y. induction k as [|k IH]; intros x y Hx Hy.
  { cbn in *. by replace x with y by lia; rewrite Z.compare_refl. }
  set (p := (10 ^ Z.of_nat k)%Z) in *. assert (0 < p)%Z as Hp by (apply Z.pow_pos_nonneg; lia).
  assert (10 ^ Z.of_nat (S k) = 10 * p)%Z as E by (rewrite Nat2Z.inj_succ, Z.pow_succ_r by lia; done).
  rewrite E in Hx, Hy.
  assert (∀ z, (0 ≤ z < 10 * p)%Z → place z p = (z / p)%Z ∧ (0 ≤ z / p < 10)%Z) as Hplace.
  { intros z Hz. assert (0 ≤ z / p < 10)%Z as Hb.
    { split; [apply Z.div_pos; lia|]. apply Z.div_lt_upper_bound; lia. }
    split; [|done]. unfold place. rewrite Z.quot_div_nonneg by lia. by apply Z.rem_small. }
  destruct (Hplace x Hx) as [Px Bx], (Hplace y Hy) as [Py By].
  cbn [pad String.compare]. fold p. rewrite Px, Py, digit_compare by done.
  pose proof (Z.div_mod x p ltac:(lia)) as Dx. pose proof (Z.div_mod y p ltac:(lia)) as Dy.
  pose proof (Z.mod_pos_bound x p Hp) as Mx. pose proof (Z.mod_pos_bound y p Hp) as My.
  destruct (Z.compare_spec (x / p) (y / p)) as [Eq|Lt|Gt].
  - rewrite <- (pad_mod k x), <- (pad_mod k y) by lia. fold p. rewrite IH by done.
    rewrite Dx at 2. rewrite Dy at 2. rewrite Eq. symmetry. apply Z.add_compare_mono_l.
  - symmetry. apply Z.compare_lt_iff. nia.
  - symmetry. apply Z.compare_gt_iff. nia.
Qed.

(** one field and the separator behind it *)
Lemma field_compare k x y sep a b : (0 ≤ x < 10 ^ Z.of_nat k)%Z → (0 ≤ y < 10 ^ Z.of_nat k)%Z →
  String.compare (pad k x +:+ sep +:+ a) (pad k y +:+ sep +:+ b) =
  match Z.compare x y with Eq => String.compare a b | c => c end.
Proof.
  intros Hx Hy. rewrite compare_app by (by rewrite !pad_length). rewrite pad_compare by done.
  rewrite compare_app by done. by rewrite compare_refl.
Qed.

(** Time stamps of the years 0 to 9999 compare as strings exactly as
    their instants compare in time, down to the microsecond; in particular
    equal time stamps are the same microsecond. *)
Theorem formatDate_compare t u : civil_ok t → civil_ok u →
  String.compare (formatDate t) (formatDate u) = lex (fields t) (fields u).
Proof.
  intros Ht Hu. rewrite !formatDate_pad by done.
  assert (∀ t, civil_ok t → 0 ≤ micros t < 1000000)%Z as Hm.
  { intros v (_ & _ & _ & _ & _ & _ & Hn). unfold micros. rewrite Z.quot_div_nonneg by lia.
    split; [apply Z.div_pos; lia|]. apply Z.div_lt_upper_bound; lia. }
  pose proof (Hm t Ht). pose proof (Hm u Hu).
  destruct Ht as (? & ? & ? & ? & ? & ? & _), Hu as (? & ? & ? & ? & ? & ? & _).
  rewrite !field_compare by (cbn; lia). cbn [lex fields].
  rewrite (compare_app (pad 6 _)) by (by rewrite !pad_length). by rewrite pad_compare by (cbn; lia).
Qed.

Lemma formatDate_compare_witness :
  String.compare (formatDate (mk_civil 2024 2 9 23 5 7 120034567)) (formatDate (mk_civil 2024 2 9 23 5 7 120035000)) = Lt.
Proof.
  rewrite formatDate_compare; [done|unfold civil_ok; cbn; lia|unfold civil_ok; cbn; lia].
Defined.
