(* ===== verification/LogCores.v ===== *)
(** * The cores that tee log entries away (pkg/log/stackdriver.go, uds.go)

    Two implementations of [zapcore.Core]: one converts the fields of an entry
    and hands it to the client of Google Cloud Logging, one encodes it and keeps
    it until [Sync] posts everything to a server behind a Unix socket.

    Levels are zap's numbers.  The clients, the JSON encoder and the conversions
    of float formats are the environment; an [interface{}] is a value of the
    class [Boxed], with the type assertions the code makes. *)

From S2P Require Export GoStrings.

Local Open Scope string_scope.
Local Open Scope nat_scope.
Local Open Scope list_scope.

(** ** Levels *)

Module Zap.
Definition DebugLevel : Z := -1.
Definition InfoLevel : Z := 0.
Definition WarnLevel : Z := 1.
Definition ErrorLevel : Z := 2.
Definition DPanicLevel : Z := 3.
Definition PanicLevel : Z := 4.
Definition FatalLevel : Z := 5.
Definition all_levels : list Z := [DebugLevel; InfoLevel; WarnLevel; ErrorLevel; DPanicLevel; PanicLevel; FatalLevel].
End Zap.

Record entry := mk_entry { en_Level : Z; en_LoggerName : string; en_Message : string; en_Time : Z }.

(** the loop that looks for the lowest level the base core has enabled; the
    field keeps its zero value when there is none *)
Fixpoint minimum_level (baseEnabled : Z → bool) (levels : list Z) : Z :=
  match levels with
  | [] => 0
  | l :: levels => if baseEnabled l then l else minimum_level baseEnabled levels
  end.

(** ** Stackdriver *)

Inductive Severity := Default | Debug | Info | Warning | Error | Critical.

Definition stackdriverSeverityMapping : gmap Z Severity :=
  list_to_map [(Zap.DebugLevel, Debug); (Zap.InfoLevel, Info); (Zap.WarnLevel, Warning); (Zap.ErrorLevel, Error);
    (Zap.DPanicLevel, Critical); (Zap.FatalLevel, Critical); (Zap.PanicLevel, Critical)].

Definition severity_string (s : Severity) : string :=
  match s with
  | Default => "Default" | Debug => "Debug" | Info => "Info" | Warning => "Warning" | Error => "Error"
  | Critical => "Critical"
  end.

(** a level that is not in the map reads as the zero value, which is [Default] *)
Definition encodeStackdriverLevel (l : Z) : string := severity_string (default Default (stackdriverSeverityMapping !! l)).

Inductive FieldType :=
  | UnknownType | ArrayMarshalerType | ObjectMarshalerType | BinaryType | BoolType | ByteStringType
  | Complex128Type | Complex64Type | DurationType | Float64Type | Float32Type | Int64Type | Int32Type
  | Int16Type | Int8Type | StringType | TimeType | TimeFullType | Uint64Type | Uint32Type | Uint16Type
  | Uint8Type | UintptrType | ReflectType | NamespaceType | StringerType | ErrorType | SkipType.

(** what the code does with an [interface{}] *)
Class Boxed (I : Type) := {
  as_Time : I → option Z;
  as_Stringer : I → option string;
  as_Error : I → option string;
  Sprint_ : I → string;
  duration_String : Z → string
}.

Section Stackdriver.
Context {I : Type} `{Boxed I}.

Record Field := mk_field { fd_Key : string; fd_Type : FieldType; fd_Integer : Z; fd_String : string; fd_Interface : I }.

(** the values of a payload *)
Inductive value :=
  | VInterface (i : I)
  | VBool (b : bool)
  | VString (s : string)
  | VInt (width : Z) (z : Z)
  | VUint (width : Z) (z : Z)
  | VFloat (width : Z) (z : Z)               (* the integer [z] as a float *)
  | VTime (t : Z).

Definition type_assertion {A} (r : option A) : result string A :=
  match r with Some a => Ok a | None => Panic (Explicit "interface conversion") end.

(** what [clone] stores for a field; [None] for a field that is skipped.
    [Integer] is an int64. *)
Definition field_value (f : Field) : result string (option value) :=
  let z := fd_Integer f in
  match fd_Type f with
  | BoolType => Ok (Some (VBool (z =? 1)%Z))
  | ByteStringType => Ok (Some (VString (fd_String f)))
  | Complex128Type => Ok (Some (VString (Sprint_ (fd_Interface f))))
  | Complex64Type => Ok (Some (VString (Sprint_ (fd_Interface f))))
  | DurationType => Ok (Some (VString (duration_String z)))
  | Float64Type => Ok (Some (VFloat 64 z))
  | Float32Type => Ok (Some (VFloat 32 z))
  | Int64Type => Ok (Some (VInt 64 z))
  | Int32Type => Ok (Some (VInt 32 (wrap_s 32 z)))
  | Int16Type => Ok (Some (VInt 16 (wrap_s 16 z)))
  | Int8Type => Ok (Some (VInt 8 (wrap_s 8 z)))
  | StringType => Ok (Some (VString (fd_String f)))
  | TimeType => t ← type_assertion (as_Time (fd_Interface f)); Ok (Some (VTime t))
  | Uint64Type => Ok (Some (VUint 64 (wrap_u 64 z)))
  | Uint32Type => Ok (Some (VUint 32 (wrap_u 32 z)))
  | Uint16Type => Ok (Some (VUint 16 (wrap_u 16 z)))
  | Uint8Type => Ok (Some (VUint 8 (wrap_u 8 z)))
  | UintptrType => Ok (Some (VUint 64 (wrap_u 64 z)))
  | StringerType => s ← type_assertion (as_Stringer (fd_Interface f)); Ok (Some (VString s))
  | ErrorType => s ← type_assertion (as_Error (fd_Interface f)); Ok (Some (VString s))
  | SkipType => Ok None
  | ArrayMarshalerType | ObjectMarshalerType | BinaryType | ReflectType => Ok (Some (VInterface (fd_Interface f)))
  | UnknownType | TimeFullType | NamespaceType => Ok (Some (VInterface (fd_Interface f)))
  end.

(** the second loop of [clone] *)
Fixpoint clone_fields (clone : gmap string value) (newFields : list Field) : result string (gmap string value) :=
  match newFields with
  | [] => Ok clone
  | f :: newFields =>
      v ← field_value f;
      clone_fields (match v with Some v => <[fd_Key f := v]> clone | None => clone end) newFields
  end.

(** [clone] copies the map first, so the original is not changed *)
Definition clone (orig : gmap string value) (newFields : list Field) : result string (gmap string value) :=
  clone_fields orig newFields.

(** what has been handed to the client *)
Record stackdriver_entry := mk_sd_entry { sd_Timestamp : Z; sd_Severity : Severity; sd_Payload : gmap string value }.

Record stackdriverCore := mk_sd { sd_minimumLevel : Z; sd_fields : gmap string value }.

(** [teeToStackdriver]: the new core and the close function, or an error *)
Definition teeToStackdriver (baseEnabled : Z → bool) (NewClient : string → string → option string)
    (project quotaProject : string) : result string stackdriverCore :=
  if String.eqb project "" then Err "a project must be provided for stackdriver export" else
  match NewClient project quotaProject with
  | Some e => Err e
  | None => Ok (mk_sd (minimum_level baseEnabled Zap.all_levels) ∅)
  end.

Definition sd_Enabled (sc : stackdriverCore) (l : Z) : bool := (sd_minimumLevel sc <=? l)%Z.

Definition sd_With (sc : stackdriverCore) (fields : list Field) : result string stackdriverCore :=
  fs ← clone (sd_fields sc) fields; Ok (mk_sd (sd_minimumLevel sc) fs).

(** whether the entry is to be written by this core too *)
Definition sd_Check (sc : stackdriverCore) (e : entry) : bool := sd_Enabled sc (en_Level e).

Definition sd_Sync (flush : option string) : option string :=
  match flush with Some err => Some ("error writing logs to Stackdriver: " +:+ err) | None => None end.

Definition sd_Write (sc : stackdriverCore) (e : entry) (fields : list Field) : result string stackdriver_entry :=
  let severity := match stackdriverSeverityMapping !! en_Level e with Some s => s | None => Default end in
  payload ← clone (sd_fields sc) fields;
  let payload := <["logger" := VString (en_LoggerName e)]> payload in
  let payload := <["message" := VString (en_Message e)]> payload in
  Ok (mk_sd_entry (en_Time e) severity payload).

(** *** The payload *)

(** the last of the fields with this key that is not skipped *)
Definition last_value (k : string) (fields : list Field) : option value :=
  foldl (λ acc f, if String.eqb (fd_Key f) k
                  then match field_value f with Ok (Some v) => Some v | _ => acc end else acc) None fields.

Lemma last_value_acc k fields acc :
  foldl (λ acc f, if String.eqb (fd_Key f) k
                  then match field_value f with Ok (Some v) => Some v | _ => acc end else acc) acc fields =
  match last_value k fields with Some v => Some v | None => acc end.
Proof.
  unfold last_value. revert acc. induction fields as [|f fs IH]; intros acc; [done|]. cbn [foldl].
  rewrite IH. symmetry. rewrite IH. destruct (String.eqb _ _); [|by destruct (foldl _ _ _)].
  destruct (field_value f) as [[v|]|?|?]; by destruct (foldl _ _ _).
Qed.

Lemma last_value_cons k f fields : last_value k (f :: fields) =
  match last_value k fields with
  | Some v => Some v
  | None => if String.eqb (fd_Key f) k then match field_value f with Ok (Some v) => Some v | _ => None end else None
  end.
Proof. exact (last_value_acc k fields _). Qed.

Lemma clone_spec orig fields m : clone orig fields = Ok m →
  ∀ k, m !! k = match last_value k fields with Some v => Some v | None => orig !! k end.
Proof.
  unfold clone. revert orig. induction fields as [|f fs IH]; intros orig; cbn [clone_fields].
  { intros [= <-] k. done. }
  destruct (field_value f) as [v|e|p] eqn:E; [|done..]. intros Hc k. cbn in Hc. rewrite (IH _ Hc k).
  rewrite last_value_cons, E. destruct (last_value k fs); [done|]. destruct v as [v|]; [|by destruct (String.eqb _ _)].
  rewrite lookup_insert. destruct (String.eqb_spec (fd_Key f) k); by case_decide.
Qed.
End Stackdriver.

(** ** The Unix socket *)

(** [uc_enc]: there is an encoder; [uc_posted]: what has been posted, in order *)
Record udsCore := mk_uds {
  uc_minimumLevel : Z;
  uc_url : string;
  uc_enc : bool;
  uc_buffers : list string;
  uc_posted : list (list string)
}.

Definition teeToUDSServer (baseEnabled : Z → bool) (path : string) : udsCore :=
  mk_uds (minimum_level baseEnabled Zap.all_levels) ("http://unix" +:+ path) true [] [].

Definition uds_Enabled (u : udsCore) (l : Z) : bool := (uc_minimumLevel u <=? l)%Z.

(** only the client and the level are passed on *)
Definition uds_With (u : udsCore) : udsCore := mk_uds (uc_minimumLevel u) "" false [] [].

Definition uds_Check (u : udsCore) (e : entry) : bool := uds_Enabled u (en_Level e).

Definition logsFromBuffer (u : udsCore) : list string * udsCore :=
  (uc_buffers u, mk_uds (uc_minimumLevel u) (uc_url u) (uc_enc u) [] (uc_posted u)).

(** the request of [Sync]; [post]: the status the server answers, as a number and
    as a text, or the error *)
Definition uds_post (logs : list string) (post : result string (Z * string)) (u : udsCore) : option string * udsCore :=
  let u := mk_uds (uc_minimumLevel u) (uc_url u) (uc_enc u) (uc_buffers u) (uc_posted u ++ [logs]) in
  match post with
  | Err e => (Some ("failed to send logs to uds pserver " +:+ uc_url u +:+ ": " +:+ e), u)
  | Panic _ => (None, u)
  | Ok (StatusCode, Status) =>
      if negb (StatusCode =? 200)%Z
      then (Some ("uds pserver returns non-ok status " +:+ uc_url u +:+ ": " +:+ Status), u)
      else (None, u)
  end.

Definition uds_Sync (post : result string (Z * string)) (u : udsCore) : option string * udsCore :=
  let '(logs, u) := logsFromBuffer u in uds_post logs post u.

(** [encoded]: what the encoder makes of the entry and its fields *)
Definition uds_Write (encoded : result string string) (u : udsCore) : result string unit * udsCore :=
  if negb (uc_enc u) then (Panic NilDeref, u) else
  match encoded with
  | Err e => (Err ("failed to write log to uds logger: " +:+ e), u)
  | Panic p => (Panic p, u)
  | Ok line => (Ok (), mk_uds (uc_minimumLevel u) (uc_url u) (uc_enc u) (uc_buffers u ++ [line]) (uc_posted u))
  end.

(** The loggers and whoever synchronises them, in any order.  Each touches the
    buffers under the lock, but [Sync] posts what it took without it. *)
Record uds_state := mk_ustate {
  us_written : list string;            (* what was written without an error *)
  us_core : udsCore;
  us_taken : list (list string);       (* what the calls of Sync took *)
  us_flight : list (list string)       (* what is still to be posted *)
}.

Inductive uds_step : uds_state → uds_state → Prop :=
  | uds_write s encoded r u : uds_Write encoded (us_core s) = (r, u) →
      uds_step s (mk_ustate (match encoded, r with Ok line, Ok _ => us_written s ++ [line] | _, _ => us_written s end)
                    u (us_taken s) (us_flight s))
  | uds_take s logs u : logsFromBuffer (us_core s) = (logs, u) →
      uds_step s (mk_ustate (us_written s) u (us_taken s ++ [logs]) (us_flight s ++ [logs]))
  | uds_sends s logs before after post : us_flight s = before ++ logs :: after →
      uds_step s (mk_ustate (us_written s) (uds_post logs post (us_core s)).2 (us_taken s) (before ++ after)).

Lemma uds_post_posted logs post u :
  uc_posted (uds_post logs post u).2 = uc_posted u ++ [logs] ∧ uc_buffers (uds_post logs post u).2 = uc_buffers u.
Proof. unfold uds_post. destruct post as [[code status]|e|p]; [destruct (negb _)|..]; done. Qed.

Definition uds_ok (s : uds_state) : Prop :=
  concat (us_taken s) ++ uc_buffers (us_core s) = us_written s ∧
  uc_posted (us_core s) ++ us_flight s ≡ₚ us_taken s.

Lemma uds_step_ok : invariant uds_step uds_ok.
Proof.
  intros s s' [Hs Hp] Hst. unfold uds_ok. destruct Hst as [s encoded r u Hw|s logs u Ht|s logs b a post Hf]; cbn.
  - revert Hw. unfold uds_Write. destruct (negb _); [intros [= <- <-]; by destruct encoded|].
    destruct encoded; intros [= <- <-]; [|done..]. cbn. by rewrite app_assoc, Hs.
  - revert Ht. unfold logsFromBuffer. intros [= <- <-]. cbn.
    rewrite concat_app, app_assoc, Hp. split; [|done]. cbn. by rewrite !app_nil_r.
  - destruct (uds_post_posted logs post (us_core s)) as [-> ->]. split; [done|].
    rewrite <- Hp, Hf, <- app_assoc. by rewrite <- Permutation_middle.
Qed.

(** ** Properties *)

(** The core for the Unix socket loses no line before it is posted and
    posts none twice: whatever the interleaving of writes and synchronisations,
    what the calls of [Sync] took, in the order in which they took it, followed
    by what is buffered, is exactly what was written without an error; and what
    was taken is what has been posted and what is about to be.  (A batch whose
    post fails is not posted again.) *)
Theorem uds_lines_once baseEnabled path s :
  rtc uds_step (mk_ustate [] (teeToUDSServer baseEnabled path) [] []) s →
  concat (us_taken s) ++ uc_buffers (us_core s) = us_written s ∧
  uc_posted (us_core s) ++ us_flight s ≡ₚ us_taken s.
Proof. intros Hr. by apply (invariant_reachable _ _ _ _ uds_step_ok) in Hr. Qed.

(** two batches that are posted in the other order *)
Lemma uds_lines_once_witness :
  let u0 := teeToUDSServer (λ _, true) "/log" in
  let u := (uds_post ["a"] (Err "no server") (uds_post ["b"] (Ok (200%Z, "200 OK")) u0).2).2 in
  uc_posted u ≡ₚ [["a"]; ["b"]].
Proof.
  intros u0 u.
  destruct (uds_lines_once (λ _, true) "/log" (mk_ustate ["a"; "b"] u [["a"]; ["b"]] [])) as [_ H]; [|exact H].
  eapply rtc_l; [by apply (uds_write (mk_ustate [] u0 [] []) (Ok "a"))|].
  eapply rtc_l; [by apply uds_take|].
  eapply rtc_l; [by apply (uds_write _ (Ok "b"))|].
  eapply rtc_l; [by apply uds_take|].
  eapply rtc_l; [by apply (uds_sends _ ["b"] [["a"]] [] (Ok (200%Z, "200 OK")))|].
  eapply rtc_l; [by apply (uds_sends _ ["a"] [] [] (Err "no server"))|]. apply rtc_refl.
Defined.

(** An entry for Stackdriver carries the logger and the message of the
    entry, and under every other key the last field of the entry that has it, or
    else the field the core was made with; its severity is that of the level. *)
Theorem stackdriver_payload {I : Type} `{Boxed I} (sc : stackdriverCore (I:=I)) e fields se :
  sd_Write sc e fields = Ok se →
  sd_Timestamp se = en_Time e ∧
  severity_string (sd_Severity se) = encodeStackdriverLevel (en_Level e) ∧
  sd_Payload se !! "message" = Some (VString (en_Message e)) ∧
  sd_Payload se !! "logger" = Some (VString (en_LoggerName e)) ∧
  ∀ k, k ≠ "message" → k ≠ "logger" →
    sd_Payload se !! k = match last_value k fields with Some v => Some v | None => sd_fields sc !! k end.
Proof.
  unfold sd_Write. destruct (clone (sd_fields sc) fields) as [m|?|?] eqn:E; [|done..]. intros [= <-].
  cbn [sd_Timestamp sd_Severity sd_Payload]. split; [done|].
  split; [unfold encodeStackdriverLevel; by destruct (_ !! _)|]. split; [by rewrite lookup_insert_eq|].
  split; [rewrite lookup_insert_ne by done; by rewrite lookup_insert_eq|]. intros k H1 H2.
  rewrite !lookup_insert_ne by done. exact (clone_spec _ _ _ E k).
Qed.

Module CoreExample.
#[export] Instance boxed : Boxed string := {
  as_Time := λ _, None; as_Stringer := Some; as_Error := Some; Sprint_ := λ s, s; duration_String := Itoa }.
Definition sc : stackdriverCore (I:=string) := mk_sd Zap.DebugLevel {["app" := VString "lhotse"]}.
Definition fields : list (Field (I:=string)) := [
  mk_field "n" Int32Type 7 "" ""; mk_field "n" Int8Type 300 "" ""; mk_field "app" SkipType 0 "" ""].
End CoreExample.
#[local] Existing Instance CoreExample.boxed.

Lemma stackdriver_payload_witness : ∃ se,
  sd_Write CoreExample.sc (mk_entry Zap.WarnLevel "default" "hello" 5) CoreExample.fields = Ok se ∧
  severity_string (sd_Severity se) = "Warning" ∧
  sd_Payload se !! "n" = Some (VInt 8 44) ∧ sd_Payload se !! "app" = Some (VString "lhotse").
Proof.
  eexists. split; [reflexivity|].
  destruct (stackdriver_payload CoreExample.sc (mk_entry Zap.WarnLevel "default" "hello" 5) CoreExample.fields _ eq_refl)
    as (_ & Hs & _ & _ & Hk).
  split; [exact Hs|]. split; [rewrite (Hk "n") by discriminate; reflexivity|].
  rewrite (Hk "app") by discriminate. reflexivity.
Defined.

(** zap keeps the bits of a float in [Integer]; the code converts the number. *)
Lemma float_field_is_bits : ∃ se : stackdriver_entry (I:=string),
  sd_Write CoreExample.sc (mk_entry 0 "" "" 0) [mk_field "ratio" Float64Type 4607182418800017408 "" ""] = Ok se ∧
  sd_Payload se !! "ratio" = Some (VFloat 64 4607182418800017408).
Proof. by eexists. Qed.

(** A core made with fields has no encoder, and writing to it panics. *)
Lemma with_core_panics baseEnabled path encoded :
  (uds_Write encoded (uds_With (teeToUDSServer baseEnabled path))).1 = Panic NilDeref.
Proof. done. Qed.
