(* ===== verification/Env.v ===== *)
(** * Environment variables (pkg/env/var.go)

    Variables are registered under their name with a default written as a
    string; reading one parses the environment's value or falls back to the
    default.  The environment of the process, and the texts of floats and
    durations, are arguments. *)

From Stdlib Require Import Ascii.
From S2P Require Export GoStrings.

Inductive VarType := STRING | BOOL | INT | FLOAT | DURATION.

#[export] Instance VarType_eq_dec : EqDecision VarType.
Proof. solve_decision. Defined.

Record Var := mk_var {
  Name : string;
  DefaultValue : string;
  Description : string;
  Hidden : bool;
  Deprecated : bool;
  Type_ : VarType
}.

#[export] Instance Var_eq_dec : EqDecision Var.
Proof. solve_decision. Defined.

(** the zero value, which a lookup of a missing name yields *)
Definition zero_var : Var := mk_var "" "" "" false false STRING.

(** ** The registry *)

Abbreviation registry := (gmap string Var).

(** The new registry, and whether the warning about different metadata is
    logged. *)
Definition RegisterVar (allVars : registry) (v : Var) : registry * bool :=
  match allVars !! Name v with
  | Some old =>
      (if String.eqb (Description v) "" then allVars else <[Name v := v]> allVars,
       negb (String.eqb (Description old) (Description v) && String.eqb (DefaultValue old) (DefaultValue v)
             && bool_decide (Type_ old = Type_ v) && Bool.eqb (Deprecated old) (Deprecated v)
             && Bool.eqb (Hidden old) (Hidden v)))
  | None => (<[Name v := v]> allVars, false)
  end.

Definition getVar (allVars : registry) (name : string) : Var := default zero_var (allVars !! name).

Definition FormatBool (b : bool) : string := if b then "true" else "false".

Definition RegisterStringVar (allVars : registry) (name defaultValue description : string) : registry * Var :=
  let allVars := (RegisterVar allVars (mk_var name defaultValue description false false STRING)).1 in
  (allVars, getVar allVars name).

Definition RegisterBoolVar (allVars : registry) (name : string) (defaultValue : bool) (description : string) :
    registry * Var :=
  let allVars := (RegisterVar allVars (mk_var name (FormatBool defaultValue) description false false BOOL)).1 in
  (allVars, getVar allVars name).

Definition RegisterIntVar (allVars : registry) (name : string) (defaultValue : Z) (description : string) :
    registry * Var :=
  let allVars := (RegisterVar allVars (mk_var name (Itoa defaultValue) description false false INT)).1 in
  (allVars, getVar allVars name).

(** the texts of the standard library for a type of numbers: [strconv.FormatFloat]
    and [ParseFloat], or [Duration.String] and [time.ParseDuration], which give
    a value with their error *)
Class NumberText (T : Type) := { format : T → string; parse : string → T * option string }.

(** this one keeps the variable it was given, not the one of the registry *)
Definition RegisterFloatVar {F} `{NumberText F} (allVars : registry) (name : string) (defaultValue : F)
    (description : string) : registry * Var :=
  let v := mk_var name (format defaultValue) description false false FLOAT in ((RegisterVar allVars v).1, v).

Definition RegisterDurationVar {D} `{NumberText D} (allVars : registry) (name : string) (defaultValue : D)
    (description : string) : registry * Var :=
  let allVars := (RegisterVar allVars (mk_var name (format defaultValue) description false false DURATION)).1 in
  (allVars, getVar allVars name).

(** [sort.Slice] by name; [order] is the order in which the map is visited *)
Definition name_le (a b : Var) : Prop := str_le (Name a) (Name b) = true.

#[export] Instance name_le_dec a b : Decision (name_le a b).
Proof. unfold name_le. apply _. Defined.

Definition VarDescriptions (order : list (string * Var)) : list Var := merge_sort name_le order.*2.

(** ** Reading a variable *)

Section Lookup.
Context (LookupEnv : string → option string).

Definition raw_value (v : Var) : string * bool :=
  match LookupEnv (Name v) with
  | Some result => (result, true)
  | None => (DefaultValue v, false)
  end.

Definition StringVar_Lookup (v : Var) : string * bool := raw_value v.
Definition StringVar_Get (v : Var) : string := (StringVar_Lookup v).1.

(** [b, _ = strconv.ParseBool(default)] is false when the default is no boolean *)
Definition BoolVar_Lookup (v : Var) : bool * bool :=
  let '(result, ok) := raw_value v in
  match ParseBool result with
  | Some b => (b, ok)
  | None => (default false (ParseBool (DefaultValue v)), ok)
  end.
Definition BoolVar_Get (v : Var) : bool := (BoolVar_Lookup v).1.

Definition IntVar_Lookup (v : Var) : Z * bool :=
  let '(result, ok) := raw_value v in
  match Atoi result with
  | (i, None) => (i, ok)
  | (_, Some _) => ((Atoi (DefaultValue v)).1, ok)
  end.
Definition IntVar_Get (v : Var) : Z := (IntVar_Lookup v).1.

Definition number_Lookup {T} `{NumberText T} (v : Var) : T * bool :=
  let '(result, ok) := raw_value v in
  match parse result with
  | (x, None) => (x, ok)
  | (_, Some _) => ((parse (DefaultValue v)).1, ok)
  end.

Definition FloatVar_Lookup {F} `{NumberText F} (v : Var) : F * bool := number_Lookup v.
Definition FloatVar_Get {F} `{NumberText F} (v : Var) : F := (FloatVar_Lookup v).1.
Definition DurationVar_Lookup {D} `{NumberText D} (v : Var) : D * bool := number_Lookup v.
Definition DurationVar_Get {D} `{NumberText D} (v : Var) : D := (DurationVar_Lookup v).1.
End Lookup.

(** ** The registry keeps every variable under its own name *)

Definition keyed (allVars : registry) : Prop := ∀ n v, allVars !! n = Some v → Name v = n.

Lemma RegisterVar_keyed allVars v : keyed allVars → keyed (RegisterVar allVars v).1.
Proof.
  intros Hk n u. unfold RegisterVar. destruct (allVars !! Name v); cbn; [case_match; [apply Hk|]|];
    (rewrite lookup_insert; case_decide; [by intros [= <-]|apply Hk]).
Qed.

Lemma RegisterVar_lookup allVars v n :
  (RegisterVar allVars v).1 !! n =
  if decide (Name v = n)
  then match allVars !! n with
       | Some old => Some (if String.eqb (Description v) "" then old else v)
       | None => Some v
       end
  else allVars !! n.
Proof.
  unfold RegisterVar. case_decide as E.
  - subst n. destruct (allVars !! Name v) eqn:Ho; cbn; [|by rewrite lookup_insert_eq].
    case_match; [done|by rewrite lookup_insert_eq].
  - destruct (allVars !! Name v); cbn; [case_match; [done|]|]; by rewrite lookup_insert_ne.
Qed.

Definition register_all (vs : list Var) : registry := foldl (λ m v, (RegisterVar m v).1) ∅ vs.

(** the registration that counts for a name *)
Definition current (vs : list Var) (n : string) : option Var :=
  let mine := filter (λ v, Name v = n) vs in
  match last (filter (λ v, Description v ≠ "") (tail mine)) with
  | Some v => Some v
  | None => head mine
  end.

Lemma register_all_lookup vs n : register_all vs !! n = current vs n.
Proof.
  unfold register_all, current. induction vs as [|v vs IH] using rev_ind; [done|].
  rewrite foldl_snoc, RegisterVar_lookup, IH, filter_app, filter_cons. cbn [filter list_filter].
  case_decide as E; [|by rewrite app_nil_r].
  destruct (filter (λ v, Name v = n) vs) as [|u us]; [done|]. cbn [app tail].
  rewrite filter_app, filter_cons. cbn [filter list_filter head].
  destruct (String.eqb_spec (Description v) "") as [Hd|Hd].
  - rewrite decide_False by (by intros ?). rewrite app_nil_r. by destruct (last _).
  - rewrite decide_True by done. rewrite last_snoc. by destruct (last _).
Qed.

Lemma register_all_keyed vs : keyed (register_all vs).
Proof.
  unfold register_all. induction vs as [|v vs IH] using rev_ind; [by intros ? ?|].
  rewrite foldl_snoc. by apply RegisterVar_keyed.
Qed.

(** ** Sorting by name *)

Lemma compare_Eq s t : String.compare s t = Eq → s = t.
Proof. apply String.compare_eq_iff. Qed.

Lemma name_le_spec a b : name_le a b ↔ String.compare (Name b) (Name a) ≠ Lt.
Proof. unfold name_le, str_le, str_lt. by destruct (String.compare _ _). Qed.

Lemma ascii_compare_trans a b c : Ascii.compare a b = Lt → Ascii.compare b c = Lt → Ascii.compare a c = Lt.
Proof. unfold Ascii.compare. rewrite !N.compare_lt_iff. lia. Qed.

Lemma str_compare_trans s t u : String.compare s t = Lt → String.compare t u = Lt → String.compare s u = Lt.
Proof.
  revert t u. induction s as [|a s IH]; intros [|b t] [|c u]; cbn; try done.
  destruct (Ascii.compare a b) eqn:E1, (Ascii.compare b c) eqn:E2; try done.
  - apply Ascii.compare_eq_iff in E1 as ->. rewrite E2. by apply IH.
  - apply Ascii.compare_eq_iff in E1 as ->. by rewrite E2.
  - apply Ascii.compare_eq_iff in E2 as ->. by rewrite E1.
  - by rewrite (ascii_compare_trans _ _ _ E1 E2).
Qed.

#[export] Instance name_le_trans : Transitive name_le.
Proof.
  intros a b c. rewrite !name_le_spec. intros H1 H2 H3.
  destruct (String.compare (Name b) (Name a)) eqn:E1; [|done|].
  - apply compare_Eq in E1. rewrite E1 in *. done.
  - rewrite String.compare_antisym in E1. destruct (String.compare (Name a) (Name b)) eqn:E2; try done.
    apply H2. by eapply str_compare_trans.
Qed.

#[export] Instance name_le_total : Total name_le.
Proof.
  intros a b. rewrite !name_le_spec, (String.compare_antisym (Name a)).
  destruct (String.compare (Name b) (Name a)); cbn; auto.
Qed.

(** two variables of one registry that are both ways in order are the same *)
Lemma name_le_antisym allVars a b : keyed allVars →
  allVars !! Name a = Some a → allVars !! Name b = Some b → name_le a b → name_le b a → a = b.
Proof.
  intros Hk Ha Hb. rewrite !name_le_spec, (String.compare_antisym (Name a)).
  destruct (String.compare (Name b) (Name a)) eqn:E; cbn; try done. intros _ _.
  apply compare_Eq in E. congruence.
Qed.

Lemma sorted_perm_unique (R : Var → Var → Prop) l l' : Transitive R →
  (∀ x y, x ∈ l → y ∈ l → R x y → R y x → x = y) →
  StronglySorted R l → StronglySorted R l' → l ≡ₚ l' → l = l'.
Proof.
  intros HT. revert l'. induction l as [|x l IH]; intros l' Hanti Hl Hl' Hp.
  { by apply Permutation_nil in Hp. }
  destruct l' as [|y l']; [by apply Permutation_sym, Permutation_nil in Hp|].
  apply StronglySorted_inv in Hl as [Hl Hx]. apply StronglySorted_inv in Hl' as [Hl' Hy].
  rewrite Forall_forall in Hx, Hy.
  assert (x = y) as ->.
  { destruct (decide (x = y)) as [|Hne]; [done|].
    assert (x ∈ y :: l') as Hxin by (rewrite <- Hp; by left).
    assert (y ∈ x :: l) as Hyin by (rewrite Hp; by left).
    apply Hanti; [by left|done|..].
    - apply Hx. set_solver.
    - apply Hy. set_solver. }
  f_equal. apply IH; [|done..|by apply Permutation_cons_inv in Hp].
  intros a b Ha Hb. apply Hanti; by right.
Qed.

(** Whatever variables have been registered, the descriptions list each
    registered name exactly once, in increasing order of names, with the last
    registration that has a description (else the first one); and they do not
    depend on the order in which the registry is visited. *)
Theorem VarDescriptions_sorted vs order : order ≡ₚ map_to_list (register_all vs) →
  StronglySorted name_le (VarDescriptions order) ∧ NoDup (Name <$> VarDescriptions order) ∧
  (∀ v, v ∈ VarDescriptions order ↔ current vs (Name v) = Some v) ∧
  VarDescriptions order = VarDescriptions (map_to_list (register_all vs)).
Proof.
  intros Ho. set (m := register_all vs) in *. pose proof (register_all_keyed vs) as Hk. fold m in Hk.
  assert (∀ o, o ≡ₚ map_to_list m → ∀ v, v ∈ VarDescriptions o ↔ m !! Name v = Some v) as Helem.
  { intros o Hp v. unfold VarDescriptions. rewrite merge_sort_Permutation, Hp, list_elem_of_fmap. split.
    - intros ([n u] & -> & Hin%elem_of_map_to_list). cbn. by rewrite (Hk n u Hin).
    - intros Hv. exists (Name v, v). by rewrite elem_of_map_to_list. }
  assert (∀ o, StronglySorted name_le (VarDescriptions o)) as Hs
    by (intros; apply (StronglySorted_merge_sort _)).
  split; [apply Hs|]. split.
  - assert (Name <$> VarDescriptions order ≡ₚ (map_to_list m).*1) as ->; [|apply NoDup_fst_map_to_list].
    unfold VarDescriptions. rewrite merge_sort_Permutation, Ho, <- list_fmap_compose.
    erewrite (list_fmap_ext (Name ∘ snd) fst); [done|]. intros i [n v] Hi. cbn. apply Hk.
    apply elem_of_map_to_list. by eapply list_elem_of_lookup_2.
  - split; [intros v; rewrite (Helem _ Ho); unfold m; by rewrite register_all_lookup|].
    apply (sorted_perm_unique name_le); [apply _| |apply Hs..|].
    + intros x y Hx%(Helem _ Ho) Hy%(Helem _ Ho). by apply (name_le_antisym m).
    + unfold VarDescriptions. by rewrite !merge_sort_Permutation, Ho.
Qed.

Lemma VarDescriptions_sorted_witness :
  let vs := [mk_var "B" "2" "b" false false INT; mk_var "A" "1" "a" false false INT; mk_var "B" "3" "" false false INT] in
  VarDescriptions (map_to_list (register_all vs)) = [mk_var "A" "1" "a" false false INT; mk_var "B" "2" "b" false false INT] ∧
  NoDup (Name <$> VarDescriptions (map_to_list (register_all vs))).
Proof.
  intros vs. destruct (VarDescriptions_sorted vs (map_to_list (register_all vs)) (reflexivity _)) as (_ & H & _).
  split; [by vm_compute|exact H].
Defined.

(** ** Defaults survive being written as strings *)

Lemma ParseBool_FormatBool b : ParseBool (FormatBool b) = Some b.
Proof. by destruct b. Qed.

Lemma Itoa_neg p : Itoa (Z.neg p) = "-" +:+ Itoa (Z.pos p).
Proof. done. Qed.

Lemma Atoi_neg n : (0 < Z.of_nat n ≤ - min_int64)%Z → Atoi ("-" +:+ Itoa (Z.of_nat n)) = (- Z.of_nat n, None)%Z.
Proof.
  intros Hn. destruct (Itoa_nat_digits n) as [_ Hne]. unfold Atoi, ParseInt.
  change (HasPrefix ("-" +:+ Itoa (Z.of_nat n)) "-") with true. cbn [orb].
  change (str_drop 1 ("-" +:+ Itoa (Z.of_nat n))) with (str_drop 0 (Itoa (Z.of_nat n))).
  replace (str_drop 0 (Itoa (Z.of_nat n))) with (Itoa (Z.of_nat n)) by (by destruct (Itoa _)).
  apply String.eqb_neq in Hne as ->. rewrite parse_Itoa. unfold min_int64, max_int64 in *.
  replace (_ <? _)%Z with false by (symmetry; apply Z.ltb_ge; lia).
  by replace (_ <? _)%Z with false by (symmetry; apply Z.ltb_ge; lia).
Qed.

(** [strconv.Atoi] inverts [strconv.FormatInt] on every int *)
Lemma Atoi_Itoa_int z : (min_int64 ≤ z ≤ max_int64)%Z → Atoi (Itoa z) = (z, None).
Proof.
  intros Hz. destruct z as [|p|p]; [done| |].
  - rewrite <- (Z2Nat.id (Z.pos p)) by done. apply Atoi_Itoa. lia.
  - rewrite Itoa_neg, <- (Z2Nat.id (Z.pos p)) by done. rewrite Atoi_neg by lia. f_equal. lia.
Qed.

(** A variable registered with a description and then read gives, when
    the environment does not set it, the default it was registered with,
    although the registry keeps defaults as strings: every string, both
    booleans and every 64-bit integer; when the environment sets it to
    something that does not parse, the default again; and a default is never
    reported as set. *)
Theorem registered_default_read LookupEnv m n s b i desc : desc ≠ "" → (min_int64 ≤ i ≤ max_int64)%Z →
  let sv := (RegisterStringVar m n s desc).2 in
  let bv := (RegisterBoolVar m n b desc).2 in
  let iv := (RegisterIntVar m n i desc).2 in
  match LookupEnv n with
  | None => StringVar_Lookup LookupEnv sv = (s, false) ∧ BoolVar_Lookup LookupEnv bv = (b, false) ∧
            IntVar_Lookup LookupEnv iv = (i, false)
  | Some e => StringVar_Lookup LookupEnv sv = (e, true) ∧
              BoolVar_Lookup LookupEnv bv = (default b (ParseBool e), true) ∧
              IntVar_Lookup LookupEnv iv = (match Atoi e with (k, None) => k | _ => i end, true)
  end.
Proof.
  intros Hd Hi. assert (∀ v, Description v = desc → Name v = n → getVar (RegisterVar m v).1 n = v) as Hv.
  { intros v Hdv Hn. unfold getVar. rewrite RegisterVar_lookup, decide_True by done. destruct (m !! n); [|done].
    rewrite Hdv. by apply String.eqb_neq in Hd as ->. }
  unfold RegisterStringVar, RegisterBoolVar, RegisterIntVar. cbn zeta. cbn [snd]. rewrite !Hv by done.
  unfold StringVar_Lookup, BoolVar_Lookup, IntVar_Lookup, raw_value. cbn [Name DefaultValue].
  destruct (LookupEnv n) as [e|]; rewrite ?ParseBool_FormatBool, ?Atoi_Itoa_int by done; [|done].
  split; [done|]. split; [by destruct (ParseBool e)|]. by destruct (Atoi e) as [k [?|]].
Qed.

Lemma registered_default_read_witness :
  IntVar_Lookup (λ _, None) (RegisterIntVar ∅ "N" (-9223372036854775808) "n").2 = (-9223372036854775808, false)%Z.
Proof.
  apply (registered_default_read (λ _, None) ∅ "N" "" false (-9223372036854775808) "n");
    [discriminate|unfold min_int64, max_int64; lia].
Defined.

(** A second registration without a description does not count for the other
    kinds, but the float variable it makes has its own default: two variables
    of one name read differently. *)
Lemma float_var_not_registered {F} `{NumberText F} LookupEnv m n (x y : F) desc : desc ≠ "" → LookupEnv n = None →
  m !! n = None → parse (format x) = (x, None) → parse (format y) = (y, None) →
  let m1 := (RegisterFloatVar m n x desc).1 in
  FloatVar_Get LookupEnv (RegisterFloatVar m1 n y "").2 = y ∧
  FloatVar_Get LookupEnv (getVar (RegisterFloatVar m1 n y "").1 n) = x ∧
  DurationVar_Get LookupEnv (RegisterDurationVar m1 n y "").2 = x.
Proof.
  intros Hd Hn Hm Hx Hy. unfold FloatVar_Get, FloatVar_Lookup, DurationVar_Get, DurationVar_Lookup, number_Lookup, raw_value,
    RegisterFloatVar, RegisterDurationVar, getVar, RegisterVar. cbn.
  rewrite Hm. cbn. rewrite !lookup_insert_eq. cbn. rewrite !lookup_insert_eq. cbn. by rewrite Hn, Hx, Hy.
Qed.
