(* ===== verification/Containers.v ===== *)
(** * Containers (util/sets, util/sync/cow)

    [Module Sets]: a set is a Go map, so a value of type Set is a reference:
    Merge, Insert and Delete change the set they are called on, Union, Copy,
    Difference and Intersection make new ones.  The model keeps the store.

    [Module Cow]: the copy-on-write map and array.  Writers hold a mutex,
    load the current version, build the next one and publish it; readers load
    a version without a lock. *)

From S2P Require Export GoStrings.

Module Sets.

(** a map value: nil, or the address of the map *)
Notation Set_ := (option nat).
Abbreviation store := (gmap nat (gset string)).

Definition items (st : store) (s : Set_) : gset string :=
  match s with None => ∅ | Some p => default ∅ (st !! p) end.

Definition write (st : store) (s : Set_) (X : gset string) : result string store :=
  match s with None => Panic NilMapWrite | Some p => Ok (<[p := X]> st) end.

Definition NewWithLength (st : store) (l : Z) : store * Set_ :=
  let p := fresh (dom st : gset nat) in (<[p := ∅]> st, Some p).

Definition Insert (st : store) (s : Set_) (item : string) : result string (store * Set_) :=
  st ← write st s ({[item]} ∪ items st s); mret (st, s).

Fixpoint InsertAll (st : store) (s : Set_) (l : list string) : result string (store * Set_) :=
  match l with
  | [] => Ok (st, s)
  | item :: l => st ← write st s ({[item]} ∪ items st s); InsertAll st s l
  end.

Definition New (st : store) (l : list string) : result string (store * Set_) :=
  let '(st, s) := NewWithLength st (Z.of_nat (length l)) in InsertAll st s l.

(** deleting from a nil map does nothing *)
Fixpoint Delete (st : store) (s : Set_) (l : list string) : store * Set_ :=
  match l with
  | [] => (st, s)
  | item :: l =>
      Delete (match s with None => st | Some p => alter (λ X, X ∖ {[item]}) p st end) s l
  end.

(** A [range] over a map visits its keys, here in the order of [elements]; the
    loops below insert or test, so the order does not matter to them. *)
Definition Merge (st : store) (s s2 : Set_) : result string (store * Set_) :=
  InsertAll st s (elements (items st s2)).

Definition Copy (st : store) (s : Set_) : result string (store * Set_) :=
  '(st', r) ← New st []; InsertAll st' r (elements (items st s)).

Definition Union (st : store) (s s2 : Set_) : result string (store * Set_) :=
  '(st', r) ← Copy st s; InsertAll st' r (elements (items st s2)).

Definition Contains (st : store) (s : Set_) (item : string) : bool := bool_decide (item ∈ items st s).

Definition Difference (st : store) (s s2 : Set_) : result string (store * Set_) :=
  '(st', r) ← New st [];
  InsertAll st' r (filter (λ k, Contains st s2 k = false) (elements (items st s))).

Definition Intersection (st : store) (s s2 : Set_) : result string (store * Set_) :=
  '(st', r) ← New st [];
  InsertAll st' r (filter (λ k, Contains st s2 k = true) (elements (items st s))).

Definition Len (st : store) (s : Set_) : nat := size (items st s).
Definition IsEmpty (st : store) (s : Set_) : bool := Len st s =? 0.

Definition SupersetOf (st : store) (s s2 : Set_) : result string bool :=
  '(st', r) ← Difference st s2 s; mret (IsEmpty st' r).

(** [order] is the order in which the map is visited *)
Definition UnsortedList (order : list string) : list string := order.

Definition str_le_prop (a b : string) : Prop := str_le a b = true.

#[export] Instance str_le_prop_dec a b : Decision (str_le_prop a b).
Proof. unfold str_le_prop. apply _. Defined.

Definition SortedList (order : list string) : list string := merge_sort str_le_prop (UnsortedList order).

Definition Equals (st : store) (s other : Set_) : bool :=
  if negb (Len st s =? Len st other) then false
  else forallb (Contains st other) (elements (items st s)).

Definition Diff (st : store) (order other_order : list string) (s other : Set_) : list string * list string :=
  (filter (λ k, Contains st other k = false) order, filter (λ k, Contains st s k = false) other_order).

(** ** What the operations do to the store *)

(** [st'] is [st] with one more set [X] at the reference [r] *)
Definition allocates (st st' : store) (r : Set_) (X : gset string) : Prop :=
  ∃ p, r = Some p ∧ st !! p = None ∧ st' = <[p := X]> st.

Lemma InsertAll_spec st p X l : st !! p = Some X →
  InsertAll st (Some p) l = Ok (<[p := list_to_set l ∪ X]> st, Some p).
Proof.
  revert st X. induction l as [|x l IH]; intros st X Hp; cbn.
  { rewrite union_empty_l_L. by rewrite insert_id. }
  rewrite Hp. cbn. rewrite (IH _ ({[x]} ∪ X)) by (by rewrite lookup_insert_eq).
  rewrite insert_insert_eq. do 3 f_equal. set_solver.
Qed.

Lemma fresh_None (st : store) : st !! fresh (dom st : gset nat) = None.
Proof. apply (not_elem_of_dom (D:=gset nat)), is_fresh. Qed.

Lemma NewInsertAll_spec st l X : list_to_set l = X →
  ∃ st' r, ('(st', r) ← New st []; InsertAll st' r l) = Ok (st', r) ∧ allocates st st' r X.
Proof.
  intros <-. unfold New, NewWithLength. cbn.
  rewrite (InsertAll_spec _ _ ∅) by (by rewrite lookup_insert_eq).
  eexists _, _. split; [done|]. eexists. split; [done|]. split; [apply fresh_None|].
  by rewrite insert_insert_eq, union_empty_r_L.
Qed.

Lemma allocates_items st st' r X : allocates st st' r X → items st' r = X.
Proof. intros (p & -> & _ & ->). cbn. by rewrite lookup_insert_eq. Qed.

(** On sets A and B behind references: Copy, Union, Difference and
    Intersection return a new set holding A, A ∪ B, A ∖ B and A ∩ B and change
    no set there is; Merge returns the receiver, which becomes A ∪ B, and
    changes no other set; SupersetOf, Equals, Contains, Len and IsEmpty decide
    ⊇, =, ∈, the size and emptiness (Equals by counting and one inclusion). *)
Theorem set_operations_spec st p q A B : st !! p = Some A → st !! q = Some B →
  (∃ st' r, Copy st (Some p) = Ok (st', r) ∧ allocates st st' r A) ∧
  (∃ st' r, Union st (Some p) (Some q) = Ok (st', r) ∧ allocates st st' r (A ∪ B)) ∧
  (∃ st' r, Difference st (Some p) (Some q) = Ok (st', r) ∧ allocates st st' r (A ∖ B)) ∧
  (∃ st' r, Intersection st (Some p) (Some q) = Ok (st', r) ∧ allocates st st' r (A ∩ B)) ∧
  Merge st (Some p) (Some q) = Ok (<[p := A ∪ B]> st, Some p) ∧
  SupersetOf st (Some p) (Some q) = Ok (bool_decide (B ⊆ A)) ∧
  Equals st (Some p) (Some q) = bool_decide (A = B).
Proof.
  intros HA HB. assert (items st (Some p) = A) as IA by (cbn; by rewrite HA).
  assert (items st (Some q) = B) as IB by (cbn; by rewrite HB).
  assert (∃ st' r, Copy st (Some p) = Ok (st', r) ∧ allocates st st' r A) as HCopy.
  { unfold Copy. rewrite IA. apply NewInsertAll_spec. apply list_to_set_elements_L. }
  split; [done|]. split.
  { destruct HCopy as (st' & r & Hc & p' & -> & Hp' & ->). unfold Union. rewrite Hc, IB. cbn.
    rewrite (InsertAll_spec _ _ A) by (by rewrite lookup_insert_eq). eexists _, _. split; [done|].
    exists p'. split; [done|]. split; [done|]. rewrite insert_insert_eq. f_equal.
    rewrite list_to_set_elements_L. set_solver. }
  assert (∀ s s2 X Y, items st s = X → items st s2 = Y →
    ∃ st' r, Difference st s s2 = Ok (st', r) ∧ allocates st st' r (X ∖ Y)) as HDiff.
  { intros s s2 X Y HX HY. unfold Difference. apply NewInsertAll_spec. rewrite HX. unfold Contains. rewrite HY.
    apply set_eq. intros x. rewrite elem_of_list_to_set, list_elem_of_filter, elem_of_elements, bool_decide_eq_false.
    set_solver. }
  split; [by apply HDiff|]. split.
  { unfold Intersection. apply NewInsertAll_spec. rewrite IA. unfold Contains. rewrite IB.
    apply set_eq. intros x. rewrite elem_of_list_to_set, list_elem_of_filter, elem_of_elements, bool_decide_eq_true.
    set_solver. }
  split.
  { unfold Merge. rewrite IB, (InsertAll_spec _ _ A) by done. do 3 f_equal.
    rewrite list_to_set_elements_L. set_solver. }
  split.
  { destruct (HDiff (Some q) (Some p) B A IB IA) as (st' & r & Hd & Ha). unfold SupersetOf. rewrite Hd. cbn.
    unfold IsEmpty, Len. rewrite (allocates_items _ _ _ _ Ha). f_equal. apply eq_bool_prop_intro.
    rewrite bool_decide_spec. destruct (size (B ∖ A) =? 0) eqn:E; bools.
    - apply size_empty_inv in E. split; [|done]. intros _ x Hx. destruct (decide (x ∈ A)); [done|].
      assert (x ∈ B ∖ A) as Hx' by (by apply elem_of_difference). by apply E in Hx'.
    - split; [done|]. intros Hs. destruct E. replace (B ∖ A) with (∅ : gset string) by set_solver. apply size_empty. }
  unfold Equals, Len, Contains. rewrite IA, IB. apply eq_bool_prop_intro. rewrite bool_decide_spec.
  destruct (size A =? size B) eqn:E; bools; cbn.
  - rewrite Is_true_true, forallb_forall. split; [|intros -> x Hx; apply bool_decide_eq_true].
    + intros Hall. apply set_subseteq_size_eq; [|lia]. intros x Hx. eapply bool_decide_eq_true, Hall.
      by apply list_elem_of_In, elem_of_elements.
    + by apply elem_of_elements, list_elem_of_In.
  - split; [done|]. intros ->. lia.
Qed.
End Sets.

Lemma set_operations_spec_witness :
  let st : gmap nat (gset string) := {[0 := {["a"; "b"]}; 1 := {["b"]}]} in
  Sets.SupersetOf st (Some 0) (Some 1) = Ok true ∧ Sets.Equals st (Some 0) (Some 1) = false.
Proof.
  intros st.
  destruct (Sets.set_operations_spec st 0 1 {["a"; "b"]} {["b"]}) as (_ & _ & _ & _ & _ & H1 & H2).
  - apply lookup_insert_eq.
  - unfold st. rewrite lookup_insert_ne by done. apply lookup_insert_eq.
  - rewrite H1, H2. split; by vm_compute.
Defined.

Module Cow.

(** ** The map (cow/map.go) *)

Abbreviation version := (gmap string string).

Definition map_copy (dst src : version) : version := src ∪ dst.
Definition map_dup (src : version) : version := map_copy ∅ src.
Definition NewMap (m : version) : version := map_dup m.
Definition map_Get (m : version) (key : string) : string := default "" (m !! key).

Inductive map_op :=
  | MInsert (key val : string)
  | MUpdate (m : version)
  | MRemove (key : string)
  | MReset (m : version).

(** the version a writer builds from the version it loaded *)
Definition map_next (op : map_op) (src : version) : result string version :=
  match op with
  | MInsert key val => Ok (<[key := val]> (map_dup src))
  | MUpdate m => Ok (map_copy (map_dup src) m)
  | MRemove key => Ok (delete key (map_dup src))
  | MReset m => Ok (map_dup m)
  end.

(** ** The array (cow/array.go) *)

Section Array.
Context {V : Type}.

Fixpoint array_copy (k : nat) (dst src : list V) : result string (list V) :=
  match src with
  | [] => Ok dst
  | v :: src => if k <? length dst then array_copy (S k) (<[k := v]> dst) src else Panic IndexOutOfRange
  end.

(** the copy goes to a new slice of the same length *)
Definition array_dup (zero : V) (src : list V) : result string (list V) :=
  array_copy 0 (replicate (length src) zero) src.

Definition NewArray (zero : V) (m : list V) : result string (list V) := array_dup zero m.

Definition index (i : Z) (m : list V) : option nat :=
  if (0 <=? i)%Z && (i <? Z.of_nat (length m))%Z then Some (Z.to_nat i) else None.

Definition array_Get (m : list V) (i : Z) : result string V :=
  match index i m ≫= (m !!.) with Some v => Ok v | None => Panic IndexOutOfRange end.

Inductive array_op :=
  | ASet (i : Z) (val : V)
  | AUpdate (m : list V)
  | ARemove (i : Z)
  | AReset (m : list V).

Definition array_next (zero : V) (op : array_op) (src : list V) : result string (list V) :=
  match op with
  | ASet i val =>
      dst ← array_dup zero src;
      match index i dst with Some k => Ok (<[k := val]> dst) | None => Panic IndexOutOfRange end
  | AUpdate m => dst ← array_dup zero src; array_copy 0 dst m
  | ARemove i =>
      dst ← array_dup zero src;
      match index i dst with Some k => Ok (take k dst ++ drop (S k) dst) | None => Panic IndexOutOfRange end
  | AReset m => array_dup zero m
  end.

Lemma array_copy_spec k dst src :
  array_copy k dst src =
  if k + length src <=? length dst then Ok (take k dst ++ src ++ drop (k + length src) dst)
  else match src with [] => Ok dst | _ => Panic IndexOutOfRange end.
Proof.
  revert k dst. induction src as [|v src IH]; intros k dst; cbn [array_copy length].
  { rewrite Nat.add_0_r. cbn. case_match; [by rewrite take_drop|done]. }
  destruct (k <? length dst) eqn:Hk; bools.
  - rewrite IH, length_insert. replace (S k + length src) with (k + S (length src)) by lia.
    destruct (k + S (length src) <=? length dst) eqn:Hl; bools.
    + f_equal. rewrite (take_S_r _ _ v) by (by apply list_lookup_insert_eq). rewrite take_insert_ge by lia.
      rewrite drop_insert_lt by lia. by rewrite <- app_assoc.
    + destruct src; [|done]. cbn in Hl. lia.
  - by replace (k + S (length src) <=? length dst) with false by (symmetry; apply Nat.leb_gt; lia).
Qed.

Lemma array_dup_id zero src : array_dup zero src = Ok src.
Proof.
  unfold array_dup. rewrite array_copy_spec, length_replicate, Nat.leb_refl. cbn.
  rewrite drop_ge by (by rewrite length_replicate). by rewrite app_nil_r.
Qed.
End Array.

(** ** The protocol

    One container: writers take the mutex and load the version, then publish
    what they built and release the mutex (also when building it panicked:
    the unlock is deferred); readers load the version at any moment and look
    things up in it later.  [published] records the writes that took effect. *)

Section Protocol.
Context {D Op : Type}.
Context (next : Op → D → result string D).

Record cow := mk_cow {
  current : D;
  mutex : option (nat * D);
  snapshots : gmap nat D;
  published : list Op
}.

Definition new_cow (d : D) : cow := mk_cow d None ∅ [].

Inductive cow_step : cow → cow → Prop :=
  | cow_lock c i : mutex c = None →
      cow_step c (mk_cow (current c) (Some (i, current c)) (snapshots c) (published c))
  | cow_store c i src op dst : mutex c = Some (i, src) → next op src = Ok dst →
      cow_step c (mk_cow dst None (snapshots c) (published c ++ [op]))
  | cow_panic c i src op p : mutex c = Some (i, src) → next op src = Panic p →
      cow_step c (mk_cow (current c) None (snapshots c) (published c))
  | cow_load c j :
      cow_step c (mk_cow (current c) (mutex c) (<[j := current c]> (snapshots c)) (published c)).

(** the writes one after another *)
Definition run_ops (d : D) (ops : list Op) : result string D := foldl (λ r op, r ≫= next op) (Ok d) ops.

Definition cow_ok (d : D) (c : cow) : Prop :=
  run_ops d (published c) = Ok (current c) ∧
  (∀ i src, mutex c = Some (i, src) → src = current c) ∧
  (∀ j s, snapshots c !! j = Some s → ∃ n, run_ops d (take n (published c)) = Ok s).

Lemma cow_step_ok d : invariant cow_step (cow_ok d).
Proof.
  intros c c' (H1 & H2 & H3) Hst. destruct Hst as [c i Hm|c i src op dst Hm Hn|c i src op p Hm Hn|c j];
    (split; [|split]); cbn.
  - done.
  - by intros ? ? [= _ <-].
  - done.
  - unfold run_ops in *. rewrite foldl_app, H1. cbn. by rewrite <- (H2 i src Hm).
  - done.
  - intros j s Hj. destruct (H3 j s Hj) as [n Hs]. destruct (decide (n ≤ length (published c))).
    + exists n. by rewrite take_app_le by done.
    + exists (length (published c)). rewrite take_app_length. by rewrite take_ge in Hs by lia.
  - done.
  - done.
  - done.
  - done.
  - done.
  - intros i s. rewrite lookup_insert. case_decide; [intros [= <-]|by apply H3].
    exists (length (published c)). by rewrite take_ge.
Qed.
End Protocol.

(** ** What the writes mean *)

Definition map_spec (op : map_op) (m : version) : result string version :=
  match op with
  | MInsert key val => Ok (<[key := val]> m)
  | MUpdate n => Ok (n ∪ m)
  | MRemove key => Ok (delete key m)
  | MReset n => Ok n
  end.

Definition array_spec {V} (op : array_op (V:=V)) (l : list V) : result string (list V) :=
  match op with
  | ASet i v => match index i l with Some k => Ok (<[k := v]> l) | None => Panic IndexOutOfRange end
  | AUpdate m => if length m <=? length l then Ok (m ++ drop (length m) l) else Panic IndexOutOfRange
  | ARemove i => match index i l with Some k => Ok (delete k l) | None => Panic IndexOutOfRange end
  | AReset m => Ok m
  end.

Lemma map_dup_id m : map_dup m = m.
Proof. exact (right_id_L ∅ (∪) m). Qed.

Lemma map_next_spec op m : map_next op m = map_spec op m.
Proof. destruct op; cbn; by rewrite ?map_dup_id. Qed.

Lemma array_next_spec {V} (zero : V) op l : array_next zero op l = array_spec op l.
Proof.
  destruct op as [i v|m|i|m]; cbn; rewrite ?array_dup_id; cbn; [done| | |done].
  - rewrite array_copy_spec. cbn. case_match; [done|]. by destruct m.
  - destruct (index i l) as [k|]; [|done]. by rewrite delete_take_drop.
Qed.

Lemma run_ops_ext {D Op} (f g : Op → D → result string D) d ops :
  (∀ op x, f op x = g op x) → run_ops f d ops = run_ops g d ops.
Proof.
  intros He. unfold run_ops. generalize (Ok (E:=string) d). induction ops as [|op ops IH]; intros r; [done|].
  cbn. rewrite IH. f_equal. destruct r; cbn; [apply He|done..].
Qed.

(** the history of a container: the writes so far, as their specification
    applies them, lead to the current version, and to every snapshot when cut
    off somewhere *)
Definition linear {D Op} (spec : Op → D → result string D) (d : D) (c : cow (D:=D) (Op:=Op)) : Prop :=
  run_ops spec d (published c) = Ok (current c) ∧
  ∀ j s, snapshots c !! j = Some s → ∃ n, run_ops spec d (take n (published c)) = Ok s.

Lemma protocol_linear {D Op} (next spec : Op → D → result string D) d c :
  (∀ op x, next op x = spec op x) → rtc (cow_step next) (new_cow d) c → linear spec d c.
Proof.
  intros He Hr. assert (cow_ok next d c) as (H1 & _ & H3).
  { eapply invariant_reachable; [apply cow_step_ok| |done]. split; [done|]. split; by intros ? ?. }
  split; [by rewrite <- (run_ops_ext next)|]. intros j s Hj. destruct (H3 j s Hj) as [n Hn].
  exists n. by rewrite <- (run_ops_ext next).
Qed.


End Cow.
