(* ===== verification/LogConfig.v ===== *)
(** * Configuring the package log (pkg/log/config.go, default.go, klog.go, the flags of options.go)

    [Configure] builds the two cores, updates the scopes and then replaces the
    table of functions through which messages are written.  Opening files and
    the clients of the tees are the environment; a core is described by its
    encoder, its sink and its tees.

    The functions of default.go call the methods of the default scope. *)

From S2P Require Import LogCores Containers.
From S2P Require Export LogScope.

Local Open Scope string_scope.
Local Open Scope nat_scope.
Local Open Scope list_scope.

#[local] Existing Instance Sets.str_le_prop_dec.

(** ** The flags *)

Inductive flag_value := FStrings (l : list string) | FString_ (s : string) | FInt (z : Z) | FBool (b : bool).

(** a flag writes into the option it was given the address of *)
Record attached := mk_attached {
  at_name : string; at_value : flag_value; at_usage : string; at_store : flag_value → Options → Options
}.

Definition set_outputs (o : Options) (paths : list string) (rotate : string) (size age backups : Z) (json : bool) : Options :=
  mk_options paths (ErrorOutputPaths o) rotate size age backups json (LogGrpc o) (outputLevels o) (logCallers o)
    (stackTraceLevels o) (useStackdriverFormat o) (teeToStackdriver o) (stackdriverTargetProject o)
    (stackdriverQuotaProject o) (stackdriverLogName o) (stackdriverResource o) (teeToUDSServer o)
    (udsSocketAddress o) (udsServerPath o).

Definition store_string (set : string → Options → Options) (v : flag_value) (o : Options) : Options :=
  match v with FString_ s => set s o | _ => o end.
Definition store_int (set : Z → Options → Options) (v : flag_value) (o : Options) : Options :=
  match v with FInt z => set z o | _ => o end.

Definition levelListString : string :=
  "[" +:+ levelToString DebugLevel +:+ ", " +:+ levelToString InfoLevel +:+ ", " +:+ levelToString WarnLevel +:+ ", " +:+
  levelToString ErrorLevel +:+ ", " +:+ levelToString FatalLevel +:+ ", " +:+ levelToString NoneLevel +:+ "]".

(** the usages of the three flags that speak of scopes; [names]: the registered
    scopes in the order of the map *)
Definition scope_usages (names : list string) : string * string * string :=
  if 1 <? length names then
    let s := Join (merge_sort Sets.str_le_prop (names ++ [OverrideScopeName])) ", " in
    ("Comma-separated minimum per-scope logging level of messages to output, in the form of " +:+
     "<scope>:<level>,<scope>:<level>,... where scope can be one of [" +:+ s +:+ "] and level can be one of " +:+ levelListString,
     "Comma-separated minimum per-scope logging level at which stack traces are captured, in the form of " +:+
     "<scope>:<level>,<scope:level>,... where scope can be one of [" +:+ s +:+ "] and level can be one of " +:+ levelListString,
     "Comma-separated list of scopes for which to include caller information, scopes can be any of [" +:+ s +:+ "]")
  else
    ("The minimum logging level of messages to output,  can be one of " +:+ levelListString,
     "The minimum logging level at which stack traces are captured, can be one of " +:+ levelListString,
     "Comma-separated list of scopes for which to include called information, scopes can be any of [default]").

Definition AttachFlags (o : Options) (names : list string) : list attached :=
  let '(u1, u2, u3) := scope_usages names in [
  mk_attached "log_target" (FStrings (OutputPaths o))
    "The set of paths where to output the log. This can be any path as well as the special values stdout and stderr"
    (λ v o, match v with
            | FStrings l => set_outputs o l (RotateOutputPath o) (RotationMaxSize o) (RotationMaxAge o)
                              (RotationMaxBackups o) (JSONEncoding o)
            | _ => o end);
  mk_attached "log_rotate" (FString_ (RotateOutputPath o)) "The path for the optional rotating log file"
    (store_string (λ s o, set_outputs o (OutputPaths o) s (RotationMaxSize o) (RotationMaxAge o)
                            (RotationMaxBackups o) (JSONEncoding o)));
  mk_attached "log_rotate_max_age" (FInt (RotationMaxAge o))
    "The maximum age in days of a log file beyond which the file is rotated (0 indicates no limit)"
    (store_int (λ z o, set_outputs o (OutputPaths o) (RotateOutputPath o) (RotationMaxSize o) z
                         (RotationMaxBackups o) (JSONEncoding o)));
  mk_attached "log_rotate_max_size" (FInt (RotationMaxSize o))
    "The maximum size in megabytes of a log file beyond which the file is rotated"
    (store_int (λ z o, set_outputs o (OutputPaths o) (RotateOutputPath o) z (RotationMaxAge o)
                         (RotationMaxBackups o) (JSONEncoding o)));
  mk_attached "log_rotate_max_backups" (FInt (RotationMaxBackups o))
    "The maximum number of log file backups to keep before older files are deleted (0 indicates no limit)"
    (store_int (λ z o, set_outputs o (OutputPaths o) (RotateOutputPath o) (RotationMaxSize o) (RotationMaxAge o)
                         z (JSONEncoding o)));
  mk_attached "log_as_json" (FBool (JSONEncoding o))
    "Whether to format output as JSON or in plain console-friendly format"
    (λ v o, match v with
            | FBool b => set_outputs o (OutputPaths o) (RotateOutputPath o) (RotationMaxSize o) (RotationMaxAge o)
                           (RotationMaxBackups o) b
            | _ => o end);
  mk_attached "log_output_level" (FString_ (outputLevels o)) u1
    (store_string (λ s o, set_levels o s (logCallers o) (stackTraceLevels o) (LogGrpc o)));
  mk_attached "log_stacktrace_level" (FString_ (stackTraceLevels o)) u2
    (store_string (λ s o, set_levels o (outputLevels o) (logCallers o) s (LogGrpc o)));
  mk_attached "log_caller" (FString_ (logCallers o)) u3
    (store_string (λ s o, set_levels o (outputLevels o) s (stackTraceLevels o) (LogGrpc o)))].

(** the values of all flags *)
Definition flag_values (o : Options) (names : list string) : list (string * flag_value) :=
  (λ f, (at_name f, at_value f)) <$> AttachFlags o names.

Definition same_kind (v v' : flag_value) : bool :=
  match v, v' with
  | FStrings _, FStrings _ | FString_ _, FString_ _ | FInt _, FInt _ | FBool _, FBool _ => true
  | _, _ => false
  end.

(** A flag on the command line changes its own option and no other, and
    attaching the flags changes none. *)
Lemma flag_sets_its_option o names i f v :
  AttachFlags o names !! i = Some f → same_kind v (at_value f) = true →
  flag_values (at_store f v o) names = <[i := (at_name f, v)]> (flag_values o names) ∧
  at_store f (at_value f) o = o.
Proof.
  unfold flag_values, AttachFlags. destruct (scope_usages names) as [[u1 u2] u3]. intros Hi Hk.
  do 9 (destruct i as [|i]; [injection Hi as <-; destruct v; try discriminate Hk; by destruct o|]).
  discriminate Hi.
Qed.

Lemma flag_names_distinct o names : NoDup (flag_values o names).*1.
Proof.
  unfold flag_values, AttachFlags. destruct (scope_usages names) as [[u1 u2] u3]. cbn.
  repeat (constructor; [set_solver|]). constructor.
Qed.

(** ** The cores *)

Definition none : Z := 100.

Definition levelToZap (l : Level) : option Z :=
  if (l =? DebugLevel)%Z then Some Zap.DebugLevel else if (l =? InfoLevel)%Z then Some Zap.InfoLevel else
  if (l =? WarnLevel)%Z then Some Zap.WarnLevel else if (l =? ErrorLevel)%Z then Some Zap.ErrorLevel else
  if (l =? FatalLevel)%Z then Some Zap.FatalLevel else if (l =? NoneLevel)%Z then Some none else None.

(** the three encoders of [prepZap] *)
Inductive encoder := StackdriverJSON | DefaultJSON | DefaultConsole.

Definition is_json (e : encoder) : bool := match e with DefaultConsole => false | _ => true end.

(** a rotating file: name, size, backups, age *)
Record lumberjack := mk_lumberjack { lj_Filename : string; lj_MaxSize : Z; lj_MaxBackups : Z; lj_MaxAge : Z }.

(** what entries are written to; [SinkNil]: the interface value is nil *)
Inductive sink := SinkNil | SinkPaths (l : list string) | SinkRotate (r : lumberjack) | SinkBoth (l : list string) (r : lumberjack).

Inductive tee :=
  | ToStackdriver (project quotaProject logName : string) (resource : option nat) (minimum : Z)
  | ToUDS (address : string) (u : udsCore).

(** [co_enabler]: nil for the core that has all levels from debug on *)
Record core := mk_core { co_enc : encoder; co_sink : sink; co_capture : bool; co_tees : list tee }.

(** the table of functions in force: the core they write to, where errors go,
    and how many clients [Close] closes *)
Record patchTable := mk_patch { pt_core : core; pt_errorSink : list string; pt_closeFns : nat }.

(** the logger that captures zap and the standard library *)
Record capture_logger := mk_capture { cl_core : core; cl_callers : bool; cl_stack : option Z }.

Section Configure.
Context {V : Type} `{GoValue V}.

Record log_system := mk_system {
  sy_log : logging (V:=V);
  sy_funcs : option patchTable;
  sy_capture : option capture_logger;
  sy_grpclog : bool;                    (* gRPC logs through the capture logger *)
  sy_klog : bool                        (* klog logs through KlogScope *)
}.

Definition set_log (sy : log_system) (w : logging (V:=V)) : log_system :=
  mk_system w (sy_funcs sy) (sy_capture sy) (sy_grpclog sy) (sy_klog sy).

Definition set_json (w : logging (V:=V)) (b : bool) : logging (V:=V) := mk_logging (scopes w) (heap w) (arrays w) (logGrpc w) b.

Context (defaultScope KlogScope : nat).                     (* the pointers of two registered scopes *)
Context (Open : list string → option string).               (* zap.Open *)
Context (NewClient : string → string → option string).      (* logging.NewClient *)
Context (klog_v : string).                                  (* the value of klog's flag -v *)

(** [klogVerbose] *)
Definition klogVerbose : bool := negb (String.eqb klog_v "0").

(** klog's flags: nothing before [klog.InitFlags], which [klogVerboseFlag] calls
    once; the flag v starts as 0 *)
Definition klog_flags : Type := option (gmap string string).
Definition klogVerboseFlag (flags : klog_flags) : klog_flags * string :=
  let m := default {["v" := "0"]} flags in (Some m, default "" (m !! "v")).

(** the error of [Set] is ignored *)
Definition EnableKlogWithVerbosity (v : Z) (flags : klog_flags) : klog_flags :=
  m ← flags; if bool_decide (is_Some (m !! "v")) then Some (<["v" := Itoa v]> m) else Some m.

(** the flag [--vklog] has the value of v: name, default and usage *)
Definition EnableKlogWithCobra (usage : string) (flags : klog_flags) : klog_flags * (string * string * string) :=
  ((klogVerboseFlag flags).1, ("vklog", "0", usage +:+ ". Like -v flag. ex: --vklog=9")).

(** the enabler of the capture core, over zap's levels *)
Definition enabler (w : logging (V:=V)) (l : Z) : bool :=
  match heap w !! defaultScope with
  | None => false
  | Some s =>
      if (l =? Zap.ErrorLevel)%Z then ErrorEnabled s else if (l =? Zap.WarnLevel)%Z then WarnEnabled s else
      if (l =? Zap.InfoLevel)%Z then InfoEnabled s else DebugEnabled s
  end.

Definition tee_minimum (t : tee) : Z := match t with ToStackdriver _ _ _ _ m => m | ToUDS _ u => uc_minimumLevel u end.

(** [Enabled] of a core with its tees *)
Definition core_Enabled (w : logging (V:=V)) (c : core) (l : Z) : bool :=
  (if co_capture c then enabler w l else (Zap.DebugLevel <=? l)%Z) || existsb (λ t, (tee_minimum t <=? l)%Z) (co_tees c).

Definition prepare_encoder (o : Options) : encoder :=
  if useStackdriverFormat o then StackdriverJSON else if JSONEncoding o then DefaultJSON else DefaultConsole.

(** [prepZap]; the format is stored before files are opened *)
Definition prepZap (o : Options) (w : logging (V:=V)) : logging (V:=V) * result string (core * core * list string) :=
  let enc := prepare_encoder o in
  let w := set_json w (is_json enc) in
  let rotaterSink :=
    if String.eqb (RotateOutputPath o) "" then None
    else Some (mk_lumberjack (RotateOutputPath o) (RotationMaxSize o) (RotationMaxBackups o) (RotationMaxAge o)) in
  match Open (ErrorOutputPaths o) with
  | Some err => (w, Err err)
  | None =>
      let outputSink := if 0 <? length (OutputPaths o) then Some (OutputPaths o) else None in
      match outputSink ≫= Open with
      | Some err => (w, Err err)
      | None =>
          let sink :=
            match rotaterSink, outputSink with
            | Some r, Some l => SinkBoth l r
            | Some r, None => SinkRotate r
            | None, Some l => SinkPaths l
            | None, None => SinkNil
            end in
          (w, Ok (mk_core enc sink false [], mk_core enc sink true [], ErrorOutputPaths o))
      end
  end.

(** a core with a tee to Stackdriver *)
Definition with_stackdriver (w : logging (V:=V)) (o : Options) (c : core) : result string core :=
  match LogCores.teeToStackdriver (I:=V) (core_Enabled w c) NewClient (stackdriverTargetProject o) (stackdriverQuotaProject o) with
  | Ok sc => Ok (mk_core (co_enc c) (co_sink c) (co_capture c)
      (co_tees c ++ [ToStackdriver (stackdriverTargetProject o) (stackdriverQuotaProject o) (stackdriverLogName o)
                       (stackdriverResource o) (sd_minimumLevel sc)]))
  | Err e => Err e
  | Panic p => Panic p
  end.

Definition with_uds (w : logging (V:=V)) (o : Options) (c : core) : core :=
  mk_core (co_enc c) (co_sink c) (co_capture c)
    (co_tees c ++ [ToUDS (udsSocketAddress o) (LogCores.teeToUDSServer (core_Enabled w c) (udsServerPath o))]).

(** the tees of both cores, and how many clients were opened *)
Definition add_tees (w : logging (V:=V)) (o : Options) (c capture : core) : result string (core * core * nat) :=
  match (if teeToStackdriver o then
           c ← with_stackdriver w o c; capture ← with_stackdriver w o capture; Ok (c, capture, 2)
         else Ok (c, capture, 0)) with
  | Ok (c, capture, n) =>
      if teeToUDSServer o then Ok (with_uds w o c, with_uds w o capture, n) else Ok (c, capture, n)
  | r => r
  end.

(** [Configure]: the system, the options (whose gRPC flag it may set), the error *)
Definition Configure (o : Options) (sy : log_system) : log_system * Options * result string unit :=
  match prepZap o (sy_log sy) with
  | (w, Err e) => (set_log sy w, o, Err e)
  | (w, Panic p) => (set_log sy w, o, Panic p)
  | (w, Ok (c, captureCore, errSink)) =>
      match updateScopes o w with
      | (w, o, Err e) => (set_log sy w, o, Err e)
      | (w, o, Panic p) => (set_log sy w, o, Panic p)
      | (w, o, Ok _) =>
          match add_tees w o c captureCore with
          | Err e => (set_log sy w, o, Err e)
          | Panic p => (set_log sy w, o, Panic p)
          | Ok (c, captureCore, n) =>
              match heap w !! defaultScope with
              | None => (set_log sy w, o, Panic NilDeref)
              | Some s =>
                  let l := sc_stackTraceLevel s in
                  let capture := mk_capture captureCore (sc_logCallers s)
                                   (if (l =? NoneLevel)%Z then None else levelToZap l) in
                  let w := if klogVerbose then scope_SetOutputLevel KlogScope DebugLevel w else w in
                  (mk_system w (Some (mk_patch c errSink n)) (Some capture) (sy_grpclog sy || LogGrpc o) true, o, Ok ())
              end
          end
      end
  end.

(** [Sync] and [Close] of the package, through the table in force; a table
    that was never stored fails its type assertion.  Closing synchronises first,
    whose error is ignored, and stops at the first client that fails. *)
Definition Sync (sync : core → option string) (sy : log_system) : result string (option string) :=
  match sy_funcs sy with
  | None => Panic (Explicit "interface conversion")
  | Some pt => Ok (sync (pt_core pt))
  end.

Definition Close (close : nat → option string) (sy : log_system) : result string (option string) :=
  match sy_funcs sy with
  | None => Panic (Explicit "interface conversion")
  | Some pt => Ok (head (omap close (seq 0 (pt_closeFns pt))))
  end.

(** *** The functions of default.go *)

Definition default_Fatal hs w := Fatal hs w defaultScope.
Definition default_Fatala hs w := Fatala hs w defaultScope.
Definition default_Fatalf hs w := Fatalf hs w defaultScope.
Definition default_Error hs w := Error hs w defaultScope.
Definition default_Errora hs w := Errora hs w defaultScope.
Definition default_Errorf hs w := Errorf hs w defaultScope.
Definition default_Warn hs w := Warn hs w defaultScope.
Definition default_Warna hs w := Warna hs w defaultScope.
Definition default_Warnf hs w := Warnf hs w defaultScope.
Definition default_Info hs w := Info hs w defaultScope.
Definition default_Infoa hs w := Infoa hs w defaultScope.
Definition default_Infof hs w := Infof hs w defaultScope.
Definition default_Debug hs w := Debug hs w defaultScope.
Definition default_Debuga hs w := Debuga hs w defaultScope.
Definition default_Debugf hs w := Debugf hs w defaultScope.

Definition on_default {A} (f : Scope (V:=V) → A) (w : logging (V:=V)) : result string A :=
  match heap w !! defaultScope with Some s => Ok (f s) | None => Panic NilDeref end.

Definition default_FatalEnabled := on_default FatalEnabled.
Definition default_ErrorEnabled := on_default ErrorEnabled.
Definition default_WarnEnabled := on_default WarnEnabled.
Definition default_InfoEnabled := on_default InfoEnabled.
Definition default_DebugEnabled := on_default DebugEnabled.

Definition default_WithLabels grow w kvlist := WithLabels grow w defaultScope kvlist.

(** *** What a configuration leaves behind *)

Lemma updateScopes_useJSON o (w : logging (V:=V)) : useJSON (updateScopes o w).1.1 = useJSON w.
Proof.
  apply (closed_update (λ w', useJSON w' = useJSON w)); try done.
  intros w' n d k w'' p Hw. unfold RegisterScope. destruct (bad_name n); [done|].
  destruct (scopes w' !! n); intros [= <- _]; done.
Qed.

Lemma prepZap_spec o (w : logging (V:=V)) : let '(w', r) := prepZap o w in
  useJSON w' = is_json (prepare_encoder o) ∧
  match r with
  | Ok (c, capture, errs) => ∃ s, c = mk_core (prepare_encoder o) s false [] ∧
      capture = mk_core (prepare_encoder o) s true [] ∧ (s = SinkNil ↔ OutputPaths o = [] ∧ RotateOutputPath o = "")
  | _ => True
  end.
Proof.
  clear NewClient klog_v defaultScope KlogScope. unfold prepZap. destruct (Open (ErrorOutputPaths o)); [done|].
  destruct (_ ≫= Open); [done|]. split; [done|]. eexists. split; [done|]. split; [done|].
  destruct (String.eqb_spec (RotateOutputPath o) "") as [->|Hr], (OutputPaths o) eqn:Ho; cbn; naive_solver.
Qed.

(** the two cores write in one format to one sink *)
Definition same_output (c c' : core) : Prop := co_enc c = co_enc c' ∧ co_sink c = co_sink c'.

Lemma add_tees_spec (w : logging (V:=V)) o c capture c' capture' n : add_tees w o c capture = Ok (c', capture', n) →
  same_output c' c ∧ same_output capture' capture ∧
  length (co_tees c') = length (co_tees c) + (if teeToStackdriver o then 1 else 0) + (if teeToUDSServer o then 1 else 0).
Proof.
  unfold add_tees, with_stackdriver.
  destruct (teeToStackdriver o).
  - destruct (LogCores.teeToStackdriver (core_Enabled w c) _ _ _) as [sc|e|p]; [|done..]. cbn.
    destruct (LogCores.teeToStackdriver (core_Enabled w capture) _ _ _) as [sc'|e|p]; [|done..]. cbn.
    destruct (teeToUDSServer o); intros [= <- <- _]; cbn; rewrite ?length_app; cbn; (split; [done|]; split; [done|]; lia).
  - cbn. destruct (teeToUDSServer o); intros [= <- <- _]; cbn; rewrite ?length_app; cbn; (split; [done|]; split; [done|]; lia).
Qed.
End Configure.

(** [EnableKlogWithVerbosity] has an effect only after something has asked for
    the flag: before, the flag set knows no v and the error is ignored *)
Lemma verbosity_before_init_lost (v : Z) :
  EnableKlogWithVerbosity v None = None ∧ (klogVerboseFlag (EnableKlogWithVerbosity v None)).2 = "0" ∧
  (klogVerboseFlag (EnableKlogWithVerbosity v (klogVerboseFlag None).1)).2 = Itoa v.
Proof. by cbn. Qed.

(** ** Properties *)

(** A configuration of the package takes effect as a whole or not at all,
    as far as writing goes: when it reports an error, messages are written and
    captured as before; when it succeeds, the core in force has the encoder, the
    sink and the tees the options ask for, the captured loggers write the same
    format to the same sink, and the handler makes its messages for that format.
    The sink is nil only if the options name no output at all. *)
Theorem Configure_outcome {V : Type} `{GoValue V} defaultScope KlogScope Open NewClient klog_v o
    (sy sy' : log_system (V:=V)) o' r :
  Configure defaultScope KlogScope Open NewClient klog_v o sy = (sy', o', r) →
  match r with
  | Ok _ => ∃ pt cl, sy_funcs sy' = Some pt ∧ sy_capture sy' = Some cl ∧
      co_enc (pt_core pt) = prepare_encoder o ∧ useJSON (sy_log sy') = is_json (co_enc (pt_core pt)) ∧
      same_output (cl_core cl) (pt_core pt) ∧
      length (co_tees (pt_core pt)) = (if teeToStackdriver o then 1 else 0) + (if teeToUDSServer o then 1 else 0) ∧
      (co_sink (pt_core pt) = SinkNil ↔ OutputPaths o = [] ∧ RotateOutputPath o = "")
  | _ => sy_funcs sy' = sy_funcs sy ∧ sy_capture sy' = sy_capture sy
  end.
Proof.
  unfold Configure. pose proof (prepZap_spec Open o (sy_log sy)) as Hz.
  destruct (prepZap Open o (sy_log sy)) as [w [[[c capture] errs]|e|p]]; destruct Hz as [Hj Hc];
    [|by intros [= <- <- <-]..].
  destruct Hc as (s & -> & -> & Hs). pose proof (updateScopes_useJSON o w) as Hu.
  assert (teeToStackdriver (updateScopes o w).1.2 = teeToStackdriver o ∧
    teeToUDSServer (updateScopes o w).1.2 = teeToUDSServer o) as [Ht1 Ht2].
  { unfold updateScopes. destruct (processLevels _ (outputLevels o) _ _) as [? []]; [|done..].
    destruct (processLevels _ (stackTraceLevels o) _ _) as [? []]; [|done..].
    destruct (process_callers _ _ _) as [w3 []]; [done|]. by destruct (logGrpc w3). }
  destruct (updateScopes o w) as [[w1 o1] [u|e|p]]; [|by intros [= <- <- <-]..]. cbn [fst snd] in *.
  destruct (add_tees _ _ _ _ _ _) as [[[c' capture'] n]|e|p] eqn:Ha; [|by intros [= <- <- <-]..].
  apply add_tees_spec in Ha as ([He Hk] & [He' Hk'] & Hl). cbn in He, Hk, He', Hk', Hl.
  destruct (heap w1 !! defaultScope); [|by intros [= <- <- <-]]. intros [= <- <- <-].
  eexists _, _. split; [done|]. split; [done|]. cbn [pt_core cl_core]. rewrite He.
  split; [done|]. split; [by destruct (klogVerbose klog_v); cbn; rewrite Hu|].
  split; [split; congruence|]. split; [by rewrite Hl, Ht1, Ht2|]. by rewrite Hk.
Qed.

Module ConfigExample.
(** the scopes "default" and "klog" are registered *)
Definition before : log_system (V:=string) := mk_system w2 None None false false.
Definition klog : nat := default 0 (FindScope w2 "klog").
Definition open_but (bad l : list string) : option string :=
  if decide (l = bad) then Some "no such directory" else None.
Definition configure (o : Options) (bad : list string) (sy : log_system (V:=string)) :=
  Configure 0 klog (open_but bad) (λ _ _, None) "9" o sy.
Definition json_to (paths : list string) : Options := set_outputs DefaultOptions paths "" 0 0 0 true.
Definition configured : log_system (V:=string) := (configure DefaultOptions [] before).1.1.
End ConfigExample.

Lemma Configure_outcome_witness :
  ∃ pt cl, sy_funcs ConfigExample.configured = Some pt ∧ sy_capture ConfigExample.configured = Some cl ∧
    co_enc (pt_core pt) = DefaultConsole ∧ same_output (cl_core cl) (pt_core pt).
Proof.
  destruct (Configure_outcome (H:=string_values) 0 ConfigExample.klog (ConfigExample.open_but [])
    (λ _ _, None) "9" DefaultOptions ConfigExample.before ConfigExample.configured DefaultOptions (Ok ())
    ltac:(vm_compute; reflexivity)) as (pt & cl & H1 & H2 & H3 & _ & H4 & _).
  exists pt, cl. exact (conj H1 (conj H2 (conj H3 H4))).
Defined.

(** A failed configuration changes the format the handler writes for, while the
    core in force keeps its own. *)
Lemma failed_configure_mixes_formats :
  let '(sy, _, r) := ConfigExample.configure (ConfigExample.json_to ["/missing/log"]) ["/missing/log"] ConfigExample.configured in
  r = Err "no such directory" ∧ useJSON (sy_log sy) = true ∧ (co_enc ∘ pt_core <$> sy_funcs sy) = Some DefaultConsole.
Proof. by vm_compute. Qed.

(** Without an output path and a rotating file there is no sink. *)
Lemma no_output_no_sink :
  (co_sink ∘ pt_core <$> sy_funcs (ConfigExample.configure (ConfigExample.json_to []) ["x"] ConfigExample.before).1.1) = Some SinkNil.
Proof. by vm_compute. Qed.
