(* ===== verification/TextProto.v ===== *)
(** * Go's net/textproto

    Reading lines and MIME headers off a buffered reader, canonical header
    keys, and the header map, as far as the program uses them.  A reader is
    the list of bytes the connection still delivers with the error that
    follows ([GoIO.reader]); a last line without a terminator is returned as
    it is. *)

From S2P Require Export GoIO.
From Stdlib Require Import Ascii.

Local Open Scope string_scope.
Local Open Scope nat_scope.

Abbreviation Header := (gmap string (list string)).

Inductive text_error :=
  | TRead (e : read_error)
  | TProtocol (msg : string).

#[export] Instance text_error_eq_dec : EqDecision text_error.
Proof. solve_decision. Defined.

(** ** Lines *)

(** the bytes before the first line feed, and what follows it *)
Fixpoint split_line (d : bytes) : option (bytes * bytes) :=
  match d with
  | [] => None
  | c :: d' =>
      if Ascii.eqb c LF then Some ([], d')
      else '(l, r) ← split_line d'; Some (c :: l, r)
  end.

(** without the carriage return of a "\r\n" *)
Fixpoint chop_cr (l : bytes) : bytes :=
  match l with
  | [] => []
  | [c] => if Ascii.eqb c CR then [] else [c]
  | c :: l' => c :: chop_cr l'
  end.

Definition set_data (r : reader) (d : bytes) : reader :=
  mk_reader d (rd_fail r) (rd_size r).

(** [textproto.Reader.ReadLine] *)
Definition ReadLine (r : reader) : result read_error (string * reader) :=
  match split_line (rd_data r) with
  | Some (l, rest) => Ok (to_string (chop_cr l), set_data r rest)
  | None =>
      match rd_data r with
      | [] => Err (rd_fail r)
      | d => Ok (to_string d, set_data r [])
      end
  end.

(** ** Header keys *)

Definition is_alnum (c : ascii) : bool :=
  let v := byte_val c in
  is_digit c || is_upper c || ((97 <=? v)%Z && (v <=? 122)%Z).

(** RFC 7230 token characters *)
Definition validHeaderFieldByte (c : ascii) : bool :=
  is_alnum c || bool_decide (c ∈ ["!"; "#"; "$"; "%"; "&"; "'"; "*"; "+"; "-"; "."; "^"; "_"; "`"; "|"; "~"]%char).

Definition validHeaderValueByte (c : ascii) : bool :=
  let v := byte_val c in (v =? 9)%Z || ((32 <=? v)%Z && negb (v =? 127)%Z).

Definition ascii_upper (c : ascii) : ascii :=
  let v := byte_val c in
  if (97 <=? v)%Z && (v <=? 122)%Z then byte_of (v - 32) else c.

(** first letter and letters after a hyphen in upper case, the rest lower *)
Fixpoint canon_case (upper : bool) (s : string) : string :=
  match s with
  | "" => ""
  | String c s' =>
      let c := if upper then ascii_upper c else ascii_lower c in
      String c (canon_case (Ascii.eqb c "-") s')
  end.

(** [canonicalMIMEHeaderKey]: the key and whether it is acceptable *)
Definition canonicalMIMEHeaderKey (a : string) : string * bool :=
  if String.eqb a "" then ("", false)
  else if negb (str_forall (λ c, validHeaderFieldByte c || Ascii.eqb c " ") a) then (a, false)
  else if negb (str_forall validHeaderFieldByte a) then (a, true)
  else (canon_case true a, true).

(** [CanonicalMIMEHeaderKey] *)
Definition CanonicalMIMEHeaderKey (s : string) : string :=
  if str_forall validHeaderFieldByte s then canon_case true s else s.

(** ** The header map *)

Definition MIME_Add (h : Header) (key value : string) : Header :=
  let key := CanonicalMIMEHeaderKey key in
  <[key := (default [] (h !! key) ++ [value])%list]> h.

Definition MIME_Set (h : Header) (key value : string) : Header :=
  <[CanonicalMIMEHeaderKey key := [value]]> h.

Definition MIME_Values (h : Header) (key : string) : list string :=
  default [] (h !! CanonicalMIMEHeaderKey key).

Definition MIME_Get (h : Header) (key : string) : string :=
  match MIME_Values h key with v :: _ => v | [] => "" end.

Definition MIME_Del (h : Header) (key : string) : Header :=
  delete (CanonicalMIMEHeaderKey key) h.

(** ** Reading a header *)

Definition is_blank (c : ascii) : bool := Ascii.eqb c " " || Ascii.eqb c HTAB.
Definition trim (s : string) : string := Trim s is_blank.
Definition TrimString (s : string) : string :=
  Trim s (λ c, is_blank c || Ascii.eqb c CR || Ascii.eqb c LF).

Fixpoint skip_blanks (d : bytes) : nat * bytes :=
  match d with
  | c :: d' => if is_blank c then let '(n, r) := skip_blanks d' in (S n, r) else (0, d)
  | [] => (0, [])
  end.

(** the continuation lines of a header line; [fuel] bounds their number by the
    bytes left, every one takes at least one blank *)
Fixpoint read_continuations (fuel : nat) (acc : string) (r : reader) : string * reader :=
  match fuel with
  | O => (acc, r)
  | S fuel' =>
      let '(n, d) := skip_blanks (rd_data r) in
      if n =? 0 then (acc, r) else
      let acc := acc +:+ " " in
      match ReadLine (set_data r d) with
      | Ok (line, r') => read_continuations fuel' (acc +:+ trim line) r'
      | _ => (acc, set_data r d)
      end
  end.

(** [readContinuedLineSlice] *)
Definition readContinuedLine (r : reader) : result text_error (string * reader) :=
  match ReadLine r with
  | Err e => Err (TRead e)
  | Panic p => Panic p
  | Ok (line, r') =>
      if String.eqb line "" then Ok ("", r')
      else if negb (ContainsByte line ":") then Err (TProtocol "malformed MIME header: missing colon")
      else Ok (read_continuations (S (length (rd_data r'))) (trim line) r')
  end.

Fixpoint header_loop (fuel : nat) (m : Header) (r : reader) : result text_error (Header * reader) :=
  match fuel with
  | O => Panic (Explicit "fuel")
  | S fuel' =>
      '(kv, r') ← readContinuedLine r;
      if String.eqb kv "" then Ok (m, r') else
      match Cut kv ":" with
      | None => Err (TProtocol "malformed MIME header line")
      | Some (k, v) =>
          let '(key, ok) := canonicalMIMEHeaderKey k in
          if negb ok || negb (str_forall validHeaderValueByte v)
          then Err (TProtocol "malformed MIME header line")
          else
            let value := TrimLeftFunc is_blank v in
            header_loop fuel' (<[key := (default [] (m !! key) ++ [value])%list]> m) r'
      end
  end.

(** [ReadMIMEHeader]; the header read so far that Go returns beside an error
    is dropped by every caller *)
Definition ReadMIMEHeader (r : reader) : result text_error (Header * reader) :=
  match rd_data r with
  | c :: _ =>
      if is_blank c then
        match ReadLine r with
        | Ok _ => Err (TProtocol "malformed MIME header initial line")
        | Err e => Err (TRead e)
        | Panic p => Panic p
        end
      else header_loop (S (length (rd_data r))) ∅ r
  | [] => header_loop 1 ∅ r
  end.

(** ** Laws *)

Section Laws.
Local Open Scope list_scope.

Lemma of_string_app a b : of_string (a +:+ b) = of_string a ++ of_string b.
Proof. induction a; simpl; [done|]. unfold of_string in *. simpl. by f_equal. Qed.

Lemma of_string_length s : length (of_string s) = String.length s.
Proof. induction s; simpl; [done|]. unfold of_string in *. simpl. by f_equal. Qed.

Definition no_lf (s : string) : Prop := IndexByte s LF = None.

Lemma split_line_app s rest :
  no_lf s → split_line (of_string s ++ LF :: rest) = Some (of_string s, rest).
Proof.
  unfold no_lf. induction s as [|c s IH]; simpl; [done|].
  unfold of_string in *. simpl. destruct (Ascii.eqb c LF); [done|].
  destruct (IndexByte s LF); [done|]. intros _. by rewrite IH.
Qed.

Lemma split_line_no_lf d l r : split_line d = Some (l, r) → d = l ++ LF :: r ∧ no_lf (to_string l).
Proof.
  revert l. induction d as [|c d IH]; intros l; simpl; [done|].
  destruct (Ascii.eqb_spec c LF) as [->|Hc].
  - intros ?; simplify_eq. done.
  - destruct (split_line d) as [[l' r']|] eqn:E; simpl; [|done]. intros ?; simplify_eq.
    destruct (IH l' eq_refl) as [-> H]. split; [done|].
    unfold no_lf in *. simpl. apply Ascii.eqb_neq in Hc. unfold to_string in *. simpl.
    by rewrite Hc, H.
Qed.

Lemma split_line_None d : split_line d = None → no_lf (to_string d).
Proof.
  induction d as [|c d IH]; simpl; [done|].
  destruct (Ascii.eqb c LF) eqn:Hc; [done|].
  destruct (split_line d) as [[? ?]|]; simpl; [done|]. intros _.
  unfold no_lf, to_string in *. simpl. by rewrite Hc, IH.
Qed.

Lemma chop_cr_app l : chop_cr (l ++ [CR]) = l.
Proof.
  induction l as [|c l IH]; [done|]. simpl.
  destruct l as [|d l]; [done|]. simpl in *. by rewrite IH.
Qed.

Lemma chop_cr_prefix l : ∃ t, l = chop_cr l ++ t.
Proof.
  induction l as [|c l [t IH]]; [by exists []|].
  destruct l as [|d l].
  - simpl. destruct (Ascii.eqb c CR); eexists; [by rewrite app_nil_l|by rewrite app_nil_r].
  - exists t. simpl in *. by rewrite <- IH.
Qed.

Lemma no_lf_app a b : no_lf (a +:+ b) ↔ no_lf a ∧ no_lf b.
Proof. unfold no_lf. rewrite !IndexByte_None, str_forall_app. apply andb_true_iff. Qed.

Lemma to_string_app a b : to_string (a ++ b) = to_string a +:+ to_string b.
Proof. rewrite <- (of_to_string a), <- (of_to_string b), <- of_string_app. by rewrite !to_of_string. Qed.

(** A line written with CRLF is read back. *)
Lemma ReadLine_crlf s rest f n :
  no_lf s → ReadLine (mk_reader (of_string (s +:+ CRLF) ++ rest) f n) = Ok (s, mk_reader rest f n).
Proof.
  intros Hs. unfold ReadLine. simpl.
  change CRLF with (String CR "" +:+ String LF ""). rewrite <- str_app_assoc, of_string_app.
  rewrite <- app_assoc. simpl. rewrite split_line_app.
  - rewrite of_string_app. simpl. rewrite chop_cr_app, to_of_string. done.
  - apply no_lf_app. done.
Qed.

(** A line that was read holds no line feed, and takes at least one byte. *)
Lemma ReadLine_ok r s r' :
  ReadLine r = Ok (s, r') →
  no_lf s ∧ length (rd_data r') < length (rd_data r) ∧ r' = set_data r (rd_data r').
Proof.
  unfold ReadLine. destruct (split_line (rd_data r)) as [[l rest]|] eqn:E.
  - intros ?; simplify_eq. apply split_line_no_lf in E as [Hd Hl].
    rewrite Hd, length_app. simpl. split; [|split; [lia|done]].
    destruct (chop_cr_prefix l) as [t Ht]. rewrite Ht, to_string_app in Hl.
    by apply no_lf_app in Hl as [? _].
  - apply split_line_None in E. destruct (rd_data r) as [|c d] eqn:Hd; [done|].
    intros ?; simplify_eq. simpl. split; [done|]. split; [lia|done].
Qed.

Lemma ReadLine_no_panic r : no_panic (ReadLine r).
Proof.
  intros p. unfold ReadLine. destruct (split_line _) as [[? ?]|]; [done|]. by destruct (rd_data r).
Qed.

Lemma skip_blanks_le d : length (skip_blanks d).2 <= length d.
Proof.
  induction d as [|c d IH]; simpl; [lia|]. destruct (is_blank c); simpl; [|lia].
  destruct (skip_blanks d); simpl in *. lia.
Qed.

Lemma read_continuations_le fuel acc r :
  length (rd_data (read_continuations fuel acc r).2) <= length (rd_data r).
Proof.
  revert acc r. induction fuel as [|fuel IH]; intros acc r; simpl; [lia|].
  pose proof (skip_blanks_le (rd_data r)). destruct (skip_blanks (rd_data r)) as [n d].
  destruct (n =? 0); simpl in *; [lia|].
  destruct (ReadLine (set_data r d)) as [[line r']|e|p] eqn:E; simpl; [|lia..].
  apply ReadLine_ok in E as (_ & Hl & _). simpl in Hl. etrans; [apply IH|]. lia.
Qed.

Lemma readContinuedLine_ok r s r' :
  readContinuedLine r = Ok (s, r') → length (rd_data r') < length (rd_data r).
Proof.
  unfold readContinuedLine. destruct (ReadLine r) as [[l r1]|e|p] eqn:E; [|done..].
  apply ReadLine_ok in E as (_ & Hl & _).
  destruct (String.eqb l ""); [intros ?; simplify_eq; lia|].
  destruct (negb _); [done|].
  pose proof (read_continuations_le (S (length (rd_data r1))) (trim l) r1) as Hc.
  destruct (read_continuations _ _ _) as [kv r2]. intros ?; simplify_eq. simpl in Hc. lia.
Qed.

Lemma readContinuedLine_no_panic r : no_panic (readContinuedLine r).
Proof.
  intros p. unfold readContinuedLine.
  destruct (ReadLine r) as [[l r1]|e|q] eqn:E; [|done|by apply ReadLine_no_panic in E].
  by repeat case_match.
Qed.

(** The fuel is enough: one line takes at least one byte. *)
Lemma header_loop_no_panic fuel m r : length (rd_data r) < fuel → no_panic (header_loop fuel m r).
Proof.
  revert m r. induction fuel as [|fuel IH]; intros m r Hf; [lia|]. simpl.
  apply no_panic_bind; [apply readContinuedLine_no_panic|].
  intros [kv r'] Hkv. apply readContinuedLine_ok in Hkv.
  destruct (String.eqb kv ""); [auto with lhotse|].
  destruct (Cut kv ":") as [[k v]|]; [|auto with lhotse].
  destruct (canonicalMIMEHeaderKey k) as [key ok].
  destruct (_ || _); [auto with lhotse|]. apply IH. lia.
Qed.

Lemma header_loop_takes fuel m r h r' : header_loop fuel m r = Ok (h, r') → length (rd_data r') < length (rd_data r).
Proof.
  revert m r. induction fuel as [|fuel IH]; intros m r; [done|]. simpl.
  destruct (readContinuedLine r) as [[kv r1]|e|p] eqn:E; [|done..]. apply readContinuedLine_ok in E. simpl.
  destruct (String.eqb kv ""); [intros ?; simplify_eq; lia|].
  destruct (Cut kv ":") as [[k v]|]; [|done]. destruct (canonicalMIMEHeaderKey k) as [key ok].
  destruct (_ || _); [done|]. intros Hr%IH. lia.
Qed.

Lemma ReadMIMEHeader_takes r h r' : ReadMIMEHeader r = Ok (h, r') → length (rd_data r') < length (rd_data r).
Proof.
  unfold ReadMIMEHeader. destruct (rd_data r) as [|c d] eqn:Hd; rewrite <- Hd; [apply header_loop_takes|].
  destruct (is_blank c); [by destruct (ReadLine r)|apply header_loop_takes].
Qed.

Lemma ReadMIMEHeader_no_panic r : no_panic (ReadMIMEHeader r).
Proof.
  unfold ReadMIMEHeader. destruct (rd_data r) as [|c d] eqn:Hd.
  - apply header_loop_no_panic. rewrite Hd. simpl. lia.
  - destruct (is_blank c); [|apply header_loop_no_panic; rewrite Hd; lia].
    destruct (ReadLine r) eqn:E; [apply no_panic_err..|by apply ReadLine_no_panic in E].
Qed.
End Laws.

Example read_header_ex :
  match ReadMIMEHeader (mk_reader (of_string ("host: a" +:+ CRLF +:+ "x-y:  1 " +:+ CRLF +:+
      " 2" +:+ CRLF +:+ "Host:b" +:+ CRLF +:+ CRLF +:+ "rest")) EOF 4096) with
  | Ok (h, r) => h !! "Host" = Some ["a"; "b"] ∧ h !! "X-Y" = Some ["1 2"] ∧ to_string (rd_data r) = "rest"
  | _ => False
  end.
Proof. vm_compute. repeat split. Qed.
