(* ===== verification/ClientHello.v ===== *)
(** * TLS ClientHello: reading the server name

    Models pkg/protocol/tls/client_hello.go.  [ParseClientHelloServerName]
    works on a byte slice with the code's own bounds checks in front of
    slicing that panics out of range; the two loops carry a fuel (the length
    of what they scan, every round drops at least three bytes), and running
    out of it is a panic, so that [parse_no_panic] covers termination too.

    The reference the parser is compared with is an encoder for well-formed
    hellos ([encode]). *)

From S2P Require Export GoIO.
From Stdlib Require Import Ascii.

Local Open Scope nat_scope.

(** ** Constants and errors *)

Definition recordTypeHandshake : Z := 22.
Definition handshakeTypeClientHello : Z := 1.
Definition maxTLSRecordLen : nat := Z.to_nat (16384 + 2048).
Definition ClientHelloPeekBufferSize : nat := 5 + maxTLSRecordLen.

Inductive tls_error :=
  | errClientHelloTruncated
  | errRead (e : read_error).

#[export] Instance tls_error_eq_dec : EqDecision tls_error.
Proof. solve_decision. Defined.

Abbreviation tls := (result tls_error).

Definition out_of_fuel {A} : tls A := Panic (Explicit "fuel").

(** ** The parser *)

(** the loop over the entries of the server_name extension *)
Fixpoint names_loop (fuel : nat) (names : bytes) : tls string :=
  match fuel with
  | O => out_of_fuel
  | S fuel' =>
      if 3 <=? length names then
        nameType ← index names 0;
        nb ← slice names 1 3; nameLen ← Uint16 nb;
        names ← slice names 3 (length names);
        if length names <? nameLen then Err errClientHelloTruncated else
        serverName ← slice names 0 nameLen;
        names ← slice names nameLen (length names);
        if (byte_val nameType =? 0)%Z then Ok (to_string serverName)
        else names_loop fuel' names
      else if 0 <? length names then Err errClientHelloTruncated
      else Ok ""
  end.

Definition parseServerNameExtension (data : bytes) : tls string :=
  if length data <? 2 then Err errClientHelloTruncated else
  lb ← slice data 0 2; listLen ← Uint16 lb;
  if length data <? 2 + listLen then Err errClientHelloTruncated else
  names ← slice data 2 (2 + listLen);
  names_loop (S (length names)) names.

(** the loop over the extensions *)
Fixpoint extensions_loop (fuel : nat) (extensions : bytes) : tls string :=
  match fuel with
  | O => out_of_fuel
  | S fuel' =>
      if 4 <=? length extensions then
        tb ← slice extensions 0 2; extensionType ← Uint16 tb;
        lb ← slice extensions 2 4; extensionLen ← Uint16 lb;
        extensions ← slice extensions 4 (length extensions);
        if length extensions <? extensionLen then Err errClientHelloTruncated else
        extensionData ← slice extensions 0 extensionLen;
        extensions ← slice extensions extensionLen (length extensions);
        if negb (extensionType =? 0) then extensions_loop fuel' extensions
        else parseServerNameExtension extensionData
      else Ok ""
  end.

(** from the session id of the hello on *)
Definition parse_hello (hello : bytes) : tls string :=
  if length hello <? 34 then Err errClientHelloTruncated else
  let offset := 34 in
  if length hello <=? offset then Err errClientHelloTruncated else
  sid ← index hello offset; let sessionIDLen := Z.to_nat (byte_val sid) in
  let offset := offset + 1 in
  if length hello <? offset + sessionIDLen then Err errClientHelloTruncated else
  let offset := offset + sessionIDLen in
  if length hello <? offset + 2 then Err errClientHelloTruncated else
  cb ← slice hello offset (offset + 2); cipherSuiteLen ← Uint16 cb;
  let offset := offset + 2 in
  if length hello <? offset + cipherSuiteLen then Err errClientHelloTruncated else
  let offset := offset + cipherSuiteLen in
  if length hello <=? offset then Err errClientHelloTruncated else
  cm ← index hello offset; let compressionMethodsLen := Z.to_nat (byte_val cm) in
  let offset := offset + 1 in
  if length hello <? offset + compressionMethodsLen then Err errClientHelloTruncated else
  let offset := offset + compressionMethodsLen in
  if offset =? length hello then Ok "" else
  if length hello <? offset + 2 then Err errClientHelloTruncated else
  eb ← slice hello offset (offset + 2); extensionsLen ← Uint16 eb;
  let offset := offset + 2 in
  if length hello <? offset + extensionsLen then Err errClientHelloTruncated else
  extensions ← slice hello offset (offset + extensionsLen);
  extensions_loop (S (length extensions)) extensions.

Definition ParseClientHelloServerName (record : bytes) : tls string :=
  if length record <? 5 then Err errClientHelloTruncated else
  t ← index record 0;
  if negb (byte_val t =? recordTypeHandshake)%Z then Ok "" else
  rb ← slice record 3 5; recordLen ← Uint16 rb;
  if length record <? 5 + recordLen then Err errClientHelloTruncated else
  body ← slice record 5 (5 + recordLen);
  if length body <? 4 then Ok "" else
  h ← index body 0;
  if negb (byte_val h =? handshakeTypeClientHello)%Z then Ok "" else
  b1 ← index body 1; b2 ← index body 2; b3 ← index body 3;
  let helloLen := Z.to_nat (byte_val b1 * 65536 + byte_val b2 * 256 + byte_val b3) in
  if length body <? 4 + helloLen then Err errClientHelloTruncated else
  hello ← slice body 4 (4 + helloLen);
  parse_hello hello.

(** [PeekClientHelloServerName]: server name, whether the stream is TLS, error *)
Definition PeekClientHelloServerName (r : reader) : tls (string * bool * option tls_error) :=
  let '(header, err) := Peek r 5 in
  match err with
  | Some e => Ok ("", false, Some (errRead e))
  | None =>
      lb ← slice header 3 5; recordLen ← Uint16 lb;
      h0 ← index header 0; h1 ← index header 1;
      if negb (byte_val h0 =? recordTypeHandshake)%Z || negb (byte_val h1 =? 3)%Z
         || (recordLen <=? 0) || (maxTLSRecordLen <? recordLen)
      then Ok ("", false, None)
      else
        let '(record, err) := Peek r (5 + recordLen) in
        match err with
        | Some e =>
            if bool_decide (e = ErrBufferFull) || bool_decide (e = EOF)
            then Ok ("", true, Some errClientHelloTruncated)
            else Ok ("", true, Some (errRead e))
        | None =>
            match ParseClientHelloServerName record with
            | Ok serverName => Ok (serverName, true, None)
            | Err e => Ok ("", true, Some e)
            | Panic p => Panic p
            end
        end
  end.

(** ** Well-formed hellos *)

Definition encode_name (name : nat * bytes) : bytes :=
  u8 name.1 ++ u16 (length name.2) ++ name.2.
Definition encode_names (names : list (nat * bytes)) : bytes :=
  let body := concat (encode_name <$> names) in u16 (length body) ++ body.

Definition encode_ext (e : nat * bytes) : bytes :=
  u16 e.1 ++ u16 (length e.2) ++ e.2.

Record client_hello := {
  ch_version : bytes;               (* two bytes *)
  ch_random : bytes;                (* thirty-two bytes *)
  ch_session : bytes;
  ch_ciphers : bytes;
  ch_compression : bytes;
  ch_extensions : list (nat * bytes)
}.

Definition encode_hello (ch : client_hello) : bytes :=
  let exts := concat (encode_ext <$> ch_extensions ch) in
  ch_version ch ++ ch_random ch ++
  u8 (length (ch_session ch)) ++ ch_session ch ++
  u16 (length (ch_ciphers ch)) ++ ch_ciphers ch ++
  u8 (length (ch_compression ch)) ++ ch_compression ch ++
  u16 (length exts) ++ exts.

(** the record that carries the hello: handshake record, TLS 1.x *)
Definition encode (ch : client_hello) : bytes :=
  let hello := encode_hello ch in
  u8 22 ++ u8 3 ++ u8 1 ++ u16 (4 + length hello) ++
  u8 1 ++ u24 (length hello) ++ hello.

Definition fits (ch : client_hello) : Prop :=
  length (ch_version ch) = 2 ∧ length (ch_random ch) = 32 ∧
  (Z.of_nat (length (ch_session ch)) < 256)%Z ∧ (Z.of_nat (length (ch_ciphers ch)) < 65536)%Z ∧
  (Z.of_nat (length (ch_compression ch)) < 256)%Z ∧
  Forall (λ e, (Z.of_nat e.1 < 65536)%Z ∧ (Z.of_nat (length e.2) < 65536)%Z) (ch_extensions ch) ∧
  (Z.of_nat (length (concat (encode_ext <$> ch_extensions ch))) < 65536)%Z ∧
  (4 + Z.of_nat (length (encode_hello ch)) < 65536)%Z.

(** the name the parser is to find: the first host_name entry (type 0) of the
    first server_name extension (type 0) *)
Definition hello_sni (ch : client_hello) : tls string :=
  match list_find (λ e : nat * bytes, e.1 = 0) (ch_extensions ch) with
  | Some (_, (_, data)) => parseServerNameExtension data
  | None => Ok ""
  end.

Definition names_sni (names : list (nat * bytes)) : string :=
  match list_find (λ n : nat * bytes, n.1 = 0) names with
  | Some (_, (_, host)) => to_string host
  | None => ""
  end.

(** ** The parser never panics *)

Lemma names_loop_no_panic fuel names : length names < fuel → no_panic (names_loop fuel names).
Proof.
  revert names. induction fuel as [|fuel IH]; intros names Hf; [lia|]; cbn [names_loop].
  repeat np_step. apply IH. lia.
Qed.

Lemma parseServerNameExtension_no_panic data : no_panic (parseServerNameExtension data).
Proof. unfold parseServerNameExtension. repeat np_step. apply names_loop_no_panic. lia. Qed.

Lemma extensions_loop_no_panic fuel exts : length exts < fuel → no_panic (extensions_loop fuel exts).
Proof.
  revert exts. induction fuel as [|fuel IH]; intros exts Hf; [lia|]; cbn [extensions_loop].
  repeat np_step; [|apply parseServerNameExtension_no_panic]. apply IH. lia.
Qed.

Lemma parse_hello_no_panic hello : no_panic (parse_hello hello).
Proof. unfold parse_hello. repeat np_step. apply extensions_loop_no_panic. lia. Qed.

Lemma parse_no_panic_aux record : no_panic (ParseClientHelloServerName record).
Proof. unfold ParseClientHelloServerName. repeat np_step. apply parse_hello_no_panic. Qed.

Lemma Peek_length r n b : Peek r n = (b, None) → length b = n.
Proof.
  unfold Peek. intros H. cases; simplify_eq; bools. rewrite length_take. lia.
Qed.

(** ** The name found is a piece of the input *)

Definition found_in (b : bytes) (s : string) : Prop := infix (of_string s) b.

Lemma found_in_nil b : found_in b "".
Proof. exists [], b. done. Qed.

Lemma found_in_infix a b s : infix a b → found_in a s → found_in b s.
Proof. intros ? ?. by eapply infix_trans. Qed.

Lemma names_loop_found fuel names : post (names_loop fuel names) (found_in names).
Proof.
  revert names. induction fuel as [|fuel IH]; intros names; [apply post_panic|]; cbn [names_loop].
  repeat post_step; try apply found_in_nil.
  - unfold found_in. rewrite of_to_string. eauto with lhotse.
  - eapply post_mono; [apply IH|]. intros; eapply found_in_infix; [|done]. eauto with lhotse.
Qed.

Lemma parseServerNameExtension_found data : post (parseServerNameExtension data) (found_in data).
Proof.
  unfold parseServerNameExtension. repeat post_step.
  eapply post_mono; [apply names_loop_found|]. intros; by eapply found_in_infix.
Qed.

Lemma extensions_loop_found fuel exts : post (extensions_loop fuel exts) (found_in exts).
Proof.
  revert exts. induction fuel as [|fuel IH]; intros exts; [apply post_panic|]; cbn [extensions_loop].
  repeat post_step; try apply found_in_nil.
  - eapply post_mono; [apply IH|]. intros; eapply found_in_infix; [|done]. eauto with lhotse.
  - eapply post_mono; [apply parseServerNameExtension_found|].
    intros; eapply found_in_infix; [|done]. eauto with lhotse.
Qed.

Lemma parse_hello_found hello : post (parse_hello hello) (found_in hello).
Proof.
  unfold parse_hello. repeat post_step; try apply found_in_nil.
  eapply post_mono; [apply extensions_loop_found|]. intros; by eapply found_in_infix.
Qed.

Lemma parse_found record : post (ParseClientHelloServerName record) (found_in record).
Proof.
  unfold ParseClientHelloServerName. repeat post_step; try apply found_in_nil.
  eapply post_mono; [apply parse_hello_found|].
  intros; eapply found_in_infix; [|done]. eauto with lhotse.
Qed.

(** ** The parser inverts the encoder *)

Lemma encode_name_length n : length (encode_name n) = 3 + length n.2.
Proof. unfold encode_name. rewrite !length_app. simpl. lia. Qed.

Lemma encode_ext_length e : length (encode_ext e) = 4 + length e.2.
Proof. unfold encode_ext. rewrite !length_app. simpl. lia. Qed.

Lemma extensions_loop_encode fuel exts :
  Forall (λ e, (Z.of_nat e.1 < 65536)%Z ∧ (Z.of_nat (length e.2) < 65536)%Z) exts →
  length (concat (encode_ext <$> exts)) < fuel →
  extensions_loop fuel (concat (encode_ext <$> exts)) =
  match list_find (λ e : nat * bytes, e.1 = 0) exts with
  | Some (_, (_, data)) => parseServerNameExtension data
  | None => Ok ""
  end.
Proof.
  intros Hall. revert fuel. induction Hall as [|[t data] exts [Ht Hd] Hall IH];
    intros fuel Hf; [by destruct fuel; [simpl in Hf; lia|]|].
  destruct fuel as [|fuel]; [lia|]. simpl in Ht, Hd.
  rewrite fmap_cons, concat_cons, length_app, encode_ext_length in Hf. simpl in Hf.
  rewrite fmap_cons, concat_cons. cbn [extensions_loop list_find].
  assert (4 <=? length (encode_ext (t, data) ++ concat (encode_ext <$> exts)) = true) as ->.
  { apply Nat.leb_le. rewrite length_app, encode_ext_length. simpl. lia. }
  specialize (IH fuel ltac:(lia)). revert IH.
  generalize (concat (encode_ext <$> exts)) as rest. intros rest IH.
  unfold encode_ext. cbn [fst snd]. rewrite <- !app_assoc.
  rewrite slice_bind_head by done. rewrite Uint16_bind_u16 by done.
  rewrite (slice_bind_app (u16 t)) by done. rewrite Uint16_bind_u16 by done.
  rewrite (app_assoc (u16 t)). rewrite slice_bind_tail by done.
  assert (length (data ++ rest) <? length data = false) as ->.
  { apply Nat.ltb_ge. rewrite length_app. lia. }
  rewrite slice_bind_head by done. rewrite slice_bind_tail by done.
  destruct (decide (t = 0)) as [->|Hne].
  - simpl. by destruct (list_find _ exts).
  - apply Nat.eqb_neq in Hne as Hne'. rewrite Hne'. simpl negb. cbv iota.
    rewrite IH.
    by destruct (list_find _ exts) as [[? []]|].
Qed.

Lemma names_loop_encode fuel names :
  Forall (λ n, (Z.of_nat n.1 < 256)%Z ∧ (Z.of_nat (length n.2) < 65536)%Z) names →
  length (concat (encode_name <$> names)) < fuel →
  names_loop fuel (concat (encode_name <$> names)) = Ok (names_sni names).
Proof.
  intros Hall. revert fuel. induction Hall as [|[t host] names [Ht Hh] Hall IH];
    intros fuel Hf; [by destruct fuel; [simpl in Hf; lia|]|].
  destruct fuel as [|fuel]; [lia|]. simpl in Ht, Hh.
  rewrite fmap_cons, concat_cons, length_app, encode_name_length in Hf. simpl in Hf.
  rewrite fmap_cons, concat_cons. cbn [names_loop].
  assert (3 <=? length (encode_name (t, host) ++ concat (encode_name <$> names)) = true) as ->.
  { apply Nat.leb_le. rewrite length_app, encode_name_length. simpl. lia. }
  specialize (IH fuel ltac:(lia)). revert IH.
  generalize (concat (encode_name <$> names)) as rest. intros rest IH.
  unfold encode_name. cbn [fst snd]. rewrite <- !app_assoc.
  rewrite index_bind_u8.
  rewrite (slice_bind_app (u8 t)) by done. rewrite Uint16_bind_u16 by done.
  rewrite (app_assoc (u8 t)). rewrite slice_bind_tail by done.
  assert (length (host ++ rest) <? length host = false) as ->.
  { apply Nat.ltb_ge. rewrite length_app. lia. }
  rewrite slice_bind_head by done. rewrite slice_bind_tail by done.
  rewrite byte_val_of by lia. unfold names_sni. cbn [list_find fst].
  destruct (decide (t = 0)) as [->|Hne]; [done|].
  assert ((Z.of_nat t =? 0)%Z = false) as -> by (apply Z.eqb_neq; lia).
  rewrite IH. unfold names_sni. by destruct (list_find _ names) as [[? []]|].
Qed.

Lemma parseServerNameExtension_encode names :
  Forall (λ n, (Z.of_nat n.1 < 256)%Z ∧ (Z.of_nat (length n.2) < 65536)%Z) names →
  (Z.of_nat (length (concat (encode_name <$> names))) < 65536)%Z →
  parseServerNameExtension (encode_names names) = Ok (names_sni names).
Proof.
  intros Hall Hlen. unfold parseServerNameExtension, encode_names.
  assert (∀ l, length (u16 l ++ concat (encode_name <$> names))
               = 2 + length (concat (encode_name <$> names))) as Hl by done.
  rewrite !Hl. simpl (_ <? 2). cbv iota.
  rewrite slice_bind_head by done. rewrite Uint16_bind_u16 by done.
  rewrite Nat.ltb_irrefl. rewrite slice_bind_tail by done.
  apply names_loop_encode; [done|lia].
Qed.

(** the hello, cut before each of the fields the parser reads *)
Section HelloLayout.
Variable ch : client_hello.
Hypothesis Hfits : fits ch.

Let exts := concat (encode_ext <$> ch_extensions ch).
Let hd := ch_version ch ++ ch_random ch.
Let p1 := hd ++ u8 (length (ch_session ch)) ++ ch_session ch.
Let p2 := p1 ++ u16 (length (ch_ciphers ch)) ++ ch_ciphers ch.
Let p3 := p2 ++ u8 (length (ch_compression ch)) ++ ch_compression ch.

Lemma layout_session :
  ∃ rest, encode_hello ch = hd ++ byte_of (Z.of_nat (length (ch_session ch))) :: rest.
Proof.
  eexists. unfold encode_hello, hd. by rewrite <- !app_assoc.
Qed.

Lemma layout_ciphers :
  ∃ rest, encode_hello ch = p1 ++ u16 (length (ch_ciphers ch)) ++ rest.
Proof. eexists. unfold encode_hello, p1, hd. by rewrite <- !app_assoc. Qed.

Lemma layout_compression :
  ∃ rest, encode_hello ch = p2 ++ byte_of (Z.of_nat (length (ch_compression ch))) :: rest.
Proof. eexists. unfold encode_hello, p2, p1, hd. by rewrite <- !app_assoc. Qed.

Lemma layout_extensions : encode_hello ch = p3 ++ u16 (length exts) ++ exts.
Proof. unfold encode_hello, p3, p2, p1, hd. by rewrite <- !app_assoc. Qed.

Lemma layout_lengths :
  length hd = 34 ∧ length p1 = 35 + length (ch_session ch) ∧
  length p2 = 37 + length (ch_session ch) + length (ch_ciphers ch) ∧
  length p3 = 38 + length (ch_session ch) + length (ch_ciphers ch) + length (ch_compression ch) ∧
  length (encode_hello ch) = 40 + length (ch_session ch) + length (ch_ciphers ch)
    + length (ch_compression ch) + length exts.
Proof.
  destruct Hfits as (Hv & Hr & _). unfold encode_hello, p3, p2, p1, hd, exts.
  rewrite !length_app. simpl. lia.
Qed.

Lemma parse_hello_encode : parse_hello (encode_hello ch) = hello_sni ch.
Proof.
  pose proof Hfits as (_ & _ & Hs & Hc & Hm & He & Hx & _).
  pose proof layout_lengths as (H0 & H1 & H2 & H3 & Hlen).
  unfold parse_hello.
  destruct (length (encode_hello ch) <? 34) eqn:?; bools; [lia|].
  destruct (length (encode_hello ch) <=? 34) eqn:?; bools; [lia|].
  destruct layout_session as [r0 E0]. rewrite E0 at 1.
  rewrite index_bind_app by lia. rewrite byte_val_of, Nat2Z.id by lia.
  do 2 (destruct (_ <? _) eqn:?; bools; [lia|]).
  destruct layout_ciphers as [r1 E1]. rewrite E1 at 1.
  rewrite (slice_bind_app p1) by (simpl; lia). rewrite Uint16_bind_u16 by done.
  destruct (_ <? _) eqn:?; bools; [lia|]. destruct (_ <=? _) eqn:?; bools; [lia|].
  destruct layout_compression as [r2 E2]. rewrite E2 at 1.
  rewrite index_bind_app by lia. rewrite byte_val_of, Nat2Z.id by lia.
  destruct (_ <? _) eqn:?; bools; [lia|].
  destruct (_ =? _) eqn:?; bools; [lia|]. destruct (_ <? _) eqn:?; bools; [lia|].
  rewrite layout_extensions at 1.
  rewrite (slice_bind_app p3) by (simpl; lia). rewrite Uint16_bind_u16 by done.
  destruct (_ <? _) eqn:?; bools; [lia|].
  rewrite layout_extensions, app_assoc, <- (app_nil_r exts), app_assoc, <- app_assoc.
  rewrite (slice_bind_app (p3 ++ u16 _)) by (rewrite ?length_app, ?app_nil_r; simpl; lia).
  rewrite ?app_nil_r. unfold hello_sni. apply extensions_loop_encode; [done|]. unfold exts. lia.
Qed.
End HelloLayout.

Lemma encode_hello_length ch : fits ch → (Z.of_nat (length (encode_hello ch)) < 65532)%Z.
Proof. unfold fits. lia. Qed.

Lemma parse_encode_aux ch : fits ch → ParseClientHelloServerName (encode ch) = hello_sni ch.
Proof.
  intros Hf. pose proof (encode_hello_length ch Hf) as Hlen.
  pose proof (u24_val (length (encode_hello ch)) ltac:(lia)) as H24.
  unfold ParseClientHelloServerName, encode.
  assert (∀ b l, length (u8 22 ++ u8 3 ++ u8 1 ++ u16 l ++ b) = 5 + length b) as Hl1 by done.
  assert (∀ b l, length (u8 l ++ u24 l ++ b) = 4 + length b) as Hl2 by done.
  rewrite Hl1. assert (length (u8 1 ++ u24 (length (encode_hello ch)) ++ encode_hello ch)
    = 4 + length (encode_hello ch)) as Hl3 by done. rewrite Hl3.
  destruct (_ <? 5) eqn:?; bools; [lia|]. rewrite index_bind_u8.
  rewrite byte_val_of by lia. change (negb (Z.of_nat 22 =? _)%Z) with false. cbv iota.
  rewrite (app_assoc (u8 22)), (app_assoc (u8 22 ++ u8 3)).
  rewrite slice_bind_app by done. rewrite Uint16_bind_u16 by lia.
  destruct (_ <? _) eqn:?; bools; [lia|].
  rewrite (app_assoc _ (u16 _)).
  rewrite slice_bind_tail by (rewrite ?length_app; simpl; lia).
  rewrite Hl3. destruct (_ <? 4) eqn:?; bools; [lia|].
  rewrite index_bind_u8, byte_val_of by lia. change (negb (Z.of_nat 1 =? _)%Z) with false. cbv iota.
  destruct (u24 (length (encode_hello ch))) as [|b1 [|b2 [|b3 [|? ?]]]]; try done.
  change (u8 1 ++ [b1; b2; b3] ++ encode_hello ch)
    with ([byte_of (Z.of_nat 1)] ++ b1 :: b2 :: b3 :: encode_hello ch).
  rewrite index_bind_app by done.
  change ([byte_of (Z.of_nat 1)] ++ b1 :: b2 :: b3 :: encode_hello ch)
    with ([byte_of (Z.of_nat 1); b1] ++ b2 :: b3 :: encode_hello ch).
  rewrite index_bind_app by done.
  change ([byte_of (Z.of_nat 1); b1] ++ b2 :: b3 :: encode_hello ch)
    with ([byte_of (Z.of_nat 1); b1; b2] ++ b3 :: encode_hello ch).
  rewrite index_bind_app by done.
  rewrite H24, Nat.ltb_irrefl.
  change ([byte_of (Z.of_nat 1); b1; b2] ++ b3 :: encode_hello ch)
    with ([byte_of (Z.of_nat 1); b1; b2; b3] ++ encode_hello ch).
  rewrite slice_bind_tail by done. by apply parse_hello_encode.
Qed.

Lemma Peek_data r n b : Peek r n = (b, None) → b = take n (rd_data r).
Proof. unfold Peek. intros H. by cases. Qed.

Lemma peek_no_panic_aux r : no_panic (PeekClientHelloServerName r).
Proof.
  unfold PeekClientHelloServerName.
  destruct (Peek r 5) as [header [e|]] eqn:Hp; [apply no_panic_ok|].
  apply Peek_length in Hp. repeat np_step.
  destruct (Peek r _) as [record [e|]]; [repeat np_step|].
  pose proof (parse_no_panic_aux record) as Hr.
  destruct (ParseClientHelloServerName record); [apply no_panic_ok..|]. by destruct (Hr p).
Qed.

(** ** Properties *)

(** C9: the SNI parser inverts the ClientHello encoder.  On a connection that
    starts with the record of a well-formed hello of at most 18432 bytes,
    whatever follows it, [PeekClientHelloServerName] reports TLS without an
    error and returns the first host_name entry of the server_name extension
    (the empty string when the extension lists none). *)
Theorem sni_roundtrip ch names i rest fail :
  fits ch →
  (4 + Z.of_nat (length (encode_hello ch)) ≤ 18432)%Z →
  list_find (λ e : nat * bytes, e.1 = 0) (ch_extensions ch) = Some (i, (0, encode_names names)) →
  Forall (λ n, (Z.of_nat n.1 < 256)%Z ∧ (Z.of_nat (length n.2) < 65536)%Z) names →
  (Z.of_nat (length (concat (encode_name <$> names))) < 65536)%Z →
  PeekClientHelloServerName (mk_reader (encode ch ++ rest) fail ClientHelloPeekBufferSize)
  = Ok (names_sni names, true, None).
Proof.
  intros Hf Hmax Hfind Hn Hnl. set (hl := length (encode_hello ch)) in *.
  assert (length (encode ch) = 5 + (4 + hl)) as Hlen by done.
  assert (ParseClientHelloServerName (encode ch) = Ok (names_sni names)) as Hparse.
  { rewrite parse_encode_aux by done. unfold hello_sni. rewrite Hfind.
    by apply parseServerNameExtension_encode. }
  assert (∀ n, 5 ≤ n → n ≤ 5 + (4 + hl) →
    Peek (mk_reader (encode ch ++ rest) fail ClientHelloPeekBufferSize) n
    = (take n (encode ch), None)) as Hpeek.
  { intros n H1 H2. unfold Peek. cbn [rd_size rd_data].
    rewrite (proj2 (Nat.ltb_ge _ _)) by (unfold ClientHelloPeekBufferSize, maxTLSRecordLen; lia).
    rewrite (proj2 (Nat.leb_le _ _)) by (rewrite length_app; lia).
    by rewrite take_app_le by lia. }
  unfold PeekClientHelloServerName. rewrite Hpeek by lia.
  change (take 5 (encode ch)) with (u8 22 ++ u8 3 ++ u8 1 ++ u16 (4 + hl)).
  rewrite (app_assoc (u8 22)), (app_assoc (u8 22 ++ u8 3)).
  rewrite slice_bind_tail by done. rewrite Uint16_bind_u16 by lia.
  rewrite <- (app_assoc (u8 22 ++ u8 3)), <- (app_assoc (u8 22)). rewrite index_bind_u8.
  change (u8 22 ++ u8 3 ++ u8 1 ++ u16 (4 + hl))
    with (u8 22 ++ byte_of (Z.of_nat 3) :: u8 1 ++ u16 (4 + hl)).
  rewrite index_bind_app by done. rewrite !byte_val_of by lia.
  rewrite (proj2 (Nat.ltb_ge maxTLSRecordLen _)) by (unfold maxTLSRecordLen; lia).
  simpl orb. cbv iota. rewrite Hpeek by lia. rewrite take_ge by lia. by rewrite Hparse.
Qed.

(** C40: reading the server name is total.  On every byte slice
    [ParseClientHelloServerName] returns a name or the truncation error: no
    slice expression is out of range and both scanning loops end. *)
Theorem parse_no_panic record : no_panic (ParseClientHelloServerName record).
Proof. apply parse_no_panic_aux. Qed.

(** What the peek reports is in the stream.  It never panics; a stream
    reported as TLS starts with the bytes 22, 3; and a non-empty server name
    is reported only for TLS, without an error, and occurs literally among the
    bytes the connection delivers. *)
Theorem peek_sound r :
  ∃ name isTLS err,
    PeekClientHelloServerName r = Ok (name, isTLS, err) ∧
    (isTLS = true → take 2 (rd_data r) = [byte_of 22; byte_of 3]) ∧
    (name ≠ ""%string → isTLS = true ∧ err = None ∧ infix (of_string name) (rd_data r)).
Proof.
  pose proof (peek_no_panic_aux r) as Hnp. unfold PeekClientHelloServerName in *.
  destruct (Peek r 5) as [header [e|]] eqn:Hp; [by eexists _, _, _|].
  pose proof (Peek_length _ _ _ Hp) as Hl. apply Peek_data in Hp.
  destruct header as [|x0 [|x1 [|x2 [|x3 [|x4 [|? ?]]]]]]; try discriminate.
  assert (take 2 (rd_data r) = [x0; x1]) as Ht.
  { replace 2 with (2 `min` 5) by done. by rewrite <- take_take, <- Hp. }
  simpl in *. destruct (_ || _) eqn:Hc; [by eexists _, _, _|]. bools.
  assert (take 2 (rd_data r) = [byte_of 22; byte_of 3]) as Htls.
  { rewrite Ht. repeat match goal with H : byte_val _ = _ |- _ => apply (f_equal byte_of) in H;
      rewrite byte_of_val in H; rewrite H end. done. }
  destruct (Peek r _) as [record [e|]] eqn:Hr.
  { destruct (_ || _); by eexists _, _, _. }
  destruct (ParseClientHelloServerName record) as [s|e|p] eqn:Hparse;
    [|by eexists _, _, _|by destruct (Hnp p)].
  eexists _, _, _; repeat split; [done|]. apply Peek_data in Hr. subst record.
  assert (post (ParseClientHelloServerName (take (5 + Z.to_nat (byte_val x3 * 256 + byte_val x4)) (rd_data r)))
    (found_in (rd_data r))) as Hpost; [|by apply Hpost].
  eapply post_mono; [apply parse_found|]. intros; eapply found_in_infix; [apply infix_take|done].
Qed.

(** ** Witness *)

Definition demo_hello : client_hello := {|
  ch_version := u8 3 ++ u8 3;
  ch_random := concat (replicate 32 (u8 7));
  ch_session := [];
  ch_ciphers := u16 4865 ++ u16 4866;
  ch_compression := u8 0;
  ch_extensions := [(23, []); (0, encode_names [(0, of_string "api.github.com")])]
|}.

Lemma sni_roundtrip_witness :
  PeekClientHelloServerName
    (mk_reader (encode demo_hello ++ u8 99) EOF ClientHelloPeekBufferSize)
  = Ok ("api.github.com"%string, true, None).
Proof.
  apply (sni_roundtrip demo_hello [(0, of_string "api.github.com")] 1).
  - repeat split; try (vm_compute; reflexivity). repeat constructor; vm_compute; reflexivity.
  - vm_compute. discriminate.
  - reflexivity.
  - repeat constructor; vm_compute; reflexivity.
  - vm_compute. reflexivity.
Defined.
