(* ===== verification/HttpMessage.v ===== *)
(** * HTTP/1 messages

    Models pkg/protocol/http: [internal/ascii/print.go] (Module [Ascii_]),
    [header.go], [request.go] and [response.go].

    The URL parser of [net/url] and the two token tests of
    [golang.org/x/net/http/httpguts] are members of the classes [UrlParser] and
    [HttpGuts]. *)

From S2P Require Export TextProto GoNet.
From Stdlib Require Import Ascii.

Local Open Scope string_scope.
Local Open Scope nat_scope.

(** ** internal/ascii *)

Module Ascii_.
Definition lower (b : ascii) : ascii := ascii_lower b.

Fixpoint EqualFold (s t : string) : bool :=
  match s, t with
  | "", "" => true
  | String a s', String b t' => Ascii.eqb (lower a) (lower b) && EqualFold s' t'
  | _, _ => false
  end.

Definition IsPrint (s : string) : bool :=
  str_forall (λ c, negb ((byte_val c <? 32)%Z || (126 <? byte_val c)%Z)) s.

Definition Is (s : string) : bool := str_forall (λ c, negb (127 <? byte_val c)%Z) s.

Definition ToLower `{GoUnicode} (s : string) : string * bool :=
  if negb (IsPrint s) then ("", false) else (GoStrings.ToLower s, true).
End Ascii_.

(** ** header.go *)

Definition Header_Add (h : Header) (key value : string) : Header := MIME_Add h key value.
Definition Header_Set (h : Header) (key value : string) : Header := MIME_Set h key value.
Definition Header_Get (h : Header) (key : string) : string := MIME_Get h key.
Definition Header_Values (h : Header) (key : string) : list string := MIME_Values h key.
Definition Header_Del (h : Header) (key : string) : Header := MIME_Del h key.

(** [get]: the key is in canonical form *)
Definition Header_get (h : Header) (key : string) : string :=
  match h !! key with Some (v :: _) => v | _ => "" end.

Definition Header_has (h : Header) (key : string) : bool :=
  match h !! key with Some _ => true | None => false end.

Definition isTokenBoundary (b : ascii) : bool :=
  Ascii.eqb b " " || Ascii.eqb b "," || Ascii.eqb b HTAB.

(** what the loop of [hasToken] tests at the start position [sp]; the byte
    test [b != token[0] && b|0x20 != token[0]] first *)
Definition token_at (v token : string) (sp : nat) : bool :=
  let b := String.get sp v in
  let t0 := String.get 0 token in
  match b, t0 with
  | Some b, Some t0 =>
      if negb (Ascii.eqb b t0) && negb (Z.lor (byte_val b) 32 =? byte_val t0)%Z then false
      else if (0 <? sp) && negb (match String.get (sp - 1) v with
                                 | Some c => isTokenBoundary c | None => true end) then false
      else let endPos := sp + String.length token in
        if negb (endPos =? String.length v) &&
           negb (match String.get endPos v with Some c => isTokenBoundary c | None => true end)
        then false
        else Ascii_.EqualFold (str_take (String.length token) (str_drop sp v)) token
  | _, _ => false
  end.

Definition hasToken (v token : string) : bool :=
  if (String.length v <? String.length token) || String.eqb token "" then false
  else if String.eqb v token then true
  else existsb (token_at v token) (seq 0 (S (String.length v - String.length token))).

(** [headerNewlineToSpace] *)
Definition headerNewlineToSpace (s : string) : string :=
  str_map (λ c, if Ascii.eqb c LF || Ascii.eqb c CR then " "%char else c) s.

Definition key_le (a b : string * list string) : Prop := str_le a.1 b.1 = true.
#[export] Instance key_le_dec : RelDecision key_le.
Proof. intros a b. unfold key_le. apply _. Defined.

(** [sortedKeyValues] *)
Definition sortedKeyValues (h : Header) (exclude : string → bool) : list (string * list string) :=
  merge_sort key_le (filter (λ kv, exclude kv.1 = false) (map_to_list h)).

(** [writeSubset]: the text it writes, on a writer that does not fail *)
Definition writeSubset (h : Header) (exclude : string → bool) : string :=
  foldr (λ kv out,
    foldr (λ v out, kv.1 +:+ ": " +:+ TrimString (headerNewlineToSpace v) +:+ CRLF +:+ out)
      out kv.2)
    "" (sortedKeyValues h exclude).

(** [Write], [write] and [WriteSubset]; a nil map excludes nothing *)
Definition Header_WriteSubset (h : Header) (exclude : string → bool) : string := writeSubset h exclude.
Definition Header_write (h : Header) : string := writeSubset h (λ _, false).
Definition Header_Write (h : Header) : string := Header_write h.

(** [Clone]: the values of all keys are copied into one array, in the order of
    the map iteration; a key has a slice of it, whose capacity is its length *)
Definition clone_into (acc : list string * gmap string (nat * nat)) (kv : string * list string)
  : list string * gmap string (nat * nat) :=
  ((acc.1 ++ kv.2)%list, <[kv.1 := (List.length acc.1, List.length kv.2)]> acc.2).
Definition Header_Clone (order : list (string * list string)) : list string * gmap string (nat * nat) :=
  foldl clone_into ([], ∅) order.

(** the header the slices show *)
Definition clone_view (c : list string * gmap string (nat * nat)) : Header :=
  (λ sl : nat * nat, take sl.2 (drop sl.1 c.1)) <$> c.2.

(** [CanonicalHeaderKey] *)
Definition CanonicalHeaderKey (s : string) : string := CanonicalMIMEHeaderKey s.

(** [ParseTime]; [time_Parse layout text] is the library's *)
Definition TimeFormat : string := "Mon, 02 Jan 2006 15:04:05 GMT".
Definition timeFormats : list string := [TimeFormat; "Monday, 02-Jan-06 15:04:05 MST"; "Mon Jan _2 15:04:05 2006"].

Fixpoint parse_time {T} (time_Parse : string → string → result string T) (zero : result string T)
    (layouts : list string) (text : string) : result string T :=
  match layouts with
  | [] => zero
  | layout :: layouts =>
      match time_Parse layout text with
      | Ok t => Ok t
      | r => parse_time time_Parse r layouts text
      end
  end.
Definition ParseTime {T} (time_Parse : string → string → result string T) (zero : T) (text : string) : result string T :=
  parse_time time_Parse (Ok zero) timeFormats text.

(** ** Requests *)

Record URL := { url_scheme : string; url_host : string; url_query : string }.

Class UrlParser := {
  ParseRequestURI : string → option URL;       (* url.ParseRequestURI *)
  QueryGet : string → string → string          (* url.Values.Get of the parsed query *)
}.

Class HttpGuts := {
  IsTokenRune : Z → bool;
  HeaderValuesContainsToken : list string → string → bool
}.

(** [(u *URL) Port] *)
Definition url_port (u : URL) : string :=
  match LastIndexByte (url_host u) ":" with
  | Some i =>
      let port := str_drop (S i) (url_host u) in
      if str_forall is_digit port then port else ""
  | None => ""
  end.

Record Request := mk_request {
  Method : string;
  Proto : string;
  ProtoMajor : Z;
  ProtoMinor : Z;
  ReqURL : URL;
  Port : Z;                      (* int32 *)
  Authority : string;
  ReqHeader : Header;
  ContentLength : Z;             (* int64 *)
  TransferEncoding : list string;
  Host : string;
  RemoteAddr : string;
  LocalAddr : string;
  RequestURI : string;
  Close : bool
}.

Inductive http_error :=
  | HText (e : text_error)
  | HBadString (what val : string)      (* badStringError *)
  | HUnsupportedTE (what : string) (raw : list string)
  | HUrl
  | HTooManyHosts.

Section Messages.
Context `{UrlParser} `{HttpGuts} `{GoUnicode}.

(** [s1] may be -1, in which case the second search starts at 0; both must
    find a space *)
Definition parseRequestLine (line : string) : string * string * string * bool :=
  match IndexByte line " " with
  | None => ("", "", "", false)
  | Some s1 =>
      let tail := str_drop (S s1) line in
      match IndexByte tail " " with
      | None => ("", "", "", false)
      | Some s2 => (str_take s1 line, str_take s2 tail, str_drop (S s2) tail, true)
      end
  end.

Definition isNotToken (r : Z) : bool := negb (IsTokenRune r).

Definition validMethod (method : string) : bool :=
  (0 <? String.length method) && negb (existsb isNotToken (runes method)).

Definition ParseHTTPVersion (vers : string) : Z * Z * bool :=
  if String.eqb vers "HTTP/1.1" then (1, 1, true)%Z
  else if String.eqb vers "HTTP/1.0" then (1, 0, true)%Z
  else if negb (HasPrefix vers "HTTP/") then (0, 0, false)%Z
  else match IndexByte vers "." with
  | None => (0, 0, false)%Z
  | Some dot =>
      let '(major, err) := Atoi (str_drop 5 (str_take dot vers)) in
      if bool_decide (err ≠ None) || (major <? 0)%Z || (1000000 <? major)%Z then (0, 0, false)%Z
      else
        let '(minor, err) := Atoi (str_drop (S dot) vers) in
        if bool_decide (err ≠ None) || (minor <? 0)%Z || (1000000 <? minor)%Z then (0, 0, false)%Z
        else (major, minor, true)
  end.

(** the result and the header, from which [Connection] may be removed *)
Definition shouldClose (major minor : Z) (header : Header) (removeCloseHeader : bool)
  : bool * Header :=
  if (major <? 1)%Z then (true, header) else
  let conv := default [] (header !! "Connection") in
  let hasClose := HeaderValuesContainsToken conv "close" in
  if (major =? 1)%Z && (minor =? 0)%Z
  then (hasClose || negb (HeaderValuesContainsToken conv "keep-alive"), header)
  else (hasClose, if hasClose && removeCloseHeader then Header_Del header "Connection" else header).

Definition fixPragmaCacheControl (header : Header) : Header :=
  match header !! "Pragma" with
  | Some (v :: _) =>
      if String.eqb v "no-cache" then
        match header !! "Cache-Control" with
        | None => <["Cache-Control" := ["no-cache"]]> header
        | Some _ => header
        end
      else header
  | _ => header
  end.

(** the content length of a header; the error is dropped by the callers *)
Definition contentLength_of (h : Header) : Z :=
  let contentLen := Header_get h "Content-Length" in
  if String.eqb contentLen "" then (-1)%Z
  else match Atoi contentLen with
       | (cl, None) => cl
       | (_, Some _) => (-1)%Z
       end.

Definition fillContentLength (r : Request) : Z := contentLength_of (ReqHeader r).

Definition fillAuthority (r : Request) : string :=
  if String.eqb (url_host (ReqURL r)) "" then Host r else url_host (ReqURL r).

Definition fillTransferEncoding (r : Request) : list string :=
  Header_Values (ReqHeader r) "Transfer-Encoding".

(** the port, and the conversion error *)
Definition fillPort (r : Request) : Z * option num_error :=
  let up := url_port (ReqURL r) in
  if negb (String.eqb up "") then let '(p, e) := Atoi up in (wrap_s 32 p, e)
  else if String.eqb (Method r) "CONNECT" then (443%Z, None)
  else if String.eqb (Host r) "" then (0%Z, None)
  else match SplitHostPort (Host r), LastIndexByte (Host r) ":" with
  | Some _, Some index =>
      let '(p, e) := Atoi (str_drop (S index) (Host r)) in (wrap_s 32 p, e)
  | _, _ => (80%Z, None)
  end.

Definition FormatRequestLine (r : Request) : string :=
  Method r +:+ " " +:+ RequestURI r +:+ " " +:+ Proto r.

Definition req_base (m u p : string) (maj min : Z) (url : URL) (h : Header) (host : string) : Request :=
  {| Method := m; Proto := p; ProtoMajor := maj; ProtoMinor := min; ReqURL := url;
     Port := 0; Authority := ""; ReqHeader := h; ContentLength := 0; TransferEncoding := [];
     Host := host; RemoteAddr := ""; LocalAddr := ""; RequestURI := u; Close := false |}.

(** the derived fields, in the order of [ReadRequest] *)
Definition fill_request (r : Request) : Request :=
  let '(cl, h) := shouldClose (ProtoMajor r) (ProtoMinor r) (ReqHeader r) false in
  let h := fixPragmaCacheControl h in
  let r := req_base (Method r) (RequestURI r) (Proto r) (ProtoMajor r) (ProtoMinor r)
             (ReqURL r) h (Host r) in
  {| Method := Method r; Proto := Proto r; ProtoMajor := ProtoMajor r; ProtoMinor := ProtoMinor r;
     ReqURL := ReqURL r; Port := (fillPort r).1; Authority := fillAuthority r; ReqHeader := h;
     ContentLength := fillContentLength r; TransferEncoding := fillTransferEncoding r;
     Host := Host r; RemoteAddr := ""; LocalAddr := ""; RequestURI := RequestURI r; Close := cl |}.

Definition ReadRequest (rd : reader) : result http_error (Request * reader) :=
  match ReadLine rd with
  | Err e => Err (HText (TRead e))
  | Panic p => Panic p
  | Ok (requestLine, rd) =>
      let '(m, u, p, ok) := parseRequestLine requestLine in
      if negb ok then Err (HBadString "malformed HTTP request" requestLine)
      else if negb (validMethod m) then Err (HBadString "invalid method" m)
      else
        let '(maj, min, ok) := ParseHTTPVersion p in
        if negb ok then Err (HBadString "malformed HTTP version" p) else
        let justAuthority := String.eqb m "CONNECT" && negb (HasPrefix u "/") in
        let rawurl := if justAuthority then "http://" +:+ u else u in
        match ParseRequestURI rawurl with
        | None => Err HUrl
        | Some url =>
            let url := if justAuthority
                       then {| url_scheme := ""; url_host := url_host url; url_query := url_query url |}
                       else url in
            match ReadMIMEHeader rd with
            | Err e => Err (HText e)
            | Panic p => Panic p
            | Ok (h, rd) =>
                if 1 <? length (default [] (h !! "Host")) then Err HTooManyHosts else
                let host := if String.eqb (url_host url) "" then Header_get h "Host" else url_host url in
                Ok (fill_request (req_base m u p maj min url h host), rd)
            end
        end
  end.

(** a request takes at least one byte *)
Lemma ReadRequest_takes rd req rd' : ReadRequest rd = Ok (req, rd') → length (rd_data rd') < length (rd_data rd).
Proof.
  unfold ReadRequest. destruct (ReadLine rd) as [[line rd1]|e|p] eqn:E; [|done..].
  apply ReadLine_ok in E as (_ & Hl & _). destruct (parseRequestLine line) as [[[m u] p] ok].
  destruct (negb ok); [done|]. destruct (negb _); [done|]. destruct (ParseHTTPVersion p) as [[maj min] ok'].
  destruct (negb ok'); [done|]. cbv zeta. destruct (ParseRequestURI _); [|done].
  destruct (ReadMIMEHeader rd1) as [[h rd2]|e|q] eqn:E; [|done..]. apply ReadMIMEHeader_takes in E.
  destruct (1 <? _); [done|]. intros ?; simplify_eq. lia.
Qed.

Definition TargetDomain (r : Request) : string :=
  let host := if String.eqb (Host r) "" then Authority r else Host r in
  if String.eqb host "" then "" else
  let trimmed := TrimPrefix host "[" in
  match (if HasPrefix host "[" && ContainsByte host "]" then IndexByte trimmed "]" else None) with
  | Some idx => str_take idx trimmed
  | None =>
      match SplitHostPort host with
      | Some (parsedHost, _) => parsedHost
      | None => host
      end
  end.

(** ** Responses *)

Record Response := mk_response {
  Status : string;
  StatusCode : Z;
  RespProto : string;
  RespMajor : Z;
  RespMinor : Z;
  RespHeader : Header;
  RespContentLength : Z;
  RespTransferEncoding : list string;
  Chunked : bool;
  RespClose : bool;
  Upgraded : bool;
  UpgradeType : string
}.

Definition FormatStatusLine (r : Response) : string := RespProto r +:+ " " +:+ Status r.

Definition protoAtLeast (major minor m n : Z) : bool :=
  (m <? major)%Z || ((major =? m)%Z && (n <=? minor)%Z).

(** [parseTransferEncoding]: whether the body is chunked, and the error its
    caller drops *)
Definition parseTransferEncoding (h : Header) (major minor : Z) : bool * option http_error :=
  match h !! "Transfer-Encoding" with
  | None => (false, None)
  | Some raw =>
      if negb (protoAtLeast major minor 1 1) then (false, None)
      else match raw with
      | [v] =>
          if Ascii_.EqualFold (TrimString v) "chunked" then (true, None)
          else (false, Some (HUnsupportedTE "unsupported transfer encoding" [v]))
      | _ => (false, Some (HUnsupportedTE "too many transfer encodings" raw))
      end
  end.

(** the content length of a response is filled in the same way *)
Definition fillRespContentLength (h : Header) : Z := contentLength_of h.
Definition fillRespTransferEncoding (h : Header) : list string := Header_Values h "Transfer-Encoding".

Definition fillRespUpgrade (h : Header) (code : Z) : bool * string :=
  let upgrade := TrimString (Header_Get h "Upgrade") in
  ((code =? 101)%Z && negb (String.eqb upgrade "") && hasToken (Header_Get h "Connection") "upgrade",
   upgrade).

Definition eof_unexpected (e : read_error) : read_error :=
  match e with EOF => ErrUnexpectedEOF | _ => e end.

(** the status line: proto, status and code *)
Definition parseStatusLine (line : string) : result http_error (string * string * Z) :=
  match IndexByte line " " with
  | None => Err (HBadString "malformed HTTP response" line)
  | Some i =>
      let status := TrimLeftFunc (Ascii.eqb " ") (str_drop (S i) line) in
      let statusCode := match IndexByte status " " with Some i => str_take i status | None => status end in
      if negb (String.length statusCode =? 3) then Err (HBadString "malformed HTTP status code" statusCode)
      else match Atoi statusCode with
      | (code, None) =>
          if (code <? 0)%Z then Err (HBadString "malformed HTTP status code" statusCode)
          else Ok (str_take i line, status, code)
      | (_, Some _) => Err (HBadString "malformed HTTP status code" statusCode)
      end
  end.

Definition ReadResponse (rd : reader) : result http_error (Response * reader) :=
  match ReadLine rd with
  | Err e => Err (HText (TRead (eof_unexpected e)))
  | Panic p => Panic p
  | Ok (line, rd) =>
      '(proto, status, code) ← parseStatusLine line;
      let '(maj, min, ok) := ParseHTTPVersion proto in
      if negb ok then Err (HBadString "malformed HTTP version" proto) else
      match ReadMIMEHeader rd with
      | Err (TRead e) => Err (HText (TRead (eof_unexpected e)))
      | Err e => Err (HText e)
      | Panic p => Panic p
      | Ok (h, rd) =>
          let h := fixPragmaCacheControl h in
          let '(cl, h) := shouldClose maj min h false in
          let '(up, ut) := fillRespUpgrade h code in
          Ok ({| Status := status; StatusCode := code; RespProto := proto; RespMajor := maj;
                 RespMinor := min; RespHeader := h; RespContentLength := fillRespContentLength h;
                 RespTransferEncoding := Header_Values h "Transfer-Encoding";
                 Chunked := (parseTransferEncoding h maj min).1;
                 RespClose := cl; Upgraded := up; UpgradeType := ut |}, rd)
      end
  end.
End Messages.

(** ** Laws *)

Section MessageLaws.
Context `{UrlParser} `{HttpGuts} `{GoUnicode}.

Lemma parseRequestLine_spec line m u p :
  parseRequestLine line = (m, u, p, true) ↔
  line = m +:+ " " +:+ u +:+ " " +:+ p ∧ IndexByte m " " = None ∧ IndexByte u " " = None.
Proof.
  unfold parseRequestLine. split.
  - destruct (IndexByte line " ") as [s1|] eqn:E1; [|done].
    apply IndexByte_Some in E1 as (a & b & -> & <- & Ha). rewrite str_drop_S_app.
    destruct (IndexByte b " ") as [s2|] eqn:E2; [|done].
    apply IndexByte_Some in E2 as (c & d & -> & <- & Hc).
    rewrite str_drop_S_app, !str_take_app. intros ?; simplify_eq. done.
  - intros (-> & Hm & Hu). cbn [String.append].
    rewrite (IndexByte_app_None m _ " " Hm), str_drop_S_app.
    rewrite (IndexByte_app_None u _ " " Hu), str_drop_S_app, !str_take_app. done.
Qed.

Lemma ParseHTTPVersion_ok vers maj min :
  ParseHTTPVersion vers = (maj, min, true) →
  HasPrefix vers "HTTP/" = true ∧ (0 ≤ maj ≤ 1000000)%Z ∧ (0 ≤ min ≤ 1000000)%Z.
Proof.
  unfold ParseHTTPVersion.
  destruct (String.eqb_spec vers "HTTP/1.1") as [->|_]; [intros ?; simplify_eq; split; [done|lia]|].
  destruct (String.eqb_spec vers "HTTP/1.0") as [->|_]; [intros ?; simplify_eq; split; [done|lia]|].
  destruct (HasPrefix vers "HTTP/"); [|done]. simpl.
  destruct (IndexByte vers ".") as [dot|]; [|done].
  destruct (Atoi _) as [a ea]. destruct (_ || _) eqn:Ea; [done|].
  destruct (Atoi (str_drop (S dot) vers)) as [b eb].
  destruct (bool_decide (eb ≠ None) || (b <? 0)%Z || (1000000 <? b)%Z) eqn:Eb; [done|].
  intros ?; simplify_eq. bools. split; [done|]. lia.
Qed.

Lemma shouldClose_header maj min h : (shouldClose maj min h false).2 = h.
Proof.
  unfold shouldClose. rewrite andb_false_r. by repeat case_match.
Qed.

Lemma fixPragmaCacheControl_idemp h :
  fixPragmaCacheControl (fixPragmaCacheControl h) = fixPragmaCacheControl h.
Proof.
  unfold fixPragmaCacheControl at 2 3. destruct (h !! "Pragma") as [[|v vs]|] eqn:Hp; simpl.
  - unfold fixPragmaCacheControl. by rewrite Hp.
  - destruct (String.eqb v "no-cache") eqn:Hv; [|unfold fixPragmaCacheControl; by rewrite Hp, Hv].
    destruct (h !! "Cache-Control") eqn:Hc; unfold fixPragmaCacheControl.
    + by rewrite Hp, Hv, Hc.
    + rewrite lookup_insert_ne by done. by rewrite Hp, Hv, lookup_insert_eq.
  - unfold fixPragmaCacheControl. by rewrite Hp.
Qed.

Lemma fixPragmaCacheControl_other h k : k ≠ "Cache-Control" → fixPragmaCacheControl h !! k = h !! k.
Proof.
  intros Hk. unfold fixPragmaCacheControl. repeat case_match; try done.
  by rewrite lookup_insert_ne.
Qed.

Lemma ReadRequest_total rd : no_panic (ReadRequest rd).
Proof.
  intros p. unfold ReadRequest. destruct (ReadLine rd) as [[l r1]|e|q] eqn:E;
    [|done|by apply ReadLine_no_panic in E].
  repeat case_match; try done;
    match goal with H : ReadMIMEHeader _ = Panic _ |- _ => by apply ReadMIMEHeader_no_panic in H end.
Qed.

Lemma ReadResponse_total rd : no_panic (ReadResponse rd).
Proof.
  unfold ReadResponse. destruct (ReadLine rd) as [[l r1]|e|q] eqn:E;
    [|apply no_panic_err|by apply ReadLine_no_panic in E].
  apply no_panic_bind.
  - unfold parseStatusLine. repeat case_match; auto with lhotse.
  - intros [[proto status] code] _. repeat case_match; auto with lhotse;
    match goal with H : ReadMIMEHeader _ = Panic _ |- _ => by apply ReadMIMEHeader_no_panic in H end.
Qed.
End MessageLaws.

(** ** Tokens *)

Definition boundary_before (a : string) : Prop :=
  a = "" ∨ ∃ a' c, a = a' +:+ String c "" ∧ isTokenBoundary c = true.
Definition boundary_after (b : string) : Prop :=
  b = "" ∨ ∃ c b', b = String c b' ∧ isTokenBoundary c = true.

Lemma EqualFold_length s t : Ascii_.EqualFold s t = true → String.length s = String.length t.
Proof.
  revert t. induction s as [|a s IH]; intros [|b t]; simpl; try done.
  intros [_ H]%andb_prop. f_equal. auto.
Qed.

Lemma str_get_app_l a b i : i < String.length a → String.get i (a +:+ b) = String.get i a.
Proof. revert i. induction a as [|c a IH]; intros [|i]; simpl; try lia; [done|]. intros. apply IH. lia. Qed.

Lemma str_get_app_r a b : String.get (String.length a) (a +:+ b) = String.get 0 b.
Proof. by induction a. Qed.

Lemma str_snoc a : a ≠ "" → ∃ a' c, a = a' +:+ String c "".
Proof.
  induction a as [|c a IH]; [done|]. intros _. destruct a as [|d a].
  - by exists "", c.
  - destruct IH as (a' & e & E); [done|]. exists (String c a'), e. by rewrite E.
Qed.

Lemma lower_or_32 b c : Ascii.eqb (ascii_lower b) c = true →
  Ascii.eqb b c || (Z.lor (byte_val b) 32 =? byte_val c)%Z = true.
Proof.
  intros H. apply Ascii.eqb_eq in H as <-. destruct b as [[] [] [] [] [] [] [] []]; vm_compute; reflexivity.
Qed.

(** the boundary tests of the code at the two ends of a position *)
Lemma before_test_spec a rest :
  (0 <? String.length a) &&
    negb match String.get (String.length a - 1) (a +:+ rest) with Some c => isTokenBoundary c | None => true end
  = false ↔ boundary_before a.
Proof.
  destruct (decide (a = "")) as [->|E0]; [split; [left|]; done|].
  destruct (str_snoc a E0) as (a' & c & ->). rewrite str_length_app. simpl.
  replace (0 <? _) with true by (symmetry; apply Nat.ltb_lt; lia).
  replace (_ - 1) with (String.length a') by lia. rewrite str_app_assoc, str_get_app_r.
  simpl. rewrite negb_false_iff. split; [intros; right; eauto|].
  intros [E2|(a2 & c2 & E2 & Hc2)]; pose proof (f_equal String.length E2) as E3;
    rewrite !str_length_app in E3; simpl in E3; [lia|].
  apply str_app_inj_len in E2 as [_ E2]; [|lia]. by simplify_eq.
Qed.

Lemma after_test_spec p b :
  negb (String.length p =? String.length (p +:+ b)) &&
    negb match String.get (String.length p) (p +:+ b) with Some c => isTokenBoundary c | None => true end
  = false ↔ boundary_after b.
Proof.
  rewrite str_get_app_r, str_length_app. destruct b as [|c b']; simpl.
  - rewrite andb_false_r. split; [left|]; done.
  - replace (_ =? _) with false by (symmetry; apply Nat.eqb_neq; lia). simpl.
    rewrite negb_false_iff. split; [right; eauto|]. intros [?|(?&?&?&?)]; [done|]. by simplify_eq.
Qed.

Section TokenAt.
Variables (v token : string).
Hypothesis Hne : token ≠ "".
Hypothesis Hlow : str_map ascii_lower token = token.

(** the test at one position is the reference condition there *)
Lemma token_at_spec sp : sp <= String.length v - String.length token →
  String.length token <= String.length v →
  token_at v token sp = true ↔
  ∃ a w b, v = a +:+ w +:+ b ∧ String.length a = sp ∧ Ascii_.EqualFold w token = true ∧
           boundary_before a ∧ boundary_after b.
Proof.
  intros Hsp Hl. set (a := str_take sp v). set (w := str_take (String.length token) (str_drop sp v)).
  set (b := str_drop (String.length token) (str_drop sp v)).
  assert (v = a +:+ w +:+ b) as Hv by (subst a w b; by rewrite !str_take_drop).
  assert (String.length a = sp) as Ha by (subst a; rewrite str_length_take; lia).
  assert (String.length w = String.length token) as Hw
    by (subst w; rewrite str_length_take, str_length_drop; lia).
  assert (str_take (String.length token) (str_drop sp v) = w) as Hwt by done.
  clearbody a w b.
  assert ((∃ a w b, v = a +:+ w +:+ b ∧ String.length a = sp ∧ Ascii_.EqualFold w token = true ∧
           boundary_before a ∧ boundary_after b) ↔
          Ascii_.EqualFold w token = true ∧ boundary_before a ∧ boundary_after b) as ->.
  { split; [|intros (? & ? & ?); eauto 10].
    intros (a' & w' & b' & Hv' & Ha' & HE & Hb1 & Hb2).
    rewrite Hv in Hv'. apply EqualFold_length in HE as Hw'.
    apply str_app_inj_len in Hv' as [-> Hv']; [|lia].
    apply str_app_inj_len in Hv' as [-> ->]; [|lia]. done. }
  unfold token_at. destruct token as [|t0 tok] eqn:Htok; [done|].
  destruct w as [|w0 w'] eqn:Ew; [done|].
  assert (String.get sp v = Some w0) as ->.
  { rewrite Hv, <- Ha, str_get_app_r. done. }
  cbn [String.get].
  pose proof (before_test_spec a (String w0 w' +:+ b)) as Hbb. rewrite <- Hv, Ha in Hbb.
  pose proof (after_test_spec (a +:+ String w0 w') b) as Hba.
  rewrite str_app_assoc, <- Hv, str_length_app, Ha, Hw in Hba.
  rewrite Hwt.
  destruct (Ascii_.EqualFold (String w0 w') (String t0 tok)) eqn:EF.
  2:{ split; [|naive_solver]. by repeat case_match. }
  assert (Ascii.eqb w0 t0 || (Z.lor (byte_val w0) 32 =? byte_val t0)%Z = true) as Hfirst.
  { apply lower_or_32. simpl in EF. apply andb_prop in EF as [EF _].
    simpl in Hlow. injection Hlow as Ht0 _. unfold Ascii_.lower in EF. by rewrite Ht0 in EF. }
  rewrite <- negb_orb, Hfirst. cbn [negb]. rewrite <- Hbb, <- Hba.
  destruct (_ && _); [split; [done|by intros (_ & ? & _)]|].
  destruct (_ && _); [split; [done|by intros (_ & _ & ?)]|done].
Qed.
End TokenAt.

(** [hasToken] (with its first-byte filter and early exits) decides the
    reference condition: for a non-empty lower-case token, the header value
    contains the token, up to ASCII case, delimited on either side by the end
    of the value or by a space, a comma or a tab. *)
Theorem hasToken_spec v token :
  token ≠ "" → str_map ascii_lower token = token →
  hasToken v token = true ↔
  ∃ a w b, v = a +:+ w +:+ b ∧ Ascii_.EqualFold w token = true ∧ boundary_before a ∧ boundary_after b.
Proof.
  intros Hne Hlow. unfold hasToken. rewrite (proj2 (String.eqb_neq _ _) Hne), orb_false_r.
  destruct (String.length v <? String.length token) eqn:Hl; bools.
  { split; [done|]. intros (a & w & b & -> & HE & _). apply EqualFold_length in HE.
    rewrite !str_length_app in Hl. lia. }
  destruct (String.eqb_spec v token) as [->|Hvt].
  { split; [|done]. intros _. exists "", token, "". rewrite str_app_nil_r.
    repeat split; [|by left|by left]. clear. induction token; simpl; [done|]. by rewrite Ascii.eqb_refl. }
  rewrite existsb_exists. split.
  - intros (sp & Hin & Hat). apply in_seq in Hin.
    apply token_at_spec in Hat as (a & w & b & ? & _ & ?); [|done|done|lia|lia]. eauto 10.
  - intros (a & w & b & Hv & HE & Hb1 & Hb2). exists (String.length a).
    pose proof (EqualFold_length _ _ HE) as Hlen.
    pose proof (f_equal String.length Hv) as HL. rewrite !str_length_app in HL.
    split; [apply in_seq; lia|]. apply token_at_spec; [done|done|lia|lia|]. eauto 10.
Qed.

Lemma hasToken_spec_witness :
  let v := "keep-alive, Upgrade" in
  hasToken v "upgrade" = true ↔
  ∃ a w b, v = a +:+ w +:+ b ∧ Ascii_.EqualFold w "upgrade" = true ∧ boundary_before a ∧ boundary_after b.
Proof. apply (hasToken_spec "keep-alive, Upgrade" "upgrade"); [discriminate|reflexivity]. Defined.

(** The copy that [Header_Clone] builds shows the values of the original, in
    every order the map is ranged over. *)
Lemma clone_into_view l acc :
  NoDup l.*1 → map_Forall (λ _ sl, sl.1 + sl.2 ≤ List.length acc.1) acc.2 →
  Forall (λ k, acc.2 !! k = None) l.*1 →
  clone_view (foldl clone_into acc l) = clone_view acc ∪ list_to_map l.
Proof.
  revert acc. induction l as [|[k vs] l IH]; intros [sv m] Hnd Hin Hfr; cbn in *; [by rewrite (right_id_L ∅ (∪))|].
  apply NoDup_cons in Hnd as [Hk Hnd]. apply Forall_cons in Hfr as [Hm Hfr]. rewrite IH; [|done|..].
  - cbn [list_to_map foldr]. assert (clone_view (clone_into (sv, m) (k, vs)) = <[k:=vs]> (clone_view (sv, m))) as ->.
    { unfold clone_view, clone_into. cbn. rewrite fmap_insert. cbn. rewrite drop_app_length, firstn_all. f_equal.
      apply map_fmap_ext. intros i [a b] Hi. specialize (Hin i _ Hi). cbn in *.
      rewrite skipn_app, firstn_app. replace (b - List.length (drop a sv)) with 0 by (rewrite length_drop; lia).
      by rewrite take_0, app_nil_r. }
    rewrite <- insert_union_l. apply insert_union_r. by rewrite lookup_fmap, Hm.
  - apply map_Forall_insert_2; cbn; rewrite length_app; [lia|]. intros i sl Hi. specialize (Hin i sl Hi). cbn in Hin. lia.
  - rewrite Forall_forall in Hfr |- *. intros i Hi. cbn. rewrite lookup_insert_ne; [by apply Hfr|]. by intros ->.
Qed.

Lemma Header_Clone_view order :
  NoDup order.*1 → clone_view (Header_Clone order) = (list_to_map order : Header).
Proof.
  intros Hnd. unfold Header_Clone. rewrite clone_into_view; [|done|done|].
  - unfold clone_view. cbn. by rewrite fmap_empty, (left_id_L ∅ (∪)).
  - apply Forall_true. done.
Qed.
