(* ===== verification/HeaderCodec.v ===== *)
(** * Writing and reading header blocks

    The text that the proxy and [Header.writeSubset] emit for a header, and
    the theorem that [textproto] reads the same header back from it, whatever
    order the map iteration visited the keys in. *)

From S2P Require Export HttpMessage.
From Stdlib Require Import Ascii.

Local Open Scope string_scope.
Local Open Scope nat_scope.
Local Open Scope list_scope.

(** One header line. *)
Definition header_line (kv : string * string) : string :=
  kv.1 +:+ ": " +:+ kv.2 +:+ CRLF.

(** the key and value pairs, one per line, in the order of [kvs] *)
Definition header_pairs (kvs : list (string * list string)) : list (string * string) :=
  kvs ≫= λ kv, (λ v, (kv.1, v)) <$> kv.2.

Definition header_text (kvs : list (string * list string)) : string :=
  foldr (λ kv out, header_line kv +:+ out) "" (header_pairs kvs).

(** A key [textproto] leaves as it is, that does not look like a
    continuation. *)
Definition wf_key (k : string) : Prop :=
  canonicalMIMEHeaderKey k = (k, true) ∧
  match k with String c _ => is_blank c = false | "" => False end.

(** A value without surrounding blanks or control characters. *)
Definition wf_value (v : string) : Prop :=
  str_forall validHeaderValueByte v = true ∧
  TrimLeftFunc is_blank v = v ∧ TrimRightFunc is_blank v = v.

Definition wf_header (h : Header) : Prop :=
  map_Forall (λ k vs, wf_key k ∧ vs ≠ [] ∧ Forall wf_value vs) h.

#[export] Instance wf_key_dec k : Decision (wf_key k).
Proof. unfold wf_key. destruct k; apply _. Defined.
#[export] Instance wf_value_dec v : Decision (wf_value v).
Proof. unfold wf_value. apply _. Defined.
#[export] Instance wf_header_dec h : Decision (wf_header h).
Proof. unfold wf_header. apply _. Defined.

(** ** Characters and trimming *)

Lemma str_forall_impl p q s :
  (∀ c, p c = true → q c = true) → str_forall p s = true → str_forall q s = true.
Proof.
  intros Hpq. induction s as [|c s IH]; simpl; [done|].
  intros [H1 H2]%andb_prop. by rewrite (Hpq c H1), (IH H2).
Qed.

(** decide a property of all 256 characters by evaluation *)
Ltac all_chars c := destruct c as [[] [] [] [] [] [] [] []]; vm_compute; reflexivity.

Lemma value_byte_no_break c : implb (validHeaderValueByte c) (negb (Ascii.eqb c LF) && negb (Ascii.eqb c CR)) = true.
Proof. all_chars c. Qed.

Lemma field_byte_plain c :
  implb (validHeaderFieldByte c || Ascii.eqb c " ")
    (negb (Ascii.eqb c LF) && negb (Ascii.eqb c ":") && negb (Ascii.eqb c HTAB)) = true.
Proof. all_chars c. Qed.

Lemma wf_value_no_lf v : wf_value v → no_lf v.
Proof.
  intros [H _]. apply IndexByte_None. eapply str_forall_impl; [|exact H].
  intros c Hc. pose proof (value_byte_no_break c) as Hi. rewrite Hc in Hi. simpl in Hi.
  by apply andb_prop in Hi as [? ?].
Qed.

Lemma digit_plain c : implb (is_digit c) (validHeaderValueByte c && negb (is_blank c)) = true.
Proof. all_chars c. Qed.

(** A decimal number is a well-formed header value. *)
Lemma digits_wf_value s : str_forall is_digit s = true → wf_value s.
Proof.
  intros Hd. assert (∀ c, is_digit c = true → validHeaderValueByte c = true ∧ is_blank c = false) as Hp.
  { intros c Hc. pose proof (digit_plain c) as Hi. rewrite Hc in Hi. simpl in Hi.
    by apply andb_prop in Hi as [? ?%negb_true_iff]. }
  split; [|split].
  - eapply str_forall_impl; [|exact Hd]. intros c Hc. by apply Hp.
  - destruct s as [|c s]; [done|]. simpl in *. apply andb_prop in Hd as [Hc _].
    by rewrite (proj2 (Hp c Hc)).
  - induction s as [|c s IH]; [done|]. simpl in *. apply andb_prop in Hd as [Hc Hs]. rewrite IH by done.
    destruct s; [|done]. by rewrite (proj2 (Hp c Hc)).
Qed.

Lemma wf_key_chars k : wf_key k → str_forall (λ c, validHeaderFieldByte c || Ascii.eqb c " ") k = true.
Proof.
  intros [H _]. unfold canonicalMIMEHeaderKey in H.
  destruct (String.eqb k ""); [done|].
  destruct (str_forall _ k); [done|simpl in H; done].
Qed.

Lemma wf_key_no k c : c = LF ∨ c = ":"%char → wf_key k → IndexByte k c = None.
Proof.
  intros Hc H%wf_key_chars. apply IndexByte_None. eapply str_forall_impl; [|exact H].
  intros d Hd. pose proof (field_byte_plain d) as Hi. rewrite Hd in Hi. simpl in Hi.
  apply andb_prop in Hi as [[H1 H2]%andb_prop H3].
  by destruct Hc as [-> | ->].
Qed.

Lemma TrimRight_app p a b : TrimRightFunc p b ≠ "" → TrimRightFunc p (a +:+ b) = a +:+ TrimRightFunc p b.
Proof.
  intros Hb. induction a as [|c a IH]; simpl; [done|].
  rewrite IH. destruct (a +:+ TrimRightFunc p b) eqn:E; [|done].
  destruct a; simpl in E; [done|discriminate].
Qed.

Lemma header_line_trim k v : wf_key k → wf_value v →
  trim (k +:+ ": " +:+ v) = if String.eqb v "" then k +:+ ":" else k +:+ ": " +:+ v.
Proof.
  intros [_ Hk] (_ & _ & Hv). unfold trim, Trim. destruct k as [|c k]; [done|].
  assert (TrimLeftFunc is_blank (String c k +:+ ": " +:+ v) = String c k +:+ ": " +:+ v) as ->
    by (simpl; by rewrite Hk).
  destruct (String.eqb_spec v "") as [->|Hne].
  - rewrite TrimRight_app by done. done.
  - change (": " +:+ v) with (String ":" (String " " v)).
    assert (TrimRightFunc is_blank (String " " v) = String " " v) as H1.
    { simpl. rewrite Hv. by destruct v. }
    assert (TrimRightFunc is_blank (String ":" (String " " v)) = String ":" (String " " v)) as H2.
    { cbn [TrimRightFunc]. cbn [TrimRightFunc] in H1. by rewrite H1. }
    rewrite TrimRight_app; by rewrite H2.
Qed.

(** What the header loop does to the map for one line. *)
Definition add_pair (m : Header) (kv : string * string) : Header :=
  <[kv.1 := (default [] (m !! kv.1) ++ [kv.2])]> m.

(** ** Reading one line *)

Definition not_continued (d : bytes) : Prop :=
  match d with c :: _ => is_blank c = false | [] => True end.

Lemma read_continuations_none fuel acc r :
  not_continued (rd_data r) → read_continuations fuel acc r = (acc, r).
Proof.
  intros H. destruct fuel as [|fuel]; [done|]. simpl.
  destruct (rd_data r) as [|c d]; simpl in *; [done|]. by rewrite H.
Qed.

Lemma readContinuedLine_line k v rest f n : wf_key k → wf_value v → not_continued rest →
  readContinuedLine (mk_reader (of_string (header_line (k, v)) ++ rest) f n) =
    Ok ((if String.eqb v "" then k +:+ ":" else k +:+ ": " +:+ v), mk_reader rest f n).
Proof.
  intros Hk Hv Hr. unfold readContinuedLine, header_line. cbn [fst snd].
  replace (k +:+ ": " +:+ v +:+ CRLF) with ((k +:+ ": " +:+ v) +:+ CRLF)
    by by rewrite str_app_assoc.
  rewrite ReadLine_crlf.
  2:{ apply no_lf_app. split; [apply wf_key_no; auto|]. apply no_lf_app. split; [done|].
      by apply wf_value_no_lf. }
  assert (IndexByte (k +:+ ": " +:+ v) ":" = Some (String.length k)) as Hi.
  { apply IndexByte_app_None. apply wf_key_no; auto. }
  unfold ContainsByte. rewrite Hi.
  destruct (String.eqb_spec (k +:+ ": " +:+ v) "") as [E|_].
  { by rewrite E in Hi. }
  cbn [negb].
  rewrite read_continuations_none by done.
  by rewrite <- (header_line_trim k v) by done.
Qed.

Lemma Cut_app a c b : IndexByte a c = None → Cut (a +:+ String c b) c = Some (a, b).
Proof.
  intros H. unfold Cut. rewrite IndexByte_app_None by done.
  by rewrite str_take_app, str_drop_S_app.
Qed.

Lemma header_loop_line fuel m k v rest f n : wf_key k → wf_value v → not_continued rest →
  header_loop (S fuel) m (mk_reader (of_string (header_line (k, v)) ++ rest) f n) =
    header_loop fuel (add_pair m (k, v)) (mk_reader rest f n).
Proof.
  intros Hk Hv Hr. cbn [header_loop].
  rewrite readContinuedLine_line by done. cbn [mbind result_bind].
  assert (Cut (if String.eqb v "" then k +:+ ":" else k +:+ ": " +:+ v) ":" =
          Some (k, if String.eqb v "" then "" else String " " v)) as Hcut.
  { destruct (String.eqb v ""); apply Cut_app, wf_key_no; auto. }
  destruct (String.eqb_spec (if String.eqb v "" then k +:+ ":" else k +:+ ": " +:+ v) "") as [E|_].
  { destruct Hk as [_ Hk]. destruct k; [done|]. by destruct (String.eqb v ""). }
  rewrite Hcut. destruct Hk as [-> _]. destruct Hv as (Hval & Hl & _).
  replace (str_forall validHeaderValueByte _) with true
    by (destruct (String.eqb v ""); simpl; [done|by rewrite Hval]).
  simpl. unfold add_pair. simpl.
  destruct (String.eqb_spec v "") as [->|_]; [done|]. simpl. by rewrite Hl.
Qed.

(** ** Reading a block *)

Definition wf_pair (kv : string * string) : Prop := wf_key kv.1 ∧ wf_value kv.2.

Lemma header_line_not_continued kv rest : wf_pair kv → not_continued (of_string (header_line kv) ++ rest).
Proof.
  destruct kv as [k v]. intros [[_ Hk] _]. simpl in Hk. unfold header_line. simpl.
  by destruct k.
Qed.

Lemma header_loop_pairs kvs m fuel rest f n :
  Forall wf_pair kvs → length kvs < fuel →
  header_loop fuel m
    (mk_reader (of_string (foldr (λ kv out, header_line kv +:+ out) "" kvs) ++ of_string CRLF ++ rest) f n) =
    Ok (foldl add_pair m kvs, mk_reader rest f n).
Proof.
  intros Hkvs. revert m fuel. induction Hkvs as [|[k v] kvs [Hk Hv] Hkvs IH]; intros m fuel Hf.
  - destruct fuel as [|fuel]; [simpl in Hf; lia|]. done.
  - destruct fuel as [|fuel]; simpl in Hf; [lia|].
    cbn [foldr foldl]. rewrite of_string_app, <- app_assoc.
    rewrite header_loop_line; [by apply IH; simpl in *; lia|done..|].
    destruct Hkvs as [|kv kvs H' _]; [done|]. cbn [foldr].
    rewrite of_string_app, <- app_assoc. by apply header_line_not_continued.
Qed.

(** Folding the pairs of a header with distinct keys gives the header. *)
Lemma foldl_add_same k vs ws m : m !! k = Some ws →
  foldl add_pair m ((λ v, (k, v)) <$> vs) = <[k := ws ++ vs]> m.
Proof.
  revert ws m. induction vs as [|v vs IH]; intros ws m Hm; simpl.
  - by rewrite app_nil_r, insert_id.
  - unfold add_pair at 2. simpl. rewrite Hm. simpl.
    rewrite (IH (ws ++ [v])) by by rewrite lookup_insert_eq.
    by rewrite insert_insert_eq, <- app_assoc.
Qed.

Lemma foldl_add_key k vs m : m !! k = None → vs ≠ [] →
  foldl add_pair m ((λ v, (k, v)) <$> vs) = <[k := vs]> m.
Proof.
  intros Hm Hvs. destruct vs as [|v vs]; [done|]. simpl.
  rewrite (foldl_add_same k vs [v]); unfold add_pair; simpl; rewrite Hm; simpl.
  - by rewrite insert_insert_eq.
  - by rewrite lookup_insert_eq.
Qed.

Lemma foldl_add_pairs kvs m :
  NoDup kvs.*1 → Forall (λ kv, kv.2 ≠ [] ∧ m !! kv.1 = None) kvs →
  foldl add_pair m (header_pairs kvs) = list_to_map kvs ∪ m.
Proof.
  revert m. induction kvs as [|[k vs] kvs IH]; intros m Hnd Hall; simpl.
  - by rewrite (left_id_L ∅ (∪)).
  - inversion Hnd as [|? ? Hk Hnd']; inversion Hall as [|? ? [Hvs Hm] Hall']; subst; simpl in *.
    rewrite foldl_app, foldl_add_key by done. rewrite IH; [|done|].
    + rewrite <- insert_union_r by (by apply not_elem_of_list_to_map_1).
      by rewrite insert_union_l.
    + rewrite Forall_forall in Hall' |- *. intros [k' vs'] Hin.
      destruct (Hall' _ Hin) as [? ?]; simpl in *. split; [done|].
      rewrite lookup_insert_ne; [done|]. intros ->. apply Hk, list_elem_of_fmap. by exists (k', vs').
Qed.

Lemma foldr_header_length kvs :
  length kvs ≤ String.length (foldr (λ kv out, header_line kv +:+ out) "" kvs).
Proof.
  induction kvs as [|kv kvs IH]; simpl; [lia|].
  rewrite str_length_app. cut (1 <= String.length (header_line kv)); [lia|].
  unfold header_line. rewrite !str_length_app. simpl. lia.
Qed.

Lemma wf_header_pairs h kvs : wf_header h → kvs ≡ₚ map_to_list h → Forall wf_pair (header_pairs kvs).
Proof.
  intros Hh Hp. apply Forall_forall. intros [k v] Hin.
  apply list_elem_of_bind in Hin as ([k' vs] & Hin & Hkvs). simpl in *.
  apply list_elem_of_fmap in Hin as (v' & ? & Hv). simplify_eq.
  rewrite Hp in Hkvs. apply elem_of_map_to_list in Hkvs. apply Hh in Hkvs as (? & _ & Hvs).
  rewrite Forall_forall in Hvs. split; [done|]. by apply Hvs.
Qed.

(** The block written for [h], keys in any order, is read back as [h]. *)
Lemma read_header_text h kvs rest f n :
  wf_header h → kvs ≡ₚ map_to_list h →
  ReadMIMEHeader (mk_reader (of_string (header_text kvs) ++ of_string CRLF ++ rest) f n) =
    Ok (h, mk_reader rest f n).
Proof.
  intros Hh Hp. assert (Forall wf_pair (header_pairs kvs)) as Hw by by eapply wf_header_pairs.
  assert (foldl add_pair ∅ (header_pairs kvs) = h) as Hfold.
  { rewrite foldl_add_pairs.
    - rewrite (right_id_L ∅ (∪)). rewrite <- (list_to_map_to_list h). apply list_to_map_proper; [|done].
      rewrite Hp. apply NoDup_fst_map_to_list.
    - rewrite Hp. apply NoDup_fst_map_to_list.
    - apply Forall_forall. intros [k vs] Hin. rewrite Hp in Hin. apply elem_of_map_to_list in Hin.
      apply Hh in Hin as (? & ? & _). by rewrite lookup_empty. }
  unfold ReadMIMEHeader. cbn [rd_data].
  assert (not_continued (of_string (header_text kvs) ++ of_string CRLF ++ rest)) as Hc.
  { unfold header_text. destruct Hw as [|kv l Hkv _]; [done|]. cbn [foldr].
    rewrite of_string_app, <- app_assoc. by apply header_line_not_continued. }
  destruct (of_string (header_text kvs) ++ of_string CRLF ++ rest) as [|c d] eqn:Hd.
  { by destruct (of_string (header_text kvs)). }
  simpl in Hc. rewrite Hc, <- Hd. rewrite <- Hfold at 1. apply header_loop_pairs; [done|].
  rewrite length_app, of_string_length.
  pose proof (foldr_header_length (header_pairs kvs)). unfold header_text in *. simpl. lia.
Qed.

(** ** [writeSubset] *)

Lemma sortedKeyValues_perm h : sortedKeyValues h (λ _, false) ≡ₚ map_to_list h.
Proof.
  unfold sortedKeyValues. rewrite merge_sort_Permutation.
  induction (map_to_list h) as [|kv l IH]; [done|]. rewrite filter_cons_True by done. by rewrite IH.
Qed.

Lemma trim_weaken p q s : (∀ c, p c = true → q c = true) →
  str_forall (λ c, implb (q c) (p c)) s = true →
  Trim s q = Trim s p.
Proof.
  intros Hpq. unfold Trim. assert (∀ t, str_forall (λ c, implb (q c) (p c)) t = true →
    TrimRightFunc q t = TrimRightFunc p t) as Hr.
  { induction t as [|c t IH]; simpl; [done|]. intros [H1 H2]%andb_prop. rewrite IH by done.
    destruct (TrimRightFunc p t); [|done].
    destruct (p c) eqn:Ep, (q c) eqn:Eq; try done. by apply Hpq in Ep; congruence. }
  induction s as [|c s IH]; simpl; [done|]. intros [H1 H2]%andb_prop.
  destruct (p c) eqn:Ep.
  - rewrite (Hpq c Ep). by apply IH.
  - destruct (q c) eqn:Eq; [done|]. apply Hr. simpl. by rewrite Eq, H2.
Qed.

(** A well-formed value is written as it is. *)
Lemma wf_value_written v : wf_value v → TrimString (headerNewlineToSpace v) = v.
Proof.
  intros (Hb & Hl & Hr).
  assert (headerNewlineToSpace v = v) as ->.
  { clear Hl Hr. unfold headerNewlineToSpace. induction v as [|c v IH]; simpl in *; [done|].
    apply andb_prop in Hb as [Hc Hv]. rewrite IH by done.
    pose proof (value_byte_no_break c) as Hi. rewrite Hc in Hi. simpl in Hi.
    apply andb_prop in Hi as [H1 H2]. apply negb_true_iff in H1, H2. by rewrite H1, H2. }
  unfold TrimString. rewrite (trim_weaken is_blank).
  - unfold Trim. by rewrite Hl, Hr.
  - intros c ->. done.
  - eapply str_forall_impl; [|exact Hb]. intros c Hc.
    pose proof (value_byte_no_break c) as Hi. rewrite Hc in Hi. simpl in Hi.
    apply andb_prop in Hi as [H1 H2]. apply negb_true_iff in H1, H2. rewrite H1, H2.
    by destruct (is_blank c).
Qed.

Lemma writeSubset_text h exclude : wf_header h →
  writeSubset h exclude = header_text (sortedKeyValues h exclude).
Proof.
  intros Hh. unfold writeSubset, header_text.
  assert (∀ kv, kv ∈ sortedKeyValues h exclude → Forall wf_value kv.2) as Hw.
  { intros [k vs] Hin. unfold sortedKeyValues in Hin. rewrite merge_sort_Permutation in Hin.
    apply list_elem_of_filter in Hin as [_ Hin]. apply elem_of_map_to_list in Hin.
    by apply Hh in Hin as (_ & _ & ?). }
  induction (sortedKeyValues h exclude) as [|[k vs] l IH]; [done|].
  change (header_pairs ((k, vs) :: l)) with (((λ v, (k, v)) <$> vs) ++ header_pairs l).
  cbn [foldr fst snd]. rewrite IH by (intros; apply Hw; set_solver).
  rewrite foldr_app. generalize (foldr (λ kv out, header_line kv +:+ out) "" (header_pairs l)).
  assert (Forall wf_value vs) as Hvs by (apply (Hw (k, vs)); set_solver).
  intros out. induction Hvs as [|v vs Hv Hvs IHv]; [done|].
  cbn [foldr fmap list_fmap]. rewrite IHv. 2:{ intros [k' vs'] [E|Hin]%elem_of_cons; [|apply Hw; set_solver]. by simplify_eq. }
  rewrite (wf_value_written v Hv). unfold header_line. cbn [fst snd]. by rewrite !str_app_assoc.
Qed.

(** The text of [h] without the excluded keys, followed by an empty line, is
    read back as [h] without them. *)
Lemma subset_header h exclude : wf_header h →
  wf_header (filter (λ kv, exclude kv.1 = false) h).
Proof.
  intros Hh k vs Hk. apply map_lookup_filter_Some in Hk as [Hk _]. by apply Hh.
Qed.

Lemma sortedKeyValues_filter h exclude :
  sortedKeyValues h exclude ≡ₚ map_to_list (filter (λ kv, exclude kv.1 = false) h).
Proof.
  unfold sortedKeyValues. rewrite merge_sort_Permutation. apply NoDup_Permutation.
  - apply NoDup_filter, NoDup_map_to_list.
  - apply NoDup_map_to_list.
  - intros [k vs]. rewrite list_elem_of_filter, !elem_of_map_to_list, map_lookup_filter_Some.
    simpl. tauto.
Qed.

(** ** Properties *)


