(* ===== verification/Query.v ===== *)
(** * Query strings and JSON texts

    What [net/url] and [encoding/json] do for the requests the program makes
    (see Requests): the escaping of query components, [url.Values.Encode] and the
    lenient [ParseQuery] behind [URL.Query]; the JSON text of a string as
    [json.Marshal] writes it and of an object whose members are strings.  A
    reader of such objects after RFC 8259 serves as the reference. *)

From S2P Require Export HeaderCodec.
From Stdlib Require Import Ascii.

Local Open Scope string_scope.
Local Open Scope nat_scope.
Local Open Scope list_scope.

(** ** Query components *)

(** [upperhex], [ishex] and [unhex] *)
Definition hex_upper (n : Z) : ascii := byte_of (if (n <? 10)%Z then 48 + n else 55 + n).
Definition hex_lower (n : Z) : ascii := byte_of (if (n <? 10)%Z then 48 + n else 87 + n).

(** [!shouldEscape c encodeQueryComponent] *)
Definition unreserved (c : ascii) : bool := is_alnum c || bool_decide (c ∈ ["-"; "_"; "."; "~"]%char).

Fixpoint QueryEscape (s : string) : string :=
  match s with
  | "" => ""
  | String c s' =>
      if unreserved c then String c (QueryEscape s')
      else if Ascii.eqb c " " then String "+" (QueryEscape s')
      else String "%" (String (hex_upper (byte_val c / 16)) (String (hex_upper (byte_val c mod 16)) (QueryEscape s')))
  end.

Fixpoint QueryUnescape (s : string) : option string :=
  match s with
  | "" => Some ""
  | String c s' =>
      if Ascii.eqb c "%" then
        match s' with
        | String a (String b s'') =>
            a ← digit_val 16 a; b ← digit_val 16 b; t ← QueryUnescape s''; Some (String (byte_of (16 * a + b)) t)
        | _ => None
        end
      else t ← QueryUnescape s'; Some (String (if Ascii.eqb c "+" then " "%char else c) t)
  end.

(** ** [url.Values], which has the type of a header *)

Notation Values := Header (only parsing).

Definition encode_pair (kv : string * string) : string := QueryEscape kv.1 +:+ "=" +:+ QueryEscape kv.2.

Definition Encode (v : Values) : string :=
  Join (encode_pair <$> header_pairs (sortedKeyValues v (λ _, false))) "&".

(** one part of a query; what does not decode is passed over *)
Definition parse_part (m : Values) (part : string) : Values :=
  if ContainsByte part ";" || String.eqb part "" then m else
  let '(key, value) := match Cut part "=" with Some kv => kv | None => (part, "") end in
  match QueryUnescape key, QueryUnescape value with
  | Some key, Some value => add_pair m (key, value)
  | _, _ => m
  end.

(** [URL.Query] *)
Definition ParseQuery (query : string) : Values := foldl parse_part ∅ (Split query "&").

(** [url.Values.Set] and [Get] *)
Definition Values_Set (v : Values) (key value : string) : Values := <[key := [value]]> v.
Definition Values_Get (v : Values) (key : string) : string :=
  match v !! key with Some (value :: _) => value | _ => "" end.

(** ** JSON strings *)

(** [\uXXXX] for a code below 2^16 *)
Definition unicode_escape (r : Z) : string :=
  String "\" (String "u" (String (hex_lower (r / 4096)) (String (hex_lower (r / 256 mod 16))
    (String (hex_lower (r / 16 mod 16)) (String (hex_lower (r mod 16)) ""))))).

(** an ASCII byte in a string, with the HTML characters escaped *)
Definition json_ascii (c : ascii) : string :=
  let v := byte_val c in
  if (v =? 34)%Z || (v =? 92)%Z then String "\" (String c "")
  else if (v =? 8)%Z then "\b" else if (v =? 12)%Z then "\f" else if (v =? 10)%Z then "\n"
  else if (v =? 13)%Z then "\r" else if (v =? 9)%Z then "\t"
  else if (v <? 32)%Z || (v =? 60)%Z || (v =? 62)%Z || (v =? 38)%Z then unicode_escape v
  else String c "".

(** U+2028 and U+2029 *)
Definition line_separator (r : Z) : bool := (r =? 8232)%Z || (r =? 8233)%Z.

(** the characters of a string between the quotes; an invalid byte becomes
    U+FFFD *)
Fixpoint json_chars (s : string) : string :=
  match s with
  | "" => ""
  | String a s1 =>
      if is_ascii a then json_ascii a +:+ json_chars s1 else
      match s1 with
      | "" => unicode_escape rune_error
      | String b s2 =>
          match decode2 a b with
          | Some _ => String a (String b (json_chars s2))
          | None =>
              match s2 with
              | "" => unicode_escape rune_error +:+ json_chars s1
              | String c s3 =>
                  match decode3 a b c with
                  | Some r => (if line_separator r then unicode_escape r else String a (String b (String c ""))) +:+ json_chars s3
                  | None =>
                      match s3 with
                      | "" => unicode_escape rune_error +:+ json_chars s1
                      | String d s4 =>
                          match decode4 a b c d with
                          | Some _ => String a (String b (String c (String d (json_chars s4))))
                          | None => unicode_escape rune_error +:+ json_chars s1
                          end
                      end
                  end
              end
          end
      end
  end.

Definition quote : ascii := "034"%char.
Definition json_string (s : string) : string := String quote (json_chars s +:+ String quote "").

(** [json.Marshal] of a struct of strings: its members with their tags *)
Definition member_text (kv : string * string) : string := json_string kv.1 +:+ ":" +:+ json_string kv.2.
Definition json_object (members : list (string * string)) : string :=
  "{" +:+ Join (member_text <$> members) "," +:+ "}".

(** ** A reader of JSON *)

(** the UTF-8 bytes of a code below 2^16 *)
Definition utf8_bmp (r : Z) : string :=
  if (r <? 128)%Z then String (byte_of r) ""
  else if (r <? 2048)%Z then String (byte_of (192 + r / 64)) (String (byte_of (128 + r mod 64)) "")
  else String (byte_of (224 + r / 4096)) (String (byte_of (128 + r / 64 mod 64)) (String (byte_of (128 + r mod 64)) "")).

Definition simple_escape (c : ascii) : option ascii :=
  match byte_val c with
  | 34%Z | 92%Z | 47%Z => Some c
  | 98%Z => Some (byte_of 8) | 102%Z => Some (byte_of 12) | 110%Z => Some LF
  | 114%Z => Some CR | 116%Z => Some HTAB
  | _ => None
  end.

(** the rest of a string after its opening quote, and what follows it *)
Fixpoint read_chars (s : string) : option (string * string) :=
  match s with
  | "" => None
  | String c s' =>
      if Ascii.eqb c quote then Some ("", s')
      else if Ascii.eqb c "\" then
        match s' with
        | "" => None
        | String e s'' =>
            if Ascii.eqb e "u" then
              match s'' with
              | String w (String x (String y (String z rest))) =>
                  w ← digit_val 16 w; x ← digit_val 16 x; y ← digit_val 16 y; z ← digit_val 16 z;
                  '(t, u) ← read_chars rest; Some (utf8_bmp (w * 4096 + x * 256 + y * 16 + z) +:+ t, u)
              | _ => None
              end
            else
              e ← simple_escape e; '(t, u) ← read_chars s''; Some (String e t, u)
        end
      else if (byte_val c <? 32)%Z then None
      else '(t, u) ← read_chars s'; Some (String c t, u)
  end.

Definition expect (c : ascii) (s : string) : option string :=
  match s with String d s' => if Ascii.eqb d c then Some s' else None | "" => None end.

Definition read_string (s : string) : option (string * string) := s ← expect quote s; read_chars s.

Fixpoint read_members (fuel : nat) (s : string) : option (list (string * string)) :=
  match fuel with
  | 0 => None
  | S fuel =>
      '(k, s) ← read_string s; s ← expect ":" s; '(v, s) ← read_string s;
      if String.eqb s "}" then Some [(k, v)]
      else s ← expect "," s; rest ← read_members fuel s; Some ((k, v) :: rest)
  end.

(** an object of strings with nothing after it; every member takes a byte *)
Definition read_object (s : string) : option (list (string * string)) :=
  s ← expect "{" s; if String.eqb s "}" then Some [] else read_members (S (String.length s)) s.

(** ** Laws of query strings *)

Lemma QueryEscape_unescape s : QueryUnescape (QueryEscape s) = Some s.
Proof.
  induction s as [|c s IH]; [done|]. cbn [QueryEscape].
  destruct (unreserved c) eqn:Eu; [|destruct (Ascii.eqb c " ") eqn:Es].
  - cbn [QueryUnescape]. rewrite IH.
    assert (Ascii.eqb c "%" = false ∧ Ascii.eqb c "+" = false) as [-> ->]; [|done].
    revert Eu. clear. destruct c as [[] [] [] [] [] [] [] []]; vm_compute; intuition congruence.
  - apply Ascii.eqb_eq in Es as ->. cbn [QueryUnescape]. by rewrite IH.
  - cbn [QueryUnescape]. rewrite IH.
    assert (digit_val 16 (hex_upper (byte_val c / 16)) = Some (byte_val c / 16)%Z ∧
            digit_val 16 (hex_upper (byte_val c mod 16)) = Some (byte_val c mod 16)%Z) as [-> ->].
    { clear. destruct c as [[] [] [] [] [] [] [] []]; vm_compute; intuition congruence. }
    change (Ascii.eqb "%" "%") with true. cbn. f_equal. f_equal.
    rewrite <- Z.div_mod by lia. apply byte_of_val.
Qed.

(** an escaped component holds no separator *)
Definition plain_char (c : ascii) : bool := is_alnum c || bool_decide (c ∈ ["-"; "_"; "."; "~"; "+"; "%"]%char).

Lemma QueryEscape_plain s : str_forall plain_char (QueryEscape s) = true.
Proof.
  induction s as [|c s IH]; [done|]. cbn [QueryEscape].
  destruct (unreserved c) eqn:Eu; [|destruct (Ascii.eqb c " ") eqn:Es]; cbn [str_forall]; rewrite IH, ?andb_true_r.
  - revert Eu. clear. destruct c as [[] [] [] [] [] [] [] []]; vm_compute; congruence.
  - done.
  - clear. destruct c as [[] [] [] [] [] [] [] []]; vm_compute; reflexivity.
Qed.

Lemma plain_no s c : str_forall plain_char s = true → plain_char c = false → IndexByte s c = None.
Proof.
  intros Hs Hc. apply IndexByte_None. eapply str_forall_impl; [|exact Hs].
  intros d Hd. cbn. destruct (Ascii.eqb_spec d c) as [->|]; [congruence|done].
Qed.

Lemma encode_pair_no kv c : plain_char c = false → c ≠ "="%char → IndexByte (encode_pair kv) c = None.
Proof.
  intros Hc Hne. apply IndexByte_None. unfold encode_pair.
  change (QueryEscape kv.1 +:+ "=" +:+ QueryEscape kv.2) with (QueryEscape kv.1 +:+ String "=" (QueryEscape kv.2)).
  rewrite str_forall_app. cbn [str_forall].
  assert (∀ s, str_forall (λ d, negb (Ascii.eqb d c)) (QueryEscape s) = true) as ->
    by (intros s; apply IndexByte_None, plain_no; [apply QueryEscape_plain|done]). cbn [andb].
  destruct (Ascii.eqb_spec "=" c); [congruence|]. apply IndexByte_None, plain_no; [apply QueryEscape_plain|done].
Qed.

Lemma encode_pair_part m kv : parse_part m (encode_pair kv) = add_pair m kv.
Proof.
  destruct kv as [k v]. unfold parse_part, encode_pair. cbn [fst snd].
  pose proof (QueryEscape_plain k) as Hk. pose proof (QueryEscape_plain v) as Hv.
  assert (ContainsByte (QueryEscape k +:+ "=" +:+ QueryEscape v) ";" = false) as ->.
  { unfold ContainsByte. by rewrite (encode_pair_no (k, v)). }
  assert (String.eqb (QueryEscape k +:+ "=" +:+ QueryEscape v) "" = false) as ->.
  { apply String.eqb_neq. by destruct (QueryEscape k). }
  cbn [orb]. change ("=" +:+ QueryEscape v) with (String "=" (QueryEscape v)).
  rewrite Cut_app by (by apply plain_no). by rewrite !QueryEscape_unescape.
Qed.

Lemma foldl_encoded m kvs : foldl parse_part m (encode_pair <$> kvs) = foldl add_pair m kvs.
Proof. revert m. induction kvs as [|kv kvs IH]; intros m; [done|]. cbn. by rewrite encode_pair_part, IH. Qed.

(** What is encoded reads back: every key keeps its values in their order. *)
Lemma ParseQuery_Encode v : map_Forall (λ _ vs, vs ≠ []) v → ParseQuery (Encode v) = v.
Proof.
  intros Hv. unfold ParseQuery, Encode. set (kvs := header_pairs _).
  assert (foldl add_pair ∅ kvs = v) as Hfold.
  { unfold kvs. rewrite foldl_add_pairs.
    - rewrite (right_id_L ∅ (∪)). rewrite <- (list_to_map_to_list v) at 2. apply list_to_map_proper.
      + rewrite sortedKeyValues_perm. apply NoDup_fst_map_to_list.
      + apply sortedKeyValues_perm.
    - rewrite sortedKeyValues_perm. apply NoDup_fst_map_to_list.
    - apply Forall_forall. intros [k vs] Hin. rewrite sortedKeyValues_perm in Hin.
      apply elem_of_map_to_list in Hin. split; [by eapply Hv|apply lookup_empty]. }
  destruct kvs as [|kv kvs'] eqn:E; [exact Hfold|].
  rewrite Split_Join, foldl_encoded; [exact Hfold|done|].
  apply Forall_fmap, Forall_forall. intros kv' _. by apply encode_pair_no.
Qed.

(** ** Laws of JSON strings *)

(** the string with every invalid byte replaced by U+FFFD *)
Fixpoint sanitize (s : string) : string :=
  match s with
  | "" => ""
  | String a s1 =>
      if is_ascii a then String a (sanitize s1) else
      match s1 with
      | "" => utf8_bmp rune_error
      | String b s2 =>
          match decode2 a b with
          | Some _ => String a (String b (sanitize s2))
          | None =>
              match s2 with
              | "" => utf8_bmp rune_error +:+ sanitize s1
              | String c s3 =>
                  match decode3 a b c with
                  | Some _ => String a (String b (String c (sanitize s3)))
                  | None =>
                      match s3 with
                      | "" => utf8_bmp rune_error +:+ sanitize s1
                      | String d s4 =>
                          match decode4 a b c d with
                          | Some _ => String a (String b (String c (String d (sanitize s4))))
                          | None => utf8_bmp rune_error +:+ sanitize s1
                          end
                      end
                  end
              end
          end
      end
  end.

(** what is read of a text that denotes [t] *)
Definition reads_as (text t : string) : Prop :=
  ∀ rest u v, read_chars rest = Some (u, v) → read_chars (text +:+ rest) = Some (t +:+ u, v).

Lemma reads_as_nil : reads_as "" "".
Proof. by intros rest u v H. Qed.

Lemma reads_as_app a b s t : reads_as a s → reads_as b t → reads_as (a +:+ b) (s +:+ t).
Proof. intros Ha Hb rest u v H. rewrite !str_app_assoc. by apply Ha, Hb. Qed.

Lemma reads_as_high c : is_ascii c = false → reads_as (String c "") (String c "").
Proof.
  intros Hc rest u v H. change (String c "" +:+ rest) with (String c rest). cbn [read_chars].
  assert (Ascii.eqb c quote = false ∧ Ascii.eqb c "\" = false ∧ (byte_val c <? 32)%Z = false) as (-> & -> & ->).
  { revert Hc. clear. destruct c as [[] [] [] [] [] [] [] []]; vm_compute; intuition congruence. }
  by rewrite H.
Qed.

Lemma reads_as_escape r : (0 ≤ r < 65536)%Z → reads_as (unicode_escape r) (utf8_bmp r).
Proof.
  intros Hr rest u v H. unfold unicode_escape.
  assert (∀ n, (0 ≤ n < 16)%Z → digit_val 16 (hex_lower n) = Some n) as Hd.
  { intros n Hn. assert (∀ k : nat, k < 16 → digit_val 16 (hex_lower (Z.of_nat k)) = Some (Z.of_nat k)) as Hk.
    { intros k Hk. do 16 (destruct k as [|k]; [reflexivity|]). lia. }
    rewrite <- (Z2Nat.id n) by lia. apply Hk. lia. }
  change (Ascii.eqb "\" quote) with false. cbn [String.append read_chars].
  change (Ascii.eqb "\" quote) with false. change (Ascii.eqb "\" "\") with true. change (Ascii.eqb "u" "u") with true. cbn [andb].
  pose proof (Z.mod_pos_bound (r / 256) 16). pose proof (Z.mod_pos_bound (r / 16) 16). pose proof (Z.mod_pos_bound r 16).
  assert (0 ≤ r / 4096 < 16)%Z by (split; [apply Z.div_pos; lia|apply Z.div_lt_upper_bound; lia]).
  rewrite !Hd by lia. cbn. rewrite H. cbn. do 3 f_equal.
  replace (r / 4096 * 4096 + (r / 256) mod 16 * 256 + (r / 16) mod 16 * 16 + r mod 16)%Z with r; [done|].
  pose proof (Z.div_mod r 16). pose proof (Z.div_mod (r / 16) 16). pose proof (Z.div_mod (r / 256) 16).
  rewrite !Z.div_div in * by lia. change (16 * 16)%Z with 256%Z in *. change (256 * 16)%Z with 4096%Z in *. lia.
Qed.

(** how an ASCII character is written: by its code, by a letter, or as it is *)
Definition json_ascii_case (c : ascii) : bool :=
  String.eqb (json_ascii c) (unicode_escape (byte_val c)) && String.eqb (utf8_bmp (byte_val c)) (String c "") ||
  match json_ascii c with
  | String b (String e "") =>
      Ascii.eqb b "\" && negb (Ascii.eqb e "u") && match simple_escape e with Some d => Ascii.eqb d c | None => false end
  | String d "" => Ascii.eqb d c && negb (Ascii.eqb c quote) && negb (Ascii.eqb c "\") && negb (byte_val c <? 32)%Z
  | _ => false
  end.

Lemma json_ascii_spec c : is_ascii c = true →
  json_ascii c = unicode_escape (byte_val c) ∧ utf8_bmp (byte_val c) = String c "" ∨
  (∃ e, json_ascii c = String "\" (String e "") ∧ Ascii.eqb e "u" = false ∧ simple_escape e = Some c) ∨
  json_ascii c = String c "" ∧ Ascii.eqb c quote = false ∧ Ascii.eqb c "\" = false ∧ (byte_val c <? 32)%Z = false.
Proof.
  intros Hc. assert (implb (is_ascii c) (json_ascii_case c) = true) as H by (clear; all_chars c).
  rewrite Hc in H. cbn [implb] in H. unfold json_ascii_case in H. apply orb_prop in H as [[?%String.eqb_eq ?%String.eqb_eq]%andb_prop|H]; [by left|].
  right. destruct (json_ascii c) as [|b [|e [|]]]; [done| | |done].
  - right. apply andb_prop in H as [[[->%Ascii.eqb_eq Hq]%andb_prop Hb]%andb_prop Hl].
    apply negb_true_iff in Hq, Hb, Hl. done.
  - left. apply andb_prop in H as [[->%Ascii.eqb_eq Hu]%andb_prop Hs]. exists e. apply negb_true_iff in Hu.
    split_and!; [done..|]. destruct (simple_escape e) as [d|]; [|done]. by apply Ascii.eqb_eq in Hs as ->.
Qed.

Lemma reads_as_ascii c : is_ascii c = true → reads_as (json_ascii c) (String c "").
Proof.
  intros Hc. destruct (json_ascii_spec c Hc) as [[-> <-]|[(e & -> & He & Hs)|(-> & Hq & Hb & Hl)]].
  - apply reads_as_escape. pose proof (byte_val_range c). lia.
  - intros rest u v H. cbn [String.append read_chars]. change (Ascii.eqb "\" quote) with false.
    change (Ascii.eqb "\" "\") with true. by rewrite He, Hs, H.
  - intros rest u v H. cbn [String.append read_chars]. by rewrite Hq, Hb, Hl, H.
Qed.

Lemma cont_byte_high b v : cont_byte b = Some v → is_ascii b = false.
Proof. unfold cont_byte, is_ascii. intros Hb. destruct (_ && _) eqn:E; [|done]. apply andb_prop in E as [?%Z.leb_le _]. by apply Z.ltb_ge. Qed.

Lemma decode2_high a b r : decode2 a b = Some r → is_ascii b = false.
Proof. unfold decode2. destruct (cont_byte b) eqn:Hb; [|done]. intros _. by eapply cont_byte_high. Qed.

Lemma decode3_high a b c r : decode3 a b c = Some r → is_ascii b = false ∧ is_ascii c = false.
Proof.
  unfold decode3. destruct (cont_byte b) eqn:Hb; [|done]. destruct (cont_byte c) eqn:Hc; [|done].
  intros _. split; by eapply cont_byte_high.
Qed.

Lemma decode4_high a b c d r : decode4 a b c d = Some r → is_ascii b = false ∧ is_ascii c = false ∧ is_ascii d = false.
Proof.
  unfold decode4. destruct (cont_byte b) eqn:Hb; [|done]. destruct (cont_byte c) eqn:Hc; [|done].
  destruct (cont_byte d) eqn:Hd; [|done]. intros _. split_and!; by eapply cont_byte_high.
Qed.

(** a separator is the encoding of its code *)
Lemma separator_bytes a b c r : decode3 a b c = Some r → line_separator r = true → utf8_bmp r = String a (String b (String c "")).
Proof.
  unfold decode3, cont_byte. pose proof (byte_val_range a) as Ha. pose proof (byte_val_range b). pose proof (byte_val_range c).
  destruct ((128 <=? byte_val b)%Z && _) eqn:Eb; [|done]. destruct ((128 <=? byte_val c)%Z && _) eqn:Ec; [|done]. cbn.
  match goal with |- (if ?e then _ else _) = _ → _ => destruct e; [|done] end. intros [= Hr] Hl.
  rewrite <- (byte_of_val a), <- (byte_of_val b), <- (byte_of_val c).
  apply andb_prop in Eb as [?%Z.leb_le ?%Z.leb_le], Ec as [?%Z.leb_le ?%Z.leb_le].
  assert (r = 8232 ∨ r = 8233)%Z as Hr' by (unfold line_separator in Hl; by apply orb_prop in Hl as [?%Z.eqb_eq|?%Z.eqb_eq]; auto).
  assert (byte_val a = 226 ∧ byte_val b = 128 ∧ byte_val c = r - 8064)%Z as (-> & -> & ->) by lia.
  destruct Hr' as [->| ->]; reflexivity.
Qed.

Lemma reads_as_cons c text t : is_ascii c = false → reads_as text t → reads_as (String c text) (String c t).
Proof. intros Hc Ht. by apply (reads_as_app (String c "") text (String c "") t); [apply reads_as_high|]. Qed.

Lemma reads_as_error text t : reads_as text t → reads_as (unicode_escape rune_error +:+ text) (utf8_bmp rune_error +:+ t).
Proof. apply reads_as_app, reads_as_escape. by vm_compute. Qed.

(** the text of a string denotes the string, with its invalid bytes replaced *)
Lemma json_chars_reads s : reads_as (json_chars s) (sanitize s).
Proof.
  induction s as [s IH] using (induction_ltof1 _ String.length). unfold ltof in IH.
  destruct s as [|a s1]; [apply reads_as_nil|]. cbn [json_chars sanitize].
  destruct (is_ascii a) eqn:Ha.
  { apply (reads_as_app _ _ (String a "")); [by apply reads_as_ascii|]. apply IH. cbn. lia. }
  destruct s1 as [|b s2]; [apply reads_as_escape; by vm_compute|].
  destruct (decode2 a b) as [r|] eqn:H2.
  { apply decode2_high in H2. do 2 (apply reads_as_cons; [done|]). apply IH. cbn. lia. }
  destruct s2 as [|c s3]; [apply reads_as_error, IH; cbn; lia|].
  destruct (decode3 a b c) as [r|] eqn:H3.
  { pose proof H3 as [Hb Hc]%decode3_high. assert (reads_as (json_chars s3) (sanitize s3)) as IH3 by (apply IH; cbn; lia).
    destruct (line_separator r) eqn:Hr.
    - apply (separator_bytes _ _ _ _ H3) in Hr as Hu.
      apply (reads_as_app _ _ (String a (String b (String c "")))); [|done]. rewrite <- Hu. apply reads_as_escape.
      unfold line_separator in Hr. apply orb_prop in Hr as [?%Z.eqb_eq|?%Z.eqb_eq]; lia.
    - apply (reads_as_app _ _ (String a (String b (String c "")))); [|done].
      do 3 (apply reads_as_cons; [done|]). apply reads_as_nil. }
  destruct s3 as [|d s4]; [apply reads_as_error, IH; cbn; lia|].
  destruct (decode4 a b c d) as [r|] eqn:H4; [|apply reads_as_error, IH; cbn; lia].
  apply decode4_high in H4 as (Hb & Hc & Hd). do 4 (apply reads_as_cons; [done|]). apply IH. cbn. lia.
Qed.

Lemma read_json_string s rest : read_string (json_string s +:+ rest) = Some (sanitize s, rest).
Proof.
  unfold read_string, json_string. cbn [String.append expect]. change (Ascii.eqb quote quote) with true. cbn [mbind option_bind].
  rewrite str_app_assoc. rewrite <- (str_app_nil_r (sanitize s)). by apply json_chars_reads.
Qed.

Lemma read_members_ok fuel kvs : kvs ≠ [] → length kvs ≤ fuel →
  read_members fuel (Join (member_text <$> kvs) "," +:+ "}") = Some (prod_map sanitize sanitize <$> kvs).
Proof.
  revert kvs. induction fuel as [|fuel IH]; intros [|[k v] kvs] Hne Hf; try done; cbn [length] in Hf; [lia|].
  assert (∀ rest, read_members (S fuel) (member_text (k, v) +:+ rest) =
    if String.eqb rest "}" then Some [(sanitize k, sanitize v)]
    else s ← expect "," rest; rest ← read_members fuel s; Some ((sanitize k, sanitize v) :: rest)) as Hm.
  { intros rest. unfold member_text. cbn [read_members fst snd]. rewrite str_app_assoc, read_json_string.
    cbn [mbind option_bind]. rewrite str_app_assoc. cbn [String.append expect]. change (Ascii.eqb ":" ":") with true.
    cbn [mbind option_bind]. by rewrite read_json_string. }
  destruct kvs as [|kv kvs].
  - cbn [fmap list_fmap Join]. by rewrite Hm.
  - change (Join (member_text <$> (k, v) :: kv :: kvs) ",") with
      (member_text (k, v) +:+ "," +:+ Join (member_text <$> kv :: kvs) ",").
    rewrite !str_app_assoc, Hm. cbn [String.append]. change (String.eqb (String "," _) "}") with false.
    cbn [expect]. change (Ascii.eqb "," ",") with true. cbn [mbind option_bind].
    rewrite IH by (cbn [length] in *; first [done|lia]). done.
Qed.

(** An object of strings reads back, with the invalid bytes of its strings
    replaced. *)
Lemma read_json_object kvs : read_object (json_object kvs) = Some (prod_map sanitize sanitize <$> kvs).
Proof.
  unfold read_object, json_object. cbn [String.append expect]. change (Ascii.eqb "{" "{") with true. cbn [mbind option_bind].
  destruct kvs as [|kv kvs]; [done|].
  assert (∀ l, l ≠ [] → length l ≤ String.length (Join (member_text <$> l) "," +:+ "}")) as Hlen.
  { intros l _. rewrite str_length_app. cut (length l ≤ S (String.length (Join (member_text <$> l) ","))); [cbn; lia|].
    induction l as [|x [|y l] IH]; [cbn; lia..|]. change (Join (member_text <$> x :: y :: l) ",") with
      (member_text x +:+ "," +:+ Join (member_text <$> y :: l) ","). rewrite !str_length_app. cbn [length String.length] in *. lia. }
  destruct (String.eqb _ "}") eqn:E.
  - apply String.eqb_eq in E. exfalso. destruct kvs as [|kv' kvs]; by destruct kv.
  - apply read_members_ok; [done|]. etrans; [by apply Hlen|]. lia.
Qed.

(** valid UTF-8 *)
Definition valid_utf8 (s : string) : Prop := sanitize s = s.
#[export] Instance valid_utf8_dec s : Decision (valid_utf8 s).
Proof. unfold valid_utf8. apply _. Defined.
