(* ===== verification/HttpProxy.v ===== *)
(** * Forwarding one HTTP exchange

    Models cmd/proxy/http.go: the message writers, the body copies
    ([copyFixedLength], [proxyChunkedBody], [proxyHTTPBody]), the tunnel and
    [proxyHTTPRequest].

    A connection's incoming side is a [GoIO.reader]; its outgoing side is a
    [writer], which may start to fail after a number of bytes.  The order in
    which Go visits the keys of a header map is an argument ([order], which gives a
    permutation of a map's entries).  The number of bytes the buffered reader
    of the response has taken off the upstream connection beyond what was
    parsed is an argument too ([readahead]). *)

From S2P Require Export HeaderCodec.
From Stdlib Require Import Ascii.

Local Open Scope string_scope.
Local Open Scope nat_scope.
Local Open Scope list_scope.

(** ** Writers *)

Record writer := mk_writer {
  w_out : bytes;             (* what the peer receives *)
  w_left : option nat        (* bytes accepted before a write fails *)
}.

Inductive proxy_error :=
  | PDone                            (* errProxyConnectionDone *)
  | PHttp (e : http_error)
  | PRead (e : read_error)
  | PWrite
  | PChunkSize (e : num_error)
  | PPanic (p : panic).

(** [w.Write(b)] *)
Definition Write (w : writer) (b : bytes) : option proxy_error * writer :=
  match w_left w with
  | None => (None, mk_writer (w_out w ++ b) None)
  | Some n =>
      if length b <=? n then (None, mk_writer (w_out w ++ b) (Some (n - length b)))
      else (Some PWrite, mk_writer (w_out w ++ take n b) (Some 0))
  end.

Definition WriteString (w : writer) (s : string) : option proxy_error * writer := Write w (of_string s).

(** ** Copies *)

(** the error, the source and the destination after a copy *)
Definition copied : Type := option proxy_error * reader * writer.

(** [io.CopyN(dst, src, n)]: nothing is copied and no error returned for
    [n <= 0].  After a write error the position of the source does not matter:
    the callers abandon both connections. *)
Definition CopyN (dst : writer) (src : reader) (n : Z) : copied :=
  let k := Z.to_nat n in
  let '(e, dst') := Write dst (take k (rd_data src)) in
  let src' := consume k src in
  match e with
  | Some e => (Some e, src', dst')
  | None => (if k <=? length (rd_data src) then None else Some (PRead (rd_fail src)), src', dst')
  end.

(** [io.Copy(dst, src)]: to the end of the source *)
Definition Copy (dst : writer) (src : reader) : copied :=
  let '(e, dst') := Write dst (rd_data src) in
  let src' := set_data src [] in
  match e with
  | Some e => (Some e, src', dst')
  | None => (match rd_fail src with EOF => None | f => Some (PRead f) end, src', dst')
  end.

Definition unexpected (e : option proxy_error) : option proxy_error :=
  match e with Some (PRead EOF) => Some (PRead ErrUnexpectedEOF) | _ => e end.

Definition copyFixedLength (dst : writer) (src : reader) (remaining : Z) : copied :=
  if (remaining =? 0)%Z then (None, src, dst)
  else let '(e, src', dst') := CopyN dst src remaining in (unexpected e, src', dst').

(** [src.ReadString('\n')] *)
Definition readChunkLine (src : reader) : result read_error (string * reader) :=
  match split_line (rd_data src) with
  | Some (l, rest) => Ok (to_string (l ++ [LF]), set_data src rest)
  | None => Err (rd_fail src)
  end.

Definition parseChunkSize (line : string) : Z * option num_error :=
  let sizeText := TrimSpace line in
  let sizeText := match IndexByte sizeText ";" with Some idx => str_take idx sizeText | None => sizeText end in
  ParseInt sizeText 16.

(** the inner loop, after a chunk of size 0 *)
Fixpoint proxyTrailers (fuel : nat) (dst : writer) (src : reader) : copied :=
  match fuel with
  | O => (Some (PPanic (Explicit "fuel")), src, dst)
  | S fuel =>
      match readChunkLine src with
      | Err e => (Some (PRead e), set_data src [], dst)
      | Panic p => (Some (PPanic p), src, dst)
      | Ok (trailerLine, src) =>
          match WriteString dst trailerLine with
          | (Some e, dst) => (Some e, src, dst)
          | (None, dst) =>
              if String.eqb trailerLine CRLF then (None, src, dst) else proxyTrailers fuel dst src
          end
      end
  end.

Fixpoint proxyChunks (fuel : nat) (dst : writer) (src : reader) : copied :=
  match fuel with
  | O => (Some (PPanic (Explicit "fuel")), src, dst)
  | S fuel =>
      match readChunkLine src with
      | Err e => (Some (PRead e), set_data src [], dst)
      | Panic p => (Some (PPanic p), src, dst)
      | Ok (line, src) =>
          match WriteString dst line with
          | (Some e, dst) => (Some e, src, dst)
          | (None, dst) =>
              match parseChunkSize line with
              | (_, Some e) => (Some (PChunkSize e), src, dst)
              | (chunkSize, None) =>
                  if (chunkSize =? 0)%Z then proxyTrailers fuel dst src else
                  match copyFixedLength dst src chunkSize with
                  | (Some e, src, dst) => (Some e, src, dst)
                  | (None, src, dst) =>
                      match CopyN dst src 2 with
                      | (Some e, src, dst) => (Some e, src, dst)
                      | (None, src, dst) => proxyChunks fuel dst src
                      end
                  end
              end
          end
      end
  end.

(** every line read takes at least one byte of the source *)
Definition proxyChunkedBody (dst : writer) (src : reader) : copied :=
  proxyChunks (S (length (rd_data src))) dst src.

(** ** Messages *)

Definition responseHasNoBody (method : string) (code : Z) : bool :=
  String.eqb method "HEAD" || ((100 <=? code)%Z && (code <? 200)%Z) ||
  (code =? 204)%Z || (code =? 304)%Z.

Definition is_chunked_value (v : string) : bool := EqualFoldASCII (TrimSpace v) "chunked".

Definition requestIsChunked (r : Request) : bool :=
  existsb is_chunked_value (TransferEncoding r) ||
  existsb is_chunked_value (Split (Header_Get (ReqHeader r) "Transfer-Encoding") ",").

(** the text of the request head, for the order in which the map is visited *)
Definition request_head (r : Request) (order : list (string * list string)) : string :=
  FormatRequestLine r +:+ CRLF +:+ header_text order +:+ CRLF.

Definition writeHTTPRequest (upstream : writer) (src : reader) (r : Request)
    (order : Header → list (string * list string)) : copied :=
  match WriteString upstream (request_head r (order (ReqHeader r))) with
  | (Some e, upstream) => (Some e, src, upstream)
  | (None, upstream) =>
      if requestIsChunked r then proxyChunkedBody upstream src
      else if (0 <? ContentLength r)%Z then copyFixedLength upstream src (ContentLength r)
      else (None, src, upstream)
  end.

(** the cloned header with the proxy's [Server] value *)
Definition response_headers (resp : Response) (serverName : string) : Header :=
  if String.eqb serverName "" then RespHeader resp
  else Header_Add (RespHeader resp) "Server" serverName.

Definition response_head (resp : Response) (order : list (string * list string)) : string :=
  FormatStatusLine resp +:+ CRLF +:+ header_text order +:+ CRLF.

Definition writeHTTPResponse (downstream : writer) (resp : Response) (serverName : string)
    (order : Header → list (string * list string)) : option proxy_error * writer :=
  WriteString downstream (response_head resp (order (response_headers resp serverName))).

Definition writeConnectEstablished (downstream : writer) (serverName : string) : option proxy_error * writer :=
  WriteString downstream
    ("HTTP/1.1 200 Connection Established" +:+ CRLF +:+
     (if String.eqb serverName "" then "" else "Server: " +:+ serverName +:+ CRLF) +:+ CRLF).

Definition proxyHTTPBody (downstream : writer) (respReader : reader) (req : Request) (resp : Response) : copied :=
  if responseHasNoBody (Method req) (StatusCode resp) then (None, respReader, downstream)
  else if Chunked resp then proxyChunkedBody downstream respReader
  else if (0 <=? RespContentLength resp)%Z
  then copyFixedLength downstream respReader (RespContentLength resp)
  else if RespClose resp then Copy downstream respReader
  else (None, respReader, downstream).

(** ** The tunnel *)

Record conns := mk_conns {
  down_in : reader; down_out : writer;
  up_in : reader; up_out : writer;
  up_closed : bool; down_closed : bool
}.

(** Both directions are copied to the end; they share no buffer, so their
    interleaving does not matter.  [first] tells whose error arrives first. *)
Definition proxyTunnel (c : conns) (first : bool) : option proxy_error * conns :=
  let '(e1, din, uout) := Copy (up_out c) (down_in c) in
  let '(e2, uin, dout) := Copy (down_out c) (up_in c) in
  let err := if first then match e1 with Some e => Some e | None => e2 end
             else match e2 with Some e => Some e | None => e1 end in
  (err, mk_conns din dout uin uout true (match err with Some _ => true | None => down_closed c end)).

Definition proxyRawConnection (c : conns) (first : bool) : option proxy_error * conns :=
  match proxyTunnel c first with
  | (Some e, c) => (Some e, c)
  | (None, c) => (Some PDone, c)
  end.

(** ** One exchange *)

Definition dial_failure (err : string) : string :=
  let body := "连接失败:" +:+ err in
  "HTTP/1.1 200 OK" +:+ String LF "" +:+ "Server: idefav" +:+ String LF "" +:+
  "Content-Type: text/plain;charset=UTF-8" +:+ String LF "" +:+
  "Content-Length: " +:+ Itoa (Z.of_nat (String.length body)) +:+ String LF (String LF "") +:+
  body +:+ String LF "".

Section Exchange.
Context `{UrlParser} `{HttpGuts} `{GoUnicode}.

(** what the environment decides: the order of the map iterations, the
    read-ahead of the response reader, the tunnel's race *)
Record choices := {
  map_order : Header → list (string * list string);
  readahead : nat;
  tunnel_first : bool
}.

Definition set_up_out (c : conns) (w : writer) : conns :=
  mk_conns (down_in c) (down_out c) (up_in c) w (up_closed c) (down_closed c).
Definition set_down_out (c : conns) (w : writer) : conns :=
  mk_conns (down_in c) w (up_in c) (up_out c) (up_closed c) (down_closed c).
Definition set_down_in (c : conns) (r : reader) : conns :=
  mk_conns r (down_out c) (up_in c) (up_out c) (up_closed c) (down_closed c).
Definition set_up_in (c : conns) (r : reader) : conns :=
  mk_conns (down_in c) (down_out c) r (up_out c) (up_closed c) (down_closed c).
Definition close_up (c : conns) : conns :=
  mk_conns (down_in c) (down_out c) (up_in c) (up_out c) true (down_closed c).

(** [dial]: [None] when [net.Dial] succeeded (the connection is in [c]),
    otherwise the text of its error.  Every return closes the upstream
    connection. *)
Definition proxyHTTPRequest (c : conns) (dial : option string) (req : Request)
    (serverName : string) (ch : choices) : option proxy_error * conns :=
  match dial with
  | Some err =>
      (Some PDone, set_down_out c (WriteString (down_out c) (dial_failure err)).2)
  | None =>
      if String.eqb (Method req) "CONNECT" then
        match writeConnectEstablished (down_out c) serverName with
        | (Some e, w) => (Some e, close_up (set_down_out c w))
        | (None, w) =>
            match proxyTunnel (set_down_out c w) (tunnel_first ch) with
            | (Some e, c) => (Some e, close_up c)
            | (None, c) => (Some PDone, close_up c)
            end
        end
      else
        match writeHTTPRequest (up_out c) (down_in c) req (map_order ch) with
        | (Some e, din, w) => (Some e, close_up (set_up_out (set_down_in c din) w))
        | (None, din, w) =>
            let c := set_up_out (set_down_in c din) w in
            match ReadResponse (up_in c) with
            | Err e => (Some (PHttp e), close_up c)
            | Panic p => (Some (PPanic p), close_up c)
            | Ok (resp, respReader) =>
                if Upgraded resp then
                  match writeHTTPResponse (down_out c) resp "" (map_order ch) with
                  | (Some e, w) => (Some e, close_up (set_down_out c w))
                  | (None, w) =>
                      (* the tunnel reads the connection, not [respReader] *)
                      let c := set_up_in (set_down_out c w) (consume (readahead ch) respReader) in
                      match proxyTunnel c (tunnel_first ch) with
                      | (Some e, c) => (Some e, close_up c)
                      | (None, c) => (Some PDone, close_up c)
                      end
                  end
                else
                  match writeHTTPResponse (down_out c) resp serverName (map_order ch) with
                  | (Some e, w) => (Some e, close_up (set_down_out c w))
                  | (None, w) =>
                      match proxyHTTPBody w respReader req resp with
                      | (Some e, uin, w) => (Some e, close_up (set_down_out (set_up_in c uin) w))
                      | (None, uin, w) =>
                          (if Close req || RespClose resp then Some PDone else None,
                           close_up (set_down_out (set_up_in c uin) w))
                      end
                  end
            end
        end
  end.
End Exchange.

(** ** The bytes of the client

    Whatever is copied, nothing of the source is read twice. *)

Definition left_in (r : copied) : nat := length (rd_data r.1.2).
#[local] Arguments left_in _ /.

Lemma CopyN_left dst src n : left_in (CopyN dst src n) ≤ length (rd_data src).
Proof. unfold CopyN, left_in. destruct (Write _ _) as [[e|] w]; cbn; rewrite length_drop; lia. Qed.

Lemma copyFixedLength_left dst src n : left_in (copyFixedLength dst src n) ≤ length (rd_data src).
Proof.
  unfold copyFixedLength. pose proof (CopyN_left dst src n). destruct (n =? 0)%Z; [done|].
  by destruct (CopyN dst src n) as [[? ?] ?].
Qed.

Lemma readChunkLine_left src line src' : readChunkLine src = Ok (line, src') → length (rd_data src') < length (rd_data src).
Proof.
  unfold readChunkLine. destruct (split_line (rd_data src)) as [[l rest]|] eqn:E; [|done].
  intros ?; simplify_eq. apply split_line_no_lf in E as [-> _]. cbn. rewrite length_app. cbn. lia.
Qed.

Lemma proxyTrailers_left fuel dst src : left_in (proxyTrailers fuel dst src) ≤ length (rd_data src).
Proof.
  revert dst src. induction fuel as [|fuel IH]; intros dst src; [done|]. cbn [proxyTrailers].
  destruct (readChunkLine src) as [[line src1]|e|p] eqn:E; [|cbn; lia|done]. apply readChunkLine_left in E.
  destruct (WriteString _ _) as [[e|] w]; [cbn; lia|]. destruct (String.eqb line CRLF); [cbn; lia|].
  specialize (IH w src1). lia.
Qed.

Lemma proxyChunks_left fuel dst src : left_in (proxyChunks fuel dst src) ≤ length (rd_data src).
Proof.
  revert dst src. induction fuel as [|fuel IH]; intros dst src; [done|]. cbn [proxyChunks].
  destruct (readChunkLine src) as [[line src1]|e|p] eqn:E; [|cbn; lia|done]. apply readChunkLine_left in E.
  destruct (WriteString _ _) as [[e|] w]; [cbn; lia|]. destruct (parseChunkSize line) as [size [e|]]; [cbn; lia|].
  destruct (size =? 0)%Z; [pose proof (proxyTrailers_left fuel w src1); lia|].
  pose proof (copyFixedLength_left w src1 size) as H1. destruct (copyFixedLength _ _ _) as [[[e|] src2] w2]; cbn in *; [lia|].
  pose proof (CopyN_left w2 src2 2) as H2. destruct (CopyN w2 src2 2) as [[[e|] src3] w3]; cbn in *; [lia|].
  specialize (IH w3 src3). lia.
Qed.

Lemma writeHTTPRequest_left w src r order : left_in (writeHTTPRequest w src r order) ≤ length (rd_data src).
Proof.
  unfold writeHTTPRequest. destruct (WriteString _ _) as [[e|] w1]; [done|].
  destruct (requestIsChunked r); [apply proxyChunks_left|]. destruct (0 <? _)%Z; [apply copyFixedLength_left|done].
Qed.

Lemma proxyTunnel_left c first : down_in (proxyTunnel c first).2 = set_data (down_in c) [].
Proof.
  unfold proxyTunnel, Copy. destruct (Write (up_out c) _) as [[e|] w]; destruct (Write (down_out c) _) as [[e'|] w']; done.
Qed.

(** an exchange reads the client's bytes only forwards *)
Lemma proxyHTTPRequest_left `{UrlParser} `{HttpGuts} `{GoUnicode} c dial req serverName ch :
  length (rd_data (down_in (proxyHTTPRequest c dial req serverName ch).2)) ≤ length (rd_data (down_in c)).
Proof.
  assert (∀ c', length (rd_data (down_in c')) ≤ length (rd_data (down_in c)) →
    length (rd_data (down_in (proxyTunnel c' (tunnel_first ch)).2)) ≤ length (rd_data (down_in c))) as Ht.
  { intros c' _. rewrite proxyTunnel_left. cbn. lia. }
  unfold proxyHTTPRequest. destruct dial; [done|]. destruct (String.eqb _ _).
  - destruct (writeConnectEstablished _ _) as [[e|] w]; [done|].
    specialize (Ht (set_down_out c w)). destruct (proxyTunnel _ _) as [[e|] c1]; by apply Ht.
  - pose proof (writeHTTPRequest_left (up_out c) (down_in c) req (map_order ch)) as Hw.
    destruct (writeHTTPRequest _ _ _ _) as [[[e|] din] w]; cbn in Hw; [exact Hw|]. cbv zeta.
    destruct (ReadResponse _) as [[resp rr]|e|p]; [|exact Hw..]. destruct (Upgraded resp).
    + destruct (writeHTTPResponse _ _ _ _) as [[e|] w1]; [exact Hw|].
      match goal with |- context [proxyTunnel ?c2 _] => specialize (Ht c2 Hw) end.
      by destruct (proxyTunnel _ _) as [[e|] c1].
    + destruct (writeHTTPResponse _ _ _ _) as [[e|] w1]; [exact Hw|].
      by destruct (proxyHTTPBody _ _ _ _) as [[[e|] uin] w2].
Qed.

(** ** The pool of upstream connections *)

(** [Get]: a failed dial leaves a nil connection under the key *)
Definition Get {C} (pool : gmap string (option C)) (addr : string) (dial : option C)
  : gmap string (option C) * option C :=
  match pool !! addr with
  | Some (Some conn) => (pool, Some conn)
  | _ => (<[addr := dial]> pool, dial)
  end.

(** ** What a copy does *)

(** the writer after a successful write of [p] *)
Definition written (w : writer) (p : bytes) : writer :=
  mk_writer (w_out w ++ p) ((λ n, n - length p) <$> w_left w).

Lemma written_nil w : written w [] = w.
Proof.
  destruct w as [o [n|]]; unfold written; simpl; rewrite app_nil_r; [|done]. by rewrite Nat.sub_0_r.
Qed.

Lemma written_app w p q : written (written w p) q = written w (p ++ q).
Proof.
  unfold written; simpl. rewrite app_assoc. f_equal. destruct (w_left w); simpl; [|done].
  f_equal. rewrite length_app. lia.
Qed.

(** The destination gets a prefix of the source, and exactly what the source
    lost when there is no error. *)
Definition emits (dst : writer) (src : reader) (r : copied) : Prop :=
  let '(e, src', dst') := r in
  ∃ p, p `prefix_of` rd_data src ∧
    match e with
    | None => dst' = written dst p ∧ rd_data src = p ++ rd_data src' ∧ src' = set_data src (rd_data src')
    | Some _ => w_out dst' = w_out dst ++ p
    end.

Lemma Write_spec w b :
  match Write w b with
  | (None, w') => w' = written w b
  | (Some e, w') => e = PWrite ∧ ∃ p, p `prefix_of` b ∧ w_out w' = w_out w ++ p
  end.
Proof.
  unfold Write, written. destruct (w_left w) as [n|] eqn:E; simpl; [|done].
  destruct (length b <=? n); [done|]. split; [done|]. exists (take n b). split; [|done].
  exists (drop n b). by rewrite take_drop.
Qed.

Lemma Write_unlimited w b : w_left w = None → Write w b = (None, written w b).
Proof. intros E. unfold Write, written. by rewrite E. Qed.

Lemma emits_nothing dst src : emits dst src (None, src, dst).
Proof.
  exists []. rewrite written_nil. split; [apply prefix_nil|]. by destruct src.
Qed.

Lemma emits_error dst src e src' : emits dst src (Some e, src', dst).
Proof. exists []. split; [apply prefix_nil|]. by rewrite app_nil_r. Qed.

(** Composition: [src] had [p] taken and written, then the rest goes on. *)
Lemma emits_step dst src p src1 r :
  rd_data src = p ++ rd_data src1 → src1 = set_data src (rd_data src1) →
  emits (written dst p) src1 r → emits dst src r.
Proof.
  destruct r as [[e src'] dst']. intros Hd Hs (q & [t Hq] & He). exists (p ++ q). split.
  - exists t. rewrite Hd, Hq. by rewrite app_assoc.
  - destruct e.
    + by rewrite He, app_assoc.
    + destruct He as (-> & Hq2 & Hs'). rewrite written_app, Hd, Hq2, app_assoc. split_and!; [done..|].
      rewrite Hs', Hs. done.
Qed.

Lemma emits_write dst src p src1 :
  rd_data src = p ++ rd_data src1 →
  match Write dst p with
  | (None, dst') => dst' = written dst p
  | (Some e, dst') => emits dst src (Some e, src1, dst')
  end.
Proof.
  intros Hd. pose proof (Write_spec dst p) as H. destruct (Write dst p) as [[e|] dst']; [|done].
  destruct H as (_ & q & [t ->] & Hq). exists q. split; [|done]. exists (t ++ rd_data src1).
  by rewrite Hd, <- app_assoc.
Qed.

Lemma CopyN_emits dst src n : emits dst src (CopyN dst src n).
Proof.
  unfold CopyN. set (k := Z.to_nat n).
  assert (rd_data src = take k (rd_data src) ++ rd_data (consume k src)) as Hd by (simpl; by rewrite take_drop).
  pose proof (emits_write dst src _ _ Hd) as Hw. destruct (Write dst _) as [[e|] dst']; [done|]. subst dst'.
  destruct (k <=? length (rd_data src)).
  - exists (take k (rd_data src)). split; [by eexists|]. done.
  - exists (take k (rd_data src)). split; [by eexists|]. done.
Qed.

Lemma CopyN_ok dst src n src' dst' : CopyN dst src n = (None, src', dst') →
  Z.to_nat n <= length (rd_data src) ∧ src' = consume (Z.to_nat n) src ∧
  dst' = written dst (take (Z.to_nat n) (rd_data src)).
Proof.
  unfold CopyN. pose proof (Write_spec dst (take (Z.to_nat n) (rd_data src))) as Hw.
  destruct (Write dst _) as [[e|] w]; [done|]. destruct (_ <=? _) eqn:E; [|done].
  intros ?; simplify_eq. bools. done.
Qed.

Lemma CopyN_complete dst d rest f sz n : w_left dst = None → length d = Z.to_nat n →
  CopyN dst (mk_reader (d ++ rest) f sz) n = (None, mk_reader rest f sz, written dst d).
Proof.
  intros Hw Hl. unfold CopyN. cbn [rd_data rd_fail]. rewrite <- Hl, take_app_length.
  rewrite Write_unlimited by done. unfold consume. cbn [rd_data rd_fail rd_size]. rewrite drop_app_length.
  replace (length d <=? length (d ++ rest)) with true; [done|].
  symmetry. apply Nat.leb_le. rewrite length_app. lia.
Qed.

Lemma Copy_emits dst src : emits dst src (Copy dst src).
Proof.
  unfold Copy. assert (rd_data src = rd_data src ++ rd_data (set_data src [])) as Hd by by rewrite app_nil_r.
  pose proof (emits_write dst src _ _ Hd) as Hw. destruct (Write dst _) as [[e|] dst']; [done|]. subst.
  destruct (rd_fail src); exists (rd_data src); (split; [done|]); simpl; rewrite ?app_nil_r; done.
Qed.

Lemma emits_unexpected dst src e src' dst' :
  emits dst src (e, src', dst') → emits dst src (unexpected e, src', dst').
Proof. by destruct e as [[]|]; try destruct e. Qed.

Lemma copyFixedLength_emits dst src n : emits dst src (copyFixedLength dst src n).
Proof.
  unfold copyFixedLength. destruct (n =? 0)%Z; [apply emits_nothing|].
  pose proof (CopyN_emits dst src n). destruct (CopyN dst src n) as [[e src'] dst'].
  by apply emits_unexpected.
Qed.

(** ** Lines of a chunked body *)

Definition is_line (s : string) : Prop := ∃ l, s = l +:+ String LF "" ∧ no_lf l.

Lemma readChunkLine_ok src line src' : readChunkLine src = Ok (line, src') →
  is_line line ∧ rd_data src = of_string line ++ rd_data src' ∧ src' = set_data src (rd_data src').
Proof.
  unfold readChunkLine. destruct (split_line (rd_data src)) as [[l rest]|] eqn:E; [|done].
  intros ?; simplify_eq. apply split_line_no_lf in E as [Hd Hl]. split_and!; [|simpl|done].
  - exists (to_string l). by rewrite to_string_app.
  - by rewrite of_to_string, Hd, <- app_assoc.
Qed.

Lemma readChunkLine_complete line rest f n : is_line line →
  readChunkLine (mk_reader (of_string line ++ rest) f n) = Ok (line, mk_reader rest f n).
Proof.
  intros (l & -> & Hl). unfold readChunkLine. simpl. rewrite of_string_app, <- app_assoc. simpl.
  rewrite split_line_app by done. by rewrite to_string_app, to_of_string.
Qed.

Lemma is_line_length line : is_line line → 1 <= length (of_string line).
Proof. intros (l & -> & _). rewrite of_string_length, str_length_app. simpl. lia. Qed.

Lemma readChunkLine_no_panic src p : readChunkLine src ≠ Panic p.
Proof. unfold readChunkLine. by destruct (split_line _) as [[? ?]|]. Qed.

(** ** The grammar of what [proxyChunkedBody] accepts *)

Inductive trailers : bytes → Prop :=
  | trailers_end : trailers (of_string CRLF)
  | trailers_line line t : is_line line → line ≠ CRLF → trailers t → trailers (of_string line ++ t).

Inductive chunked : bytes → Prop :=
  | chunked_last line t :
      is_line line → parseChunkSize line = (0%Z, None) → trailers t → chunked (of_string line ++ t)
  | chunked_chunk line size d crlf b :
      is_line line → parseChunkSize line = (size, None) → size ≠ 0%Z →
      length d = Z.to_nat size → length crlf = 2 → chunked b →
      chunked (of_string line ++ d ++ crlf ++ b).

(** ** The chunk loops *)

(** one line is read, written and handed on *)
Lemma emits_line dst src (k : string → writer → reader → copied) :
  (∀ line src1, readChunkLine src = Ok (line, src1) → emits (written dst (of_string line)) src1
                  (k line (written dst (of_string line)) src1)) →
  emits dst src
    (match readChunkLine src with
     | Err e => (Some (PRead e), set_data src [], dst)
     | Panic p => (Some (PPanic p), src, dst)
     | Ok (line, src) =>
         match WriteString dst line with
         | (Some e, dst) => (Some e, src, dst)
         | (None, dst) => k line dst src
         end
     end).
Proof.
  intros Hk. destruct (readChunkLine src) as [[line src1]|e|p] eqn:E; [|apply emits_error..].
  destruct (readChunkLine_ok _ _ _ E) as (_ & Hd & Hs).
  pose proof (emits_write dst src _ _ Hd) as Hw. unfold WriteString.
  destruct (Write dst (of_string line)) as [[e|] dst1]; [done|]. subst dst1.
  eapply emits_step; [done..|]. by apply Hk.
Qed.

Lemma proxyTrailers_emits fuel dst src : emits dst src (proxyTrailers fuel dst src).
Proof.
  revert dst src. induction fuel as [|fuel IH]; intros dst src; cbn [proxyTrailers]; [apply emits_error|].
  apply (emits_line dst src (λ line dst src,
    if String.eqb line CRLF then (None, src, dst) else proxyTrailers fuel dst src)).
  intros line src1 _. destruct (String.eqb line CRLF); [apply emits_nothing|apply IH].
Qed.

(** continue after a copy that succeeded *)
Lemma emits_bind dst src r (k : reader → writer → copied) :
  emits dst src r → (∀ src1 dst1, emits dst1 src1 (k src1 dst1)) →
  emits dst src (match r with (Some e, src, dst) => (Some e, src, dst) | (None, src, dst) => k src dst end).
Proof.
  destruct r as [[[e|] src1] dst1]; [done|]. intros (p & _ & -> & Hd & Hs) Hk.
  eapply emits_step; [done..|]. apply Hk.
Qed.

Lemma proxyChunks_emits fuel dst src : emits dst src (proxyChunks fuel dst src).
Proof.
  revert dst src. induction fuel as [|fuel IH]; intros dst src; cbn [proxyChunks]; [apply emits_error|].
  apply (emits_line dst src (λ line dst src,
    match parseChunkSize line with
    | (_, Some e) => (Some (PChunkSize e), src, dst)
    | (chunkSize, None) => if (chunkSize =? 0)%Z then proxyTrailers fuel dst src else
        match copyFixedLength dst src chunkSize with
        | (Some e, src, dst) => (Some e, src, dst)
        | (None, src, dst) =>
            match CopyN dst src 2 with
            | (Some e, src, dst) => (Some e, src, dst)
            | (None, src, dst) => proxyChunks fuel dst src
            end
        end
    end)).
  intros line src1 _. destruct (parseChunkSize line) as [size [e|]]; [apply emits_error|].
  destruct (size =? 0)%Z; [apply proxyTrailers_emits|].
  apply (emits_bind _ _ _ (λ src dst, match CopyN dst src 2 with
            | (Some e, src, dst) => (Some e, src, dst)
            | (None, src, dst) => proxyChunks fuel dst src end)); [apply copyFixedLength_emits|].
  intros. apply (emits_bind _ _ _ (λ src dst, proxyChunks fuel dst src)); [apply CopyN_emits|done].
Qed.

Lemma WriteString_ok w s w' : WriteString w s = (None, w') → w' = written w (of_string s).
Proof. intros H. pose proof (Write_spec w (of_string s)) as Hw. unfold WriteString in H. by rewrite H in Hw. Qed.

Lemma proxyTrailers_sound fuel dst src src' dst' :
  proxyTrailers fuel dst src = (None, src', dst') → ∃ p, trailers p ∧ rd_data src = p ++ rd_data src'.
Proof.
  revert dst src. induction fuel as [|fuel IH]; intros dst src; cbn [proxyTrailers]; [done|].
  destruct (readChunkLine src) as [[line src1]|e|p] eqn:E; [|done..].
  destruct (readChunkLine_ok _ _ _ E) as (Hl & Hd & _).
  destruct (WriteString dst line) as [[e|] dst1] eqn:Ew; [done|].
  destruct (String.eqb_spec line CRLF) as [->|Hne].
  - intros ?; simplify_eq. eauto using trailers.
  - intros (p & Hp & Hd1)%IH. exists (of_string line ++ p). split; [by constructor|].
    by rewrite Hd, Hd1, app_assoc.
Qed.

Lemma copyFixedLength_ok dst src n src' dst' : copyFixedLength dst src n = (None, src', dst') →
  Z.to_nat n <= length (rd_data src) ∧ src' = consume (Z.to_nat n) src.
Proof.
  unfold copyFixedLength. destruct (Z.eqb_spec n 0) as [->|Hn].
  - intros ?; simplify_eq. split; [simpl; lia|]. by destruct src'.
  - destruct (CopyN dst src n) as [[e src1] dst1] eqn:E. destruct e as [[| |[]| | |]|]; simpl; try done.
    intros ?; simplify_eq. by apply CopyN_ok in E as (? & ? & _).
Qed.

Lemma proxyChunks_sound fuel dst src src' dst' :
  proxyChunks fuel dst src = (None, src', dst') → ∃ p, chunked p ∧ rd_data src = p ++ rd_data src'.
Proof.
  revert dst src. induction fuel as [|fuel IH]; intros dst src; cbn [proxyChunks]; [done|].
  destruct (readChunkLine src) as [[line src1]|e|p] eqn:E; [|done..].
  destruct (readChunkLine_ok _ _ _ E) as (Hl & Hd & _).
  destruct (WriteString dst line) as [[e|] dst1] eqn:Ew; [done|].
  destruct (parseChunkSize line) as [size [e|]] eqn:Es; [done|].
  destruct (Z.eqb_spec size 0) as [->|Hne].
  - intros (p & Hp & Hd1)%proxyTrailers_sound. exists (of_string line ++ p).
    split; [by apply chunked_last|]. by rewrite Hd, Hd1, app_assoc.
  - destruct (copyFixedLength dst1 src1 size) as [[[e|] src2] dst2] eqn:E2; [done|].
    apply copyFixedLength_ok in E2 as [Hlen ->].
    destruct (CopyN dst2 _ 2) as [[[e|] src3] dst3] eqn:E3; [done|].
    apply CopyN_ok in E3 as (Hlen3 & -> & _). simpl in Hlen3. rewrite length_drop in Hlen3.
    intros (p & Hp & Hd1)%IH. simpl in Hd1. rewrite drop_drop in Hd1.
    exists (of_string line ++ take (Z.to_nat size) (rd_data src1) ++
            take 2 (drop (Z.to_nat size) (rd_data src1)) ++ p). split.
    + apply chunked_chunk with size; rewrite ?length_take, ?length_drop; try done; lia.
    + rewrite Hd. rewrite <- !app_assoc. f_equal. rewrite <- Hd1.
      rewrite <- (drop_drop _ 2). by rewrite !take_drop.
Qed.

Lemma proxyTrailers_complete p : trailers p → ∀ fuel dst rest f n,
  w_left dst = None → length p < fuel →
  proxyTrailers fuel dst (mk_reader (p ++ rest) f n) = (None, mk_reader rest f n, written dst p).
Proof.
  induction 1 as [|line t Hl Hne Ht IH]; intros [|fuel] dst rest f n Hw Hf; try lia; cbn [proxyTrailers].
  - rewrite readChunkLine_complete by by exists (String CR "").
    unfold WriteString. by rewrite Write_unlimited.
  - rewrite <- app_assoc, readChunkLine_complete by done. unfold WriteString.
    rewrite Write_unlimited by done. apply String.eqb_neq in Hne as ->.
    pose proof (is_line_length _ Hl). rewrite length_app in Hf.
    rewrite IH; [by rewrite written_app|simpl; by rewrite Hw|lia].
Qed.

Lemma copyFixedLength_complete dst d rest f sz n : w_left dst = None → length d = Z.to_nat n →
  copyFixedLength dst (mk_reader (d ++ rest) f sz) n = (None, mk_reader rest f sz, written dst d).
Proof.
  intros Hw Hl. unfold copyFixedLength. destruct (Z.eqb_spec n 0) as [->|_].
  - destruct d; [|done]. by rewrite written_nil.
  - by rewrite CopyN_complete.
Qed.

Lemma proxyChunks_complete p : chunked p → ∀ fuel dst rest f n,
  w_left dst = None → length p < fuel →
  proxyChunks fuel dst (mk_reader (p ++ rest) f n) = (None, mk_reader rest f n, written dst p).
Proof.
  induction 1 as [line t Hl Hs Ht|line size d crlf b Hl Hs Hne Hd Hc Hb IH];
    intros [|fuel] dst rest f n Hw Hf; try lia; cbn [proxyChunks]; rewrite <- !app_assoc;
    rewrite readChunkLine_complete by done; unfold WriteString; rewrite Write_unlimited, Hs by done;
    pose proof (is_line_length _ Hl); rewrite !length_app in Hf.
  - cbn [Z.eqb]. rewrite (proxyTrailers_complete t); [by rewrite written_app|done|simpl; by rewrite Hw|lia].
  - apply Z.eqb_neq in Hne as ->.
    rewrite copyFixedLength_complete; [|simpl; by rewrite Hw|done].
    rewrite CopyN_complete; [|simpl; by rewrite Hw|done].
    rewrite IH; [|simpl; by rewrite Hw|lia]. by rewrite !written_app, !app_assoc.
Qed.

(** ** Properties of the body copies *)



(** Whatever goes wrong while a response body is forwarded (a short or
    malformed source, a failing client connection), the client has received a
    prefix of the bytes the upstream sent, in order; when [proxyHTTPBody]
    returns nil it has received exactly the bytes consumed. *)
Theorem proxyHTTPBody_prefix req resp dst src e src' dst' :
  proxyHTTPBody dst src req resp = (e, src', dst') →
  ∃ p, p `prefix_of` rd_data src ∧ w_out dst' = w_out dst ++ p ∧
       (e = None → rd_data src = p ++ rd_data src').
Proof.
  intros H. assert (emits dst src (e, src', dst')) as (p & Hp & He).
  { rewrite <- H. unfold proxyHTTPBody. repeat case_match; auto using emits_nothing, Copy_emits,
      copyFixedLength_emits. apply proxyChunks_emits. }
  exists p. split; [done|]. destruct e; [done|]. destruct He as (-> & ? & _). done.
Qed.

Lemma proxyHTTPBody_prefix_witness :
  let resp := {| Status := "200 OK"; StatusCode := 200; RespProto := "HTTP/1.1"; RespMajor := 1; RespMinor := 1;
                 RespHeader := ∅; RespContentLength := 6; RespTransferEncoding := []; Chunked := false;
                 RespClose := false; Upgraded := false; UpgradeType := "" |} in
  let req := req_base "GET" "/" "HTTP/1.1" 1 1 {| url_scheme := ""; url_host := ""; url_query := "" |} ∅ "" in
  ∃ p, p `prefix_of` of_string "abcd" ∧ of_string "xabcd" = of_string "x" ++ p ∧
       (Some (PRead ErrUnexpectedEOF) = None → of_string "abcd" = p ++ []).
Proof.
  intros resp req.
  exact (proxyHTTPBody_prefix req resp (mk_writer (of_string "x") None) (mk_reader (of_string "abcd") EOF 4096)
           (Some (PRead ErrUnexpectedEOF)) (mk_reader [] EOF 4096) (mk_writer (of_string "xabcd") None) eq_refl).
Defined.

(** ** Forwarding the request head *)

Section Forward.
Context `{UrlParser} `{HttpGuts} `{GoUnicode}.

Lemma shouldClose_fixPragma maj min h :
  (shouldClose maj min (fixPragmaCacheControl h) false).1 = (shouldClose maj min h false).1.
Proof.
  unfold shouldClose. rewrite fixPragmaCacheControl_other by done. by repeat case_match.
Qed.

Lemma fill_request_fixPragma m u p maj min url h host :
  fill_request (req_base m u p maj min url (fixPragmaCacheControl h) host) =
  fill_request (req_base m u p maj min url h host).
Proof.
  unfold fill_request. cbn [ProtoMajor ProtoMinor ReqHeader Method RequestURI Proto ReqURL Host req_base].
  pose proof (shouldClose_fixPragma maj min h) as H1'.
  pose proof (shouldClose_header maj min h) as H2'.
  pose proof (shouldClose_header maj min (fixPragmaCacheControl h)) as H3'.
  destruct (shouldClose maj min h false) as [c1 h1], (shouldClose maj min (fixPragmaCacheControl h) false) as [c2 h2].
  simpl in *. subst. by rewrite fixPragmaCacheControl_idemp.
Qed.

Lemma fill_request_fields m u p maj min url h host :
  let r := fill_request (req_base m u p maj min url h host) in
  ReqHeader r = fixPragmaCacheControl h ∧ FormatRequestLine r = m +:+ " " +:+ u +:+ " " +:+ p.
Proof.
  unfold fill_request. cbn [ProtoMajor ProtoMinor ReqHeader req_base].
  pose proof (shouldClose_header maj min h) as Hh.
  destruct (shouldClose maj min h false). simpl in *. by subst.
Qed.

(** [ReadRequest], inverted: what was on the wire *)
Lemma ReadRequest_inv rd req rd' : ReadRequest rd = Ok (req, rd') →
  ∃ line m u p maj min rawurl url h,
    no_lf line ∧ parseRequestLine line = (m, u, p, true) ∧ validMethod m = true ∧
    ParseHTTPVersion p = (maj, min, true) ∧
    let just := String.eqb m "CONNECT" && negb (HasPrefix u "/") in
    rawurl = (if just then "http://" +:+ u else u) ∧ ParseRequestURI rawurl = Some url ∧
    let url := if just then {| url_scheme := ""; url_host := url_host url; url_query := url_query url |} else url in
    (1 <? length (default [] (h !! "Host"))) = false ∧
    req = fill_request (req_base m u p maj min url h
            (if String.eqb (url_host url) "" then Header_get h "Host" else url_host url)).
Proof.
  unfold ReadRequest. destruct (ReadLine rd) as [[line r1]|e|q] eqn:E; [|done..].
  apply ReadLine_ok in E as [Hlf _].
  destruct (parseRequestLine line) as [[[m u] p] ok] eqn:El. destruct ok; [|done]. cbn [negb].
  destruct (validMethod m) eqn:Em; [|done]. cbn [negb].
  destruct (ParseHTTPVersion p) as [[maj min] ok] eqn:Ep. destruct ok; [|done]. cbn [negb].
  destruct (ParseRequestURI _) as [url|] eqn:Eu; [|done].
  destruct (ReadMIMEHeader r1) as [[h r2]|e|q]; [|done..].
  destruct (1 <? _) eqn:Eh; [done|]. intros ?; simplify_eq.
  exists line, m, u, p, maj, min. eauto 12.
Qed.

(** The request head written for a request that was read is read back as the
    same request. *)
Lemma request_head_reread rd req rd' order rest f n :
  ReadRequest rd = Ok (req, rd') → wf_header (ReqHeader req) →
  (∀ h : Header, order h ≡ₚ map_to_list h) →
  ReadRequest (mk_reader (of_string (request_head req (order (ReqHeader req))) ++ rest) f n) =
    Ok (req, mk_reader rest f n).
Proof.
  intros Hr Hwf Hord.
  destruct (ReadRequest_inv _ _ _ Hr) as
    (line & m & u & p & maj & min & rawurl & url & h & Hlf & Hl & Hm & Hp & Hraw & Hu & Hh & Hreq).
  destruct (proj1 (parseRequestLine_spec line m u p) Hl) as (Hline & _).
  pose proof (fill_request_fields m u p maj min
    (if String.eqb m "CONNECT" && negb (HasPrefix u "/") then
       {| url_scheme := ""; url_host := url_host url; url_query := url_query url |} else url) h
    (if String.eqb (url_host (if String.eqb m "CONNECT" && negb (HasPrefix u "/") then
       {| url_scheme := ""; url_host := url_host url; url_query := url_query url |} else url)) ""
     then Header_get h "Host" else url_host (if String.eqb m "CONNECT" && negb (HasPrefix u "/") then
       {| url_scheme := ""; url_host := url_host url; url_query := url_query url |} else url)))
    as [Hhd Hfmt].
  rewrite <- Hreq in Hhd, Hfmt.
  unfold request_head. rewrite Hfmt, <- Hline.
  rewrite <- str_app_assoc, of_string_app, <- app_assoc.
  unfold ReadRequest. rewrite ReadLine_crlf by done. rewrite Hl. cbn [negb]. rewrite Hm. cbn [negb].
  rewrite Hp. cbn [negb]. rewrite <- Hraw, Hu.
  rewrite of_string_app, <- app_assoc, (read_header_text (ReqHeader req)) by auto.
  assert (∀ k, k ≠ "Cache-Control" → ReqHeader req !! k = h !! k) as Hsame.
  { intros k Hk. rewrite Hhd. by apply fixPragmaCacheControl_other. }
  rewrite (Hsame "Host"), Hh by done. do 2 f_equal.
  unfold Header_get. rewrite (Hsame "Host") by done. rewrite Hhd, fill_request_fixPragma.
  symmetry. exact Hreq.
Qed.
End Forward.

Module Concrete.
(** instances used to evaluate the model on concrete messages *)
#[export] Instance urls : UrlParser := {|
  ParseRequestURI := λ s, Some {| url_scheme := ""; url_host := ""; url_query := "" |};
  QueryGet := λ _ _, "" |}.
#[export] Instance guts : HttpGuts := {|
  IsTokenRune := λ r, (33 <=? r)%Z && (r <? 127)%Z;
  HeaderValuesContainsToken := λ vs t, existsb (λ v, hasToken v t) vs |}.
#[export] Instance unicode : GoUnicode := λ s, s.
Definition order : Header → list (string * list string) := map_to_list.
End Concrete.



(** ** The tunnel after an upgrade *)

(** After a [101 Switching Protocols] answer the tunnel reads the upstream
    connection itself, not the buffered reader the response was parsed from:
    the client receives the response head followed by the upstream's bytes
    without the first [readahead] ones; nothing is lost exactly when the
    buffered reader had not read past the head. *)
Theorem upgrade_drops_readahead `{UrlParser} `{HttpGuts} `{GoUnicode} c req serverName ch resp rr :
  String.eqb (Method req) "CONNECT" = false →
  writeHTTPRequest (up_out c) (down_in c) req (map_order ch) =
    (None, down_in c, written (up_out c) (of_string (request_head req (map_order ch (ReqHeader req))))) →
  ReadResponse (up_in c) = Ok (resp, rr) → Upgraded resp = true →
  w_left (down_out c) = None → w_left (up_out c) = None →
  rd_fail (down_in c) = EOF → rd_fail rr = EOF →
  ∃ c', proxyHTTPRequest c None req serverName ch = (Some PDone, c') ∧
    w_out (down_out c') = w_out (down_out c) ++
      of_string (response_head resp (map_order ch (RespHeader resp))) ++ drop (readahead ch) (rd_data rr) ∧
    up_closed c' = true.
Proof.
  intros Hc Hw Hr Hu Hd1 Hu1 Hf1 Hf2. unfold proxyHTTPRequest. rewrite Hc, Hw. cbn [set_up_out set_down_in up_in]. rewrite Hr, Hu.
  unfold writeHTTPResponse, WriteString, response_headers. cbn [set_up_out set_down_in down_out String.eqb].
  rewrite Write_unlimited by done. unfold proxyTunnel, Copy.
  cbn [set_up_in set_down_out set_up_out set_down_in up_out down_in up_in down_out consume rd_data rd_fail].
  rewrite Write_unlimited by (simpl; by rewrite Hu1). rewrite Hf1.
  rewrite Write_unlimited by (simpl; by rewrite Hd1). rewrite Hf2.
  replace (if tunnel_first ch then None else None) with (@None proxy_error) by by destruct (tunnel_first ch).
  eexists. split; [reflexivity|]. simpl. by rewrite app_assoc.
Qed.

Lemma upgrade_drops_readahead_witness :
  let up := mk_reader (of_string ("HTTP/1.1 101 Switching Protocols" +:+ CRLF +:+ "Upgrade: websocket" +:+ CRLF +:+
                 "Connection: Upgrade" +:+ CRLF +:+ CRLF +:+ "abcdef")) EOF 4096 in
  let c := mk_conns (mk_reader [] EOF 4096) (mk_writer [] None) up (mk_writer [] None) false false in
  let req := req_base "GET" "/ws" "HTTP/1.1" 1 1 {| url_scheme := ""; url_host := ""; url_query := "" |} ∅ "h" in
  let ch := {| map_order := Concrete.order; readahead := 4; tunnel_first := true |} in
  ∃ resp rr c', ReadResponse (H0:=Concrete.guts) up = Ok (resp, rr) ∧
    proxyHTTPRequest (H0:=Concrete.guts) c None req "s" ch = (Some PDone, c') ∧
    w_out (down_out c') = of_string (response_head resp (map_order ch (RespHeader resp))) ++ of_string "ef".
Proof.
  intros up c req ch. eexists _, _.
  destruct (upgrade_drops_readahead (H:=Concrete.urls) (H0:=Concrete.guts) (H1:=Concrete.unicode) c req "s" ch
              _ _ eq_refl eq_refl eq_refl eq_refl eq_refl eq_refl eq_refl eq_refl) as (c' & Hp & Ho & _).
  exists c'. split; [reflexivity|]. split; [exact Hp|exact Ho].
Defined.
