(* ===== verification/Tunnel.v ===== *)
(** * The tunnel between two connections

    [proxyTunnel] and [proxyRawConnection] of cmd/proxy/http.go as the code runs
    them: two goroutines copy one direction each, in pieces, while the peers
    still send; each closes the half of the connection it has finished with and
    sends its error on a channel from which the function reads twice.  The
    function of the same name in HttpProxy says what is left when both have
    ended; [tunnel_refines] shows that every schedule ends there.

    The peers are the environment: bytes arrive and streams end at any time. *)

From S2P Require Export HttpProxy.
From Stdlib Require Import Ascii.

Local Open Scope nat_scope.
Local Open Scope list_scope.

(** one direction: the goroutine that runs [copyPipe(dst, src)] *)
Inductive phase :=
  | Copying                                (* in [io.Copy] *)
  | Copied (e : option proxy_error)        (* which returned e *)
  | HalfClosed (e : option proxy_error)    (* after the two closes *)
  | Sent (e : option proxy_error).         (* after the send on [errC] *)

Record pump := mk_pump {
  pm_arrived : bytes;              (* all that has reached src *)
  pm_fin : option read_error;      (* the end of src, once it is there *)
  pm_read : nat;                   (* how much was read *)
  pm_dst : writer;
  pm_phase : phase
}.

Definition set_phase (p : pump) (ph : phase) : pump := mk_pump (pm_arrived p) (pm_fin p) (pm_read p) (pm_dst p) ph.

(** [io.Copy] does not return the end of the stream as an error *)
Definition copy_error (f : read_error) : option proxy_error := match f with EOF => None | f => Some (PRead f) end.

(** the peer *)
Inductive pump_env : pump → pump → Prop :=
  | env_arrive p b : pm_fin p = None →
      pump_env p (mk_pump (pm_arrived p ++ b) None (pm_read p) (pm_dst p) (pm_phase p))
  | env_end p f : pm_fin p = None →
      pump_env p (mk_pump (pm_arrived p) (Some f) (pm_read p) (pm_dst p) (pm_phase p)).

(** the loop of [io.Copy]: it reads a piece, of any size, and writes it, until
    the end of the stream or a failed write *)
Inductive pump_copy : pump → pump → Prop :=
  | copy_piece p n e w :
      pm_phase p = Copying → 0 < n → pm_read p + n ≤ length (pm_arrived p) →
      Write (pm_dst p) (take n (drop (pm_read p) (pm_arrived p))) = (e, w) →
      pump_copy p (mk_pump (pm_arrived p) (pm_fin p) (pm_read p + n) w
        (match e with Some e => Copied (Some e) | None => Copying end))
  | copy_end p f :
      pm_phase p = Copying → pm_read p = length (pm_arrived p) → pm_fin p = Some f →
      pump_copy p (set_phase p (Copied (copy_error f))).

Inductive side := Up | Down.           (* to the upstream, to the downstream *)

Record tunnel := mk_tunnel {
  t_up : pump; t_down : pump;
  t_errC : list (option proxy_error);                   (* the channel *)
  t_up_cw : bool; t_down_cw : bool; t_up_cr : bool;     (* the closed halves *)
  t_i : nat; t_firstErr : option proxy_error;           (* the loop of the function *)
  t_return : option (option proxy_error);
  t_up_closed : bool; t_down_closed : bool
}.

Definition get (s : side) (t : tunnel) : pump := match s with Up => t_up t | Down => t_down t end.
Definition set (s : side) (p : pump) (t : tunnel) : tunnel :=
  mk_tunnel (match s with Up => p | Down => t_up t end) (match s with Up => t_down t | Down => p end)
    (t_errC t) (t_up_cw t) (t_down_cw t) (t_up_cr t) (t_i t) (t_firstErr t) (t_return t) (t_up_closed t) (t_down_closed t).

(** which halves can be closed: the two writing ends, and the reading end of the
    upstream; the downstream is read through a [bufio.Reader], which has no
    [CloseRead] *)
Record can_close := mk_can { can_up_cw : bool; can_down_cw : bool; can_up_cr : bool }.

(** [closeTunnelWrite(dst)] and [closeTunnelRead(src)] *)
Definition close_halves (k : can_close) (s : side) (t : tunnel) : tunnel :=
  match s with
  | Up => mk_tunnel (t_up t) (t_down t) (t_errC t) (can_up_cw k) (t_down_cw t) (t_up_cr t)
            (t_i t) (t_firstErr t) (t_return t) (t_up_closed t) (t_down_closed t)
  | Down => mk_tunnel (t_up t) (t_down t) (t_errC t) (t_up_cw t) (can_down_cw k) (can_up_cr k)
            (t_i t) (t_firstErr t) (t_return t) (t_up_closed t) (t_down_closed t)
  end.

Definition send (e : option proxy_error) (t : tunnel) : tunnel :=
  mk_tunnel (t_up t) (t_down t) (t_errC t ++ [e]) (t_up_cw t) (t_down_cw t) (t_up_cr t)
    (t_i t) (t_firstErr t) (t_return t) (t_up_closed t) (t_down_closed t).

(** the loop over [errC] keeps the first error *)
Definition receive (e : option proxy_error) (rest : list (option proxy_error)) (t : tunnel) : tunnel :=
  mk_tunnel (t_up t) (t_down t) rest (t_up_cw t) (t_down_cw t) (t_up_cr t) (S (t_i t))
    (match t_firstErr t with None => e | Some _ => t_firstErr t end) (t_return t) (t_up_closed t) (t_down_closed t).

(** after the loop the upstream is closed, the downstream after an error *)
Definition return_ (t : tunnel) : tunnel :=
  mk_tunnel (t_up t) (t_down t) (t_errC t) (t_up_cw t) (t_down_cw t) (t_up_cr t) (t_i t) (t_firstErr t)
    (Some (t_firstErr t)) true (match t_firstErr t with Some _ => true | None => t_down_closed t end).

Inductive tunnel_step (k : can_close) : tunnel → tunnel → Prop :=
  | step_env s t p : pump_env (get s t) p → tunnel_step k t (set s p t)
  | step_copy s t p : pump_copy (get s t) p → tunnel_step k t (set s p t)
  | step_close s t e : pm_phase (get s t) = Copied e →
      tunnel_step k t (close_halves k s (set s (set_phase (get s t) (HalfClosed e)) t))
  | step_send s t e : pm_phase (get s t) = HalfClosed e →
      tunnel_step k t (send e (set s (set_phase (get s t) (Sent e)) t))
  | step_receive t e rest : t_i t < 2 → t_errC t = e :: rest →
      tunnel_step k t (receive e rest t)
  | step_return t : t_i t = 2 → t_return t = None →
      tunnel_step k t (return_ t).

(** at the call: the reader of the client may hold bytes already *)
Definition tunnel_start (buffered : bytes) (up down : writer) (down_closed : bool) : tunnel :=
  mk_tunnel (mk_pump buffered None 0 up Copying) (mk_pump [] None 0 down Copying)
    [] false false false 0 None None false down_closed.

(** ** One direction *)

Lemma Write_app w a b w1 : Write w a = (None, w1) → Write w (a ++ b) = Write w1 b.
Proof.
  unfold Write. destruct (w_left w) as [n|] eqn:E.
  - destruct (length a <=? n) eqn:Ha; [|done]. intros [= <-]. cbn. bools. rewrite length_app.
    destruct (length b <=? n - length a) eqn:Hb; bools.
    + rewrite (proj2 (Nat.leb_le _ _)) by lia. rewrite app_assoc. do 3 f_equal. lia.
    + rewrite (proj2 (Nat.leb_gt _ _)) by lia. rewrite firstn_app, take_ge, app_assoc by lia. done.
  - intros [= <-]. cbn. by rewrite app_assoc.
Qed.

Lemma Write_app_fails w a b e w1 : Write w a = (Some e, w1) → Write w (a ++ b) = (Some e, w1).
Proof.
  unfold Write. destruct (w_left w) as [n|] eqn:E; [|done].
  destruct (length a <=? n) eqn:Ha; [done|]. intros [= <- <-]. bools. rewrite length_app.
  rewrite (proj2 (Nat.leb_gt _ _)) by lia. rewrite firstn_app. replace (n - length a) with 0 by lia.
  by rewrite take_0, app_nil_r.
Qed.

(** what the loop has written, and what it returned *)
Definition wrote_all (w0 : writer) (p : pump) : Prop :=
  pm_read p = length (pm_arrived p) ∧ Write w0 (pm_arrived p) = (None, pm_dst p).

Definition ended_with (w0 : writer) (p : pump) (e : option proxy_error) : Prop :=
  (∃ f, pm_fin p = Some f ∧ e = copy_error f ∧ wrote_all w0 p) ∨
  (e = Some PWrite ∧ pm_read p ≤ length (pm_arrived p) ∧ Write w0 (take (pm_read p) (pm_arrived p)) = (e, pm_dst p)).

Definition pump_ok (w0 : writer) (p : pump) : Prop :=
  match pm_phase p with
  | Copying => pm_read p ≤ length (pm_arrived p) ∧ Write w0 (take (pm_read p) (pm_arrived p)) = (None, pm_dst p)
  | Copied e | HalfClosed e | Sent e => ended_with w0 p e
  end.

Lemma pump_env_ok w0 p p' : pump_env p p' → pump_ok w0 p → pump_ok w0 p'.
Proof.
  assert (∀ b n, n ≤ length (pm_arrived p) → take n (pm_arrived p ++ b) = take n (pm_arrived p)) as Ht.
  { intros b n Hn. rewrite firstn_app. replace (n - _) with 0 by lia. by rewrite take_0, app_nil_r. }
  intros Hs. unfold pump_ok, ended_with, wrote_all.
  destruct Hs as [p b Hf|p f Hf]; cbn; rewrite Hf; destruct (pm_phase p) as [|e|e|e]; try done;
    try (intros [(? & ? & _)|H]; [done|right; exact H]).
  - intros [Hn Hw]. rewrite length_app, Ht by done. split; [lia|done].
  - intros [(? & ? & _)|(He & Hn & Hw)]; [done|]. right. rewrite length_app, Ht by done. split_and!; [done|lia|done].
  - intros [(? & ? & _)|(He & Hn & Hw)]; [done|]. right. rewrite length_app, Ht by done. split_and!; [done|lia|done].
  - intros [(? & ? & _)|(He & Hn & Hw)]; [done|]. right. rewrite length_app, Ht by done. split_and!; [done|lia|done].
Qed.

Lemma pump_copy_ok w0 p p' : pump_copy p p' → pump_ok w0 p → pump_ok w0 p'.
Proof.
  destruct 1 as [p n e w Hp Hn Hl Hw|p f Hp Hr Hf]; unfold pump_ok at 1; rewrite Hp; intros [Hlen Hok].
  - pose proof (Write_app _ _ (take n (drop (pm_read p) (pm_arrived p))) _ Hok) as Ha.
    rewrite take_take_drop, Hw in Ha. unfold pump_ok, ended_with. pose proof (Write_spec w0 (take (pm_read p + n) (pm_arrived p))) as Hs.
    rewrite Ha in Hs. destruct e as [e|]; cbn; [|done]. destruct Hs as [-> _]. by right.
  - unfold pump_ok, ended_with, wrote_all. cbn. left. exists f. rewrite Hr, firstn_all in Hok. done.
Qed.

(** ** Both directions *)

#[export] Instance side_eq_dec : EqDecision side.
Proof. solve_decision. Defined.

Lemma get_set s p t : get s (set s p t) = p.
Proof. by destruct s. Qed.
Lemma get_set_ne s s' p t : s ≠ s' → get s (set s' p t) = get s t.
Proof. by destruct s, s'. Qed.
Lemma get_close k s s' t : get s (close_halves k s' t) = get s t.
Proof. by destruct s, s'. Qed.

Definition is_sent (p : pump) : Prop := ∃ e, pm_phase p = Sent e.

(** the errors sent, in the order of their senders, and how many were received *)
Definition channel_ok (t : tunnel) : Prop := ∃ order received,
  NoDup order ∧ Forall2 (λ s e, pm_phase (get s t) = Sent e) order (received ++ t_errC t) ∧
  (∀ s, is_sent (get s t) → s ∈ order) ∧
  length received = t_i t ∧ t_firstErr t = head (omap id received).

(** a half is closed by the goroutine that has finished with it *)
Definition past_close (p : pump) : bool := match pm_phase p with HalfClosed _ | Sent _ => true | _ => false end.
Definition halves_ok (k : can_close) (t : tunnel) : Prop :=
  t_up_cw t = past_close (t_up t) && can_up_cw k ∧ t_down_cw t = past_close (t_down t) && can_down_cw k ∧
  t_up_cr t = past_close (t_down t) && can_up_cr k.

Definition return_ok (down_closed : bool) (t : tunnel) : Prop :=
  match t_return t with
  | None => t_up_closed t = false ∧ t_down_closed t = down_closed
  | Some e => t_i t = 2 ∧ e = t_firstErr t ∧ t_up_closed t = true ∧
      t_down_closed t = match e with Some _ => true | None => down_closed end
  end.

Definition pumps_ok (w_up w_down : writer) (t : tunnel) : Prop := pump_ok w_up (t_up t) ∧ pump_ok w_down (t_down t).

Definition tunnel_ok (k : can_close) (w_up w_down : writer) (down_closed : bool) (t : tunnel) : Prop :=
  pumps_ok w_up w_down t ∧ channel_ok t ∧ halves_ok k t ∧ return_ok down_closed t.

Lemma channel_ok_set s p t :
  pm_phase p = pm_phase (get s t) ∨ (¬ is_sent (get s t) ∧ ¬ is_sent p) → channel_ok t → channel_ok (set s p t).
Proof.
  intros Hp (order & rec & Hnd & Hall & Hin & Hl & Hf). exists order, rec.
  assert (∀ s', is_sent (get s' (set s p t)) ↔ is_sent (get s' t)) as Hs.
  { intros s'. destruct (decide (s' = s)) as [->|]; [|by rewrite get_set_ne]. rewrite get_set.
    destruct Hp as [Hp|[? ?]]; [unfold is_sent; by rewrite Hp|done]. }
  split_and!; [done| |intros s' Hs'; apply Hin; by apply Hs|by destruct s..].
  assert (t_errC (set s p t) = t_errC t) as -> by by destruct s.
  eapply Forall2_impl; [exact Hall|]. intros s' e He. cbn in He.
  destruct (decide (s' = s)) as [->|]; [|by rewrite get_set_ne]. rewrite get_set.
  destruct Hp as [->|[Hn _]]; [done|]. destruct Hn. by exists e.
Qed.

Lemma channel_ok_send s e t : pm_phase (get s t) = HalfClosed e → channel_ok t →
  channel_ok (send e (set s (set_phase (get s t) (Sent e)) t)).
Proof.
  intros Hp (order & rec & Hnd & Hall & Hin & Hl & Hf).
  assert (s ∉ order) as Hs.
  { intros [i Hi]%list_elem_of_lookup. pose proof (Forall2_lookup_l _ _ _ _ _ Hall Hi) as (e' & _ & He'). by rewrite Hp in He'. }
  assert (∀ s' t', get s' (send e t') = get s' t') as Hg by by intros [].
  exists (order ++ [s]), rec. split_and!.
  - apply NoDup_app. split_and!; [done|set_solver|apply NoDup_singleton].
  - assert (t_errC (send e (set s (set_phase (get s t) (Sent e)) t)) = t_errC t ++ [e]) as -> by by destruct s.
    rewrite app_assoc. apply Forall2_app; [|constructor; [by rewrite Hg, get_set|constructor]].
    eapply Forall2_impl; [exact Hall|]. cbn. intros s' e' He'. rewrite Hg.
    destruct (decide (s' = s)) as [->|]; [by rewrite Hp in He'|by rewrite get_set_ne].
  - intros s' Hs'. rewrite Hg in Hs'. apply elem_of_app. destruct (decide (s' = s)) as [->|]; [right; by left|].
    rewrite get_set_ne in Hs' by done. left. by apply Hin.
  - by destruct s.
  - by destruct s.
Qed.

Lemma channel_ok_receive e rest t : t_errC t = e :: rest → channel_ok t → channel_ok (receive e rest t).
Proof.
  intros He (order & rec & Hnd & Hall & Hin & Hl & Hf).
  assert (∀ s, get s (receive e rest t) = get s t) as Hg by by intros [].
  exists order, (rec ++ [e]). rewrite He in Hall. split_and!; [done| | | |].
  - rewrite <- app_assoc. exact Hall.
  - intros s. rewrite Hg. apply Hin.
  - rewrite length_app. cbn. lia.
  - cbn. rewrite Hf, omap_app. destruct (omap id rec) as [|e1 es] eqn:Er; cbn; [by destruct e|done].
Qed.

(** only a change of the phase concerns the halves and the channel *)
Lemma halves_ok_set k s p t : past_close p = past_close (get s t) → halves_ok k t → halves_ok k (set s p t).
Proof. intros Hp (H1 & H2 & H3). unfold halves_ok. destruct s; cbn in *; by rewrite Hp. Qed.

Lemma halves_ok_close k s e t : pm_phase (get s t) = Copied e → halves_ok k t →
  halves_ok k (close_halves k s (set s (set_phase (get s t) (HalfClosed e)) t)).
Proof. intros Hp (H1 & H2 & H3). unfold halves_ok. by destruct s. Qed.

Lemma pumps_ok_set s p wu wd t :
  (∀ w, pump_ok w (get s t) → pump_ok w p) → pumps_ok wu wd t → pumps_ok wu wd (set s p t).
Proof. intros Hp [H1 H2]. by destruct s; split; cbn; try apply Hp. Qed.

Lemma return_ok_set s p dc t : return_ok dc t → return_ok dc (set s p t).
Proof. by destruct s. Qed.

Lemma tunnel_step_ok k wu wd dc t t' : tunnel_step k t t' → tunnel_ok k wu wd dc t → tunnel_ok k wu wd dc t'.
Proof.
  intros Hs (Hp & Hc & Hh & Hr). destruct Hs as [s t p Hs|s t p Hs|s t e Hs|s t e Hs|t e rest Hi He|t Hi Hn].
  - assert (pm_phase p = pm_phase (get s t)) as Hph by by destruct Hs.
    split_and!; [|apply channel_ok_set; [by left|done]|apply halves_ok_set; [unfold past_close; by rewrite Hph|done]|by apply return_ok_set].
    apply pumps_ok_set; [|done]. intros w. by apply pump_env_ok.
  - assert (pm_phase (get s t) = Copying ∧ past_close p = false) as [Hph Hpc] by (by destruct Hs as [? ? [?|]|]).
    split_and!; [| | |by apply return_ok_set].
    + apply pumps_ok_set; [|done]. intros w. by apply pump_copy_ok.
    + apply channel_ok_set; [right|done]. unfold past_close in Hpc. split; intros [e He]; [congruence|by rewrite He in Hpc].
    + apply halves_ok_set; [|done]. rewrite Hpc. unfold past_close. by rewrite Hph.
  - split_and!; [|apply (channel_ok_set s (set_phase (get s t) (HalfClosed e))) in Hc; [by destruct s|]|by apply halves_ok_close|by destruct s].
    + assert (pumps_ok wu wd (set s (set_phase (get s t) (HalfClosed e)) t)); [|by destruct s].
      apply pumps_ok_set; [|done]. intros w. unfold pump_ok. by rewrite Hs.
    + right. split; intros [e' He']; cbn in He'; congruence.
  - split_and!; [|by apply channel_ok_send| |by destruct s].
    + assert (pumps_ok wu wd (set s (set_phase (get s t) (Sent e)) t)); [|by destruct s].
      apply pumps_ok_set; [|done]. intros w. unfold pump_ok. by rewrite Hs.
    + assert (halves_ok k (set s (set_phase (get s t) (Sent e)) t)); [|by destruct s].
      apply halves_ok_set; [|done]. unfold past_close. by rewrite Hs.
  - split_and!; [done|by apply channel_ok_receive|done|]. unfold return_ok in *. cbn.
    destruct (t_return t); [lia|done].
  - split_and!; [done|exact Hc|done|]. unfold return_ok in *. cbn. rewrite Hn in Hr. destruct Hr as [_ Hr].
    split_and!; [done..|]. by destruct (t_firstErr t).
Qed.

Lemma tunnel_start_ok k b wu wd dc : tunnel_ok k wu wd dc (tunnel_start b wu wd dc).
Proof.
  split_and!; [split; (split; cbn; [lia|])|exists [], []|done..].
  - rewrite take_0. unfold Write. destruct wu as [o [n|]]; cbn; [|by rewrite app_nil_r]. by rewrite Nat.sub_0_r, app_nil_r.
  - unfold Write. destruct wd as [o [n|]]; cbn; [|by rewrite app_nil_r]. by rewrite Nat.sub_0_r, app_nil_r.
  - split_and!; [constructor|constructor| |done..]. intros [] [e He]; done.
Qed.

(** what [Copy] of HttpProxy says of a direction that ended *)
Lemma ended_with_Copy w0 p e n : ended_with w0 p e →
  Copy w0 (mk_reader (pm_arrived p) (default EOF (pm_fin p)) n) =
  (e, mk_reader [] (default EOF (pm_fin p)) n, pm_dst p).
Proof.
  unfold Copy. cbn. intros [(f & Hf & -> & _ & Hw)|(-> & Hn & Hw)].
  - rewrite Hw, Hf. cbn. by destruct f.
  - apply (Write_app_fails _ _ (drop (pm_read p) (pm_arrived p))) in Hw. rewrite take_drop in Hw. by rewrite Hw.
Qed.

Lemma pump_ok_prefix w0 p : pump_ok w0 p → ∃ out, out `prefix_of` pm_arrived p ∧ w_out (pm_dst p) = w_out w0 ++ out.
Proof.
  assert (∀ b e, Write w0 b = (e, pm_dst p) → b `prefix_of` pm_arrived p →
    ∃ out, out `prefix_of` pm_arrived p ∧ w_out (pm_dst p) = w_out w0 ++ out) as Hw.
  { intros b e Hb Hp. pose proof (Write_spec w0 b) as Hs. rewrite Hb in Hs. destruct e as [e|].
    - destruct Hs as (_ & out & Hout & Ho). exists out. split; [by etrans|done].
    - rewrite Hs. by exists b. }
  assert (∀ e, ended_with w0 p e → ∃ out, out `prefix_of` pm_arrived p ∧ w_out (pm_dst p) = w_out w0 ++ out) as H.
  { intros e [(f & _ & _ & _ & Hb)|(_ & _ & Hb)]; eapply Hw; [exact Hb|done|exact Hb|apply prefix_take]. }
  unfold pump_ok. destruct (pm_phase p); [|apply H..]. intros [_ Hb]. eapply Hw; [exact Hb|apply prefix_take].
Qed.

Lemma past_close_ended w0 p : pump_ok w0 p → past_close p = true → ∃ e, ended_with w0 p e.
Proof. unfold pump_ok, past_close. destruct (pm_phase p); try done; eauto. Qed.

(** an order of two senders *)
Lemma two_sides (order : list side) : NoDup order → 2 ≤ length order → order = [Up; Down] ∨ order = [Down; Up].
Proof.
  destruct order as [|a [|b [|c l]]]; cbn; try lia; intros Hnd _.
  - destruct a, b; [|by left|by right|]; apply NoDup_cons in Hnd as [Hn _]; destruct Hn; by left.
  - exfalso. apply NoDup_cons in Hnd as [Ha Hnd]. apply NoDup_cons in Hnd as [Hb _].
    destruct a, b, c; set_solver.
Qed.

(** ** Properties *)

(** C10: Every schedule of the two goroutines with peers that send in whatever
    pieces agrees with [proxyTunnel].  At any moment each side has received a
    prefix of what the other sent, and the half of a connection is closed only
    when the other direction is over: all bytes up to the end of the stream were
    passed on, or a write failed.  When the function returns, its error, both
    outputs and the connections it closed are those of [proxyTunnel] on the two
    streams, for one of the two orders of the errors. *)
Theorem tunnel_refines k buffered wu wd dc t :
  rtc (tunnel_step k) (tunnel_start buffered wu wd dc) t →
  (∃ sent, sent `prefix_of` pm_arrived (t_up t) ∧ w_out (pm_dst (t_up t)) = w_out wu ++ sent) ∧
  (∃ sent, sent `prefix_of` pm_arrived (t_down t) ∧ w_out (pm_dst (t_down t)) = w_out wd ++ sent) ∧
  (t_up_cw t = true → ∃ e, ended_with wu (t_up t) e) ∧
  (t_down_cw t = true ∨ t_up_cr t = true → ∃ e, ended_with wd (t_down t) e) ∧
  ∀ e n, t_return t = Some e → ∃ first c',
    proxyTunnel (mk_conns (mk_reader (pm_arrived (t_up t)) (default EOF (pm_fin (t_up t))) n) wd
                          (mk_reader (pm_arrived (t_down t)) (default EOF (pm_fin (t_down t))) n) wu false dc) first = (e, c') ∧
    up_out c' = pm_dst (t_up t) ∧ down_out c' = pm_dst (t_down t) ∧
    up_closed c' = t_up_closed t ∧ down_closed c' = t_down_closed t.
Proof.
  intros Hs. assert (tunnel_ok k wu wd dc t) as ([Hu Hd] & Hc & (Hh1 & Hh2 & Hh3) & Hr).
  { eapply invariant_reachable; [intros ? ? Hok Hst; exact (tunnel_step_ok _ _ _ _ _ _ Hst Hok)|apply tunnel_start_ok|exact Hs]. }
  split_and!; [by apply pump_ok_prefix..| | |].
  - rewrite Hh1. intros [H _]%andb_prop. by eapply past_close_ended.
  - rewrite Hh2, Hh3. intros [[H _]%andb_prop|[H _]%andb_prop]; by eapply past_close_ended.
  - intros e n He. unfold return_ok in Hr. rewrite He in Hr. destruct Hr as (Hi & -> & Hcu & Hcd).
    destruct Hc as (order & rec & Hnd & Hall & _ & Hl & Hf). pose proof (Forall2_length _ _ _ Hall) as Hlen.
    rewrite length_app in Hlen.
    assert (∃ eu ed, pm_phase (t_up t) = Sent eu ∧ pm_phase (t_down t) = Sent ed ∧ (rec = [eu; ed] ∨ rec = [ed; eu]))
      as (eu & ed & Hpu & Hpd & Hrec).
    { destruct (two_sides order Hnd) as [->| ->]; [lia|..]; destruct rec as [|e1 [|e2 [|]]]; cbn in Hl; try lia; cbn in Hall;
        apply Forall2_cons in Hall as [H1 Hall]; apply Forall2_cons in Hall as [H2 _]; cbn in H1, H2; eauto 10. }
    unfold pump_ok in Hu, Hd. rewrite Hpu in Hu. rewrite Hpd in Hd.
    assert (∃ first : bool, (if first then match eu with Some e => Some e | None => ed end
             else match ed with Some e => Some e | None => eu end) = t_firstErr t) as [first Herr].
    { rewrite Hf. destruct Hrec as [->| ->]; [exists true|exists false]; by destruct eu, ed. }
    exists first. eexists. unfold proxyTunnel. cbn [up_out down_in down_out up_in down_closed].
    rewrite (ended_with_Copy _ _ _ n Hu), (ended_with_Copy _ _ _ n Hd). cbn. rewrite Herr.
    split; [done|]. cbn. by rewrite Hcu, Hcd.
Qed.

(** ** The end of a tunnel *)

(** what a goroutine and the function still have to do *)
Definition pump_measure (p : pump) : nat :=
  match pm_phase p with
  | Copying => length (pm_arrived p) - pm_read p + 4
  | Copied _ => 3
  | HalfClosed _ => 2
  | Sent _ => 0
  end.
Definition tunnel_measure (t : tunnel) : nat :=
  pump_measure (t_up t) + pump_measure (t_down t) + (2 - t_i t) + match t_return t with None => 1 | Some _ => 0 end.

Definition streams_ended (t : tunnel) : Prop := ∀ s, is_Some (pm_fin (get s t)).

Lemma pump_copy_smaller p p' : pump_copy p p' → pump_measure p' < pump_measure p.
Proof. destruct 1 as [p n [e|] w Hp Hn Hl Hw|p f Hp Hr Hf]; unfold pump_measure; cbn; rewrite Hp; lia. Qed.

Lemma pump_can_move k w0 t s : pump_ok w0 (get s t) → is_Some (pm_fin (get s t)) → ¬ is_sent (get s t) →
  ∃ t', tunnel_step k t t'.
Proof.
  intros Hok [f Hf] Hn. unfold pump_ok in Hok. destruct (pm_phase (get s t)) as [|e|e|e] eqn:Hp.
  - destruct (decide (pm_read (get s t) = length (pm_arrived (get s t)))) as [Hr|Hr].
    + eexists. eapply (step_copy _ s). by eapply copy_end.
    + destruct (Write (pm_dst (get s t)) (take 1 (drop (pm_read (get s t)) (pm_arrived (get s t))))) as [e w] eqn:Hw.
      eexists. eapply (step_copy _ s). eapply (copy_piece _ 1); [done|lia|lia|exact Hw].
  - eexists. by eapply (step_close _ s).
  - eexists. by eapply (step_send _ s).
  - destruct Hn. by exists e.
Qed.

Lemma tunnel_can_move k wu wd dc t : tunnel_ok k wu wd dc t → streams_ended t → t_return t = None → ∃ t', tunnel_step k t t'.
Proof.
  intros ([Hu Hd] & (order & rec & Hnd & Hall & Hin & Hl & Hf) & _ & _) He Hr.
  destruct (decide (pump_measure (t_up t) = 0)) as [H1|H1].
  2:{ apply (pump_can_move k wu t Up Hu (He Up)). intros [e Hs]. cbn in Hs. unfold pump_measure in H1. by rewrite Hs in H1. }
  destruct (decide (pump_measure (t_down t) = 0)) as [H2|H2].
  2:{ apply (pump_can_move k wd t Down Hd (He Down)). intros [e Hs]. cbn in Hs. unfold pump_measure in H2. by rewrite Hs in H2. }
  assert (∀ s, s ∈ order) as Hboth.
  { intros s. apply Hin. unfold is_sent. unfold pump_measure in H1, H2.
    destruct s; cbn; [destruct (pm_phase (t_up t))|destruct (pm_phase (t_down t))]; try lia; eauto. }
  assert (length order = 2) as Ho.
  { destruct (decide (2 ≤ length order)) as [Hge|Hlt]; [by destruct (two_sides _ Hnd Hge) as [->| ->]|].
    pose proof (Hboth Up) as Hb1. pose proof (Hboth Down) as Hb2. destruct order as [|a [|]]; cbn in Hlt; [set_solver| |lia].
    apply list_elem_of_singleton in Hb1, Hb2. congruence. }
  pose proof (Forall2_length _ _ _ Hall) as Hlen. rewrite length_app in Hlen.
  destruct (t_errC t) as [|e rest] eqn:Hc; cbn in Hlen.
  - eexists. eapply step_return; [lia|done].
  - eexists. eapply step_receive; [lia|exact Hc].
Qed.

Lemma tunnel_step_smaller k t t' : streams_ended t → t_return t = None → tunnel_step k t t' →
  streams_ended t' ∧ tunnel_measure t' < tunnel_measure t.
Proof.
  intros He Hr Hs. destruct Hs as [s t p Hs|s t p Hs|s t e Hs|s t e Hs|t e rest Hi Hc|t Hi Hn].
  - destruct (He s) as [f Hf]. destruct Hs; congruence.
  - pose proof (pump_copy_smaller _ _ Hs) as Hm. assert (pm_fin p = pm_fin (get s t)) as Hf by by destruct Hs.
    split; [intros s'; destruct (decide (s' = s)) as [->|]; [by rewrite get_set, Hf|by rewrite get_set_ne]|].
    unfold tunnel_measure. destruct s; cbn in *; lia.
  - split; [intros s'; rewrite get_close; destruct (decide (s' = s)) as [->|]; [rewrite get_set; apply He|by rewrite get_set_ne]|].
    unfold tunnel_measure, pump_measure. destruct s; cbn in *; rewrite Hs; lia.
  - assert (∀ s' t', get s' (send e t') = get s' t') as Hg by by intros [].
    split; [intros s'; rewrite Hg; destruct (decide (s' = s)) as [->|]; [rewrite get_set; apply He|by rewrite get_set_ne]|].
    unfold tunnel_measure, pump_measure. destruct s; cbn in *; rewrite Hs; lia.
  - split; [by intros []; [apply (He Up)|apply (He Down)]|]. unfold tunnel_measure. cbn. lia.
  - split; [by intros []; [apply (He Up)|apply (He Down)]|]. unfold tunnel_measure. cbn. rewrite Hr. lia.
Qed.


(** ** An example: the client sends "ab" in two pieces, the upstream "xyz" to a
    client that takes one byte *)

Module TunnelExample.
Definition k : can_close := mk_can true true true.
Definition up : writer := mk_writer [] None.
Definition down : writer := mk_writer [] (Some 1).
Definition start : tunnel := tunnel_start (of_string "a") up down false.

Definition up_ended : pump := mk_pump (of_string "ab") (Some EOF) 0 up Copying.
Definition down_ended : pump := mk_pump (of_string "xyz") (Some EOF) 0 down Copying.
Definition ended : tunnel := mk_tunnel up_ended down_ended [] false false false 0 None None false false.

Lemma start_ended : rtc (tunnel_step k) start ended.
Proof.
  eapply rtc_l; [apply (step_env k Up); by apply (env_arrive _ (of_string "b"))|].
  eapply rtc_l; [apply (step_env k Up); by apply (env_end _ EOF)|].
  eapply rtc_l; [apply (step_env k Down); by apply (env_arrive _ (of_string "xyz"))|].
  eapply rtc_l; [apply (step_env k Down); by apply (env_end _ EOF)|]. apply rtc_refl.
Qed.

(** the failed write comes first, the end of the client's stream second *)
Definition returned : tunnel :=
  mk_tunnel (mk_pump (of_string "ab") (Some EOF) 2 (mk_writer (of_string "ab") None) (Sent None))
    (mk_pump (of_string "xyz") (Some EOF) 3 (mk_writer (of_string "x") (Some 0)) (Sent (Some PWrite)))
    [] true true true 2 (Some PWrite) (Some (Some PWrite)) true true.

Lemma ended_returned : rtc (tunnel_step k) ended returned.
Proof.
  eapply rtc_l; [apply (step_copy k Down); eapply (copy_piece _ 3); cbn; [done|lia|lia|reflexivity]|].
  eapply rtc_l; [by eapply (step_close k Down)|].
  eapply rtc_l; [by eapply (step_send k Down)|].
  eapply rtc_l; [eapply step_receive; cbn; [lia|reflexivity]|].
  eapply rtc_l; [apply (step_copy k Up); eapply (copy_piece _ 2); cbn; [done|lia|lia|reflexivity]|].
  eapply rtc_l; [apply (step_copy k Up); by eapply copy_end|].
  eapply rtc_l; [by eapply (step_close k Up)|].
  eapply rtc_l; [by eapply (step_send k Up)|].
  eapply rtc_l; [eapply step_receive; cbn; [lia|reflexivity]|].
  eapply rtc_l; [by eapply step_return|]. apply rtc_refl.
Qed.
End TunnelExample.

Lemma tunnel_refines_witness : ∃ first c',
  proxyTunnel (mk_conns (mk_reader (of_string "ab") EOF 4096) TunnelExample.down (mk_reader (of_string "xyz") EOF 4096)
                 TunnelExample.up false false) first = (Some PWrite, c') ∧
  w_out (up_out c') = of_string "ab" ∧ w_out (down_out c') = of_string "x" ∧ up_closed c' = true ∧ down_closed c' = true.
Proof.
  destruct (tunnel_refines TunnelExample.k (of_string "a") TunnelExample.up TunnelExample.down false TunnelExample.returned)
    as (_ & _ & _ & _ & H); [etrans; [exact TunnelExample.start_ended|exact TunnelExample.ended_returned]|].
  destruct (H (Some PWrite) 4096 eq_refl) as (first & c' & Hc & H1 & H2 & H3 & H4).
  exists first, c'. split; [exact Hc|]. rewrite H1, H2, H3, H4. done.
Defined.

