(* ===== verification/DomainPolicy.v ===== *)
(** * Domain policy

    Models cmd/proxy/domainpolicy/policy.go: compiling a policy document into
    matcher sets, and deciding a connection; and the enforcement of
    cmd/proxy/domain_policy.go.

    The decoded document ([ConfigDocument]) is where the model starts; the JSON
    decoder is an argument of the manager (file ConfigManager.v). *)

From S2P Require Export HeaderCodec.
From Stdlib Require Import Ascii Btauto.

Local Open Scope string_scope.
Local Open Scope nat_scope.
Local Open Scope list_scope.

Record RuleDocument := {
  rd_direction : string;
  rd_mode : string;
  rd_allow : list string;
  rd_block : list string
}.

Record ConfigDocument := { doc_rules : list RuleDocument }.

Record matcherSet := {
  domains : gset string;
  wildcardDomains : list string;
  ips : list IP;
  nets : list IPNet
}.

Record directionPolicy := { dp_mode : string; dp_allow : matcherSet; dp_block : matcherSet }.

Record Policy := { rules : gmap string directionPolicy }.

Record Decision := { Allowed : bool; Reason : string }.

Record RuleSummary := { rs_mode : string; rs_allow : nat; rs_block : nat }.

Inductive policy_error :=
  | UnsupportedDirection (d : string)
  | UnsupportedMode (m : string)
  | InvalidWildcard (list_name : string) (value : string).

#[export] Instance Decision_eq_dec : EqDecision Decision.
Proof. solve_decision. Defined.

Definition DirectionInbound := "inbound".
Definition DirectionOutbound := "outbound".
Definition ModeDefaultAllow := "default_allow".
Definition ModeDefaultDeny := "default_deny".

Section Policy.
Context `{GoUnicode}.

Definition normalizeDomain (value : string) : string :=
  let host := TrimSpace value in
  if String.eqb host "" then "" else
  let host := match SplitHostPort host with Some (h, _) => h | None => host end in
  let host := TrimPrefix host "[" in
  let host := TrimSuffix host "]" in
  let host := TrimSuffix host "." in
  ToLower host.

Definition extractIP (value : string) : option IP :=
  let host := TrimSpace value in
  if String.eqb host "" then None else
  let host := match SplitHostPort host with Some (h, _) => h | None => host end in
  let host := TrimPrefix host "[" in
  let host := TrimSuffix host "]" in
  ParseIP host.

Definition empty_set : matcherSet :=
  {| domains := ∅; wildcardDomains := []; ips := []; nets := [] |}.

Definition add_domain (m : matcherSet) (d : string) : matcherSet :=
  {| domains := domains m ∪ {[ d ]}; wildcardDomains := wildcardDomains m; ips := ips m; nets := nets m |}.
Definition add_wildcard (m : matcherSet) (d : string) : matcherSet :=
  {| domains := domains m; wildcardDomains := wildcardDomains m ++ [d]; ips := ips m; nets := nets m |}.
Definition add_ip (m : matcherSet) (i : IP) : matcherSet :=
  {| domains := domains m; wildcardDomains := wildcardDomains m; ips := ips m ++ [i]; nets := nets m |}.
Definition add_net (m : matcherSet) (n : IPNet) : matcherSet :=
  {| domains := domains m; wildcardDomains := wildcardDomains m; ips := ips m; nets := nets m ++ [n] |}.

Definition trim_brackets (s : string) : string :=
  Trim s (λ c, Ascii.eqb c "[" || Ascii.eqb c "]").

(** one iteration of [compileMatcherSet] *)
Definition compile_value (set : matcherSet) (rawValue : string) : result string matcherSet :=
  let value := TrimSpace rawValue in
  if String.eqb value "" then Ok set else
  match ParseCIDR value with
  | Some (_, ipNet) => Ok (add_net set ipNet)
  | None =>
      match ParseIP (trim_brackets value) with
      | Some ip => Ok (add_ip set ip)
      | None =>
          let domain := normalizeDomain value in
          if String.eqb domain "" then Ok set
          else if HasPrefix domain "*." then
            let suffix := TrimPrefix domain "*." in
            if String.eqb suffix "" then Err rawValue else Ok (add_wildcard set suffix)
          else Ok (add_domain set domain)
      end
  end.

Fixpoint compile_values (set : matcherSet) (values : list string) : result string matcherSet :=
  match values with
  | [] => Ok set
  | v :: values => set ← compile_value set v; compile_values set values
  end.

Definition compileMatcherSet (values : list string) : result string matcherSet :=
  compile_values empty_set values.

Definition wildcard_matches (domain suffix : string) : bool :=
  HasSuffix domain ("." +:+ suffix) && negb (String.eqb domain suffix).

Definition matches (m : matcherSet) (domain : string) (ip : option IP) : bool :=
  (negb (String.eqb domain "") &&
     (bool_decide (domain ∈ domains m) || existsb (wildcard_matches domain) (wildcardDomains m))) ||
  match ip with
  | Some ip => existsb (λ item, ip_equal item ip) (ips m) || existsb (λ n, net_contains n ip) (nets m)
  | None => false
  end.

Definition count (m : matcherSet) : nat :=
  size (domains m) + length (wildcardDomains m) + length (ips m) + length (nets m).

Definition rule_direction (r : RuleDocument) : string := ToLower (TrimSpace (rd_direction r)).
Definition rule_mode (r : RuleDocument) : string :=
  let mode := ToLower (TrimSpace (rd_mode r)) in
  if String.eqb mode "" then ModeDefaultAllow else mode.

Definition list_error {A} (name : string) (m : result string A) : result policy_error A :=
  match m with
  | Ok a => Ok a
  | Err v => Err (InvalidWildcard name v)
  | Panic p => Panic p
  end.

(** one iteration of [Compile] *)
Definition compile_rule (p : Policy) (rule : RuleDocument) : result policy_error Policy :=
  let direction := rule_direction rule in
  if negb (String.eqb direction DirectionInbound) && negb (String.eqb direction DirectionOutbound)
  then Err (UnsupportedDirection (rd_direction rule)) else
  let mode := rule_mode rule in
  if negb (String.eqb mode ModeDefaultAllow) && negb (String.eqb mode ModeDefaultDeny)
  then Err (UnsupportedMode (rd_mode rule)) else
  allow ← list_error "allowList" (compileMatcherSet (rd_allow rule));
  block ← list_error "blockList" (compileMatcherSet (rd_block rule));
  Ok {| rules := <[direction := {| dp_mode := mode; dp_allow := allow; dp_block := block |}]> (rules p) |}.

Fixpoint compile_rules (p : Policy) (rs : list RuleDocument) : result policy_error Policy :=
  match rs with
  | [] => Ok p
  | r :: rs => p ← compile_rule p r; compile_rules p rs
  end.

Definition Compile (doc : ConfigDocument) : result policy_error Policy :=
  compile_rules {| rules := ∅ |} (doc_rules doc).

Definition allowed : Decision := {| Allowed := true; Reason := "" |}.
Definition denied (reason : string) : Decision := {| Allowed := false; Reason := reason |}.

Definition Evaluate (p : option Policy) (direction domain targetAddr : string) : Decision :=
  match p with
  | None => allowed
  | Some p =>
      match rules p !! direction with
      | None => allowed
      | Some rule =>
          let normalizedDomain := normalizeDomain domain in
          let targetIP := extractIP targetAddr in
          if String.eqb (dp_mode rule) ModeDefaultAllow then
            if matches (dp_block rule) normalizedDomain targetIP
            then denied "domain_policy_blocklist" else allowed
          else if String.eqb (dp_mode rule) ModeDefaultDeny then
            if matches (dp_allow rule) normalizedDomain targetIP
            then allowed else denied "domain_policy_allowlist"
          else allowed
      end
  end.

Definition Summary (p : option Policy) : gmap string RuleSummary :=
  match p with
  | None => ∅
  | Some p =>
      (λ r, {| rs_mode := dp_mode r; rs_allow := count (dp_allow r); rs_block := count (dp_block r) |})
        <$> rules p
  end.

(** ** Specification: a decision read off the document *)

(** what one entry of a list matches, without compiling the list *)
Definition entry_matches (domain : string) (ip : option IP) (raw : string) : bool :=
  let value := TrimSpace raw in
  if String.eqb value "" then false else
  match ParseCIDR value with
  | Some (_, n) => match ip with Some ip => net_contains n ip | None => false end
  | None =>
      match ParseIP (trim_brackets value) with
      | Some i => match ip with Some ip => ip_equal i ip | None => false end
      | None =>
          let d := normalizeDomain value in
          if String.eqb d "" || String.eqb domain "" then false
          else if HasPrefix d "*." then wildcard_matches domain (TrimPrefix d "*.")
          else String.eqb domain d
      end
  end.

(** the last rule of a direction decides *)
Definition spec_rule (doc : ConfigDocument) (direction : string) : option RuleDocument :=
  last (filter (λ r, rule_direction r = direction) (doc_rules doc)).

Definition spec_decision (doc : ConfigDocument) (direction domain targetAddr : string) : Decision :=
  match spec_rule doc direction with
  | None => allowed
  | Some r =>
      let m := existsb (entry_matches (normalizeDomain domain) (extractIP targetAddr)) in
      if String.eqb (rule_mode r) ModeDefaultDeny
      then if m (rd_allow r) then allowed else denied "domain_policy_allowlist"
      else if m (rd_block r) then denied "domain_policy_blocklist" else allowed
  end.

(** ** Laws *)

Lemma compile_value_matches set v set' domain ip :
  compile_value set v = Ok set' →
  matches set' domain ip = matches set domain ip || entry_matches domain ip v.
Proof.
  unfold compile_value, entry_matches. set (value := TrimSpace v).
  destruct (String.eqb value ""); [intros ?; simplify_eq; by rewrite orb_false_r|].
  destruct (ParseCIDR value) as [[? n]|].
  { intros ?; simplify_eq. unfold matches; simpl.
    destruct ip as [ip|]; [|btauto]. rewrite existsb_app. simpl. btauto. }
  destruct (ParseIP _) as [i|].
  { intros ?; simplify_eq. unfold matches; simpl.
    destruct ip as [ip|]; [|btauto]. rewrite existsb_app. simpl. btauto. }
  set (d := normalizeDomain value).
  destruct (String.eqb d ""); [intros ?; simplify_eq; by rewrite orb_false_r|]. cbn [orb].
  destruct (HasPrefix d "*.").
  - destruct (String.eqb _ ""); [done|]. intros ?; simplify_eq. unfold matches; simpl.
    rewrite existsb_app. simpl. destruct (String.eqb domain ""); btauto.
  - intros ?; simplify_eq. unfold matches; simpl.
    destruct (String.eqb domain ""); [btauto|].
    rewrite (bool_decide_ext _ (domain ∈ domains set ∨ domain = d)) by set_solver.
    rewrite bool_decide_or. replace (bool_decide (domain = d)) with (String.eqb domain d).
    2:{ destruct (String.eqb_spec domain d); symmetry; [by apply bool_decide_eq_true|by apply bool_decide_eq_false]. }
    btauto.
Qed.

Lemma compile_values_matches set vs set' domain ip :
  compile_values set vs = Ok set' →
  matches set' domain ip = matches set domain ip || existsb (entry_matches domain ip) vs.
Proof.
  revert set. induction vs as [|v vs IH]; intros set; simpl.
  - intros ?; simplify_eq. by rewrite orb_false_r.
  - destruct (compile_value set v) as [set1|e|p] eqn:E; simpl; [|done..].
    intros H1%IH. rewrite H1, (compile_value_matches _ _ _ _ _ E). by rewrite orb_assoc.
Qed.

Lemma matches_empty domain ip : matches empty_set domain ip = false.
Proof.
  unfold matches; simpl. rewrite bool_decide_eq_false_2 by set_solver. simpl.
  rewrite andb_false_r. by destruct ip.
Qed.

Lemma compileMatcherSet_matches vs set domain ip :
  compileMatcherSet vs = Ok set → matches set domain ip = existsb (entry_matches domain ip) vs.
Proof. intros H1. by rewrite (compile_values_matches _ _ _ _ _ H1), matches_empty. Qed.

(** what a compiled rule stands for *)
Definition compiled_from (r : RuleDocument) (dp : directionPolicy) : Prop :=
  dp_mode dp = rule_mode r ∧ (rule_mode r = ModeDefaultAllow ∨ rule_mode r = ModeDefaultDeny) ∧
  compileMatcherSet (rd_allow r) = Ok (dp_allow dp) ∧ compileMatcherSet (rd_block r) = Ok (dp_block dp).

Lemma list_error_ok {A} name (m : result string A) a : list_error name m = Ok a ↔ m = Ok a.
Proof. destruct m; simpl; split; congruence. Qed.

Lemma compile_rule_ok p r p' : compile_rule p r = Ok p' →
  (rule_direction r = DirectionInbound ∨ rule_direction r = DirectionOutbound) ∧
  ∃ dp, compiled_from r dp ∧ rules p' = <[rule_direction r := dp]> (rules p).
Proof.
  unfold compile_rule.
  destruct (negb _ && _) eqn:E1; [done|]. destruct (negb (String.eqb (rule_mode r) _) && _) eqn:E2; [done|].
  destruct (list_error "allowList" _) as [a|e|q] eqn:Ea; simpl; [|done..].
  destruct (list_error "blockList" _) as [b|e|q] eqn:Eb; simpl; [|done..].
  intros ?; simplify_eq. apply list_error_ok in Ea, Eb.
  apply andb_false_iff in E1, E2. rewrite !negb_false_iff, !String.eqb_eq in E1, E2.
  split; [done|]. eexists; split; [|reflexivity]. unfold compiled_from. by split_and!.
Qed.

Lemma compile_rules_ok rs p p' : compile_rules p rs = Ok p' → ∀ direction,
  match last (filter (λ r, rule_direction r = direction) rs) with
  | Some r => ∃ dp, compiled_from r dp ∧ rules p' !! direction = Some dp
  | None => rules p' !! direction = rules p !! direction
  end.
Proof.
  revert p. induction rs as [|r rs IH]; intros p; simpl.
  - intros ?; simplify_eq. done.
  - destruct (compile_rule p r) as [p1|e|q] eqn:E; simpl; [|done..].
    intros Hr direction. specialize (IH _ Hr direction).
    apply compile_rule_ok in E as (_ & dp & Hdp & Hp1).
    destruct (decide (rule_direction r = direction)) as [Hd|Hd].
    + rewrite filter_cons_True by done. rewrite last_cons.
      destruct (last (filter _ rs)) as [r'|]; [done|].
      exists dp. split; [done|]. by rewrite IH, Hp1, <- Hd, lookup_insert_eq.
    + rewrite filter_cons_False by done.
      destruct (last (filter _ rs)) as [r'|]; [done|]. by rewrite IH, Hp1, lookup_insert_ne.
Qed.

Lemma Evaluate_refines doc p direction domain target : Compile doc = Ok p →
  Evaluate (Some p) direction domain target = spec_decision doc direction domain target.
Proof.
  intros Hc. pose proof (compile_rules_ok _ _ _ Hc direction) as Hr.
  unfold spec_decision, spec_rule, Evaluate.
  destruct (last _) as [r|]; [|rewrite Hr; simpl; by rewrite lookup_empty].
  destruct Hr as (dp & (Hmode & Hor & Ha & Hb) & ->). rewrite Hmode.
  rewrite (compileMatcherSet_matches _ _ _ _ Ha), (compileMatcherSet_matches _ _ _ _ Hb).
  by destruct Hor as [-> | ->].
Qed.

Lemma Compile_unsupported doc r : r ∈ doc_rules doc →
  rule_direction r ≠ DirectionInbound → rule_direction r ≠ DirectionOutbound →
  ∃ e, Compile doc = Err e.
Proof.
  intros Hin H1 H2. unfold Compile. generalize {| rules := ∅ |}. revert Hin.
  induction (doc_rules doc) as [|r' rs IH]; [set_solver|]. intros Hin p. simpl.
  destruct (compile_rule p r') as [p1|e|q] eqn:E; simpl; [|by eexists|].
  - apply elem_of_cons in Hin as [->|Hin]; [|by apply IH].
    apply compile_rule_ok in E as [[?|?] _]; done.
  - exfalso. unfold compile_rule in E.
    assert (∀ vs s q, compile_values s vs ≠ Panic q) as Hn.
    { induction vs as [|v vs IHv]; intros s q'; simpl; [done|].
      destruct (compile_value s v) eqn:Ev; simpl; [apply IHv|done|].
      unfold compile_value in Ev. by repeat case_match. }
    repeat (case_match; [done|]).
    destruct (compileMatcherSet (rd_allow r')) eqn:Ea; simpl in E; [|done|by eapply Hn in Ea].
    destruct (compileMatcherSet (rd_block r')) eqn:Eb; simpl in E; [done|done|by eapply Hn in Eb].
Qed.
End Policy.

(** ** Enforcement *)

Section Enforce.
(** the answer written to a refused client *)
Definition forbidden_body (reason : string) : string := "Forbidden: " +:+ reason +:+ String LF "".

Definition writeDomainPolicyForbidden (reason : string) : string :=
  let reason := if String.eqb reason "" then "domain_policy_denied" else reason in
  let body := forbidden_body reason in
  "HTTP/1.1 403 Forbidden" +:+ CRLF +:+
  "Server: lhotse-agent" +:+ CRLF +:+
  "Content-Type: text/plain;charset=UTF-8" +:+ CRLF +:+
  "Content-Length: " +:+ Itoa (Z.of_nat (String.length body)) +:+ CRLF +:+
  "Connection: close" +:+ CRLF +:+ CRLF +:+ body.

(** the decision, [None] without a policy manager; the text written to the
    client when the connection is refused *)
Definition enforceDomainPolicy (decision : option Decision) : option string :=
  match decision with
  | None => None
  | Some d => if Allowed d then None else Some (writeDomainPolicyForbidden (Reason d))
  end.
End Enforce.

(** ** Properties *)

(** C7: A compiled policy decides every connection as its document says,
    without the compilation: the last rule of the direction, in its mode
    (default_allow when none is given), refuses a connection when one entry of
    its block list matches, resp. no entry of its allow list does; a direction
    without a rule is allowed.  The grouping into exact domains, wildcard
    suffixes, addresses and networks never changes a decision. *)
Theorem Evaluate_follows_document `{GoUnicode} doc p direction domain target :
  Compile doc = Ok p →
  Evaluate (Some p) direction domain target = spec_decision doc direction domain target.
Proof. apply Evaluate_refines. Qed.

Module PolicyExample.
#[export] Instance unicode : GoUnicode := λ s, s.
Definition doc : ConfigDocument := {| doc_rules := [
  {| rd_direction := "outbound"; rd_mode := ""; rd_allow := []; rd_block := ["other.com"] |};
  {| rd_direction := " Outbound "; rd_mode := "DEFAULT_DENY";
     rd_allow := ["*.Example.com."; "10.0.0.0/8"; "[::1]"; "api.test:443"]; rd_block := ["*.bad"] |}] |}.
End PolicyExample.
Import PolicyExample.

Lemma Evaluate_follows_document_witness :
  ∃ p, Compile PolicyExample.doc = Ok p ∧
  Evaluate (Some p) "outbound" "a.example.com:443" "" = spec_decision PolicyExample.doc "outbound" "a.example.com:443" "" ∧
  Evaluate (Some p) "outbound" "example.com" "" = denied "domain_policy_allowlist" ∧
  Evaluate (Some p) "outbound" "" "10.1.2.3:80" = allowed.
Proof.
  destruct (Compile PolicyExample.doc) as [p|e|q] eqn:E; [|vm_compute in E; discriminate E..].
  exists p. split; [reflexivity|]. split; [|split].
  - apply (Evaluate_follows_document PolicyExample.doc p). exact E.
  - rewrite (Evaluate_refines _ _ _ _ _ E). vm_compute. reflexivity.
  - rewrite (Evaluate_refines _ _ _ _ _ E). vm_compute. reflexivity.
Defined.

(** The refusal written to a client is a complete HTTP/1.1 response: it is
    read back with status 403, and its Content-Length is the length of the body
    that follows, for every reason. *)
Theorem forbidden_response_parses `{HttpGuts} `{GoUnicode} d f n :
  Allowed d = false → (Z.of_nat (String.length (Reason d)) < 1000000000)%Z →
  ∃ text resp rd, enforceDomainPolicy (Some d) = Some text ∧
    ReadResponse (mk_reader (of_string text) f n) = Ok (resp, rd) ∧
    StatusCode resp = 403%Z ∧ Chunked resp = false ∧
    RespContentLength resp = Z.of_nat (length (rd_data rd)) ∧
    to_string (rd_data rd) = forbidden_body (if String.eqb (Reason d) "" then "domain_policy_denied" else Reason d).
Proof.
  intros Hd Hlen. unfold enforceDomainPolicy. rewrite Hd. unfold writeDomainPolicyForbidden.
  set (reason := if String.eqb (Reason d) "" then "domain_policy_denied" else Reason d).
  assert (Z.of_nat (String.length (forbidden_body reason)) <= 1000000100)%Z as Hb.
  { unfold forbidden_body. rewrite !str_length_app. simpl.
    destruct (String.eqb (Reason d) ""); subst reason; simpl; lia. }
  set (cl := Itoa (Z.of_nat (String.length (forbidden_body reason)))).
  destruct (Itoa_nat_digits (String.length (forbidden_body reason))) as [Hdig Hne]. fold cl in Hdig, Hne.
  set (kvs := [("Server", ["lhotse-agent"]); ("Content-Type", ["text/plain;charset=UTF-8"]);
               ("Content-Length", [cl]); ("Connection", ["close"])] : list (string * list string)).
  set (h := list_to_map kvs : Header).
  assert (wf_value cl) as Hcl. by by apply digits_wf_value.
  assert (wf_header h) as Hh.
  { intros k vs Hk. apply elem_of_list_to_map_2 in Hk. subst kvs.
    repeat (apply elem_of_cons in Hk as [Hk|Hk]; [injection Hk as -> ->; split; [apply (bool_decide_unpack _); vm_compute; done|];
      split; [done|]; constructor; [first [exact Hcl|apply (bool_decide_unpack _); vm_compute; done]|constructor]|]).
    by apply not_elem_of_nil in Hk. }
  eexists _, _, _. split; [reflexivity|]. split.
  - match goal with |- ReadResponse (mk_reader (of_string ?t) _ _) = _ =>
      replace (of_string t) with (of_string ("HTTP/1.1 403 Forbidden" +:+ CRLF) ++ of_string (header_text kvs) ++
        of_string CRLF ++ of_string (forbidden_body reason)) end.
    2:{ rewrite <- !of_string_app. f_equal. subst kvs. unfold header_text, header_line, header_pairs.
        cbn [mbind list_bind fmap list_fmap foldr fst snd app].
        fold cl. by rewrite !str_app_assoc. }
    unfold ReadResponse. rewrite ReadLine_crlf by done.
    change (parseStatusLine "HTTP/1.1 403 Forbidden") with (Ok (E:=http_error) ("HTTP/1.1", "403 Forbidden", 403%Z)).
    cbn [mbind result_bind]. change (ParseHTTPVersion "HTTP/1.1") with (1%Z, 1%Z, true). cbn [negb].
    rewrite (read_header_text h).
    2:{ done. }
    2:{ symmetry. apply map_to_list_to_map. apply (bool_decide_unpack _). vm_compute. done. }
    unfold shouldClose. cbn [Z.ltb Z.eqb Z.compare Pos.compare andb]. rewrite andb_false_r.
    reflexivity.
  - cbn [StatusCode Chunked RespContentLength rd_data]. split; [done|].
    assert (fixPragmaCacheControl h = h) as -> by done. rewrite !andb_false_r.
    split; [done|]. unfold fillRespContentLength, contentLength_of. change (Header_get h "Content-Length") with cl.
    apply String.eqb_neq in Hne as ->. subst cl. rewrite Atoi_Itoa by (unfold max_int64; lia).
    rewrite of_string_length, to_of_string. done.
Qed.

Lemma forbidden_response_parses_witness : ∃ text resp rd,
  enforceDomainPolicy (Some (denied "domain_policy_blocklist")) = Some text ∧
  ReadResponse (H0:=(Build_HttpGuts (λ _, true) (λ _ _, true))) (mk_reader (of_string text) EOF 4096) = Ok (resp, rd) ∧
  StatusCode resp = 403%Z ∧ Chunked resp = false ∧
  RespContentLength resp = Z.of_nat (length (rd_data rd)) ∧
  to_string (rd_data rd) = forbidden_body "domain_policy_blocklist".
Proof.
  apply (forbidden_response_parses (H:=(Build_HttpGuts (λ _, true) (λ _ _, true)))
    (denied "domain_policy_blocklist") EOF 4096); [reflexivity|vm_compute; reflexivity].
Defined.
