(* ===== verification/ConfigManager.v ===== *)
(** * Remotely configured managers

    cmd/proxy/domainpolicy/manager.go and cmd/proxy/runtimeconfig/manager.go
    keep a configuration fetched from a server, with a cache file behind it.
    Both have the same life cycle, modelled once in Section [Manager] over the
    configuration type, its parser and the option check; Modules [PolicyManager]
    and [RuntimeManager] are the two instances with what is particular to each,
    and their HTTP handlers.

    The environment of a call is a record: the clock, the answer of the server,
    the outcome of reading the cache file and the step at which writing it
    fails.  The JSON decoder ([encoding/json]) is the argument [unmarshal].
    Timestamps and durations are numbers of nanoseconds; their textual form in
    the status is not modelled.  [Reload] is one function here; ManagerThreads
    lets several be under way at once. *)

From S2P Require Export GoIO DomainPolicy.
Import PolicyExample.

Local Open Scope string_scope.
Local Open Scope nat_scope.
Local Open Scope list_scope.

Record Options := mk_options {
  URL_ : string;
  CacheFile : string;
  RefreshInterval : Z;
  FetchTimeout : Z;
  Scope_ : string;
  AppName : string;
  InstanceIP : string;
  AgentID : string
}.

Inductive http_answer :=
  | Transport (err : string)                    (* no answer: url, request or connection error *)
  | Answer (status : Z) (body : result string bytes).

Inductive save_step := MkdirAll | CreateTemp | WriteTemp | CloseTemp | RenameTemp.

#[export] Instance save_step_eq_dec : EqDecision save_step.
Proof. solve_decision. Defined.

Record env := {
  e_now : Z;
  e_answer : http_answer;
  e_read_fault : option string;                 (* reading an existing cache file fails *)
  e_save_fault : option (save_step * string);
  e_local_ip : result string string
}.

Record manager (C : Type) := mk_manager {
  m_options : Options;
  m_cfg : option C;
  m_source : string;
  m_lastRefresh : option Z;
  m_lastError : string;
  m_stopped : bool;                             (* the stop channel is closed *)
  m_looping : bool;                             (* refreshLoop runs *)
  m_file : option bytes;                        (* content of the cache file *)
  m_temps : list bytes                          (* temporary files left beside it *)
}.
Arguments mk_manager {C} _ _ _ _ _ _ _ _ _.
Arguments m_options {C} _.
Arguments m_cfg {C} _.
Arguments m_source {C} _.
Arguments m_lastRefresh {C} _.
Arguments m_lastError {C} _.
Arguments m_stopped {C} _.
Arguments m_looping {C} _.
Arguments m_file {C} _.
Arguments m_temps {C} _.

Section Manager.
Context {C : Type}.
Variable parse : bytes → result string C.
(** the options a [Reload] needs, [Some] error when they are missing *)
Variable precheck : Options → option string.
(** the text of a bad status *)
Variable bad_status : Z → string.
(** whether a failed rename removes the temporary file *)
Variable rename_cleans : bool.

Definition Enabled (m : manager C) : bool := negb (String.eqb (TrimSpace (URL_ (m_options m))) "").

Definition setError (m : manager C) (err : string) : manager C :=
  mk_manager (m_options m) (m_cfg m) (m_source m) (m_lastRefresh m) err (m_stopped m) (m_looping m)
    (m_file m) (m_temps m).

Definition setConfig (m : manager C) (cfg : C) (source err : string) (now : Z) : manager C :=
  mk_manager (m_options m) (Some cfg) source (Some now) err (m_stopped m) (m_looping m)
    (m_file m) (m_temps m).

Definition set_ip (m : manager C) (ip : string) : manager C :=
  let o := m_options m in
  mk_manager (mk_options (URL_ o) (CacheFile o) (RefreshInterval o) (FetchTimeout o) (Scope_ o)
                (AppName o) ip (AgentID o))
    (m_cfg m) (m_source m) (m_lastRefresh m) (m_lastError m) (m_stopped m) (m_looping m)
    (m_file m) (m_temps m).

Definition set_files (m : manager C) (file : option bytes) (temps : list bytes) : manager C :=
  mk_manager (m_options m) (m_cfg m) (m_source m) (m_lastRefresh m) (m_lastError m) (m_stopped m)
    (m_looping m) file temps.

Definition set_loop (m : manager C) (looping : bool) : manager C :=
  mk_manager (m_options m) (m_cfg m) (m_source m) (m_lastRefresh m) (m_lastError m) (m_stopped m)
    looping (m_file m) (m_temps m).

Definition fetch (a : http_answer) : result string bytes :=
  match a with
  | Transport err => Err err
  | Answer status body =>
      if (status <? 200)%Z || (300 <=? status)%Z then Err (bad_status status) else body
  end.

(** the error and the manager; a missing cache file is no error *)
Definition loadCache (m : manager C) (e : env) : option string * manager C :=
  if String.eqb (CacheFile (m_options m)) "" then (None, m) else
  match m_file m with
  | None => (None, m)
  | Some body =>
      match e_read_fault e with
      | Some err => (Some err, m)
      | None =>
          match parse body with
          | Ok cfg => (None, setConfig m cfg "cache" "" (e_now e))
          | Err err => (Some err, m)
          | Panic _ => (Some "panic", m)
          end
      end
  end.

(** the body goes to a temporary file that is then renamed *)
Definition saveCache (m : manager C) (e : env) (body : bytes) : option string * manager C :=
  if String.eqb (CacheFile (m_options m)) "" then (None, m) else
  match e_save_fault e with
  | None => (None, set_files m (Some body) (m_temps m))
  | Some (RenameTemp, err) =>
      (Some err, set_files m (m_file m) (if rename_cleans then m_temps m else m_temps m ++ [body]))
  | Some (_, err) => (Some err, m)
  end.

Definition Reload (m : manager C) (e : env) : option string * manager C :=
  if negb (Enabled m) then (None, m) else
  match precheck (m_options m) with
  | Some err => (Some err, setError m err)
  | None =>
      match fetch (e_answer e) with
      | Err err => (Some err, setError m err)
      | Panic _ => (Some "panic", m)
      | Ok body =>
          match parse body with
          | Err err => (Some err, setError m err)
          | Panic _ => (Some "panic", m)
          | Ok cfg => (None, (saveCache (setConfig m cfg "remote" "" (e_now e)) e body).2)
          end
      end
  end.

Definition Start (m : manager C) (e : env) : manager C :=
  if negb (Enabled m) then m else
  let m := if String.eqb (InstanceIP (m_options m)) "" then
             match e_local_ip e with
             | Ok ip => set_ip m ip
             | Err err => setError m ("instance ip lookup failed: " +:+ err)
             | Panic _ => m
             end
           else m in
  let m := (loadCache m e).2 in
  let m := (Reload m e).2 in
  if (0 <? RefreshInterval (m_options m))%Z then set_loop m true else m.

(** closing the stop channel twice is guarded *)
Definition Stop (m : manager C) : manager C :=
  mk_manager (m_options m) (m_cfg m) (m_source m) (m_lastRefresh m) (m_lastError m) true
    (m_looping m) (m_file m) (m_temps m).

(** One step of the running manager: a turn of [refreshLoop] (a tick, or its
    end once the channel is closed), a reload asked for over HTTP, [Stop].
    When both channels are ready, [select] may still take the tick. *)
Inductive mstep : manager C → manager C → Prop :=
  | step_tick m e : m_looping m = true → mstep m (Reload m e).2
  | step_exit m : m_looping m = true → m_stopped m = true → mstep m (set_loop m false)
  | step_reload m e : mstep m (Reload m e).2
  | step_stop m : mstep m (Stop m).

(** ** Invariants *)

Definition cache_ok (m : manager C) : Prop :=
  ∀ body, m_file m = Some body → ∃ cfg, parse body = Ok cfg.

Definition from_some_body (m : manager C) : Prop :=
  ∀ cfg, m_cfg m = Some cfg → ∃ body, parse body = Ok cfg.

(** a predicate on states closed under what the operations do *)
Lemma Reload_cases (P : manager C → Prop) m e :
  P m → (∀ err, P (setError m err)) →
  (∀ body cfg, parse body = Ok cfg → P (saveCache (setConfig m cfg "remote" "" (e_now e)) e body).2) →
  P (Reload m e).2.
Proof. intros H1 H2 H3. unfold Reload. repeat case_match; simpl; auto. Qed.

Lemma saveCache_fields m e body :
  let m' := (saveCache m e body).2 in
  m_cfg m' = m_cfg m ∧ m_options m' = m_options m ∧ m_lastError m' = m_lastError m ∧
  m_source m' = m_source m ∧ m_stopped m' = m_stopped m ∧ m_looping m' = m_looping m ∧
  (m_file m' = m_file m ∨ m_file m' = Some body).
Proof using rename_cleans. clear parse precheck bad_status.
  unfold saveCache. repeat case_match; simpl; tauto.
Qed.

Lemma Reload_cache_ok m e : cache_ok m → cache_ok (Reload m e).2.
Proof.
  intros Hm. apply Reload_cases; [done|done|]. intros body cfg Hp b.
  destruct (saveCache_fields (setConfig m cfg "remote" "" (e_now e)) e body)
    as (_ & _ & _ & _ & _ & _ & [-> | ->]); [apply Hm|]. intros ?; simplify_eq. eauto.
Qed.

Lemma Reload_from_body m e : from_some_body m → from_some_body (Reload m e).2.
Proof.
  intros Hm. apply Reload_cases; [done|done|]. intros body cfg Hp c.
  destruct (saveCache_fields (setConfig m cfg "remote" "" (e_now e)) e body) as (-> & _).
  simpl. intros ?; simplify_eq. eauto.
Qed.

Lemma Reload_keeps m e : is_Some (m_cfg m) → is_Some (m_cfg (Reload m e).2).
Proof.
  intros Hm. apply Reload_cases; [done|done|]. intros body cfg _.
  destruct (saveCache_fields (setConfig m cfg "remote" "" (e_now e)) e body) as (-> & _). by eexists.
Qed.

Lemma mstep_of_Reload (P : manager C → Prop) :
  (∀ m e, P m → P (Reload m e).2) → (∀ m, P m → P (set_loop m false)) → (∀ m, P m → P (Stop m)) →
  invariant mstep P.
Proof. intros H1 H2 H3 m m' Hm Hs. destruct Hs; auto. Qed.

Lemma reachable_ok m m' : rtc mstep m m' → cache_ok m → from_some_body m →
  cache_ok m' ∧ from_some_body m' ∧ (is_Some (m_cfg m) → is_Some (m_cfg m')).
Proof.
  intros Hs Hc Hb. split; [|split].
  - eapply invariant_reachable; [|exact Hc|exact Hs].
    apply mstep_of_Reload; [apply Reload_cache_ok|done|done].
  - eapply invariant_reachable; [|exact Hb|exact Hs].
    apply mstep_of_Reload; [apply Reload_from_body|done|done].
  - intros Hm. eapply (invariant_reachable _ (λ m, is_Some (m_cfg m))); [|exact Hm|exact Hs].
    apply mstep_of_Reload; [apply Reload_keeps|done|done].
Qed.

Lemma loadCache_from_body m e : from_some_body m → from_some_body (loadCache m e).2.
Proof.
  intros Hm. unfold loadCache. destruct (String.eqb _ _), (m_file m) as [body|], (e_read_fault e); try done.
  destruct (parse body) eqn:Hp; try done. intros c [= <-]. by exists body.
Qed.

(** a manager that was started serves nothing it has not parsed *)
Lemma Start_from_body m e : from_some_body m → from_some_body (Start m e).
Proof.
  intros Hm. unfold Start. destruct (negb _); [done|]. cbv zeta.
  match goal with |- context [loadCache ?m1 e] => assert (from_some_body m1) as Hm1 end.
  { destruct (String.eqb _ _); [|done]. by destruct (e_local_ip e). }
  apply (loadCache_from_body _ e), (Reload_from_body _ e) in Hm1. by destruct (0 <? _)%Z.
Qed.

(** ** What is in force

    The abstract view of a manager: whatever it does, the configuration in force
    is the newest that parses among the cache file it found and the bodies the
    server answered with. *)

Definition accepted (body : bytes) : option C :=
  match parse body with Ok c => Some c | _ => None end.

Definition received (e : env) : option C :=
  match fetch (e_answer e) with Ok body => accepted body | _ => None end.

Definition newer (old : option C) (e : env) : option C :=
  match received e with Some c => Some c | None => old end.

(** the options with the address [Start] looks up *)
Definition resolve_ip (o : Options) (e : env) : Options :=
  match e_local_ip e with
  | Ok ip =>
      if String.eqb (InstanceIP o) "" then
        mk_options (URL_ o) (CacheFile o) (RefreshInterval o) (FetchTimeout o) (Scope_ o) (AppName o) ip (AgentID o)
      else o
  | _ => o
  end.

Definition found_in_cache (o : Options) (file : option bytes) (e : env) : option C :=
  if String.eqb (CacheFile o) "" then None else
  match file, e_read_fault e with Some body, None => accepted body | _, _ => None end.

(** a manager started in [e0] and reloaded in [reloads] *)
Definition in_force (o : Options) (file : option bytes) (e0 : env) (reloads : list env) : option C :=
  if String.eqb (TrimSpace (URL_ o)) "" then None else
  match precheck (resolve_ip o e0) with
  | Some _ => found_in_cache o file e0
  | None => foldl newer (found_in_cache o file e0) (e0 :: reloads)
  end.

Definition reload_all (m : manager C) (reloads : list env) : manager C :=
  foldl (λ m e, (Reload m e).2) m reloads.

Lemma Reload_options m e : m_options (Reload m e).2 = m_options m.
Proof.
  apply Reload_cases; [done..|]. intros body c _.
  by destruct (saveCache_fields (setConfig m c "remote" "" (e_now e)) e body) as (_ & -> & _).
Qed.

Lemma loadCache_options m e : m_options (loadCache m e).2 = m_options m.
Proof. unfold loadCache. repeat case_match; done. Qed.

Lemma Reload_cfg m e : Enabled m = true →
  m_cfg (Reload m e).2 = match precheck (m_options m) with Some _ => m_cfg m | None => newer (m_cfg m) e end.
Proof.
  unfold Reload, newer, received, accepted. intros ->. cbn [negb]. destruct (precheck _); [done|].
  destruct (fetch _) as [body|?|?]; [|done..]. destruct (parse body) as [c|?|?]; [|done..].
  cbn [snd]. by destruct (saveCache_fields (setConfig m c "remote" "" (e_now e)) e body) as (-> & _).
Qed.

Lemma loadCache_cfg m e : m_cfg m = None → m_cfg (loadCache m e).2 = found_in_cache (m_options m) (m_file m) e.
Proof. intros Hm. unfold loadCache, found_in_cache, accepted. repeat case_match; simplify_eq/=; done. Qed.

Lemma reload_all_spec m reloads :
  m_options (reload_all m reloads) = m_options m ∧
  m_cfg (reload_all m reloads) =
    if Enabled m then match precheck (m_options m) with Some _ => m_cfg m | None => foldl newer (m_cfg m) reloads end
    else m_cfg m.
Proof.
  unfold reload_all. revert m. induction reloads as [|e reloads IH]; intros m; [by repeat case_match|]. cbn [foldl].
  destruct (IH (Reload m e).2) as [-> ->]. rewrite Reload_options. split; [done|].
  assert (Enabled (Reload m e).2 = Enabled m) as -> by (unfold Enabled; by rewrite Reload_options).
  destruct (Enabled m) eqn:He; [rewrite (Reload_cfg m e He)|unfold Reload; by rewrite He].
  by destruct (precheck (m_options m)).
Qed.

(** [Start], then the reloads, of a manager that has nothing yet *)
Lemma started_cfg m e0 reloads : m_cfg m = None →
  m_cfg (reload_all (Start m e0) reloads) = in_force (m_options m) (m_file m) e0 reloads ∧
  (Enabled m = true → m_options (reload_all (Start m e0) reloads) = resolve_ip (m_options m) e0).
Proof.
  intros Hm. destruct (reload_all_spec (Start m e0) reloads) as [-> ->]. unfold Start, in_force.
  destruct (Enabled m) eqn:He; cbn [negb].
  2: { rewrite He. unfold Enabled in He. apply negb_false_iff in He. by rewrite He. }
  pose proof He as Hu. unfold Enabled in Hu. apply negb_true_iff in Hu. rewrite Hu. cbv zeta.
  set (m1 := if String.eqb (InstanceIP (m_options m)) "" then _ else m).
  assert (m_options m1 = resolve_ip (m_options m) e0 ∧ m_file m1 = m_file m ∧ m_cfg m1 = None) as (H1 & H2 & H3).
  { subst m1. unfold resolve_ip. destruct (String.eqb (InstanceIP _) ""), (e_local_ip e0); done. }
  set (m2 := (loadCache m1 e0).2). set (m3 := if (0 <? _)%Z then _ else _).
  assert (m_options m2 = m_options m1) as Ho2 by apply loadCache_options.
  assert (m_options m3 = m_options m1 ∧ m_cfg m3 = m_cfg (Reload m2 e0).2) as [Ho3 Hc3].
  { subst m3. case_match; (split; [|done]); cbn [m_options set_loop]; by rewrite Reload_options, Ho2. }
  assert (URL_ (m_options m1) = URL_ (m_options m)) as Hurl.
  { rewrite H1. unfold resolve_ip. destruct (e_local_ip e0); [by destruct (String.eqb (InstanceIP _) "")|done..]. }
  assert (CacheFile (m_options m1) = CacheFile (m_options m)) as Hcf.
  { rewrite H1. unfold resolve_ip. destruct (e_local_ip e0); [by destruct (String.eqb (InstanceIP _) "")|done..]. }
  assert (Enabled m3 = true ∧ Enabled m2 = true) as [He3 He2].
  { unfold Enabled in *. by rewrite Ho3, Ho2, Hurl, Hu. }
  rewrite He3, Ho3, Hc3, (Reload_cfg m2 e0 He2), Ho2. unfold m2. rewrite (loadCache_cfg m1 e0 H3), H1, H2.
  assert (found_in_cache (resolve_ip (m_options m) e0) = found_in_cache (m_options m)) as ->.
  { unfold found_in_cache. by rewrite <- H1, Hcf. }
  split; [|done]. by destruct (precheck _).
Qed.

(** two managers that decide alike *)
Definition agree (m m' : manager C) : Prop := m_options m = m_options m' ∧ m_cfg m = m_cfg m'.

Lemma Reload_agree m m' e : agree m m' → agree (Reload m e).2 (Reload m' e).2.
Proof.
  intros [Ho Hc]. unfold agree. rewrite !Reload_options. split; [done|].
  assert (Enabled m' = Enabled m) as He by (unfold Enabled; by rewrite Ho).
  destruct (Enabled m) eqn:Hm; [by rewrite !Reload_cfg, Ho, Hc|]. unfold Reload. by rewrite He, Hm.
Qed.

(** A failed reload leaves the configuration, its source and the cache. *)
Lemma Reload_error m e err m' : Reload m e = (Some err, m') →
  m_cfg m' = m_cfg m ∧ m_source m' = m_source m ∧ m_file m' = m_file m ∧
  ((∀ q, fetch (e_answer e) ≠ Panic q) → (∀ b q, parse b ≠ Panic q) → m_lastError m' = err).
Proof.
  unfold Reload. repeat (case_match; simplify_eq/=); intros ?; simplify_eq; split_and!; auto; naive_solver.
Qed.

Lemma Reload_success m e m' : Enabled m = true → Reload m e = (None, m') →
  ∃ body cfg, fetch (e_answer e) = Ok body ∧ parse body = Ok cfg ∧
    m_cfg m' = Some cfg ∧ m_source m' = "remote" ∧ m_lastError m' = "" ∧
    (m_file m' = Some body ∨ m_file m' = m_file m).
Proof.
  unfold Reload. intros ->. cbn [negb]. destruct (precheck _); [done|].
  destruct (fetch _) as [body|e'|q]; [|done..]. destruct (parse body) as [cfg|e'|q] eqn:Hp; [|done..].
  intros ?; simplify_eq. exists body, cfg.
  destruct (saveCache_fields (setConfig m cfg "remote" "" (e_now e)) e body)
    as (-> & _ & -> & -> & _ & _ & Hf). simpl in *. split_and!; try done. tauto.
Qed.

(** [Start] without a usable answer serves the cached configuration. *)
Lemma Start_offline m e body cfg :
  Enabled m = true → CacheFile (m_options m) ≠ "" → m_file m = Some body → parse body = Ok cfg →
  e_read_fault e = None → (∀ b, fetch (e_answer e) ≠ Ok b) →
  m_cfg (Start m e) = Some cfg ∧ m_source (Start m e) = "cache" ∧ m_file (Start m e) = Some body.
Proof.
  intros He Hc Hf Hp Hr Ha. unfold Start. rewrite He. cbn [negb].
  set (m1 := if String.eqb (InstanceIP (m_options m)) "" then _ else m).
  assert (CacheFile (m_options m1) = CacheFile (m_options m) ∧ m_file m1 = m_file m) as [Hc1 Hf1].
  { subst m1. destruct (String.eqb (InstanceIP _) ""); [|done]. by destruct (e_local_ip e). }
  assert ((loadCache m1 e).2 = setConfig m1 cfg "cache" "" (e_now e)) as ->.
  { unfold loadCache. by rewrite Hc1, (proj2 (String.eqb_neq _ _) Hc), Hf1, Hf, Hr, Hp. }
  set (m2 := setConfig m1 cfg "cache" "" (e_now e)).
  assert (m_cfg (Reload m2 e).2 = Some cfg ∧ m_source (Reload m2 e).2 = "cache" ∧
          m_file (Reload m2 e).2 = Some body) as (H1 & H2 & H3).
  { unfold Reload. destruct (fetch (e_answer e)) as [b|err|q] eqn:Ef; [by destruct (Ha b)|..];
      repeat case_match; simpl; rewrite Hf1; done. }
  by case_match.
Qed.
End Manager.

(** two readings of the same bodies, related by [R] *)
Lemma in_force_related {C D} (R : C → D → Prop) parse parse' precheck bad_status o file e0 reloads :
  (∀ body, option_Forall2 R (accepted (C:=C) parse body) (accepted (C:=D) parse' body)) →
  option_Forall2 R (in_force parse precheck bad_status o file e0 reloads)
                   (in_force parse' precheck bad_status o file e0 reloads).
Proof.
  intros HR. unfold in_force. destruct (String.eqb _ _); [constructor|].
  assert (option_Forall2 R (found_in_cache parse o file e0) (found_in_cache parse' o file e0)) as Hf.
  { unfold found_in_cache. repeat case_match; first [apply HR|constructor]. }
  destruct (precheck _); [done|]. generalize (e0 :: reloads) as es. intros es. revert Hf.
  generalize (found_in_cache parse o file e0) as c, (found_in_cache parse' o file e0) as d.
  induction es as [|e es IH]; intros c d Hcd; [done|]. cbn [foldl]. apply IH. unfold newer, received.
  destruct (fetch _ _) as [body|?|?]; [|done..]. by destruct (HR body); [constructor|].
Qed.

(** ** The domain policy manager *)

Module PolicyManager.
Section Policies.
Context `{GoUnicode}.
Variable unmarshal : bytes → result string ConfigDocument.
Variable error_text : policy_error → string.

(** [Parse] *)
Definition Parse (data : bytes) : result string Policy :=
  doc ← unmarshal data;
  match Compile doc with
  | Ok p => Ok p
  | Err e => Err (error_text e)
  | Panic p => Panic p
  end.

Definition check_options (o : Options) : option string :=
  if String.eqb (TrimSpace (AppName o)) ""
  then Some "app-name is required when domain-policy-url is configured"
  else if String.eqb (TrimSpace (InstanceIP o)) ""
  then Some "instance-ip is required when domain-policy-url is configured"
  else None.

Definition status_text (code : Z) : string := "domain policy fetch failed: status " +:+ Itoa code.

(** [NewManager], with the cache file found on disk *)
Definition NewManager (o : Options) (file : option bytes) : manager Policy :=
  let o := mk_options (URL_ o)
    (if String.eqb (CacheFile o) "" then "/tmp/lhotse-domain-policy-cache.json" else CacheFile o)
    (RefreshInterval o) (if (FetchTimeout o <=? 0)%Z then 5000000000%Z else FetchTimeout o)
    (if String.eqb (Scope_ o) "" then "outbound" else Scope_ o) (AppName o) (InstanceIP o) (AgentID o) in
  mk_manager o None "" None "" false false file [].

Definition NewStaticManager (policy : Policy) (scope : string) (now : Z) : manager Policy :=
  setConfig (NewManager (mk_options "static" "" 0 0 scope "" "" "") None) policy "static" "" now.

Definition Start : manager Policy → env → manager Policy :=
  ConfigManager.Start Parse check_options status_text false.
Definition Reload : manager Policy → env → option string * manager Policy :=
  ConfigManager.Reload Parse check_options status_text false.
Definition step : manager Policy → manager Policy → Prop :=
  mstep Parse check_options status_text false.

Definition ScopeInbound : string := "inbound".
Definition ScopeOutbound : string := "outbound".
Definition ScopeBoth : string := "both".

Definition directionEnabled (o : Options) (direction : string) : bool :=
  if String.eqb (Scope_ o) ScopeBoth then true
  else if String.eqb (Scope_ o) ScopeInbound then String.eqb direction DirectionInbound
  else String.eqb direction DirectionOutbound.

Definition Evaluate (m : manager Policy) (direction domain targetAddr : string) : Decision :=
  if negb (Enabled m) || negb (directionEnabled (m_options m) direction) then allowed
  else match m_cfg m with
  | None => allowed
  | Some policy => DomainPolicy.Evaluate (Some policy) direction domain targetAddr
  end.

Lemma Evaluate_agree m m' direction domain target : agree m m' →
  Evaluate m direction domain target = Evaluate m' direction domain target.
Proof. intros [Ho Hc]. unfold Evaluate, Enabled. by rewrite Ho, Hc. Qed.

Record Status := {
  st_enabled : bool; st_options : Options; st_source : string;
  st_lastRefresh : option Z; st_lastError : string; st_rules : gmap string RuleSummary
}.

Definition get_status (m : manager Policy) : Status :=
  {| st_enabled := Enabled m; st_options := m_options m; st_source := m_source m;
     st_lastRefresh := m_lastRefresh m; st_lastError := m_lastError m;
     st_rules := match m_cfg m with Some p => Summary (Some p) | None => ∅ end |}.

(** [WriteStatus]: a header of the answer, and its body unless the encoder fails *)
Definition WriteStatus (marshal : Status → result string bytes) (st : Status) : (string * string) * option bytes :=
  (("Content-Type", "application/json"), match marshal st with Ok b => Some (b ++ [LF]) | _ => None end).

(** the handlers: the status code, the body (a text or the status) *)
Definition handle_status (m : manager Policy) (meth : string) : Z * option Status :=
  if String.eqb meth "GET" then (200%Z, Some (get_status m)) else (405%Z, None).

Definition handle_reload (m : manager Policy) (e : env) (meth : string)
  : Z * (string + option Status) * manager Policy :=
  if negb (String.eqb meth "POST") then ((405%Z, inr None), m) else
  match Reload m e with
  | (Some err, m) => ((502%Z, inl err), m)
  | (None, m) => ((200%Z, inr (Some (get_status m))), m)
  end.

(** the documents that compile *)
Definition document (data : bytes) : result string ConfigDocument :=
  doc ← unmarshal data;
  match Compile doc with
  | Ok _ => Ok doc
  | Err e => Err (error_text e)
  | Panic p => Panic p
  end.

(** the document of the policy in force *)
Definition document_in_force (o : Options) (file : option bytes) (e0 : env) (reloads : list env)
  : option ConfigDocument :=
  in_force document check_options status_text (m_options (NewManager o file)) file e0 reloads.

Definition reloaded (o : Options) (file : option bytes) (e0 : env) (reloads : list env) : manager Policy :=
  reload_all Parse check_options status_text false (Start (NewManager o file) e0) reloads.

(** decisions are those of the document in force *)
Lemma reloaded_Evaluate o file e0 reloads direction domain target :
  Evaluate (reloaded o file e0 reloads) direction domain target =
  match document_in_force o file e0 reloads with
  | Some doc =>
      if directionEnabled (m_options (NewManager o file)) direction
      then spec_decision doc direction domain target else allowed
  | None => allowed
  end.
Proof.
  destruct (started_cfg Parse check_options status_text false (NewManager o file) e0 reloads eq_refl) as [Hc Ho].
  fold (Start (NewManager o file) e0) (reloaded o file e0 reloads) in Hc, Ho. unfold Evaluate. rewrite Hc.
  assert (option_Forall2 (λ p doc, Compile doc = Ok p)
    (in_force Parse check_options status_text (m_options (NewManager o file)) file e0 reloads)
    (document_in_force o file e0 reloads)) as Hd.
  { apply in_force_related. intros body. unfold accepted, Parse, document.
    destruct (unmarshal body) as [doc|?|?]; cbn; [destruct (Compile doc) eqn:E|..]; by constructor. }
  cbn [NewManager m_file] in Hc |- *. destruct (Enabled (NewManager o file)) eqn:He.
  - specialize (Ho eq_refl). unfold Enabled, directionEnabled in *. rewrite Ho.
    assert (∀ o, URL_ (resolve_ip o e0) = URL_ o ∧ Scope_ (resolve_ip o e0) = Scope_ o) as Hr.
    { intros o'. unfold resolve_ip. repeat case_match; done. }
    rewrite (proj1 (Hr _)), (proj2 (Hr _)), He. cbn [negb orb]. destruct Hd as [p doc Hcomp|].
    + repeat case_match; simplify_eq/=; try done; by apply Evaluate_refines.
    + by case_match.
  - assert (document_in_force o file e0 reloads = None) as Hn.
    { unfold document_in_force, in_force. unfold Enabled in He. apply negb_false_iff in He. by rewrite He. }
    rewrite Hn in Hd |- *. destruct (in_force _ _ _ _ _ _ _); [by inversion Hd|]. by repeat case_match.
Qed.
End Policies.

(** A policy, once loaded, stays in force: whatever sequence of ticks,
    reloads over HTTP and stops the manager goes through, with whatever
    answers of the server and failures of the disk, the policy is never
    dropped, the one in force was compiled from some received document, and
    the cache file always holds a document that compiles. *)
Theorem policy_stays `{GoUnicode} unmarshal error_text m m' :
  rtc (step unmarshal error_text) m m' →
  cache_ok (Parse unmarshal error_text) m → from_some_body (Parse unmarshal error_text) m →
  is_Some (m_cfg m) →
  (∃ p body doc, m_cfg m' = Some p ∧ unmarshal body = Ok doc ∧ Compile doc = Ok p) ∧
  (∀ body, m_file m' = Some body → ∃ doc p, unmarshal body = Ok doc ∧ Compile doc = Ok p).
Proof.
  intros Hs Hc Hb Hm. destruct (reachable_ok _ _ _ _ _ _ Hs Hc Hb) as (Hc' & Hb' & Hm').
  assert (∀ body p, Parse unmarshal error_text body = Ok p →
            ∃ doc, unmarshal body = Ok doc ∧ Compile doc = Ok p) as Hparse.
  { intros body p. unfold Parse. destruct (unmarshal body) as [doc|e|q]; simpl; [|done..].
    destruct (Compile doc) eqn:E; [|done..]. intros ?; simplify_eq. eauto. }
  split.
  - destruct (Hm' Hm) as [p Hp]. destruct (Hb' p Hp) as [body Hbody].
    destruct (Hparse _ _ Hbody) as (doc & ? & ?). eauto 10.
  - intros body Hf. destruct (Hc' body Hf) as [p Hp]. destruct (Hparse _ _ Hp) as (doc & ? & ?). eauto.
Qed.

Definition one_doc (b : bytes) : result string ConfigDocument :=
  if String.eqb (to_string b) "doc" then Ok PolicyExample.doc else Err "json".

Lemma policy_stays_witness :
  let env := {| e_now := 5; e_answer := Answer 500 (Ok []); e_read_fault := None; e_save_fault := None;
                e_local_ip := Err "" |} in
  let o := mk_options "http://p" "" 10 0 "" "app" "10.0.0.1" "" in
  let m := Start one_doc (λ _, "bad") (NewManager o (Some (of_string "doc"))) env in
  rtc (step one_doc (λ _, "bad")) m (Reload one_doc (λ _, "bad") m env).2 ∧
  (∃ p body doc, m_cfg (Reload one_doc (λ _, "bad") m env).2 = Some p ∧ one_doc body = Ok doc ∧ Compile doc = Ok p).
Proof.
  intros env o m.
  assert (rtc (step one_doc (λ _, "bad")) m (Reload one_doc (λ _, "bad") m env).2) as Hs
    by (apply rtc_once, step_reload).
  split; [exact Hs|].
  assert (∃ p, m_cfg m = Some p ∧ Parse one_doc (λ _, "bad") (of_string "doc") = Ok p) as (p & Hm & Hp).
  { subst m. destruct (Parse one_doc (λ _, "bad") (of_string "doc")) as [p|e|q] eqn:E;
      [|vm_compute in E; discriminate E..].
    exists p. split; [|reflexivity].
    apply (Start_offline (Parse one_doc (λ _, "bad")) check_options status_text false _ _ (of_string "doc") p);
      [reflexivity|discriminate|reflexivity|exact E|reflexivity|discriminate]. }
  apply (policy_stays one_doc (λ _, "bad") m _ Hs).
  - intros body Hb. assert (m_file m = Some (of_string "doc")) as Hf by (vm_compute; reflexivity).
    rewrite Hf in Hb. injection Hb as <-. eauto.
  - intros cfg Hcfg. rewrite Hm in Hcfg. injection Hcfg as <-. eauto.
  - rewrite Hm. by eexists.
Defined.

(** A failed reload changes nothing but the recorded error: decisions,
    source and cache file stay what they were, and the status reports the
    error; after a successful one decisions follow the fetched document. *)
Theorem reload_outcome `{GoUnicode} unmarshal error_text m e direction domain target :
  Enabled m = true → (∀ q, fetch status_text (e_answer e) ≠ Panic q) →
  (∀ b q, Parse unmarshal error_text b ≠ Panic q) →
  match Reload unmarshal error_text m e with
  | (Some err, m') =>
      Evaluate m' direction domain target = Evaluate m direction domain target ∧
      m_file m' = m_file m ∧ st_lastError (get_status m') = err ∧ st_rules (get_status m') = st_rules (get_status m)
  | (None, m') =>
      ∃ body doc, fetch status_text (e_answer e) = Ok body ∧ unmarshal body = Ok doc ∧
      st_lastError (get_status m') = "" ∧
      Evaluate m' direction domain target =
        if directionEnabled (m_options m) direction then spec_decision doc direction domain target else allowed
  end.
Proof.
  intros He Hf Hp. unfold Reload. destruct (ConfigManager.Reload _ _ _ _ m e) as [[err|] m'] eqn:Hr.
  - assert (m_options m' = m_options m) as Ho.
    { unfold ConfigManager.Reload in Hr. by repeat (case_match; simplify_eq/=). }
    destruct (Reload_error _ _ _ _ _ _ _ _ Hr) as (Hcfg & Hsrc & Hfile & Herr).
    unfold Evaluate, get_status, Enabled in *. rewrite Hcfg, Ho. simpl. eauto.
  - assert (m_options m' = m_options m) as Ho.
    { unfold ConfigManager.Reload in Hr. repeat (case_match; simplify_eq/=); try done.
      by destruct (saveCache_fields false (setConfig m a0 "remote" "" (e_now e)) e a) as (_ & -> & _). }
    destruct (Reload_success _ _ _ _ _ _ _ He Hr) as (body & cfg & Hb & Hpb & Hcfg & _ & Herr & _).
    unfold Parse in Hpb. destruct (unmarshal body) as [doc|e'|q] eqn:Hu; simpl in Hpb; [|done..].
    destruct (Compile doc) as [p|e'|q] eqn:Hc; simplify_eq.
    exists body, doc. split_and!; [done..|]. unfold Evaluate, Enabled in *. rewrite Hcfg, Ho, He. simpl.
    destruct (directionEnabled _ _); simpl; [|done]. by apply Evaluate_refines.
Qed.

Lemma reload_outcome_witness :
  let e := {| e_now := 5; e_answer := Answer 200 (Ok (of_string "doc")); e_read_fault := None;
              e_save_fault := Some (RenameTemp, "disk"); e_local_ip := Err "" |} in
  let m := NewManager (mk_options "http://p" "" 10 0 "" "app" "10.0.0.1" "") None in
  ∃ m', Reload one_doc (λ _, "bad") m e = (None, m') ∧
  Evaluate m' "outbound" "a.example.com" "" = spec_decision PolicyExample.doc "outbound" "a.example.com" "".
Proof.
  intros e m. destruct (Reload one_doc (λ _, "bad") m e) as [[err|] m'] eqn:E; [vm_compute in E; discriminate E|].
  exists m'. split; [reflexivity|].
  pose proof (reload_outcome one_doc (λ _, "bad") m e "outbound" "a.example.com" "" eq_refl) as Ho.
  rewrite E in Ho. destruct Ho as (body & doc & Hb & Hu & _ & Hev).
  - discriminate.
  - intros b q. unfold Parse, one_doc. destruct (String.eqb (to_string b) "doc"); [|discriminate].
    vm_compute. discriminate.
  - injection Hb as <-. injection Hu as <-. exact Hev.
Defined.
End PolicyManager.

(** ** The runtime configuration manager *)

Module RuntimeManager.
Record UserSource := { us_type : string; us_header : string; us_prefix : string; us_provider : string }.
Record Document := { MITMHosts : list string; UserSources_ : list UserSource }.
Record compiled := { c_doc : Document; c_exact : gset string; c_wildcards : list string }.

Section Runtime.
Context `{GoUnicode}.
Variable unmarshal : bytes → result string Document.

Definition normalizeHost (host : string) : string :=
  let host := TrimSpace host in
  if String.eqb host "" then "" else
  let host := match SplitHostPort host with Some (h, _) => h | None => host end in
  let host := TrimPrefix host "[" in
  let host := TrimSuffix host "]" in
  ToLower (TrimSuffix host ".").

Definition add_host (cfg : compiled) (raw : string) : compiled :=
  let host := normalizeHost raw in
  if String.eqb host "" then cfg
  else if HasPrefix host "*." then
    {| c_doc := c_doc cfg; c_exact := c_exact cfg;
       c_wildcards := c_wildcards cfg ++ [TrimPrefix host "*."] |}
  else {| c_doc := c_doc cfg; c_exact := c_exact cfg ∪ {[ host ]}; c_wildcards := c_wildcards cfg |}.

Definition parse_doc (doc : Document) : compiled :=
  foldl add_host {| c_doc := doc; c_exact := ∅; c_wildcards := [] |} (MITMHosts doc).

Definition parse (body : bytes) : result string compiled :=
  doc ← unmarshal body; Ok (parse_doc doc).

Definition check_options (o : Options) : option string :=
  if String.eqb (TrimSpace (AgentID o)) ""
  then Some "agent-id is required when mitm-enabled is true" else None.

Definition status_text (code : Z) : string := "credential runtime fetch failed: status " +:+ Itoa code.

Definition NewManager (o : Options) (file : option bytes) : manager compiled :=
  let o := mk_options (URL_ o)
    (if String.eqb (CacheFile o) "" then "/tmp/lhotse-credential-runtime-cache.json" else CacheFile o)
    (RefreshInterval o) (if (FetchTimeout o <=? 0)%Z then 5000000000%Z else FetchTimeout o)
    (Scope_ o) (AppName o) (InstanceIP o) (AgentID o) in
  mk_manager o None "" None "" false false file [].

Definition Start : manager compiled → env → manager compiled :=
  ConfigManager.Start parse check_options status_text true.
Definition Reload : manager compiled → env → option string * manager compiled :=
  ConfigManager.Reload parse check_options status_text true.
Definition step : manager compiled → manager compiled → Prop :=
  mstep parse check_options status_text true.

Definition suffix_matches (host suffix : string) : bool :=
  String.eqb host suffix || HasSuffix host ("." +:+ suffix).

Definition MITMEnabledForHost (m : manager compiled) (host : string) : bool :=
  let host := normalizeHost host in
  if String.eqb host "" then false else
  match m_cfg m with
  | None => false
  | Some cfg =>
      bool_decide (host ∈ c_exact cfg) || existsb (suffix_matches host) (c_wildcards cfg)
  end.

(** the document in force *)
Definition document_in_force (o : Options) (file : option bytes) (e0 : env) (reloads : list env) : option Document :=
  in_force unmarshal check_options status_text (m_options (NewManager o file)) file e0 reloads.

Definition reloaded (o : Options) (file : option bytes) (e0 : env) (reloads : list env) : manager compiled :=
  reload_all parse check_options status_text true (Start (NewManager o file) e0) reloads.

Lemma reloaded_cfg o file e0 reloads :
  m_cfg (reloaded o file e0 reloads) = parse_doc <$> document_in_force o file e0 reloads.
Proof.
  destruct (started_cfg parse check_options status_text true (NewManager o file) e0 reloads eq_refl) as [Hc _].
  unfold reloaded, Start. rewrite Hc. cbn [NewManager m_file].
  assert (option_Forall2 (λ c doc, c = parse_doc doc)
    (in_force parse check_options status_text (m_options (NewManager o file)) file e0 reloads)
    (document_in_force o file e0 reloads)) as Hd.
  { apply in_force_related. intros body. unfold accepted, parse. destruct (unmarshal body); by constructor. }
  by destruct Hd as [c doc ->|].
Qed.

Definition UserSources (m : manager compiled) : list UserSource :=
  match m_cfg m with None => [] | Some cfg => UserSources_ (c_doc cfg) end.

Record Status := {
  st_enabled : bool; st_options : Options; st_source : string; st_lastRefresh : option Z;
  st_lastError : string; st_hosts : list string; st_userSources : nat
}.

Definition get_status (m : manager compiled) : Status :=
  {| st_enabled := Enabled m; st_options := m_options m; st_source := m_source m;
     st_lastRefresh := m_lastRefresh m; st_lastError := m_lastError m;
     st_hosts := match m_cfg m with Some c => MITMHosts (c_doc c) | None => [] end;
     st_userSources := match m_cfg m with Some c => length (UserSources_ (c_doc c)) | None => 0 end |}.

Definition handle_status (m : manager compiled) (meth : string) : Z * option Status :=
  if String.eqb meth "GET" then (200%Z, Some (get_status m)) else (405%Z, None).

Definition handle_reload (m : manager compiled) (e : env) (meth : string)
  : Z * (string + option Status) * manager compiled :=
  if negb (String.eqb meth "POST") then ((405%Z, inr None), m) else
  match Reload m e with
  | (Some err, m) => ((502%Z, inl err), m)
  | (None, m) => ((200%Z, inr (Some (get_status m))), m)
  end.

(** ** Which hosts are intercepted *)

(** one configured host against a (normalised) name *)
Definition host_covers (host raw : string) : bool :=
  let d := normalizeHost raw in
  if String.eqb d "" then false
  else if HasPrefix d "*." then suffix_matches host (TrimPrefix d "*.")
  else String.eqb host d.

Lemma add_hosts_spec cfg raws host :
  let cfg' := foldl add_host cfg raws in
  (host ∈ c_exact cfg' ∨ existsb (suffix_matches host) (c_wildcards cfg') = true) ↔
  (host ∈ c_exact cfg ∨ existsb (suffix_matches host) (c_wildcards cfg) = true) ∨
  existsb (host_covers host) raws = true.
Proof.
  revert cfg. induction raws as [|r raws IH]; intros cfg; simpl; [naive_solver|].
  rewrite IH, orb_true_iff. unfold add_host, host_covers.
  destruct (String.eqb (normalizeHost r) ""); [naive_solver|].
  destruct (HasPrefix _ "*."); simpl.
  - rewrite existsb_app. simpl. rewrite orb_false_r, orb_true_iff. tauto.
  - rewrite elem_of_union, elem_of_singleton, String.eqb_eq. tauto.
Qed.
End Runtime.

(** TLS interception is on for a host exactly when one configured host
    covers it: the host is not empty and is equal, after normalisation, to
    the configured one, or is the domain or a subdomain of a "*." entry. *)
Theorem MITMEnabledForHost_spec `{GoUnicode} m doc host :
  m_cfg m = Some (parse_doc doc) →
  MITMEnabledForHost m host = true ↔
  normalizeHost host ≠ "" ∧ ∃ raw, raw ∈ MITMHosts doc ∧ host_covers (normalizeHost host) raw = true.
Proof.
  intros Hm. unfold MITMEnabledForHost. rewrite Hm.
  destruct (String.eqb_spec (normalizeHost host) "") as [E|E]; [naive_solver|].
  rewrite orb_true_iff, bool_decide_eq_true. unfold parse_doc.
  rewrite add_hosts_spec. simpl. rewrite existsb_exists. setoid_rewrite list_elem_of_In.
  split; [|naive_solver]. intros [[Hin|?]|?]; [set_solver|done|naive_solver].
Qed.

Lemma MITMEnabledForHost_spec_witness :
  let doc := {| MITMHosts := ["*.Example.com"; "api.test"]; UserSources_ := [] |} in
  let m := mk_manager (mk_options "u" "f" 0 1 "" "" "" "a") (Some (parse_doc doc)) "" None "" false false None [] in
  MITMEnabledForHost m "example.com:443" = true ↔
  normalizeHost "example.com:443" ≠ "" ∧
  ∃ raw, raw ∈ MITMHosts doc ∧ host_covers (normalizeHost "example.com:443") raw = true.
Proof. intros doc m. exact (MITMEnabledForHost_spec m doc "example.com:443" eq_refl). Defined.

(** *** The other methods of this manager *)
Section Methods.
Context `{GoUnicode}.
Variable unmarshal : bytes → result string Document.
Variable marshal : Document → result string bytes.

Definition Enabled : manager compiled → bool := ConfigManager.Enabled.
Definition Stop : manager compiled → manager compiled := ConfigManager.Stop.
Definition setConfig : manager compiled → compiled → string → string → Z → manager compiled := ConfigManager.setConfig.
Definition setError : manager compiled → string → manager compiled := ConfigManager.setError.
Definition loadCache : manager compiled → env → option string * manager compiled := ConfigManager.loadCache (parse unmarshal).
(** the temporary file is removed on every path *)
Definition saveCache : manager compiled → env → bytes → option string * manager compiled := ConfigManager.saveCache true.

Definition ReloadDocumentForTest (m : manager compiled) (doc : Document) (now : Z) : option string * manager compiled :=
  match marshal doc with
  | Err err => (Some err, m)
  | Panic _ => (Some "panic", m)
  | Ok body =>
      match parse unmarshal body with
      | Err err => (Some err, m)
      | Panic _ => (Some "panic", m)
      | Ok cfg => (None, setConfig m cfg "test" "" now)
      end
  end.
End Methods.

(** A wildcard "*.x" of the interception list covers x itself; the same
    wildcard of a domain policy does not match x. *)
Lemma wildcard_apex_differs domain :
  suffix_matches domain domain = true ∧ wildcard_matches domain domain = false.
Proof. unfold suffix_matches, wildcard_matches. by rewrite String.eqb_refl, andb_false_r. Qed.
End RuntimeManager.
