(* ===== verification/ManagerThreads.v ===== *)
(** * The managers under concurrent reloads

    The refresh loop of a manager and every request to its reload handler call
    [Reload] from goroutines of their own (refreshLoop and Reload of
    cmd/proxy/domainpolicy/manager.go and cmd/proxy/runtimeconfig/manager.go).
    ConfigManager has [Reload] as one function; here it has the phases between
    its accesses to the manager and to the disk, and any number of goroutines
    are in any of them.

    What the manager decides by is then what the reloads leave that are made one
    after the other, in the order in which they took the lock: [sh_done] records
    them.  The cache file follows another order, that of the renames. *)

From S2P Require Export Threads ConfigManager.
Import PolicyExample.

Local Open Scope string_scope.
Local Open Scope nat_scope.
Local Open Scope list_scope.

(** what a reload does afterwards: the loop waits again, a handler answers *)
Inductive caller := Loop | Handler.

Inductive phase (C : Type) :=
  | Waiting                                     (* the select of refreshLoop *)
  | Asking (k : caller)                         (* Reload is called *)
  | Failing (k : caller) (a : http_answer) (err : string)            (* before setError *)
  | Parsed (k : caller) (a : http_answer) (body : bytes) (cfg : C)   (* before setPolicy or setConfig *)
  | Saving (k : caller) (body : bytes)          (* saveCache is called *)
  | Written (k : caller) (body : bytes)         (* the temporary file is closed *)
  | Stopping.                                   (* Stop is called *)
Arguments Waiting {C}.
Arguments Asking {C} _.
Arguments Failing {C} _ _ _.
Arguments Parsed {C} _ _ _ _.
Arguments Saving {C} _ _.
Arguments Written {C} _ _.
Arguments Stopping {C}.

(** the manager, and what the reloads that have taken its lock had found *)
Record shared (C : Type) := mk_sh { sh_m : manager C; sh_done : list env }.
Arguments mk_sh {C} _ _.
Arguments sh_m {C} _.
Arguments sh_done {C} _.

Definition finish {C} (k : caller) : option (phase C) := match k with Loop => Some Waiting | Handler => None end.

(** a reload as the record of what it found; its disk is not part of it *)
Definition found (now : Z) (a : http_answer) : env :=
  {| e_now := now; e_answer := a; e_read_fault := None; e_save_fault := None; e_local_ip := Err "" |}.

Section ManagerThreads.
Context {C : Type}.
Variable parse : bytes → result string C.
Variable precheck : Options → option string.
Variable bad_status : Z → string.
Variable rename_cleans : bool.

Implicit Types (s : shared C) (l : phase C) (m : manager C).

Definition starts s l s' : Prop :=
  s' = s ∧
  match l with
  | Waiting => m_looping (sh_m s) = true
  | Asking Handler | Stopping => True
  | _ => False
  end.

(** [fetch] and the parser; without a next phase they have panicked *)
Definition answered (k : caller) (a : http_answer) : option (phase C) :=
  match fetch bad_status a with
  | Err err => Some (Failing k a err)
  | Panic _ => None
  | Ok body =>
      match parse body with
      | Err err => Some (Failing k a err)
      | Panic _ => None
      | Ok cfg => Some (Parsed k a body cfg)
      end
  end.

Inductive reload_step : shared C → phase C → shared C → option (phase C) → Prop :=
  | r_tick s : reload_step s Waiting s (Some (Asking Loop))
  | r_quit s : m_stopped (sh_m s) = true → reload_step s Waiting (mk_sh (set_loop (sh_m s) false) (sh_done s)) None
  | r_disabled s k : Enabled (sh_m s) = false → reload_step s (Asking k) s (finish k)
  | r_missing s k a err : Enabled (sh_m s) = true → precheck (m_options (sh_m s)) = Some err →
      reload_step s (Asking k) s (Some (Failing k a err))
  | r_answer s k a : Enabled (sh_m s) = true → precheck (m_options (sh_m s)) = None →
      reload_step s (Asking k) s (answered k a)
  | r_error s k a err now :
      reload_step s (Failing k a err) (mk_sh (setError (sh_m s) err) (sh_done s ++ [found now a])) (finish k)
  | r_set s k a body cfg now :
      reload_step s (Parsed k a body cfg)
        (mk_sh (setConfig (sh_m s) cfg "remote" "" now) (sh_done s ++ [found now a])) (Some (Saving k body))
  | r_no_file s k body : CacheFile (m_options (sh_m s)) = "" → reload_step s (Saving k body) s (finish k)
  | r_unwritten s k body : CacheFile (m_options (sh_m s)) ≠ "" → reload_step s (Saving k body) s (finish k)
  | r_written s k body : CacheFile (m_options (sh_m s)) ≠ "" →
      reload_step s (Saving k body) s (Some (Written k body))
  | r_renamed s k body :
      reload_step s (Written k body) (mk_sh (set_files (sh_m s) (Some body) (m_temps (sh_m s))) (sh_done s)) (finish k)
  | r_not_renamed s k body :
      reload_step s (Written k body)
        (mk_sh (set_files (sh_m s) (m_file (sh_m s))
                  (if rename_cleans then m_temps (sh_m s) else m_temps (sh_m s) ++ [body])) (sh_done s)) (finish k)
  | r_stop s : reload_step s Stopping (mk_sh (Stop (sh_m s)) (sh_done s)) None.

Definition mtstep : shared C * gmap nat (phase C) → shared C * gmap nat (phase C) → Prop := tstep starts reload_step.

(** ** The reloads in the order of the lock *)

Definition same_memory m m' : Prop :=
  m_options m = m_options m' ∧ m_cfg m = m_cfg m' ∧ m_source m = m_source m' ∧
  m_lastRefresh m = m_lastRefresh m' ∧ m_lastError m = m_lastError m'.

Lemma same_memory_agree m m' : same_memory m m' → agree m m'.
Proof. intros (? & ? & _). done. Qed.

(** a body some reload of the record has put into force *)
Definition installed (done : list env) (body : bytes) : Prop :=
  ∃ e cfg, e ∈ done ∧ fetch bad_status (e_answer e) = Ok body ∧ parse body = Ok cfg.

(** what a goroutine knows in its phase *)
Definition knows s l : Prop :=
  match l with
  | Failing _ a err => Enabled (sh_m s) = true ∧
      (precheck (m_options (sh_m s)) = Some err ∨
       precheck (m_options (sh_m s)) = None ∧
         (fetch bad_status a = Err err ∨ ∃ body, fetch bad_status a = Ok body ∧ parse body = Err err))
  | Parsed _ a body cfg => Enabled (sh_m s) = true ∧ precheck (m_options (sh_m s)) = None ∧
      fetch bad_status a = Ok body ∧ parse body = Ok cfg
  | Saving _ body | Written _ body => installed (sh_done s) body
  | _ => True
  end.

(** what the others leave alone *)
Definition keeps s s' : Prop := m_options (sh_m s') = m_options (sh_m s) ∧ ∃ more, sh_done s' = sh_done s ++ more.

Definition linear (m0 : manager C) s : Prop :=
  same_memory (sh_m s) (reload_all parse precheck bad_status rename_cleans m0 (sh_done s)) ∧
  (m_file (sh_m s) = m_file m0 ∨ ∃ body, m_file (sh_m s) = Some body ∧ installed (sh_done s) body).

Lemma installed_app done more body : installed done body → installed (done ++ more) body.
Proof. intros (e & cfg & He & ?). exists e, cfg. rewrite elem_of_app. auto. Qed.

Lemma knows_stable s s' l : keeps s s' → knows s l → knows s' l.
Proof.
  intros [Ho [more Hd]]. destruct l; cbn; unfold Enabled; rewrite ?Ho, ?Hd; auto using installed_app.
Qed.

Lemma keeps_same s : keeps s s.
Proof. split; [done|]. exists []. by rewrite app_nil_r. Qed.

(** a reload that fails, or puts a configuration into force, does to the memory
    what [Reload] does *)
Lemma Reload_fails m a err now : Enabled m = true →
  (precheck (m_options m) = Some err ∨ precheck (m_options m) = None ∧
     (fetch bad_status a = Err err ∨ ∃ body, fetch bad_status a = Ok body ∧ parse body = Err err)) →
  (Reload parse precheck bad_status rename_cleans m (found now a)).2 = setError m err.
Proof.
  unfold Reload. intros ->. cbn [negb e_answer found].
  intros [->|[-> [->|(body & -> & ->)]]]; done.
Qed.

Lemma Reload_sets m a body cfg now : Enabled m = true → precheck (m_options m) = None →
  fetch bad_status a = Ok body → parse body = Ok cfg →
  same_memory (Reload parse precheck bad_status rename_cleans m (found now a)).2 (setConfig m cfg "remote" "" now).
Proof.
  unfold Reload. intros ->. cbn [negb e_answer found]. intros -> -> ->. cbn [snd]. unfold saveCache.
  by destruct (String.eqb _ _).
Qed.

Lemma same_memory_refl m : same_memory m m.
Proof. done. Qed.

Lemma same_memory_trans m1 m2 m3 : same_memory m1 m2 → same_memory m2 m3 → same_memory m1 m3.
Proof. unfold same_memory. naive_solver congruence. Qed.

Lemma same_memory_setError m m' err : same_memory m m' → same_memory (setError m err) (setError m' err).
Proof. unfold same_memory, setError. naive_solver. Qed.

Lemma same_memory_setConfig m m' cfg now :
  same_memory m m' → same_memory (setConfig m cfg "remote" "" now) (setConfig m' cfg "remote" "" now).
Proof. unfold same_memory, setConfig. naive_solver. Qed.

Lemma knows_finish s k l : finish k = Some l → knows s l.
Proof. destruct k; intros [= <-]. done. Qed.

Lemma knows_answered s k a l : Enabled (sh_m s) = true → precheck (m_options (sh_m s)) = None →
  answered k a = Some l → knows s l.
Proof.
  intros He Hp. unfold answered. destruct (fetch bad_status a) as [body|err|?] eqn:Hf; [|intros [= <-]|done].
  - destruct (parse body) as [cfg|err|?] eqn:Hb; [intros [= <-]; done|intros [= <-]|done]. cbn. eauto 10.
  - cbn. eauto.
Qed.

(** a step that takes the lock to record what its reload found *)
Lemma linear_commit m0 s m' e : linear m0 s →
  same_memory m' (Reload parse precheck bad_status rename_cleans
    (reload_all parse precheck bad_status rename_cleans m0 (sh_done s)) e).2 →
  m_file m' = m_file (sh_m s) → m_options m' = m_options (sh_m s) →
  linear m0 (mk_sh m' (sh_done s ++ [e])) ∧ keeps s (mk_sh m' (sh_done s ++ [e])).
Proof.
  intros [_ Hf] Hm Hfile Ho. split; [split; cbn [sh_m sh_done]|split; [done|by exists [e]]].
  - unfold reload_all. rewrite foldl_snoc. exact Hm.
  - rewrite Hfile. destruct Hf as [?|(body & ? & ?)]; [by left|right]. exists body. auto using installed_app.
Qed.

Lemma linear_Enabled m0 s : linear m0 s →
  let m := reload_all parse precheck bad_status rename_cleans m0 (sh_done s) in
  Enabled m = Enabled (sh_m s) ∧ m_options m = m_options (sh_m s).
Proof. intros [(Ho & _) _]. unfold Enabled. by rewrite Ho. Qed.

(** a step that leaves the memory and the record *)
Lemma linear_same m0 s m' : linear m0 s → same_memory m' (sh_m s) →
  (m_file m' = m_file (sh_m s) ∨ ∃ body, m_file m' = Some body ∧ installed (sh_done s) body) →
  linear m0 (mk_sh m' (sh_done s)) ∧ keeps s (mk_sh m' (sh_done s)).
Proof.
  intros [Hm Hf] Hs Hfile. split; [split; cbn [sh_m sh_done]|split; [apply Hs|exists []; by rewrite app_nil_r]].
  - by eapply same_memory_trans.
  - destruct Hfile as [->|?]; [exact Hf|by right].
Qed.

Lemma reload_step_ok m0 s l s' (l' : option (phase C)) : linear m0 s → knows s l → reload_step s l s' l' →
  (linear m0 s' ∧ keeps s s') ∧ ∀ l1, l' = Some l1 → knows s' l1.
Proof.
  intros Hlin Hk Hst. pose proof (linear_Enabled m0 s Hlin) as [He Ho].
  assert (linear m0 s ∧ keeps s s) as Hstay by (split; [done|apply keeps_same]).
  destruct Hst as [s|s Hq|s k Hd|s k a err Hen Hp|s k a Hen Hp|s k a err now|s k a body cfg now|s k body Hc|s k body Hc|s k body Hc
                  |s k body|s k body|s]; cbn [knows] in Hk.
  - split; [exact Hstay|]. by intros ? [= <-].
  - split; [apply linear_same; [done|done|by left]|done].
  - split; [exact Hstay|apply knows_finish].
  - split; [exact Hstay|]. intros ? [= <-]. cbn. auto.
  - split; [exact Hstay|]. intros l1. by apply knows_answered.
  - destruct Hk as [Hen Hk]. split; [|apply knows_finish]. apply linear_commit; [done| |done..].
    rewrite (Reload_fails _ a err); [|by rewrite He|by rewrite Ho]. apply same_memory_setError, Hlin.
  - destruct Hk as (Hen & Hp & Hf & Hb). split.
    + apply linear_commit; [done| |done..].
      eapply same_memory_trans; [apply same_memory_setConfig, Hlin|].
      pose proof (Reload_sets (reload_all parse precheck bad_status rename_cleans m0 (sh_done s)) a body cfg now) as Hr.
      rewrite He, Ho in Hr. destruct (Hr Hen Hp Hf Hb) as (? & ? & ? & ? & ?). done.
    + intros ? [= <-]. exists (found now a), cfg. cbn [sh_done]. rewrite elem_of_app, list_elem_of_singleton. auto.
  - split; [exact Hstay|apply knows_finish].
  - split; [exact Hstay|apply knows_finish].
  - split; [exact Hstay|]. by intros ? [= <-].
  - split; [apply linear_same; [done|done|right; by exists body]|apply knows_finish].
  - split; [apply linear_same; [done|done|by left]|apply knows_finish].
  - split; [apply linear_same; [done|done|by left]|done].
Qed.

(** the invariant of the manager and its goroutines *)
Definition linearized (m0 : manager C) (r : shared C * gmap nat (phase C)) : Prop :=
  linear m0 r.1 ∧ all_threads knows r.1 r.2.

Lemma linearized_step m0 : invariant mtstep (linearized m0).
Proof.
  apply (rely_guarantee starts reload_step (linear m0) knows keeps).
  - intros s l s' Hl [-> Hs]. split; [done|]. split; [apply keeps_same|]. by destruct l.
  - intros s l s' l' Hl Hk Hs. apply and_assoc. by eapply reload_step_ok.
  - apply knows_stable.
Qed.

Lemma linearized_start m : linearized m (mk_sh m [], ∅).
Proof. split; [by split; [|left]|]. by intros i l. Qed.

Lemma linearized_reachable m0 r : rtc mtstep (mk_sh m0 [], ∅) r → linearized m0 r.
Proof. intros Hr. eapply invariant_reachable; [apply linearized_step|apply linearized_start|exact Hr]. Qed.

Lemma linearized_agree m0 r : linearized m0 r →
  agree (sh_m r.1) (reload_all parse precheck bad_status rename_cleans m0 (sh_done r.1)).
Proof. intros [[Hm _] _]. by apply same_memory_agree. Qed.

(** ** One goroutine by itself *)

(** what [Reload] does is one of the runs of a goroutine the others leave alone *)
Lemma Reload_alone m done e k : (Reload parse precheck bad_status rename_cleans m e).1 ≠ Some "panic" →
  ∃ done', alone reload_step (mk_sh m done) (Asking k)
    (mk_sh (Reload parse precheck bad_status rename_cleans m e).2 done') (finish k).
Proof.
  unfold Reload. destruct (Enabled m) eqn:He; cbn [negb].
  2: { intros _. exists done. by apply alone_one, r_disabled. }
  destruct (precheck (m_options m)) as [err|] eqn:Hp.
  { intros _. eexists. eapply (alone_more _ _ _ (mk_sh m done)); [by apply (r_missing _ k (e_answer e) err)|].
    apply alone_one, (r_error (mk_sh m done) k (e_answer e) err 0). }
  pose proof (r_answer (mk_sh m done) k (e_answer e) He Hp) as Ha. unfold answered in Ha.
  destruct (fetch bad_status (e_answer e)) as [body|err|?]; [|intros _|done].
  2: { eexists. eapply alone_more; [exact Ha|]. apply alone_one, (r_error (mk_sh m done) k (e_answer e) err 0). }
  destruct (parse body) as [cfg|err|?]; [|intros _|done].
  2: { eexists. eapply alone_more; [exact Ha|]. apply alone_one, (r_error (mk_sh m done) k (e_answer e) err 0). }
  intros _. cbn [snd]. exists (done ++ [found (e_now e) (e_answer e)]). eapply alone_more; [exact Ha|].
  eapply alone_more; [apply (r_set (mk_sh m done) k (e_answer e) body cfg (e_now e))|]. cbn [sh_m sh_done]. generalize (done ++ [found (e_now e) (e_answer e)]) as d.
  intros d. set (m1 := setConfig m cfg "remote" "" (e_now e)). unfold saveCache.
  destruct (String.eqb_spec (CacheFile (m_options m1)) "") as [Hc|Hc]; [by apply alone_one, r_no_file|].
  destruct (e_save_fault e) as [[[] ?]|]; try by apply alone_one, r_unwritten.
  - eapply alone_more; [by apply (r_written (mk_sh m1 d))|]. apply alone_one. apply (r_not_renamed (mk_sh m1 d)).
  - eapply alone_more; [by apply (r_written (mk_sh m1 d))|]. apply alone_one. apply (r_renamed (mk_sh m1 d)).
Qed.
End ManagerThreads.

(** ** Properties *)

(** C16: The policy manager under concurrent reloads: whatever the refresh loop and
    any number of reload handlers do at once, in whatever order the server
    answers them and the scheduler lets them go on, the manager decides and
    reports as if the reloads had run one after the other in the order of the
    lock; so the document in force is the newest in that order, and none is lost.
    The cache file holds what was found at the start, or a document one of these
    reloads has put into force. *)
Theorem reloads_linearize `{GoUnicode} unmarshal error_text o file e0 s ths :
  let m0 := PolicyManager.Start unmarshal error_text (PolicyManager.NewManager o file) e0 in
  rtc (mtstep (PolicyManager.Parse unmarshal error_text) PolicyManager.check_options PolicyManager.status_text false)
    (mk_sh m0 [], ∅) (s, ths) →
  PolicyManager.get_status (sh_m s) =
    PolicyManager.get_status (PolicyManager.reloaded unmarshal error_text o file e0 (sh_done s)) ∧
  (∀ direction domain target, PolicyManager.Evaluate (sh_m s) direction domain target =
    match PolicyManager.document_in_force unmarshal error_text o file e0 (sh_done s) with
    | Some doc =>
        if PolicyManager.directionEnabled (m_options (PolicyManager.NewManager o file)) direction
        then spec_decision doc direction domain target else allowed
    | None => allowed
    end) ∧
  (∀ body, m_file (sh_m s) = Some body → m_file m0 = Some body ∨
     ∃ e doc p, e ∈ sh_done s ∧ fetch PolicyManager.status_text (e_answer e) = Ok body ∧
       unmarshal body = Ok doc ∧ Compile doc = Ok p).
Proof.
  intros m0 [[Hm Hf] Hk]%linearized_reachable. cbn [fst] in *. split_and!.
  - destruct Hm as (Ho & Hc & Hs & Hr & Hl). unfold PolicyManager.get_status, Enabled.
    by rewrite Ho, Hc, Hs, Hr, Hl.
  - intros direction domain target. rewrite <- PolicyManager.reloaded_Evaluate.
    by apply PolicyManager.Evaluate_agree, same_memory_agree.
  - intros body Hb. destruct Hf as [Hf|(body' & Hf & e & p & He & Ha & Hp)]; [left; congruence|right].
    assert (body' = body) as -> by congruence. unfold PolicyManager.Parse in Hp.
    destruct (unmarshal body) as [doc|?|?] eqn:Hu; [|done..]. cbn in Hp.
    destruct (Compile doc) as [p'|?|?] eqn:Hc; [|done..]. by exists e, doc, p'.
Qed.

(** Two reloads of a concrete manager: the second is asked later but is sooner
    with the lock, and later again with its file. *)
Module ManagerThreadsExample.
Definition o : Options := mk_options "http://p" "f" 0 5 "" "app" "10.0.0.1" "".
Definition m0 : manager bytes := mk_manager o None "" None "" false false None [].
Definition parse (b : bytes) : result string bytes := Ok b.
Definition old : bytes := of_string "old".
Definition new : bytes := of_string "new".
Definition answer (b : bytes) : http_answer := Answer 200 (Ok b).
Definition tst := mtstep parse (λ _, None) (λ _, "status") false.
Definition set (m : manager bytes) (b : bytes) : manager bytes := setConfig m b "remote" "" 7.
Definition file (m : manager bytes) (b : bytes) : manager bytes := set_files m (Some b) (m_temps m).
Definition s1 : shared bytes := mk_sh (set m0 old) [found 7 (answer old)].
Definition s2 : shared bytes := mk_sh (set (set m0 old) new) [found 7 (answer old); found 7 (answer new)].
Definition s3 : shared bytes := mk_sh (file (sh_m s2) new) (sh_done s2).
Definition s4 : shared bytes := mk_sh (file (sh_m s3) old) (sh_done s2).

Definition both (l0 l1 : phase bytes) : gmap nat (phase bytes) := <[1 := l1]> (<[0 := l0]> ∅).

Lemma step0 s l0 l0' s' l1 : reload_step parse (λ _, None) (λ _, "status") false s l0 s' (Some l0') →
  tst (s, both l0 l1) (s', both l0' l1).
Proof.
  intros Hs. assert (both l0' l1 = set_thread 0 (Some l0') (both l0 l1)) as ->.
  { unfold both. cbn. by rewrite (insert_insert_ne _ 0 1), insert_insert_eq. }
  by eapply t_run.
Qed.

Lemma step1 s l0 l1 l1' s' : reload_step parse (λ _, None) (λ _, "status") false s l1 s' (Some l1') →
  tst (s, both l0 l1) (s', both l0 l1').
Proof.
  intros Hs. assert (both l0 l1' = set_thread 1 (Some l1') (both l0 l1)) as ->.
  { unfold both. cbn. by rewrite insert_insert_eq. }
  by eapply t_run.
Qed.

Lemma both_set : rtc tst (mk_sh m0 [], ∅) (s2, both (Saving Handler old) (Saving Handler new)).
Proof.
  eapply rtc_l; [by apply (t_go _ _ _ ∅ 0 (Asking Handler) (mk_sh m0 []))|].
  eapply rtc_l; [by apply (t_go _ _ _ (<[0 := Asking Handler]> ∅) 1 (Asking Handler) (mk_sh m0 []))|].
  eapply rtc_l; [eapply (step0 (mk_sh m0 []) _ (Parsed Handler (answer old) old old));
    exact (r_answer parse (λ _, None) (λ _, "status") false (mk_sh m0 []) Handler (answer old) eq_refl eq_refl)|].
  eapply rtc_l; [eapply (step1 (mk_sh m0 []) _ _ (Parsed Handler (answer new) new new));
    exact (r_answer parse (λ _, None) (λ _, "status") false (mk_sh m0 []) Handler (answer new) eq_refl eq_refl)|].
  eapply rtc_l; [apply step0, (r_set _ _ _ _ (mk_sh m0 []) Handler (answer old) old old 7)|].
  apply rtc_once, step1, (r_set _ _ _ _ s1 Handler (answer new) new new 7).
Qed.

Lemma both_saved : rtc tst (s2, both (Saving Handler old) (Saving Handler new)) (s4, ∅).
Proof.
  eapply rtc_l; [apply step1, r_written; discriminate|].
  eapply rtc_l; [apply step0, r_written; discriminate|].
  eapply rtc_l; [apply (t_run _ _ s2 (both (Written Handler old) (Written Handler new)) 1 (Written Handler new) s3 None); [reflexivity|];
    exact (r_renamed parse (λ _, None) (λ _, "status") false s2 Handler new)|].
  apply rtc_once.
  change (tst (s3, delete 1 (both (Written Handler old) (Written Handler new))) (s4, set_thread 0 None (delete 1 (both (Written Handler old) (Written Handler new))))).
  eapply t_run; [reflexivity|]. exact (r_renamed parse (λ _, None) (λ _, "status") false s3 Handler old).
Qed.
End ManagerThreadsExample.

(** The memory and the cache file can part for good: two reloads, both without
    any fault, leave the newer document in force and the older one in the file,
    which the next start without a server begins with. *)
Theorem cache_diverges : ∃ s,
  rtc ManagerThreadsExample.tst (mk_sh ManagerThreadsExample.m0 [], ∅) (s, ∅) ∧
  m_cfg (sh_m s) = Some ManagerThreadsExample.new ∧ m_file (sh_m s) = Some ManagerThreadsExample.old ∧
  m_lastError (sh_m s) = "".
Proof.
  exists ManagerThreadsExample.s4. split; [|done].
  etrans; [apply ManagerThreadsExample.both_set|apply ManagerThreadsExample.both_saved].
Qed.

Lemma reloads_linearize_witness :
  let o := mk_options "http://p" "" 10 0 "" "app" "10.0.0.1" "" in
  let e0 := {| e_now := 5; e_answer := Answer 500 (Ok []); e_read_fault := None; e_save_fault := None;
               e_local_ip := Err "" |} in
  let m0 := PolicyManager.Start PolicyManager.one_doc (λ _, "bad") (PolicyManager.NewManager o None) e0 in
  ∃ s ths,
    rtc (mtstep (PolicyManager.Parse PolicyManager.one_doc (λ _, "bad")) PolicyManager.check_options PolicyManager.status_text false)
      (mk_sh m0 [], ∅) (s, ths) ∧
    PolicyManager.Evaluate (sh_m s) "outbound" "a.example.com" "" =
      spec_decision PolicyExample.doc "outbound" "a.example.com" "".
Proof.
  intros o e0 m0. pose (a := Answer 200 (Ok (of_string "doc"))).
  destruct (PolicyManager.Parse PolicyManager.one_doc (λ _, "bad") (of_string "doc")) as [p|err|q] eqn:Hp;
    [|vm_compute in Hp; discriminate Hp..].
  pose (s := mk_sh (setConfig m0 p "remote" "" 7) [found 7 a]).
  pose (ths := set_thread 0 (Some (Saving Handler (of_string "doc"))) (set_thread 0 (Some (Parsed Handler a (of_string "doc") p))
    (<[0 := Asking Handler]> ∅)) : gmap nat (phase Policy)).
  assert (rtc (mtstep (PolicyManager.Parse PolicyManager.one_doc (λ _, "bad")) PolicyManager.check_options PolicyManager.status_text false)
      (mk_sh m0 [], ∅) (s, ths)) as Hr.
  { eapply rtc_l; [by apply (t_go _ _ _ ∅ 0 (Asking Handler) (mk_sh m0 []))|].
    eapply rtc_l; [apply (t_run _ _ (mk_sh m0 []) (<[0 := Asking Handler]> ∅) 0 (Asking Handler) (mk_sh m0 [])
                     (Some (Parsed Handler a (of_string "doc") p))); [by rewrite lookup_insert_eq|]|].
    - replace (Some (Parsed Handler a (of_string "doc") p)) with
        (answered (PolicyManager.Parse PolicyManager.one_doc (λ _, "bad")) PolicyManager.status_text Handler a).
      2: { unfold answered. change (fetch PolicyManager.status_text a) with (Ok (E:=string) (of_string "doc")).
           cbv iota. by rewrite Hp. }
      apply r_answer; vm_compute; reflexivity.
    - apply rtc_once. eapply t_run; [cbn; by rewrite lookup_insert_eq|]. apply r_set. }
  exists s, ths. split; [exact Hr|].
  destruct (reloads_linearize PolicyManager.one_doc (λ _, "bad") o None e0 s ths Hr) as (_ & -> & _).
  vm_compute. reflexivity.
Defined.
