(* ===== verification/Credentials.v ===== *)
(** * Credentials and identities

    Models pkg/credential/fetcher.go and resolver.go, pkg/identity/resolver.go
    and cmd/proxy/credentials.go: the two caches in front of the vault, the
    choice of the user, and the injection of a credential into a request's
    header.

    Times are nanoseconds.  The vault is a function of the time its answer is
    used at and of the question; the JSON decoders and the hash of a token
    ([crypto/sha256]) are arguments.  [Resolve] is one function here;
    CredentialThreads lets several questions be under way at once. *)

From S2P Require Export ConfigManager.
Import PolicyExample.
From Stdlib Require Import Ascii.

Local Open Scope string_scope.
Local Open Scope nat_scope.
Local Open Scope list_scope.

Definition second : Z := 1000000000.

(** [strings.TrimRight s "/"] *)
Definition trim_slashes (s : string) : string := TrimRightFunc (Ascii.eqb "/") s.

(** ** pkg/credential *)

Module Credential.
Record t := { HeaderName : string; HeaderPrefix : string; Value : string }.

#[export] Instance t_eq_dec : EqDecision t.
Proof. solve_decision. Defined.

Record cacheEntry := { ce_cred : option t; ce_expiresAt : Z }.

Record Resolver := { vaultURI : string; cache : gmap string cacheEntry; ttl : Z }.

(** a fetcher is the address of its vault *)
Definition NewFetcher (uri : string) : string := trim_slashes uri.

Definition NewResolver (uri : string) : Resolver :=
  {| vaultURI := NewFetcher uri; cache := ∅; ttl := 30 * second |}.

Definition fmtKey (agentID targetHost userID : string) : string :=
  agentID +:+ ":" +:+ targetHost +:+ ":" +:+ userID.

Section Resolve.
Variable decode : bytes → result string (option t).
Variable vault : Z → string → string → string → http_answer.

Definition Fetch (uri : string) (a : http_answer) : result string (option t) :=
  if String.eqb uri "" then Ok None else
  match a with
  | Transport err => Err err
  | Answer code body =>
      if (code =? 404)%Z then Ok None
      else if negb (code =? 200)%Z then
        Err ("vault resolve returned " +:+ Itoa code +:+ ": " +:+
             match body with Ok b => to_string b | _ => "" end)
      else b ← body; decode b
  end.

Definition set_cache (r : Resolver) (c : gmap string cacheEntry) : Resolver :=
  {| vaultURI := vaultURI r; cache := c; ttl := ttl r |}.

(** [now]: when the cache is consulted; [later]: when the answer is stored *)
Definition Resolve (r : Resolver) (now later : Z) (agentID targetHost userID : string)
  : result string (option t) * Resolver :=
  if String.eqb (vaultURI r) "" then (Ok None, r) else
  let key := fmtKey agentID targetHost userID in
  let miss r :=
    match Fetch (vaultURI r) (vault later agentID targetHost userID) with
    | Ok cred =>
        (Ok cred, set_cache r (<[key := {| ce_cred := cred; ce_expiresAt := later + ttl r |}]> (cache r)))
    | Err e => (Err e, r)
    | Panic p => (Panic p, r)
    end in
  match cache r !! key with
  | Some entry =>
      if (now <? ce_expiresAt entry)%Z then (Ok (ce_cred entry), r)
      else miss (set_cache r (delete key (cache r)))
  | None => miss r
  end.

(** a question whose parts the key keeps apart *)
Definition colon_free (s : string) : Prop := IndexByte s ":" = None.

Lemma fmtKey_inj a h u a' h' u' :
  colon_free a → colon_free h → colon_free a' → colon_free h' →
  fmtKey a h u = fmtKey a' h' u' → a = a' ∧ h = h' ∧ u = u'.
Proof.
  unfold colon_free, fmtKey. intros Ha Hh Ha' Hh' E.
  assert (∀ x y z w : string, IndexByte x ":" = None → IndexByte y ":" = None →
    x +:+ ":" +:+ z = y +:+ ":" +:+ w → x = y ∧ z = w) as Hs.
  { intros x y z w Hx Hy Hxy. change (x +:+ String ":" z = y +:+ String ":" w) in Hxy.
    assert (String.length x = String.length y) as Hl.
    { pose proof (IndexByte_app_None x z ":" Hx) as H1. rewrite Hxy, (IndexByte_app_None y w ":" Hy) in H1.
      by injection H1 as ->. }
    apply str_app_inj_len in Hxy as [-> Hxy]; [|done]. by injection Hxy as ->. }
  apply Hs in E as [-> E]; [|done..]. by apply Hs in E as [-> ->].
Qed.

(** every entry answers a question with its key, asked one [ttl] before it
    expires *)
Definition fresh (r : Resolver) : Prop :=
  ∀ key e, cache r !! key = Some e → ∃ t a h u,
    key = fmtKey a h u ∧ colon_free a ∧ colon_free h ∧
    ce_expiresAt e = (t + ttl r)%Z ∧ Fetch (vaultURI r) (vault t a h u) = Ok (ce_cred e).

Inductive cstep : Resolver → Resolver → Prop :=
  | cstep_resolve r now later a h u :
      colon_free a → colon_free h → cstep r (Resolve r now later a h u).2.

Lemma fresh_delete r key : fresh r → fresh (set_cache r (delete key (cache r))).
Proof. intros Hr k e Hk. cbn in Hk. apply lookup_delete_Some in Hk as [_ Hk]. by apply Hr. Qed.

Lemma fresh_miss r later a h u cred : fresh r → colon_free a → colon_free h →
  Fetch (vaultURI r) (vault later a h u) = Ok cred →
  fresh (set_cache r (<[fmtKey a h u := {| ce_cred := cred; ce_expiresAt := later + ttl r |}]> (cache r))).
Proof.
  intros Hr Ha Hh Hf k e Hk. cbn in Hk. apply lookup_insert_Some in Hk as [[<- <-]|[_ Hk]]; [|by apply Hr].
  exists later, a, h, u. done.
Qed.

Lemma Resolve_fresh r now later a h u : fresh r → colon_free a → colon_free h →
  fresh (Resolve r now later a h u).2.
Proof.
  intros Hr Ha Hh. unfold Resolve. destruct (String.eqb _ ""); [done|].
  assert (∀ r', fresh r' → fresh (match Fetch (vaultURI r') (vault later a h u) with
    | Ok cred => (Ok cred, set_cache r' (<[fmtKey a h u := {| ce_cred := cred; ce_expiresAt := later + ttl r' |}]> (cache r')))
    | Err e => (Err e, r') | Panic p => (Panic p, r') end).2) as Hmiss.
  { intros r' Hr'. destruct (Fetch _ _) eqn:E; [by apply fresh_miss|done..]. }
  destruct (cache r !! _) as [e|]; [|by apply Hmiss].
  destruct (now <? _)%Z; [done|]. by apply (Hmiss (set_cache r _)), fresh_delete.
Qed.

Lemma fresh_reachable r r' : rtc cstep r r' → fresh r → fresh r'.
Proof.
  intros Hs Hr. eapply invariant_reachable; [|exact Hr|exact Hs].
  intros s s1 Hf Hst. destruct Hst as [r1 now later a h u Ha Hh]. by apply Resolve_fresh.
Qed.

Lemma Resolve_answer r now later a h u c : fresh r → vaultURI r ≠ "" → colon_free a → colon_free h →
  (Resolve r now later a h u).1 = Ok c →
  ∃ t, (t = later ∨ now < t + ttl r)%Z ∧ Fetch (vaultURI r) (vault t a h u) = Ok c.
Proof.
  intros Hr Hv Ha Hh. unfold Resolve. rewrite (proj2 (String.eqb_neq _ _) Hv).
  destruct (cache r !! _) as [e|] eqn:Ec.
  - destruct (now <? _)%Z eqn:En; bools.
    + intros ?; simplify_eq/=. destruct (Hr _ _ Ec) as (t & a' & h' & u' & Hk & Ha' & Hh' & He & Hf).
      apply fmtKey_inj in Hk as (<- & <- & <-); [|done..]. exists t. split; [right; lia|done].
    + simpl. destruct (Fetch _ _) eqn:Ef; simpl; intros ?; simplify_eq. eauto.
  - destruct (Fetch _ _) eqn:Ef; simpl; intros ?; simplify_eq. eauto.
Qed.
End Resolve.
End Credential.

(** ** pkg/identity *)

Module Identity.
Record cacheEntry := { ie_userID : string; ie_expiresAt : Z }.
Record Resolver := { vaultURI : string; cache : gmap string cacheEntry }.

Definition NewResolver (uri : string) : Resolver :=
  {| vaultURI := trim_slashes uri; cache := ∅ |}.

Section Resolve.
Variable decode : bytes → result string (string * Z).   (* user_id, ttl_seconds *)
Variable vault : Z → string → string → http_answer.
Variable token_hash : string → string.                  (* hex of sha256 *)

Definition cacheKey (provider token : string) : string := provider +:+ ":" +:+ token_hash token.

(** [time.Duration(seconds) * time.Second] is a 64-bit product *)
Definition entry_ttl (seconds : Z) : Z :=
  if (0 <? seconds)%Z then wrap_s 64 (seconds * second) else (30 * second)%Z.

Definition ask (r : Resolver) (key : string) (later : Z) (a : http_answer) : result string string * Resolver :=
  match a with
  | Transport err => (Err err, r)
  | Answer code body =>
      if (code =? 404)%Z then (Ok "", r)
      else if negb (code =? 200)%Z then
        (Err ("identity resolve returned " +:+ Itoa code +:+ ": " +:+
              match body with Ok b => to_string b | _ => "" end), r)
      else
        match body ≫= decode with
        | Ok (userID, seconds) =>
            (Ok userID,
             {| vaultURI := vaultURI r;
                cache := <[key := {| ie_userID := userID; ie_expiresAt := later + entry_ttl seconds |}]> (cache r) |})
        | Err e => (Err e, r)
        | Panic p => (Panic p, r)
        end
  end.

Definition Resolve (r : Resolver) (now later : Z) (provider token : string)
  : result string string * Resolver :=
  if String.eqb (vaultURI r) "" || String.eqb provider "" || String.eqb token "" then (Ok "", r) else
  let key := cacheKey provider token in
  match cache r !! key with
  | Some entry =>
      if (now <? ie_expiresAt entry)%Z then (Ok (ie_userID entry), r)
      else ask {| vaultURI := vaultURI r; cache := delete key (cache r) |} key later (vault later provider token)
  | None => ask r key later (vault later provider token)
  end.

Lemma entry_ttl_exact seconds : (0 < seconds ≤ 9223372036)%Z → entry_ttl seconds = (seconds * second)%Z.
Proof.
  intros Hs. unfold entry_ttl. replace (0 <? seconds)%Z with true by (symmetry; apply Z.ltb_lt; lia).
  apply wrap_s_id; [lia|]. unfold second. change (2 ^ (64 - 1))%Z with 9223372036854775808%Z. lia.
Qed.

(** one second more and the entry is already expired when it is stored *)
Lemma entry_ttl_overflow : (entry_ttl 9223372037 < 0)%Z.
Proof. vm_compute. reflexivity. Qed.

Lemma Resolve_hit r now later now' later' provider token userID seconds body :
  vaultURI r ≠ "" → provider ≠ "" → token ≠ "" →
  cache r !! cacheKey provider token = None →
  vault later provider token = Answer 200 (Ok body) → decode body = Ok (userID, seconds) →
  (0 < seconds ≤ 9223372036)%Z → (now' < later + seconds * second)%Z →
  let r1 := (Resolve r now later provider token).2 in
  Resolve r now later provider token = (Ok userID, r1) ∧
  Resolve r1 now' later' provider token = (Ok userID, r1).
Proof.
  intros Hv Hp Ht Hc Ha Hd Hs Hn. unfold Resolve.
  apply String.eqb_neq in Hv as Hv', Hp as Hp', Ht as Ht'. rewrite Hv', Hp', Ht', Hc, Ha. cbn [orb].
  unfold ask. cbn [Z.eqb Pos.eqb negb mbind result_bind]. rewrite Hd. cbn [fst snd vaultURI cache].
  rewrite Hv', lookup_insert_eq. cbn [orb ie_expiresAt ie_userID].
  rewrite entry_ttl_exact by done. split; [done|].
  by replace (now' <? _)%Z with true by (symmetry; apply Z.ltb_lt; lia).
Qed.
End Resolve.
End Identity.

(** ** cmd/proxy/credentials.go *)

(** What the injection needs from the identity service and from the credential
    service: one question each, answered from a state that may change. *)
Class IdentityService (S : Type) := identify : S → string → string → result string string * S.
Class CredentialService (S : Type) :=
  credential_for : S → string → string → string → result string (option Credential.t) * S.

#[export] Instance vault_identity decode vault hash (now later : Z) : IdentityService Identity.Resolver :=
  λ r provider token, Identity.Resolve decode vault hash r now later provider token.
#[export] Instance vault_credentials decode vault (now later : Z) : CredentialService Credential.Resolver :=
  λ r agent host user, Credential.Resolve decode vault r now later agent host user.

Module Injection.
Import RuntimeManager.

Definition UserSourceOAuth2Token := "oauth2_token".
Definition UserSourceHeader := "trusted_header".

Section Inject.
Context `{GoUnicode}.
Context {IS CS : Type} `{IdentityService IS} `{CredentialService CS}.

(** the slice expression [value[len(prefix):]] panics out of range *)
Definition str_slice_from (s : string) (i : nat) : result string string :=
  if i <=? String.length s then Ok (str_drop i s) else Panic IndexOutOfRange.

Definition trimTokenPrefix (value prefix : string) : result string string :=
  let value := TrimSpace value in
  if String.eqb prefix "" then Ok value else
  let prefix := TrimSpace prefix in
  if negb (HasPrefix (ToLower value) (ToLower prefix))
  then Err ("identity header missing expected prefix " +:+ prefix) else
  rest ← str_slice_from value (String.length prefix);
  let token := TrimSpace rest in
  if String.eqb token "" then Err "identity header token ist empty" else Ok token.

(** what one source says: a user, or nothing ("") *)
Definition source_user (getHeader : string → string) (st : IS) (source : UserSource)
  : result string string * IS :=
  if String.eqb (us_type source) UserSourceOAuth2Token then
    let raw := TrimSpace (getHeader (us_header source)) in
    if String.eqb raw "" then (Ok "", st) else
    match trimTokenPrefix raw (us_prefix source) with
    | Err _ => (Ok "", st)
    | Panic p => (Panic p, st)
    | Ok token => identify st (us_provider source) token
    end
  else if String.eqb (us_type source) UserSourceHeader then
    (Ok (TrimSpace (getHeader (us_header source))), st)
  else (Ok "", st).

Fixpoint resolve_sources (getHeader : string → string) (st : IS) (sources : list UserSource)
  : result string string * IS :=
  match sources with
  | [] => (Ok "", st)
  | source :: sources =>
      match source_user getHeader st source with
      | (Ok userID, st) =>
          if String.eqb userID "" then resolve_sources getHeader st sources else (Ok userID, st)
      | (Err e, st) => (Err e, st)
      | (Panic p, st) => (Panic p, st)
      end
  end.

(** [None]: no runtime configuration or no identity resolver *)
Definition resolveUserID (getHeader : string → string) (st : IS) (sources : option (list UserSource))
  : result string string * IS :=
  match sources with
  | None => (Ok "", st)
  | Some sources => resolve_sources getHeader st sources
  end.

Definition normalizeHost (host : string) : string :=
  let host := TrimSpace host in
  if String.eqb host "" then "" else
  let host := match SplitHostPort host with Some (h, _) => h | None => host end in
  let host := TrimPrefix host "[" in
  let host := TrimSuffix host "]" in
  ToLower (TrimSuffix host ".").

Definition extractHost (addr : string) : string := normalizeHost addr.

(** the user, the header and the two services afterwards; [enabled]: there
    is a credential resolver *)
Definition applyCredentialInjection (enabled : bool) (agentID targetHost : string)
    (sources : option (list UserSource)) (h : Header) (ist : IS) (cs : CS)
  : result string string * Header * IS * CS :=
  if negb enabled then (Ok "", h, ist, cs) else
  let targetHost := normalizeHost targetHost in
  match resolveUserID (Header_Get h) ist sources with
  | (Err e, ist) => (Err e, h, ist, cs)
  | (Panic p, ist) => (Panic p, h, ist, cs)
  | (Ok userID, ist) =>
      match credential_for cs agentID targetHost userID with
      | (Err e, cs) => (Err e, h, ist, cs)
      | (Panic p, cs) => (Panic p, h, ist, cs)
      | (Ok None, cs) => (Ok userID, h, ist, cs)
      | (Ok (Some cred), cs) =>
          (Ok userID,
           Header_Set h (Credential.HeaderName cred) (Credential.HeaderPrefix cred +:+ Credential.Value cred),
           ist, cs)
      end
  end.

(** sources that were consulted and said nothing *)
Inductive skips (getHeader : string → string) : IS → list UserSource → IS → Prop :=
  | skips_nil st : skips getHeader st [] st
  | skips_cons st s st1 sources st2 :
      source_user getHeader st s = (Ok "", st1) → skips getHeader st1 sources st2 →
      skips getHeader st (s :: sources) st2.

Lemma resolve_sources_spec getHeader st sources r st' :
  resolve_sources getHeader st sources = (r, st') ↔
  (r = Ok "" ∧ skips getHeader st sources st') ∨
  ∃ pre s post st1, sources = pre ++ s :: post ∧ skips getHeader st pre st1 ∧
    source_user getHeader st1 s = (r, st') ∧ r ≠ Ok "".
Proof.
  split.
  - revert st. induction sources as [|s sources IH]; intros st; simpl.
    + intros ?; simplify_eq. left. eauto using skips.
    + destruct (source_user getHeader st s) as [[u|e|p] st1] eqn:Es.
      * destruct (String.eqb_spec u "") as [->|Hu].
        -- intros [[-> Hs]|(pre & s' & post & st2 & -> & Hs & Hu & Hne)]%IH; [left|right].
           ++ eauto using skips.
           ++ exists (s :: pre), s', post, st2. eauto using skips.
        -- intros ?; simplify_eq. right. exists [], s, sources, st. split_and!; eauto using skips. congruence.
      * intros ?; simplify_eq. right. exists [], s, sources, st. split_and!; eauto using skips.
      * intros ?; simplify_eq. right. exists [], s, sources, st. split_and!; eauto using skips.
  - intros [[-> Hs]|(pre & s & post & st1 & -> & Hs & Hu & Hne)].
    + induction Hs as [|st s st1 sources st2 Hu _ IH]; simpl; [done|]. by rewrite Hu.
    + induction Hs as [|st s' st2 sources st3 Hu' _ IH]; simpl.
      * rewrite Hu. destruct r as [u| |]; [|done..]. destruct (String.eqb_spec u ""); [congruence|done].
      * rewrite Hu'. simpl. auto.
Qed.

Lemma applyCredentialInjection_header enabled agentID targetHost sources h ist cs r h' ist' cs' :
  applyCredentialInjection enabled agentID targetHost sources h ist cs = (r, h', ist', cs') →
  h' = h ∨ ∃ userID cred cs0, r = Ok userID ∧ enabled = true ∧
    (resolveUserID (Header_Get h) ist sources).1 = Ok userID ∧
    credential_for cs0 agentID (normalizeHost targetHost) userID = (Ok (Some cred), cs') ∧ cs0 = cs ∧
    h' = Header_Set h (Credential.HeaderName cred) (Credential.HeaderPrefix cred +:+ Credential.Value cred).
Proof.
  unfold applyCredentialInjection. destruct enabled; simpl; [|intros ?; simplify_eq; auto].
  destruct (resolveUserID _ _ _) as [[u|e|p] ist1] eqn:Eu; [|intros ?; simplify_eq; auto..].
  destruct (credential_for _ _ _ _) as [[[cred|]|e|p] cs1] eqn:Ec; intros ?; simplify_eq; auto.
  right. exists u, cred, cs. done.
Qed.
End Inject.

Section Ascii_prefix.
Context `{GoUnicode}.

Lemma ToLower_length_ascii s : str_forall is_ascii s = true → String.length (ToLower s) = String.length s.
Proof.
  intros Hs. unfold ToLower. rewrite Hs. clear. induction s; simpl; congruence.
Qed.

Lemma HasPrefix_length s p : HasPrefix s p = true → String.length p <= String.length s.
Proof. intros [t ->]%HasPrefix_spec. rewrite str_length_app. lia. Qed.
End Ascii_prefix.
End Injection.

(** ** Properties *)

(** The credential cache neither mixes up questions nor serves stale
    answers: in every state reached by resolving questions whose agent and host
    contain no colon, a successful [Resolve] returns what the vault answered to
    this very question (agent, host and user), either just now or less than
    one TTL ago. *)
Theorem credential_answers_question decode vault uri r now later a h u cred :
  rtc (Credential.cstep decode vault) (Credential.NewResolver uri) r →
  Credential.vaultURI r ≠ "" → Credential.colon_free a → Credential.colon_free h →
  (Credential.Resolve decode vault r now later a h u).1 = Ok cred →
  ∃ t, (t = later ∨ now < t + Credential.ttl r)%Z ∧
       Credential.Fetch decode (Credential.vaultURI r) (vault t a h u) = Ok cred.
Proof.
  intros Hr. apply Credential.Resolve_answer.
  eapply Credential.fresh_reachable; [exact Hr|]. by intros k e Hk.
Qed.

Module VaultExample.
Definition decode (b : bytes) : result string (option Credential.t) :=
  Ok (Some {| Credential.HeaderName := "authorization"; Credential.HeaderPrefix := "Bearer ";
              Credential.Value := to_string b |}).
(** answers with the host asked for *)
Definition vault (t : Z) (a h u : string) : http_answer := Answer 200 (Ok (of_string h)).
Definition r0 : Credential.Resolver := Credential.NewResolver "http://vault/".
Definition r1 : Credential.Resolver := (Credential.Resolve decode vault r0 0 1 "agent" "api.test" "u").2.
End VaultExample.

Lemma credential_answers_question_witness :
  rtc (Credential.cstep VaultExample.decode VaultExample.vault) VaultExample.r0 VaultExample.r1 ∧
  ∃ t, (t = 9 ∨ 5 < t + Credential.ttl VaultExample.r1)%Z ∧
    Credential.Fetch VaultExample.decode (Credential.vaultURI VaultExample.r1) (VaultExample.vault t "agent" "api.test" "u") =
    Ok (Some {| Credential.HeaderName := "authorization"; Credential.HeaderPrefix := "Bearer "; Credential.Value := "api.test" |}).
Proof.
  assert (rtc (Credential.cstep VaultExample.decode VaultExample.vault) VaultExample.r0 VaultExample.r1) as Hs.
  { apply rtc_once. by apply Credential.cstep_resolve. }
  split; [exact Hs|].
  apply (credential_answers_question VaultExample.decode VaultExample.vault "http://vault/" VaultExample.r1 5 9 "agent" "api.test" "u" _ Hs);
    [discriminate|reflexivity|reflexivity|vm_compute; reflexivity].
Defined.

(** The key is not injective without that condition: an IPv6 target and an
    empty one share a key. *)
Example fmtKey_collision :
  Credential.fmtKey "agent" "::1" "u" = Credential.fmtKey "agent" "" ":1:u".
Proof. reflexivity. Qed.

(** The user sources are consulted in order and the first one that names a
    user (or fails) decides; the sources before it said nothing, the ones after
    it are not consulted; without such a source there is no user. *)
Theorem resolveUserID_first `{GoUnicode} {IS} `{IdentityService IS} getHeader (st : IS) sources r st' :
  Injection.resolveUserID getHeader st (Some sources) = (r, st') ↔
  (r = Ok "" ∧ Injection.skips getHeader st sources st') ∨
  ∃ pre s post st1, sources = pre ++ s :: post ∧ Injection.skips getHeader st pre st1 ∧
    Injection.source_user getHeader st1 s = (r, st') ∧ r ≠ Ok "".
Proof. apply Injection.resolve_sources_spec. Qed.

(** C20: The injected credential replaces whatever the client sent under that
    header name: the header has exactly one value for it, prefix and secret,
    every other header is untouched, and when no credential is injected (no
    resolver, an error, none found) the header is unchanged. *)
Theorem injection_sets_one_header `{GoUnicode} {IS CS} `{IdentityService IS} `{CredentialService CS}
    enabled agentID targetHost sources h (ist : IS) (cs : CS) r h' ist' cs' :
  Injection.applyCredentialInjection enabled agentID targetHost sources h ist cs = (r, h', ist', cs') →
  h' = h ∨
  ∃ userID cred, r = Ok userID ∧
    credential_for cs agentID (Injection.normalizeHost targetHost) userID = (Ok (Some cred), cs') ∧
    Header_Values h' (Credential.HeaderName cred) =
      [Credential.HeaderPrefix cred +:+ Credential.Value cred] ∧
    ∀ k, k ≠ CanonicalMIMEHeaderKey (Credential.HeaderName cred) → h' !! k = h !! k.
Proof.
  intros [->|(u & cred & cs0 & -> & _ & _ & Hc & -> & ->)]%Injection.applyCredentialInjection_header; [by left|].
  right. exists u, cred. split_and!; [done..| |].
  - unfold Header_Values, MIME_Values, Header_Set, MIME_Set. by rewrite lookup_insert_eq.
  - intros k Hk. unfold Header_Set, MIME_Set. by rewrite lookup_insert_ne.
Qed.

Lemma injection_sets_one_header_witness :
  let creds := vault_credentials VaultExample.decode VaultExample.vault 0 1 in
  let ids : IdentityService unit := λ s _ _, (Ok "", s) in
  let h : Header := {[ "Authorization" := ["client"]; "X-User" := ["u"] ]} in
  let src := Some [RuntimeManager.Build_UserSource "trusted_header" "x-user" "" ""] in
  ∃ h', (Injection.applyCredentialInjection (H0:=ids) (H1:=creds) true "agent" "API.test:443" src h tt VaultExample.r0).1.1.2 = h' ∧
    Header_Values h' "authorization" = ["Bearer api.test"] ∧ h' !! "X-User" = h !! "X-User".
Proof.
  intros creds ids h src.
  assert ((Injection.applyCredentialInjection (H0:=ids) (H1:=creds) true "agent" "API.test:443" src h tt VaultExample.r0).1.1.2
            !! "Authorization" = Some ["Bearer api.test"]) as Ha by (vm_compute; reflexivity).
  destruct (Injection.applyCredentialInjection (H0:=ids) (H1:=creds) true "agent" "API.test:443" src h tt VaultExample.r0)
    as [[[r h'] ist'] cs'] eqn:E. cbn [fst snd] in Ha.
  exists h'. split; [reflexivity|].
  destruct (injection_sets_one_header (H0:=ids) (H1:=creds) _ _ _ _ _ _ _ _ _ _ _ E) as [->|(u & cred & -> & Hc & Hv & Ho)].
  - vm_compute in Ha. discriminate Ha.
  - clear E. assert (cred = {| Credential.HeaderName := "authorization"; Credential.HeaderPrefix := "Bearer ";
                      Credential.Value := "api.test" |}) as ->.
    { revert Hc. vm_compute. congruence. }
    split; [exact Hv|]. apply Ho. vm_compute. discriminate.
Defined.

(** An identity is asked for once per lifetime: after a successful answer
    with a lifetime of [seconds] (up to 9223372036, where the 64-bit
    nanosecond product is still exact), every later question before the
    lifetime is over is answered from the cache, with the same user and without
    touching the resolver's state. *)
Theorem identity_cached decode vault token_hash r now later now' later' provider token userID seconds body :
  Identity.vaultURI r ≠ "" → provider ≠ "" → token ≠ "" →
  Identity.cache r !! Identity.cacheKey token_hash provider token = None →
  vault later provider token = Answer 200 (Ok body) → decode body = Ok (userID, seconds) →
  (0 < seconds ≤ 9223372036)%Z → (now' < later + seconds * second)%Z →
  let r1 := (Identity.Resolve decode vault token_hash r now later provider token).2 in
  Identity.Resolve decode vault token_hash r now later provider token = (Ok userID, r1) ∧
  Identity.Resolve decode vault token_hash r1 now' later' provider token = (Ok userID, r1).
Proof. apply Identity.Resolve_hit. Qed.

Lemma identity_cached_witness :
  let decode (b : bytes) : result string (string * Z) := Ok (to_string b, 60%Z) in
  let vault (t : Z) (p tok : string) := Answer 200 (Ok (of_string "alice")) in
  let r := Identity.NewResolver "http://vault" in
  let r1 := (Identity.Resolve decode vault (λ s, s) r 0 1 "corp" "tok").2 in
  Identity.Resolve decode vault (λ s, s) r 0 1 "corp" "tok" = (Ok "alice", r1) ∧
  Identity.Resolve decode vault (λ s, s) r1 (59 * second) 0 "corp" "tok" = (Ok "alice", r1).
Proof.
  intros decode vault r.
  apply (identity_cached decode vault (λ s, s) r 0 1 (59 * second) 0 "corp" "tok" "alice" 60 (of_string "alice"));
    try discriminate; try reflexivity.
  lia.
Defined.

(** On ASCII input [trimTokenPrefix] never slices out of range; a token is
    returned only when the value starts with the prefix up to case, and it is
    the trimmed remainder. *)
Theorem trimTokenPrefix_ascii `{GoUnicode} value prefix :
  str_forall is_ascii (TrimSpace value) = true → str_forall is_ascii (TrimSpace prefix) = true →
  no_panic (Injection.trimTokenPrefix value prefix) ∧
  ∀ token, Injection.trimTokenPrefix value prefix = Ok token → prefix ≠ "" →
    ∃ w rest, TrimSpace value = w +:+ rest ∧ str_map ascii_lower w = str_map ascii_lower (TrimSpace prefix) ∧
      token = TrimSpace rest ∧ token ≠ "".
Proof.
  intros Hv Hp. unfold Injection.trimTokenPrefix.
  destruct (String.eqb_spec prefix "") as [->|Hne]; [split; [auto with lhotse|naive_solver]|].
  destruct (HasPrefix (ToLower _) (ToLower _)) eqn:Hpre; cbn [negb]; [|split; [auto with lhotse|naive_solver]].
  pose proof (Injection.HasPrefix_length _ _ Hpre) as Hl.
  rewrite !Injection.ToLower_length_ascii in Hl by done.
  unfold Injection.str_slice_from. rewrite (proj2 (Nat.leb_le _ _) Hl). cbn [mbind result_bind].
  set (rest := str_drop (String.length (TrimSpace prefix)) (TrimSpace value)).
  destruct (String.eqb_spec (TrimSpace rest) "") as [E|E]; [split; [auto with lhotse|naive_solver]|].
  split; [auto with lhotse|]. intros token ? _. simplify_eq.
  exists (str_take (String.length (TrimSpace prefix)) (TrimSpace value)), rest.
  split_and!; [by subst rest; rewrite str_take_drop| |done|done].
  apply HasPrefix_spec in Hpre as [t Ht]. unfold ToLower in Ht. rewrite Hv, Hp in Ht.
  rewrite <- (str_take_drop (String.length (TrimSpace prefix)) (TrimSpace value)), str_map_app in Ht.
  apply str_app_inj_len in Ht as [Ht _]; [done|].
  assert (∀ f s, String.length (str_map f s) = String.length s) as Hm by (intros f s; induction s; simpl; congruence).
  rewrite !Hm, str_length_take. lia.
Qed.

Lemma trimTokenPrefix_ascii_witness :
  no_panic (Injection.trimTokenPrefix " Bearer abc" "bearer ") ∧
  ∃ w rest, TrimSpace " Bearer abc" = w +:+ rest ∧
    str_map ascii_lower w = str_map ascii_lower (TrimSpace "bearer ") ∧ "abc" = TrimSpace rest ∧ "abc" ≠ "".
Proof.
  destruct (trimTokenPrefix_ascii " Bearer abc" "bearer ") as [H1 H2]; [reflexivity|reflexivity|].
  split; [exact H1|]. apply (H2 "abc"); [reflexivity|discriminate].
Defined.

(** With a non-ASCII value the slice can be out of range: [strings.ToLower]
    turns the Kelvin sign into the letter k. *)
Example trimTokenPrefix_panics :
  let kelvin := String (byte_of 226) (String (byte_of 132) (String (byte_of 170) "")) in
  let unicode : GoUnicode := λ s, "k" in
  Injection.trimTokenPrefix (H:=unicode) "K" kelvin = Panic IndexOutOfRange.
Proof. reflexivity. Qed.
