(* ===== verification/CredentialThreads.v ===== *)
(** * The vault caches under concurrent questions

    pkg/credential/resolver.go and pkg/identity/resolver.go keep their answers in
    a sync.Map and take no lock: a [Resolve] looks its key up, deletes what has
    expired, asks the vault and stores the answer, and others do the same in
    between.  Credentials has [Resolve] as one function; here every access to the
    map is a step, at its own time on a clock that does not go back.

    The two resolvers are the same program over their questions and answers, so
    the phases, and what can be said of every answer given, are in one Section. *)

From S2P Require Export Threads Credentials.

Local Open Scope string_scope.
Local Open Scope nat_scope.
Local Open Scope list_scope.

Section CachedClient.
Context {Q A : Type}.
Variable key : Q → string.
(** what the vault answers at a time, with how long it may be kept; without that
    it is not stored *)
Variable ask : Z → Q → result string (A * option Z).

(** the map with what each entry expires at, the time, and the answers given so
    far with when *)
Record cache := mk_cache { entries : gmap string (A * Z); clock : Z; given : list (Q * A * Z) }.

Inductive phase :=
  | Loading (q : Q)                             (* Resolve is called *)
  | Loaded (q : Q) (a : A) (expires : Z)        (* before the test of the time *)
  | Deleting (q : Q)                            (* before cache.Delete *)
  | Asking (q : Q)                              (* the vault is asked *)
  | Storing (q : Q) (a : A) (asked life : Z).   (* before cache.Store *)

Definition at_time (s : cache) (now : Z) : cache := mk_cache (entries s) now (given s).
Definition give (s : cache) (q : Q) (a : A) : cache := mk_cache (entries s) (clock s) (given s ++ [(q, a, clock s)]).
Definition put (s : cache) (k : string) (e : A * Z) : cache := mk_cache (<[k := e]> (entries s)) (clock s) (given s).
Definition drop_key (s : cache) (k : string) : cache := mk_cache (delete k (entries s)) (clock s) (given s).

(** the steps at the time of the state *)
Inductive resolve_now : cache → phase → cache → option phase → Prop :=
  | c_load s q a expires : entries s !! key q = Some (a, expires) →
      resolve_now s (Loading q) s (Some (Loaded q a expires))
  | c_hit s q a expires : (clock s < expires)%Z → resolve_now s (Loaded q a expires) (give s q a) None
  | c_expired s q a expires : ¬ (clock s < expires)%Z → resolve_now s (Loaded q a expires) s (Some (Deleting q))
  | c_miss s q : entries s !! key q = None → resolve_now s (Loading q) s (Some (Asking q))
  | c_delete s q : resolve_now s (Deleting q) (drop_key s (key q)) (Some (Asking q))
  | c_failed s q : (∀ a, ask (clock s) q ≠ Ok a) → resolve_now s (Asking q) s None
  | c_unkept s q a : ask (clock s) q = Ok (a, None) → resolve_now s (Asking q) (give s q a) None
  | c_asked s q a life : ask (clock s) q = Ok (a, Some life) →
      resolve_now s (Asking q) s (Some (Storing q a (clock s) life))
  | c_store s q a asked life :
      resolve_now s (Storing q a asked life) (give (put s (key q) (a, clock s + life)%Z) q a) None.

(** time passes before a step *)
Inductive resolve_step : cache → phase → cache → option phase → Prop :=
  | c_at s l now s' l' : (clock s ≤ now)%Z → resolve_now (at_time s now) l s' l' → resolve_step s l s' l'.

Variable allowed_question : Q → Prop.

Inductive questions : cache → phase → cache → Prop :=
  | go_resolve s q : allowed_question q → questions s (Loading q) s.

Definition ctstep : cache * gmap nat phase → cache * gmap nat phase → Prop := tstep questions resolve_step.

(** ** What an entry is *)

(** [a] is an answer to a question of this key, asked and stored by now *)
Definition answers_key (k : string) (a : A) (stored life now : Z) : Prop := ∃ q asked,
  key q = k ∧ allowed_question q ∧ (asked ≤ stored ≤ now)%Z ∧ ask asked q = Ok (a, Some life).

Definition given_rightly (q : Q) (a : A) (now : Z) : Prop :=
  allowed_question q ∧
  (ask now q = Ok (a, None) ∨
   ∃ stored life, answers_key (key q) a stored life now ∧ (now < stored + life ∨ stored = now)%Z).

Definition cache_ok (s : cache) : Prop :=
  (∀ k a expires, entries s !! k = Some (a, expires) → ∃ stored life,
     expires = (stored + life)%Z ∧ answers_key k a stored life (clock s)) ∧
  (∀ q a now, (q, a, now) ∈ given s → given_rightly q a now).

Definition asks_for (s : cache) (l : phase) : Prop :=
  match l with
  | Storing q a asked life => allowed_question q ∧ (asked ≤ clock s)%Z ∧ ask asked q = Ok (a, Some life)
  | Loaded q a expires => allowed_question q ∧ ∃ stored life,
      expires = (stored + life)%Z ∧ answers_key (key q) a stored life (clock s)
  | Loading q | Deleting q | Asking q => allowed_question q
  end.

Definition later (s s' : cache) : Prop := (clock s ≤ clock s')%Z.

Lemma answers_key_later k a stored life now now' : (now ≤ now')%Z → answers_key k a stored life now → answers_key k a stored life now'.
Proof. intros Hn (q & asked & ? & ? & ? & ?). exists q, asked. split_and!; try done; lia. Qed.

Lemma cache_ok_at s now : (clock s ≤ now)%Z → cache_ok s → cache_ok (at_time s now).
Proof.
  intros Hn [He Hg]. split; [|exact Hg]. intros k a expires Hk. destruct (He k a expires Hk) as (stored & life & ? & ?).
  exists stored, life. split; [done|]. by eapply answers_key_later.
Qed.

Lemma cache_ok_give s q a : cache_ok s → given_rightly q a (clock s) → cache_ok (give s q a).
Proof.
  intros [He Hg] Hr. split; [exact He|]. intros q' a' now [Hin|Hin]%elem_of_app; [by apply Hg|].
  apply list_elem_of_singleton in Hin. by simplify_eq.
Qed.

Lemma asks_for_later s s' l : later s s' → asks_for s l → asks_for s' l.
Proof.
  unfold later, asks_for. destruct l; try done.
  - intros ? (? & stored & life & -> & ?). split; [done|]. exists stored, life. eauto using answers_key_later.
  - intros ? (? & ? & ?). split_and!; try done; lia.
Qed.

Lemma resolve_now_ok s l s' l' : cache_ok s → asks_for s l → resolve_now s l s' l' →
  cache_ok s' ∧ later s s' ∧ ∀ l1, l' = Some l1 → asks_for s' l1.
Proof.
  intros Hok Hl Hst. assert (later s s) as Hrefl by (unfold later; lia).
  destruct Hst as [s q a expires Hk|s q a expires Hlt|s q a expires Hlt|s q Hk|s q|s q Hf|s q a Ha|s q a life Ha|s q a asked life];
    cbn [asks_for] in Hl.
  - split_and!; [done|done|]. intros ? [= <-]. cbn. split; [done|]. destruct (proj1 Hok _ _ _ Hk) as (stored & life & ? & ?). by exists stored, life.
  - destruct Hl as (? & stored & life & -> & ?). split_and!; [|done|done].
    apply cache_ok_give; [done|split; [done|right]]. exists stored, life. auto.
  - split_and!; [done|done|]. intros ? [= <-]. apply Hl.
  - split_and!; [done|done|]. by intros ? [= <-].
  - split_and!; [|done|by intros ? [= <-]]. destruct Hok as [He Hg]. split; [|exact Hg].
    intros k a expires Hk. cbn in Hk. apply lookup_delete_Some in Hk as [_ Hk]. by apply He.
  - done.
  - split_and!; [|done|done]. apply cache_ok_give; [done|split; [done|by left]].
  - split_and!; [done|done|]. intros ? [= <-]. cbn. split_and!; [done|lia|done].
  - destruct Hl as (Hq & Hasked & Ha). assert (answers_key (key q) a (clock s) life (clock s)) as Hak.
    { exists q, asked. split_and!; try done; lia. }
    split_and!; [|done|done]. apply cache_ok_give; [|split; [done|right; exists (clock s), life; auto]].
    destruct Hok as [He Hg]. split; [|exact Hg].
    intros k a' expires Hk. cbn in Hk. apply lookup_insert_Some in Hk as [[<- [= <- <-]]|[_ Hk]]; [eauto|by apply He].
Qed.

Lemma cache_reachable s0 s ths : entries s0 = ∅ → given s0 = [] → rtc ctstep (s0, ∅) (s, ths) → cache_ok s.
Proof.
  intros He Hg Hr.
  refine (proj1 (rely_guarantee_reachable questions resolve_step cache_ok asks_for later s0 s ths _ _ asks_for_later _ Hr)).
  - intros s1 l s2 Hok Hst. destruct Hst. split; [done|]. split; [unfold later; lia|done].
  - intros s1 l s2 l2 Hok Hl Hst. destruct Hst as [s1 l now s2 l2 Hn Hst].
    destruct (resolve_now_ok (at_time s1 now) l s2 l2) as (? & Hla & ?); [by apply cache_ok_at| |done|].
    + by apply (asks_for_later s1).
    + split; [done|]. split; [|done]. unfold later in *. cbn in Hla. lia.
  - split; [intros k a expires; by rewrite He|intros q a now; rewrite Hg; set_solver].
Qed.
End CachedClient.
Arguments cache : clear implicits.
Arguments phase : clear implicits.

(** ** The two resolvers *)

Section Resolvers.
Variable decode : bytes → result string (option Credential.t).
Variable vault : Z → string → string → string → http_answer.
Variable uri : string.

Definition credential_key (q : string * string * string) : string := Credential.fmtKey q.1.1 q.1.2 q.2.

Definition credential_ask (t : Z) (q : string * string * string) : result string (option Credential.t * option Z) :=
  match Credential.Fetch decode uri (vault t q.1.1 q.1.2 q.2) with
  | Ok cred => Ok (cred, Some (30 * second)%Z)
  | Err e => Err e
  | Panic p => Panic p
  end.

(** the questions whose key keeps their parts apart *)
Definition separable (q : string * string * string) : Prop := Credential.colon_free q.1.1 ∧ Credential.colon_free q.1.2.

Variable decode_identity : bytes → result string (string * Z).
Variable identity_vault : Z → string → string → http_answer.
Variable token_hash : string → string.

Definition identity_key (q : string * string) : string := Identity.cacheKey token_hash q.1 q.2.

Definition identity_ask (t : Z) (q : string * string) : result string (string * option Z) :=
  match identity_vault t q.1 q.2 with
  | Transport err => Err err
  | Answer code body =>
      if (code =? 404)%Z then Ok ("", None)
      else if negb (code =? 200)%Z then
        Err ("identity resolve returned " +:+ Itoa code +:+ ": " +:+
             match body with Ok b => to_string b | _ => "" end)
      else
        match body ≫= decode_identity with
        | Ok (userID, seconds) => Ok (userID, Some (Identity.entry_ttl seconds))
        | Err e => Err e
        | Panic p => Panic p
        end
  end.

(** the key keeps the provider apart from a hash of fixed length *)
Lemma identity_key_inj n q q' : (∀ t, String.length (token_hash t) = n) → identity_key q = identity_key q' →
  q.1 = q'.1 ∧ token_hash q.2 = token_hash q'.2.
Proof.
  unfold identity_key, Identity.cacheKey. intros Hn He.
  assert (String.length q.1 = String.length q'.1) as Hl.
  { apply (f_equal String.length) in He. rewrite !str_length_app, !Hn in He. lia. }
  apply str_app_inj_len in He as [-> He]; [|done]. cbn in He. by injection He as ->.
Qed.

Definition named (q : string * string) : Prop := q.1 ≠ "" ∧ q.2 ≠ "".
End Resolvers.

Definition empty_cache {Q A} (t : Z) : cache Q A := mk_cache ∅ t [].

(** ** [Resolve] by itself *)

Definition entries_of (r : Credential.Resolver) : gmap string (option Credential.t * Z) :=
  (λ e, (Credential.ce_cred e, Credential.ce_expiresAt e)) <$> Credential.cache r.

(** the answer of the vault at the end of a [Resolve], and its storing *)
Lemma ask_alone decode vault uri (c : gmap string (option Credential.t * Z)) t g (later : Z) a h u : (t ≤ later)%Z →
  ∃ t' g', alone (resolve_step credential_key (credential_ask decode vault uri)) (mk_cache c t g) (Asking (a, h, u))
    (mk_cache match Credential.Fetch decode uri (vault later a h u) with
              | Ok cred => <[Credential.fmtKey a h u := (cred, later + 30 * second)%Z]> c
              | _ => c
              end t' g') None.
Proof.
  intros Ht. pose (s := mk_cache c later g).
  destruct (Credential.Fetch decode uri (vault later a h u)) as [cred|e|p] eqn:Hf.
  - exists later, (g ++ [((a, h, u), cred, later)]). eapply alone_more.
    + apply (c_at _ _ _ _ later); [exact Ht|]. apply (c_asked _ _ s (a, h, u) cred (30 * second)%Z).
      unfold credential_ask. cbn. by rewrite Hf.
    + apply alone_one. apply (c_at _ _ _ _ later); [cbn; lia|]. 
      exact (c_store credential_key (credential_ask decode vault uri) s (a, h, u) cred later (30 * second)%Z).
  - exists later, g. apply alone_one, (c_at _ _ _ _ later); [exact Ht|]. apply (c_failed _ _ s).
    intros x. unfold credential_ask. cbn. by rewrite Hf.
  - exists later, g. apply alone_one, (c_at _ _ _ _ later); [exact Ht|]. apply (c_failed _ _ s).
    intros x. unfold credential_ask. cbn. by rewrite Hf.
Qed.

Lemma credential_Resolve_alone decode vault r t g now later a h u :
  Credential.vaultURI r ≠ "" → Credential.ttl r = (30 * second)%Z → (t ≤ now ≤ later)%Z →
  ∃ t' g', alone (resolve_step credential_key (credential_ask decode vault (Credential.vaultURI r)))
    (mk_cache (entries_of r) t g) (Loading (a, h, u))
    (mk_cache (entries_of (Credential.Resolve decode vault r now later a h u).2) t' g') None.
Proof.
  intros Hv Httl [Ht Hl]. unfold Credential.Resolve. rewrite (proj2 (String.eqb_neq _ _) Hv).
  pose (s := mk_cache (entries_of r) now g). set (k := Credential.fmtKey a h u).
  assert (entries s !! credential_key (a, h, u) = (λ e, (Credential.ce_cred e, Credential.ce_expiresAt e)) <$> Credential.cache r !! k)
    as Hlook by (cbn; unfold entries_of; by rewrite lookup_fmap).
  destruct (Credential.cache r !! k) as [e|] eqn:Hk; cbn in Hlook.
  - destruct (Z.ltb_spec now (Credential.ce_expiresAt e)) as [Hlt|Hge]; cbn [snd].
    { exists now, (g ++ [((a, h, u), Credential.ce_cred e, now)]).
      eapply alone_more; [apply (c_at _ _ _ _ now); [done|]; by apply (c_load _ _ s (a, h, u) (Credential.ce_cred e) (Credential.ce_expiresAt e))|].
      apply alone_one, (c_at _ _ _ _ now); [cbn; lia|].
      by apply (c_hit _ _ s (a, h, u) (Credential.ce_cred e) (Credential.ce_expiresAt e)). }
    destruct (ask_alone decode vault (Credential.vaultURI r) (delete k (entries_of r)) now g later a h u Hl) as (t' & g' & Hrun).
    exists t', g'. eapply alone_more; [apply (c_at _ _ _ _ now); [done|]; by apply (c_load _ _ s (a, h, u) (Credential.ce_cred e) (Credential.ce_expiresAt e))|].
    eapply alone_more; [apply (c_at _ _ _ _ now); [cbn; lia|]; apply (c_expired _ _ s); cbn; lia|].
    eapply alone_more; [apply (c_at _ _ _ _ now); [cbn; lia|]; apply c_delete|].
    match goal with |- alone _ _ _ (mk_cache ?x _ _) _ => match type of Hrun with alone _ _ _ (mk_cache ?y _ _) _ =>
      replace x with y; [exact Hrun|] end end.
    unfold entries_of. destruct (Credential.Fetch _ _ _); cbn; by rewrite ?fmap_insert, fmap_delete, ?Httl.
  - destruct (ask_alone decode vault (Credential.vaultURI r) (entries_of r) now g later a h u Hl) as (t' & g' & Hrun).
    exists t', g'. eapply alone_more; [apply (c_at _ _ _ _ now); [done|]; by apply (c_miss _ _ s)|].
    match goal with |- alone _ _ _ (mk_cache ?x _ _) _ => match type of Hrun with alone _ _ _ (mk_cache ?y _ _) _ =>
      replace x with y; [exact Hrun|] end end.
    unfold entries_of. destruct (Credential.Fetch _ _ _); cbn; by rewrite ?fmap_insert, ?Httl.
Qed.

(** ** Properties *)

(** C19: The credential cache under concurrent questions: whatever goroutines look up,
    delete and store in between, every answer a [Resolve] gives at [now] is one
    the vault gave to this very question (agent, host and user, the first two
    without a colon), stored less than one TTL ago, or at this moment. *)
Theorem credentials_under_concurrency decode vault uri t0 s ths agent host user cred now :
  rtc (ctstep credential_key (credential_ask decode vault uri) separable) (empty_cache t0, ∅) (s, ths) →
  ((agent, host, user), cred, now) ∈ given s →
  ∃ asked stored, (asked ≤ stored ≤ now)%Z ∧ (now < stored + 30 * second)%Z ∧
    Credential.Fetch decode uri (vault asked agent host user) = Ok cred.
Proof.
  intros Hr Hg. apply cache_reachable in Hr as [_ Hok]; [|done..].
  destruct (Hok _ _ _ Hg) as ([Ha Hh] & [Hn|(stored & life & ([[a h] u] & asked & Hk & [Ha' Hh'] & Htime & Hf) & Hlife)]).
  { unfold credential_ask in Hn. by destruct (Credential.Fetch _ _ _). }
  cbn in Ha, Hh, Ha', Hh'. unfold credential_key in Hk. cbn in Hk.
  apply Credential.fmtKey_inj in Hk as (-> & -> & ->); [|done..].
  unfold credential_ask in Hf. cbn in Hf. destruct (Credential.Fetch _ _ _) as [c|?|?] eqn:Hc; [|done..]. simplify_eq.
  exists asked, stored. split_and!; [lia..| |done]. unfold second in *. lia.
Qed.

Module CredentialThreadsExample.
Definition q : string * string * string := ("agent", "api.test", "u").
Definition cred : option Credential.t :=
  Some {| Credential.HeaderName := "authorization"; Credential.HeaderPrefix := "Bearer "; Credential.Value := "api.test" |}.
Definition cstep := ctstep credential_key (credential_ask VaultExample.decode VaultExample.vault "http://vault") separable.
Definition stored : cache (string * string * string) (option Credential.t) :=
  mk_cache {[credential_key q := (cred, 4 + 30 * second)%Z]} 4 [(q, cred, 4%Z)].
Definition one (l : phase (string * string * string) (option Credential.t)) : gmap nat (phase (string * string * string) (option Credential.t)) :=
  {[0 := l]}.

(** asked at 3, stored at 4, and found by another question at 9 *)
Lemma answered : rtc cstep (empty_cache 0, ∅) (stored, ∅).
Proof.
  eapply rtc_l; [apply (t_go _ _ _ ∅ 0 (Loading q) (empty_cache 0)); [done|]; by apply go_resolve|].
  eapply rtc_l; [apply (t_run _ _ (empty_cache 0) (one (Loading q)) 0 (Loading q) (at_time (empty_cache 0) 1) (Some (Asking q)));
    [done|]; apply (c_at _ _ _ _ 1); [done|]; by apply c_miss|].
  eapply rtc_l; [apply (t_run _ _ (at_time (empty_cache 0) 1) (one (Asking q)) 0 (Asking q) (at_time (empty_cache 0) 3)
    (Some (Storing q cred 3 (30 * second)%Z))); [done|]; apply (c_at _ _ _ _ 3); [done|]; by apply (c_asked _ _ (at_time (empty_cache 0) 3))|].
  apply rtc_once.
  apply (t_run _ _ (at_time (empty_cache 0) 3) (one (Storing q cred 3 (30 * second)%Z)) 0 (Storing q cred 3 (30 * second)%Z) stored None);
    [done|]. apply (c_at _ _ _ _ 4); [done|].
  exact (c_store credential_key (credential_ask VaultExample.decode VaultExample.vault "http://vault") (at_time (empty_cache 0) 4)
    q cred 3 (30 * second)%Z).
Qed.

Lemma found_again : rtc cstep (stored, ∅) (give (at_time stored 9) q cred, ∅).
Proof.
  eapply rtc_l; [apply (t_go _ _ stored ∅ 0 (Loading q) stored); [done|]; by apply go_resolve|].
  eapply rtc_l; [apply (t_run _ _ stored (one (Loading q)) 0 (Loading q) (at_time stored 8) (Some (Loaded q cred (4 + 30 * second)%Z)));
    [done|]; apply (c_at _ _ _ _ 8); [done|]; by apply (c_load _ _ (at_time stored 8))|].
  apply rtc_once. apply (t_run _ _ (at_time stored 8) (one (Loaded q cred (4 + 30 * second)%Z)) 0 (Loaded q cred (4 + 30 * second)%Z)
    (give (at_time stored 9) q cred) None); [done|].
  apply (c_at _ _ _ _ 9); [done|]. by apply (c_hit _ _ (at_time stored 9) q cred (4 + 30 * second)%Z).
Qed.
End CredentialThreadsExample.

Lemma credentials_under_concurrency_witness :
  rtc CredentialThreadsExample.cstep (empty_cache 0, ∅)
    (give (at_time CredentialThreadsExample.stored 9) CredentialThreadsExample.q CredentialThreadsExample.cred, ∅) ∧
  ∃ asked stored, (asked ≤ stored ≤ 9)%Z ∧ (9 < stored + 30 * second)%Z ∧
    Credential.Fetch VaultExample.decode "http://vault" (VaultExample.vault asked "agent" "api.test" "u") = Ok CredentialThreadsExample.cred.
Proof.
  assert (rtc CredentialThreadsExample.cstep (empty_cache 0, ∅)
    (give (at_time CredentialThreadsExample.stored 9) CredentialThreadsExample.q CredentialThreadsExample.cred, ∅)) as Hr
    by (etrans; [apply CredentialThreadsExample.answered|apply CredentialThreadsExample.found_again]).
  split; [exact Hr|]. eapply (credentials_under_concurrency VaultExample.decode VaultExample.vault "http://vault" 0 _ ∅ "agent" "api.test" "u"
    CredentialThreadsExample.cred 9 Hr). right. left.
Defined.

(** The identity cache under concurrent questions: the user a [Resolve] names at
    [now] is the one the vault named for this provider and a token of the same
    hash, stored within the lifetime the vault gave (or thirty seconds), or at this
    moment; or the vault has just said that there is none. *)
Theorem identities_under_concurrency decode vault token_hash n t0 s ths provider token user now :
  (∀ t, String.length (token_hash t) = n) →
  rtc (ctstep (identity_key token_hash) (identity_ask decode vault) named) (empty_cache t0, ∅) (s, ths) →
  ((provider, token), user, now) ∈ given s →
  (user = "" ∧ ∃ body, vault now provider token = Answer 404 body) ∨
  ∃ asked stored token' body seconds, token_hash token' = token_hash token ∧ (asked ≤ stored ≤ now)%Z ∧
    vault asked provider token' = Answer 200 body ∧ body ≫= decode = Ok (user, seconds) ∧
    (now < stored + Identity.entry_ttl seconds ∨ stored = now)%Z.
Proof.
  intros Hn Hr Hg. apply cache_reachable in Hr as [_ Hok]; [|done..].
  assert (∀ t q u life, identity_ask decode vault t q = Ok (u, life) →
    (u = "" ∧ life = None ∧ ∃ body, vault t q.1 q.2 = Answer 404 body) ∨
    ∃ body seconds, vault t q.1 q.2 = Answer 200 body ∧ body ≫= decode = Ok (u, seconds) ∧
      life = Some (Identity.entry_ttl seconds)) as Hask.
  { intros t q u life. unfold identity_ask. destruct (vault t q.1 q.2) as [|code body]; [done|].
    destruct (Z.eqb_spec code 404) as [->|_]; [intros; simplify_eq; eauto|].
    destruct (Z.eqb_spec code 200) as [->|_]; cbn [negb]; [|done].
    destruct (body ≫= decode) as [[u' secs]|?|?] eqn:Hb; [|done..]. intros; simplify_eq. eauto 10. }
  destruct (Hok _ _ _ Hg) as (_ & [Ha|(stored & life & ([p' token'] & asked & Hk & _ & Htime & Hf) & Hlife)]).
  - apply Hask in Ha as [(-> & _ & ?)|(? & ? & _ & _ & ?)]; [by left|done].
  - apply (identity_key_inj token_hash n) in Hk as [Hp Ht]; [|done]. cbn in Hp, Ht. subst p'.
    apply Hask in Hf as [(_ & ? & _)|(body & secs & Hv & Hb & Hl)]; [done|]. simplify_eq. right.
    exists asked, stored, token', body, secs. split_and!; auto; lia.
Qed.
