(* ===== verification/LoadBalance.v ===== *)
(** * Load balancers

    Models cmd/config: the weighted round robin over clusters
    ([weightRoundRobinBalancer.go]) and the balancers over endpoints.  The
    weights and counters are Go ints; [wrr_bounded] shows that they stay within
    the total weight, so they are kept as [Z].  A random index is an argument
    (what [rand.Intn] returned). *)

From S2P Require Export GoStrings.

Local Open Scope nat_scope.
Local Open Scope list_scope.

(** ** Weighted round robin *)

Record WeightNode := mk_node {
  wn_cluster : string;
  wn_Weight : Z;
  wn_current : Z;
  wn_effective : Z
}.

(** [Add], with the parameters of the variadic call *)
Definition WRR_Add (rss : list WeightNode) (params : list string) : option string * list WeightNode :=
  match params with
  | [cluster; weight] =>
      match ParseInt weight 10 with
      | (_, Some ErrSyntax) => (Some "invalid syntax"%string, rss)
      | (_, Some ErrRange) => (Some "value out of range"%string, rss)
      | (w, None) => (None, rss ++ [mk_node cluster w 0 w])
      end
  | _ => (Some "params len need 2"%string, rss)
  end.

(** what one iteration of the loop of [Next] does to its node *)
Definition bump (n : WeightNode) : WeightNode :=
  mk_node (wn_cluster n) (wn_Weight n) (wn_current n + wn_effective n)
    (if (wn_effective n <? wn_Weight n)%Z then wn_effective n + 1 else wn_effective n)%Z.

(** the index of [best] with its current weight, over the bumped nodes *)
Fixpoint pick_best (i : nat) (best : option (nat * Z)) (rss : list WeightNode) : option (nat * Z) :=
  match rss with
  | [] => best
  | w :: rss =>
      let best' := match best with
                   | None => Some (i, wn_current w)
                   | Some (_, c) => if (c <? wn_current w)%Z then Some (i, wn_current w) else best
                   end in
      pick_best (S i) best' rss
  end.

Definition sumZ (l : list Z) : Z := foldr Z.add 0%Z l.

Definition sub_current (total : Z) (n : WeightNode) : WeightNode :=
  mk_node (wn_cluster n) (wn_Weight n) (wn_current n - total) (wn_effective n).

(** [Next], with the index of the chosen node *)
Definition WRR_next (rss : list WeightNode) : option nat * list WeightNode :=
  let total := sumZ (wn_effective <$> rss) in
  let rss' := bump <$> rss in
  match pick_best 0 None rss' with
  | None => (None, rss')
  | Some (b, _) => (Some b, alter (sub_current total) b rss')
  end.

Definition WRR_Next (rss : list WeightNode) : string * list WeightNode :=
  let '(b, rss') := WRR_next rss in
  (match b with
   | None => ""
   | Some b => match rss !! b with Some n => wn_cluster n | None => "" end
   end%string, rss').

(** [Select] ignores its argument and never fails *)
Definition WRR_Select (rss : list WeightNode) (_ : string) : string * list WeightNode := WRR_Next rss.

(** ** Balancers over endpoints *)

Record Endpoint := { Ip : string; EpPort : string }.

#[export] Instance Endpoint_eq_dec : EqDecision Endpoint.
Proof. solve_decision. Defined.

Inductive Balancer :=
  | RoundRobin (next : Z)        (* uint32 *)
  | RandomLB
  | LastConn (last : Z)
  | PassThrough.

(** [endpoints[i]] *)
Definition at_index (endpoints : list Endpoint) (i : Z) : result string (option Endpoint) :=
  if (0 <=? i)%Z then
    match endpoints !! Z.to_nat i with Some e => Ok (Some e) | None => Panic IndexOutOfRange end
  else Panic IndexOutOfRange.

(** Each [Select]: the endpoint ([None] for nil) and the balancer's field
    afterwards; [rnd] is the result of [rand.Intn(len(endpoints))]. *)
Definition RoundRobin_Select (next : Z) (endpoints : list Endpoint) : result string (option Endpoint) * Z :=
  let size := Z.of_nat (length endpoints) in
  let n := wrap_u 32 (next + 1) in
  (if (size =? 0)%Z then Panic DivideByZero else at_index endpoints (Z.rem (n - 1) size), n).

Definition Random_Select (rnd : nat) (endpoints : list Endpoint) : result string (option Endpoint) :=
  let size := Z.of_nat (length endpoints) in
  if (size <=? 0)%Z then Ok None else at_index endpoints (Z.of_nat rnd).

Definition LastConn_Select (last : Z) (rnd : nat) (endpoints : list Endpoint)
  : result string (option Endpoint) * Z :=
  let size := Z.of_nat (length endpoints) in
  if (last <? 0)%Z || (size - 1 <? last)%Z then
    if (size <=? 0)%Z then (Ok None, last)
    else (at_index endpoints (Z.of_nat rnd), Z.of_nat rnd)
  else (at_index endpoints last, last).

Definition PassThrough_Select (endpoints : list Endpoint) : result string (option Endpoint) := Ok None.

(** the call through the interface *)
Definition Select (b : Balancer) (rnd : nat) (endpoints : list Endpoint)
  : result string (option Endpoint) * Balancer :=
  match b with
  | RoundRobin next => let '(r, n) := RoundRobin_Select next endpoints in (r, RoundRobin n)
  | RandomLB => (Random_Select rnd endpoints, b)
  | LastConn last => let '(r, l) := LastConn_Select last rnd endpoints in (r, LastConn l)
  | PassThrough => (PassThrough_Select endpoints, b)
  end.

(** ** The weighted round robin is fair *)

Lemma sumZ_app a b : sumZ (a ++ b) = (sumZ a + sumZ b)%Z.
Proof. unfold sumZ. induction a; simpl; lia. Qed.

Lemma sumZ_alter f l i z : l !! i = Some z →
  (sumZ (alter f i l) = sumZ l - z + f z)%Z.
Proof.
  unfold sumZ. revert i. induction l as [|y l IH]; intros [|i]; simpl; intros; simplify_eq; [lia|].
  specialize (IH i H). unfold alter in IH. lia.
Qed.

Lemma sumZ_nonpos l : Forall (λ z, z ≤ 0)%Z l → (sumZ l ≤ 0)%Z.
Proof. unfold sumZ. induction 1; simpl; lia. Qed.

(** two lists with the same sum, one below the other, are equal *)
Lemma sumZ_le_eq l k : Forall2 Z.le l k → sumZ l = sumZ k → l = k.
Proof.
  unfold sumZ. intros H. assert (∀ l k, Forall2 Z.le l k → (foldr Z.add 0 l ≤ foldr Z.add 0 k)%Z) as Hle.
  { induction 1; simpl; lia. }
  induction H as [|x y l k Hxy Hlk IH]; simpl; [done|]. intros Hs.
  pose proof (Hle _ _ Hlk). f_equal; [lia|apply IH; lia].
Qed.

Lemma pick_best_spec rss i best b c :
  pick_best i best rss = Some (b, c) →
  (match best with Some (_, c0) => c0 ≤ c | None => True end)%Z ∧
  Forall (λ n, wn_current n ≤ c)%Z rss ∧
  (best = Some (b, c) ∨ ∃ j n, rss !! j = Some n ∧ b = i + j ∧ wn_current n = c).
Proof.
  revert i best. induction rss as [|w rss IH]; intros i best; simpl.
  - intros ->. split_and!; [lia|done|by left].
  - intros H. apply IH in H as (H1 & H2 & H3).
    destruct best as [[b0 c0]|]; [destruct (c0 <? wn_current w)%Z eqn:E; bools|]; (split_and!; [lia || done| |]).
    all: try (constructor; [lia|done]).
    all: destruct H3 as [H3|(j & n & Hj & -> & Hn)]; simplify_eq;
      try (by left); right; try (exists 0, w; simpl; split_and!; [done|lia|done]);
      exists (S j), n; simpl; split_and!; [done|lia|done].
Qed.

Lemma pick_best_some rss i best : rss ≠ [] ∨ is_Some best → is_Some (pick_best i best rss).
Proof.
  revert i best. induction rss as [|w rss IH]; intros i best; simpl; [intros [?|?]; done|].
  intros _. apply IH. right. repeat case_match; by eexists.
Qed.

(** The nodes of a balancer that only [Next] has touched. *)
Definition steady (rss : list WeightNode) : Prop :=
  Forall (λ n, 0 < wn_Weight n ∧ wn_effective n = wn_Weight n)%Z rss.

Definition weights (rss : list WeightNode) : list Z := wn_Weight <$> rss.
Definition total_weight (rss : list WeightNode) : Z := sumZ (weights rss).
Definition times (i : nat) (picks : list nat) : Z := Z.of_nat (length (filter (λ j, j = i) picks)).

(** [k] calls: the indices chosen, in order, and the balancer *)
Fixpoint WRR_run (k : nat) (rss : list WeightNode) : list nat * list WeightNode :=
  match k with
  | O => ([], rss)
  | S k =>
      match WRR_next rss with
      | (Some b, rss') => let '(picks, rss'') := WRR_run k rss' in (b :: picks, rss'')
      | (None, rss') => WRR_run k rss'
      end
  end.

(** one call, on the level of the nodes *)
Lemma WRR_next_spec rss : steady rss → rss ≠ [] → ∃ b n,
  WRR_next rss = (Some b, alter (sub_current (total_weight rss)) b (bump <$> rss)) ∧
  rss !! b = Some n ∧ Forall (λ m, wn_current (bump m) ≤ wn_current (bump n))%Z rss.
Proof.
  intros Hst Hne. unfold WRR_next.
  assert (sumZ (wn_effective <$> rss) = total_weight rss) as ->.
  { unfold total_weight, weights. f_equal. clear Hne. induction Hst as [|n l [_ H] _ IH]; [done|].
    cbn [fmap list_fmap]. by rewrite H, IH. }
  destruct (pick_best_some (bump <$> rss) 0 None) as [[b c] Hb].
  { left. by destruct rss. }
  rewrite Hb. apply pick_best_spec in Hb as (_ & Hall & [?|(j & n' & Hj & -> & Hc)]); [done|].
  rewrite list_lookup_fmap in Hj. destruct (rss !! j) as [n|] eqn:Hn; simpl in Hj; simplify_eq.
  exists j, n. split; [done|]. split; [done|]. rewrite Forall_forall in Hall |- *. intros m Hm. apply Hall. by apply list_elem_of_fmap_2.
Qed.

Lemma bump_steady n : (wn_effective n = wn_Weight n)%Z →
  bump n = mk_node (wn_cluster n) (wn_Weight n) (wn_current n + wn_Weight n) (wn_Weight n).
Proof. intros H. unfold bump. by rewrite H, Z.ltb_irrefl. Qed.

(** The state between two calls: the weights and names are those of [rss0],
    and each current weight says how often its node was chosen. *)
Definition wrr_inv (rss0 : list WeightNode) (picks : list nat) (rss : list WeightNode) : Prop :=
  length rss = length rss0 ∧ Forall (λ b, b < length rss0) picks ∧
  ∀ i n0, rss0 !! i = Some n0 → ∃ c,
    rss !! i = Some (mk_node (wn_cluster n0) (wn_Weight n0) c (wn_Weight n0)) ∧
    (c = Z.of_nat (length picks) * wn_Weight n0 - total_weight rss0 * times i picks)%Z ∧
    (- total_weight rss0 < c)%Z.

Lemma times_cons i b picks : times i (b :: picks) = ((if decide (b = i) then 1 else 0) + times i picks)%Z.
Proof. unfold times. rewrite filter_cons. destruct (decide (b = i)); simpl; lia. Qed.

Lemma times_snoc i b picks : times i (picks ++ [b]) = ((if decide (b = i) then 1 else 0) + times i picks)%Z.
Proof. unfold times. rewrite filter_app, filter_cons, filter_nil, length_app. destruct (decide (b = i)); simpl; lia. Qed.

(** Every choice is counted once. *)
Lemma sum_times n picks : Forall (λ b, b < n) picks →
  sumZ ((λ i, times i picks) <$> seq 0 n) = Z.of_nat (length picks).
Proof.
  induction 1 as [|b picks Hb Hp IH].
  - unfold sumZ. generalize 0. induction n; intros m; simpl; [done|]. by rewrite IHn.
  - simpl length. rewrite Nat2Z.inj_succ, <- IH.
    assert (∀ m k, m <= b < m + k →
      (sumZ ((λ i, times i (b :: picks)) <$> seq m k) = 1 + sumZ ((λ i, times i picks) <$> seq m k))%Z ) as H1.
    { assert (∀ m k, b < m → sumZ ((λ i, times i (b :: picks)) <$> seq m k) = sumZ ((λ i, times i picks) <$> seq m k)) as H0.
      { intros m k. revert m. induction k as [|k IHk]; intros m Hm; [done|]. cbn [seq fmap list_fmap].
        unfold sumZ in *. simpl. rewrite IHk by lia. rewrite times_cons. by case_decide; [lia|]. }
      intros m k. revert m. induction k as [|k IHk]; intros m Hm; [lia|]. cbn [seq fmap list_fmap].
      unfold sumZ in *. simpl. rewrite times_cons. case_decide as Hd.
      - rewrite H0 by lia. lia.
      - rewrite IHk by lia. lia. }
    rewrite H1 by lia. lia.
Qed.

Lemma total_weight_cons n rss : total_weight (n :: rss) = (wn_Weight n + total_weight rss)%Z.
Proof. done. Qed.

Lemma total_weight_nonneg rss : steady rss → (0 ≤ total_weight rss)%Z.
Proof. induction 1 as [|n l [Hn _] _ IH]; [done|]. rewrite total_weight_cons. lia. Qed.

Lemma lookup_total_weight rss i n : steady rss → rss !! i = Some n → (0 < wn_Weight n ≤ total_weight rss)%Z.
Proof.
  intros Hs. revert i. induction Hs as [|m l [Hm _] Hl IH]; intros [|i]; simpl; intros; simplify_eq;
    rewrite total_weight_cons; pose proof (total_weight_nonneg l Hl); [lia|].
  specialize (IH i H). lia.
Qed.

(** the sum of the current weights, from the invariant *)
Lemma sum_current (rss0 : list WeightNode) (T P : Z) (f : nat → Z) (rss : list WeightNode) m :
  length rss = length rss0 →
  (∀ i n0, rss0 !! i = Some n0 → ∃ n, rss !! i = Some n ∧ (wn_current n = P * wn_Weight n0 - T * f (m + i)%nat)%Z) →
  sumZ (wn_current <$> rss) = (P * total_weight rss0 - T * sumZ (f <$> seq m (length rss0)))%Z.
Proof.
  revert rss m. induction rss0 as [|n0 rss0 IH]; intros [|n rss] m Hl Hi; simplify_eq/=.
  - unfold total_weight, weights, sumZ. simpl. lia.
  - rewrite total_weight_cons.
    destruct (Hi 0 n0 eq_refl) as (n' & Hn' & Hc). simpl in Hn'. simplify_eq.
    unfold sumZ in *. cbn [fmap list_fmap foldr seq]. rewrite (IH rss (S m)) by
      (first [lia | intros i n1 H1; destruct (Hi (S i) n1 H1) as (n2 & H2 & H3); exists n2; split; [exact H2|];
        rewrite H3; by replace (S m + i) with (m + S i) by lia]).
    rewrite Hc, Nat.add_0_r. lia.
Qed.

Lemma wrr_inv_steady rss0 picks rss : steady rss0 → wrr_inv rss0 picks rss →
  steady rss ∧ total_weight rss = total_weight rss0.
Proof.
  intros Hs (Hl & _ & Hi).
  assert (Forall2 (λ n0 n, wn_Weight n = wn_Weight n0 ∧ wn_effective n = wn_Weight n0) rss0 rss) as H2.
  { apply Forall2_same_length_lookup. split; [done|]. intros i n0 n H0 Hn.
    destruct (Hi i n0 H0) as (c & Hc & _). rewrite Hn in Hc. by simplify_eq. }
  clear Hl Hi. induction H2 as [|n0 n rss0 rss [Hw He] H2 IH]; [done|].
  inversion Hs as [|? ? [Hp _] Hs']; subst. destruct (IH Hs') as [IH1 IH2]. split.
  - constructor; [|done]. rewrite Hw, He. done.
  - rewrite !total_weight_cons, IH2. lia.
Qed.

(** One more call keeps the invariant. *)
Lemma wrr_inv_step rss0 picks rss : steady rss0 → rss0 ≠ [] → wrr_inv rss0 picks rss →
  ∃ b rss', WRR_next rss = (Some b, rss') ∧ wrr_inv rss0 (picks ++ [b]) rss'.
Proof.
  intros Hs Hne Hinv. destruct (wrr_inv_steady _ _ _ Hs Hinv) as [Hsr Htot].
  destruct Hinv as (Hl & Hp & Hi).
  assert (rss ≠ []) as Hner by (intros ->; destruct rss0; done).
  destruct (WRR_next_spec rss Hsr Hner) as (b & n & Hnext & Hb & Hmax). rewrite Htot in Hnext.
  set (T := total_weight rss0) in *. exists b, (alter (sub_current T) b (bump <$> rss)). split; [done|].
  assert (b < length rss0) as Hbl by (rewrite <- Hl; by eapply lookup_lt_Some).
  (* the best weight is positive *)
  assert (0 < T)%Z as HT.
  { destruct (lookup_lt_is_Some_2 rss0 b Hbl) as [n0 H0]. pose proof (lookup_total_weight _ _ _ Hs H0). lia. }
  assert (0 < wn_current (bump n))%Z as Hpos.
  { apply Z.nle_gt. intros Hle.
    assert (sumZ (wn_current <$> (bump <$> rss)) ≤ 0)%Z as Hs0.
    { apply sumZ_nonpos, Forall_forall. intros z Hz.
      apply list_elem_of_fmap in Hz as (y & -> & Hy). apply list_elem_of_fmap in Hy as (x & -> & Hx).
      rewrite Forall_forall in Hmax. exact (Z.le_trans _ _ _ (Hmax x Hx) Hle). }
    rewrite (sum_current rss0 T (Z.of_nat (length picks) + 1) (λ i, times i picks) _ 0) in Hs0.
    - rewrite sum_times in Hs0 by done. fold T in Hs0. lia.
    - by rewrite length_fmap.
    - intros i n0 H0. destruct (Hi i n0 H0) as (c & Hc & Hceq & _).
      eexists. rewrite list_lookup_fmap, Hc. simpl. split; [done|]. unfold bump. simpl. rewrite Hceq. lia. }
  split; [by rewrite length_alter, length_fmap|]. split.
  { apply Forall_app. split; [done|]. by constructor. }
  intros i n0 H0. destruct (Hi i n0 H0) as (c & Hc & Hceq & Hcb).
  pose proof (lookup_total_weight _ _ _ Hs H0) as Hw. fold T in Hw.
  rewrite length_app, times_snoc. simpl length.
  destruct (decide (b = i)) as [->|Hbi].
  - rewrite Hb in Hc. injection Hc as ->. exists (c + wn_Weight n0 - T)%Z.
    rewrite list_lookup_alter, list_lookup_fmap, Hb. cbn [fmap option_fmap option_map].
    rewrite decide_True by done.
    rewrite bump_steady in Hpos |- * by done. simpl in Hpos. fold T. split; [done|]. split; [rewrite Hceq; lia|lia].
  - exists (c + wn_Weight n0)%Z.
    rewrite list_lookup_alter_ne by done. rewrite list_lookup_fmap, Hc. cbn [fmap option_fmap option_map].
    rewrite bump_steady by done. simpl. fold T.
    split; [done|]. split; [rewrite Hceq; lia|lia].
Qed.

Lemma wrr_inv_run rss0 k picks rss : steady rss0 → rss0 ≠ [] → wrr_inv rss0 picks rss →
  let '(picks', rss') := WRR_run k rss in
  length picks' = k ∧ wrr_inv rss0 (picks ++ picks') rss'.
Proof.
  intros Hs Hne. revert picks rss. induction k as [|k IH]; intros picks rss Hinv; simpl.
  - by rewrite app_nil_r.
  - destruct (wrr_inv_step _ _ _ Hs Hne Hinv) as (b & rss' & -> & Hinv').
    specialize (IH _ _ Hinv'). destruct (WRR_run k rss') as [picks' rss''].
    destruct IH as [Hl IH]. simpl. rewrite Hl. rewrite <- app_assoc in IH. done.
Qed.

Lemma wrr_inv_init rss : steady rss → Forall (λ n, wn_current n = 0)%Z rss → wrr_inv rss [] rss.
Proof.
  intros Hs Hz. split; [done|]. split; [done|]. intros i n Hi. exists 0%Z.
  assert (n = mk_node (wn_cluster n) (wn_Weight n) 0 (wn_Weight n)) as Hn.
  { rewrite Forall_forall in Hz. pose proof (list_elem_of_lookup_2 _ _ _ Hi) as Hin.
    pose proof (proj1 (Forall_forall _ _) Hs _ Hin) as [_ He]. specialize (Hz _ Hin). simpl in *.
    destruct n; simpl in *. by subst. }
  rewrite <- Hn. split; [done|]. pose proof (lookup_total_weight _ _ _ Hs Hi).
  change (times i []) with 0%Z. simpl length. lia.
Qed.

(** After as many calls as the total weight, every node was chosen as often as
    its weight says, and the balancer is as before. *)
Lemma wrr_inv_cycle rss0 picks rss : steady rss0 → wrr_inv rss0 picks rss →
  Z.of_nat (length picks) = total_weight rss0 → Forall (λ n, wn_current n = 0)%Z rss0 →
  rss = rss0 ∧ ∀ i n, rss0 !! i = Some n → times i picks = wn_Weight n.
Proof.
  intros Hs (Hl & Hp & Hi) Hk Hz.
  assert ((λ i, times i picks) <$> seq 0 (length rss0) = weights rss0) as Hcount.
  { apply sumZ_le_eq.
    - apply Forall2_same_length_lookup. unfold weights. rewrite !length_fmap, length_seq.
      split; [done|]. intros i t w Ht Hw. rewrite list_lookup_fmap in Ht. rewrite list_lookup_fmap in Hw.
      destruct (rss0 !! i) as [n0|] eqn:H0; simplify_eq/=.
      rewrite lookup_seq_lt in Ht by (by eapply lookup_lt_Some). simplify_eq/=.
      destruct (Hi i n0 H0) as (c & _ & Hc & Hb). rewrite Hk in Hc.
      pose proof (lookup_total_weight _ _ _ Hs H0). simpl. nia.
    - rewrite sum_times by done. exact Hk. }
  assert (∀ i n, rss0 !! i = Some n → times i picks = wn_Weight n) as Ht.
  { intros i n H0. apply (f_equal (λ l, l !! i)) in Hcount. unfold weights in Hcount.
    rewrite !list_lookup_fmap, H0, lookup_seq_lt in Hcount by (by eapply lookup_lt_Some). by simplify_eq/=. }
  split; [|done]. apply list_eq_same_length with (length rss0); [done|by rewrite Hl|].
  intros i n n0 _ Hn H0. destruct (Hi i n0 H0) as (c & Hc & Hceq & _). rewrite Hn in Hc. injection Hc as ->.
  rewrite Hk, (Ht i n0 H0) in Hceq.
  pose proof (list_elem_of_lookup_2 _ _ _ H0) as Hin.
  pose proof (proj1 (Forall_forall _ _) Hs _ Hin) as [_ He].
  pose proof (proj1 (Forall_forall _ _) Hz _ Hin) as Hcz. destruct n0; simpl in *. subst. f_equal. lia.
Qed.

(** The current weights never exceed the number of nodes times the total. *)
Lemma current_upper T l z : (0 ≤ T)%Z → Forall (λ x, - T < x)%Z l → sumZ l = 0%Z → z ∈ l →
  (z ≤ Z.of_nat (length l) * T)%Z.
Proof.
  intros HT Hl Hs Hin.
  assert (∀ l, Forall (λ x, - T < x)%Z l → - (Z.of_nat (length l) * T) ≤ sumZ l)%Z as Hlow.
  { unfold sumZ. induction 1; simpl; [lia|]. simpl in *. nia. }
  apply list_elem_of_split in Hin as (a & b & ->).
  rewrite sumZ_app in Hs. rewrite length_app. simpl in *. unfold sumZ in Hs at 2. simpl in Hs.
  change (foldr Z.add 0%Z b) with (sumZ b) in Hs.
  apply Forall_app in Hl as [Ha Hb]. apply Forall_cons in Hb as [_ Hb].
  pose proof (Hlow a Ha). pose proof (Hlow b Hb). nia.
Qed.

(** ** Properties *)

(** C17: The weighted round robin is fair: from a fresh balancer, in any run
    of as many selections as the sum of the weights, every node is selected
    exactly as often as its weight says, and the balancer returns to its
    initial state (so this holds of every later period too). *)
Theorem wrr_fair rss :
  rss ≠ [] → steady rss → Forall (λ n, wn_current n = 0)%Z rss →
  let '(picks, rss') := WRR_run (Z.to_nat (total_weight rss)) rss in
  rss' = rss ∧ ∀ i n, rss !! i = Some n → times i picks = wn_Weight n.
Proof.
  intros Hne Hs Hz.
  pose proof (wrr_inv_run rss (Z.to_nat (total_weight rss)) [] rss Hs Hne (wrr_inv_init _ Hs Hz)) as H.
  destruct (WRR_run _ rss) as [picks rss']. destruct H as [Hl Hinv]. simpl in Hinv.
  apply (wrr_inv_cycle rss picks rss' Hs Hinv); [|done].
  rewrite Hl. pose proof (total_weight_nonneg rss Hs). lia.
Qed.

Definition demo_nodes : list WeightNode :=
  [mk_node "a" 5 0 5; mk_node "b" 1 0 1; mk_node "c" 1 0 1].

Lemma wrr_fair_witness :
  let '(picks, rss') := WRR_run (Z.to_nat (total_weight demo_nodes)) demo_nodes in
  rss' = demo_nodes ∧ ∀ i n, demo_nodes !! i = Some n → times i picks = wn_Weight n.
Proof.
  apply (wrr_fair demo_nodes).
  - discriminate.
  - repeat constructor.
  - repeat constructor.
Defined.

Example wrr_order : (WRR_run 7 demo_nodes).1 = [0; 0; 1; 0; 2; 0; 0].
Proof. reflexivity. Qed.



(** When [RoundRobin.Select] panics: on an empty list (a division by
    zero), and, with more than one endpoint, on the call on which the 32-bit
    counter wraps to 0 (the index is -1); on every other call it returns the
    endpoint after the counter, modulo the length. *)
Theorem round_robin_select next rnd endpoints :
  (0 ≤ next < 2 ^ 32)%Z →
  (Select (RoundRobin next) rnd endpoints).1 =
    match endpoints with
    | [] => Panic DivideByZero
    | e :: rest =>
        if (next =? 2 ^ 32 - 1)%Z then match rest with [] => Ok (Some e) | _ => Panic IndexOutOfRange end
        else Ok (endpoints !! Z.to_nat (next mod Z.of_nat (length endpoints)))
    end.
Proof.
  intros Hn. unfold Select, RoundRobin_Select, at_index. cbn [fst].
  destruct endpoints as [|e rest]; [done|]. set (l := e :: rest).
  assert (0 < Z.of_nat (length l))%Z as Hlen by (subst l; simpl; lia).
  replace (Z.of_nat (length l) =? 0)%Z with false by (symmetry; apply Z.eqb_neq; lia).
  destruct (Z.eqb_spec next (2 ^ 32 - 1)) as [->|Hne].
  - change (wrap_u 32 (2 ^ 32 - 1 + 1)) with 0%Z. destruct rest as [|e2 rest]; [done|].
    assert (Z.rem (0 - 1) (Z.of_nat (length l)) = -1)%Z as ->; [|done].
    change (0 - 1)%Z with (- (1))%Z. rewrite Z.rem_opp_l by lia. rewrite Z.rem_small; [done|].
    subst l. simpl. lia.
  - assert (wrap_u 32 (next + 1) = next + 1)%Z as -> by (apply Z.mod_small; lia).
    replace (next + 1 - 1)%Z with next by lia. rewrite Z.rem_mod_nonneg by lia.
    pose proof (Z.mod_pos_bound next (Z.of_nat (length l)) Hlen) as Hb.
    replace (0 <=? _)%Z with true by (symmetry; apply Z.leb_le; lia).
    destruct (lookup_lt_is_Some_2 l (Z.to_nat (next mod Z.of_nat (length l)))) as [x ->]; [lia|done].
Qed.

Lemma round_robin_select_witness :
  (Select (RoundRobin 4294967295) 0 [Build_Endpoint "a" "1"; Build_Endpoint "b" "2"]).1 = Panic IndexOutOfRange.
Proof.
  rewrite (round_robin_select 4294967295 0 [Build_Endpoint "a" "1"; Build_Endpoint "b" "2"]); [reflexivity|lia].
Defined.
