(* ===== verification/RouteMatch.v ===== *)
(** * Routing tables

    Models cmd/proxy/data/config.go over the types of cmd/config/config.go:
    building the tables from a configuration, and matching a request.

    Balancers are shared: the hosts of a service point to one service value
    with one balancer, a cluster has its own, a route has its own weighted
    balancer.  They live in a heap ([lbs], [wrrs]) and the tables hold
    references.  The iteration order of the Go maps, the random numbers and
    [regexp.MatchString] are arguments; YAML decoding happened before
    ([ProxyConfig] is the decoded document, its defaults set). *)

From S2P Require Export LoadBalance HttpMessage.

Local Open Scope string_scope.
Local Open Scope nat_scope.
Local Open Scope list_scope.

(** ** The configuration types *)

Record StringMatch := mk_sm { sm_exact : string; sm_prefix : string; sm_regex : string }.

Record HttpMatchRequest := {
  mr_uri : StringMatch; mr_scheme : StringMatch; mr_method : StringMatch; mr_authority : StringMatch;
  mr_headers : gmap string StringMatch; mr_port : Z; mr_queryParams : gmap string StringMatch;
  mr_ignoreUriCase : bool; mr_withoutHeaders : gmap string StringMatch
}.

Record HttpRouteDestination := { dest_cluster : string; dest_weight : Z }.

Record HttpRoute := {
  hr_match : list HttpMatchRequest;
  hr_route : list HttpRouteDestination;
  hr_lb : option nat                      (* reference to a weighted balancer *)
}.

Record RouteRule := { rr_serviceName : string; rr_http : list (option HttpRoute); rr_order : Z }.

Record Cluster := {
  cl_name : string; cl_endpoints : list Endpoint; cl_simple : string;
  cl_lb : option nat                      (* reference to a balancer *)
}.

Record Service := {
  sv_name : string; sv_hosts : list string; sv_clusters : list Cluster; sv_rules : list RouteRule;
  sv_lb : option nat
}.

Record ProxyConfig := { pc_services : list Service }.

(** the variables of type SimpleLB are declared without a value *)
Definition ROUND_ROBIN : string := "".
Definition LEAST_CONN : string := "".
Definition RANDOM : string := "".
Definition PASSTHROUGH : string := "".

Definition Empty (sm : StringMatch) : bool :=
  negb (negb (String.eqb (sm_prefix sm) "") || negb (String.eqb (sm_exact sm) "") ||
        negb (String.eqb (sm_regex sm) "")).

(** the methods of sort.Interface for [RouteRuleList]; an index out of range
    panics *)
Definition rules_Len (r : list RouteRule) : nat := length r.
Definition rules_Swap (r : list RouteRule) (i j : nat) : result string (list RouteRule) :=
  match r !! i, r !! j with
  | Some a, Some b => Ok (<[j := a]> (<[i := b]> r))
  | _, _ => Panic IndexOutOfRange
  end.

(** [RouteRuleList.Less] *)
Definition rule_less (a b : RouteRule) : bool := (rr_order a <? rr_order b)%Z.

(** ** The tables *)

Record Maps := {
  ServiceMap : gmap string Service;
  RuleMap : gmap string (list RouteRule);
  Endpoints : gmap string (gmap string Endpoint);
  Clusters : gmap string (gmap string Cluster);
  lbs : gmap nat Balancer;
  wrrs : gmap nat (list WeightNode);
  fresh_ref : nat
}.

Definition NewMaps : Maps :=
  {| ServiceMap := ∅; RuleMap := ∅; Endpoints := ∅; Clusters := ∅; lbs := ∅; wrrs := ∅; fresh_ref := 0 |}.

Definition GetService (m : Maps) (host : string) : option Service := ServiceMap m !! host.
Definition GetRule (m : Maps) (service : string) : option (list RouteRule) := RuleMap m !! service.
Definition GetServiceRule (m : Maps) (host : string) : option (list RouteRule) :=
  match GetService m host with None => None | Some s => GetRule m (sv_name s) end.

(** ** Loading *)

Definition new_lb (m : Maps) (b : Balancer) : nat * Maps :=
  (fresh_ref m,
   {| ServiceMap := ServiceMap m; RuleMap := RuleMap m; Endpoints := Endpoints m; Clusters := Clusters m;
      lbs := <[fresh_ref m := b]> (lbs m); wrrs := wrrs m; fresh_ref := S (fresh_ref m) |}).

Definition new_wrr (m : Maps) (nodes : list WeightNode) : nat * Maps :=
  (fresh_ref m,
   {| ServiceMap := ServiceMap m; RuleMap := RuleMap m; Endpoints := Endpoints m; Clusters := Clusters m;
      lbs := lbs m; wrrs := <[fresh_ref m := nodes]> (wrrs m); fresh_ref := S (fresh_ref m) |}).

(** the balancer made for a cluster; the cases are compared in the order of
    the switch *)
Definition cluster_balancer (simple : string) : Balancer :=
  if String.eqb simple ROUND_ROBIN then RoundRobin 0
  else if String.eqb simple RANDOM then RandomLB
  else if String.eqb simple LEAST_CONN then LastConn (-1)
  else if String.eqb simple PASSTHROUGH then PassThrough
  else RoundRobin 0.

Definition put_cluster (m : Maps) (service : string) (c : Cluster) : Maps :=
  {| ServiceMap := ServiceMap m; RuleMap := RuleMap m;
     Endpoints := <[service :=
       foldl (λ em e, <[Ip e +:+ ":" +:+ EpPort e := e]> em) (default ∅ (Endpoints m !! service))
             (cl_endpoints c)]> (Endpoints m);
     Clusters := <[service := <[cl_name c := c]> (default ∅ (Clusters m !! service))]> (Clusters m);
     lbs := lbs m; wrrs := wrrs m; fresh_ref := fresh_ref m |}.

Definition load_cluster (service : string) (m : Maps) (c : Cluster) : Maps :=
  let '(lb, m) := match cl_lb c with
                  | Some r => (r, m)
                  | None => new_lb m (cluster_balancer (cl_simple c))
                  end in
  put_cluster m service
    {| cl_name := cl_name c; cl_endpoints := cl_endpoints c; cl_simple := cl_simple c; cl_lb := Some lb |}.

(** the nodes of a route: destinations with a weight and a cluster *)
Definition route_nodes (dests : list HttpRouteDestination) : list WeightNode :=
  foldl (λ nodes d,
    if (dest_weight d <=? 0)%Z then nodes
    else if String.eqb (dest_cluster d) "" then nodes
    else (WRR_Add nodes [dest_cluster d; Itoa (dest_weight d)]).2) [] dests.

Definition load_route (acc : list (option HttpRoute) * Maps) (r : option HttpRoute)
  : result string (list (option HttpRoute) * Maps) :=
  let '(done, m) := acc in
  match r with
  | None => Panic NilDeref
  | Some r =>
      match hr_lb r with
      | Some _ => Ok (done ++ [Some r], m)
      | None =>
          let '(w, m) := new_wrr m (route_nodes (hr_route r)) in
          Ok (done ++ [Some {| hr_match := hr_match r; hr_route := hr_route r; hr_lb := Some w |}], m)
      end
  end.

Fixpoint load_routes (acc : list (option HttpRoute) * Maps) (rs : list (option HttpRoute))
  : result string (list (option HttpRoute) * Maps) :=
  match rs with
  | [] => Ok acc
  | r :: rs => acc ← load_route acc r; load_routes acc rs
  end.

Definition put_rule (m : Maps) (service : string) (r : RouteRule) : Maps :=
  {| ServiceMap := ServiceMap m;
     RuleMap := <[service := default [] (RuleMap m !! service) ++ [r]]> (RuleMap m);
     Endpoints := Endpoints m; Clusters := Clusters m; lbs := lbs m; wrrs := wrrs m; fresh_ref := fresh_ref m |}.

(** the routes are shared pointers, so the rule already in the table sees the
    balancers that are made for them *)
Definition load_rule (service : string) (m : Maps) (r : RouteRule) : result string Maps :=
  '(http, m) ← load_routes ([], m) (rr_http r);
  Ok (put_rule m service {| rr_serviceName := rr_serviceName r; rr_http := http; rr_order := rr_order r |}).

Fixpoint load_rules (service : string) (m : Maps) (rs : list RouteRule) : result string Maps :=
  match rs with
  | [] => Ok m
  | r :: rs => m ← load_rule service m r; load_rules service m rs
  end.

Definition put_service (m : Maps) (s : Service) : Maps :=
  {| ServiceMap := foldl (λ sm h, <[h := s]> sm) (ServiceMap m) (sv_hosts s);
     RuleMap := RuleMap m; Endpoints := Endpoints m; Clusters := Clusters m;
     lbs := lbs m; wrrs := wrrs m; fresh_ref := fresh_ref m |}.

Definition ensure_tables (m : Maps) (service : string) : Maps :=
  {| ServiceMap := ServiceMap m; RuleMap := RuleMap m;
     Endpoints := <[service := default ∅ (Endpoints m !! service)]> (Endpoints m);
     Clusters := <[service := default ∅ (Clusters m !! service)]> (Clusters m);
     lbs := lbs m; wrrs := wrrs m; fresh_ref := fresh_ref m |}.

Definition load_service (m : Maps) (s : Service) : result string Maps :=
  let '(lb, m) := match sv_lb s with Some r => (r, m) | None => new_lb m (RoundRobin 0) end in
  let s := {| sv_name := sv_name s; sv_hosts := sv_hosts s; sv_clusters := sv_clusters s;
              sv_rules := sv_rules s; sv_lb := Some lb |} in
  let m := ensure_tables m (sv_name s) in
  let m := foldl (load_cluster (sv_name s)) m (sv_clusters s) in
  let m := put_service m s in
  load_rules (sv_name s) m (sv_rules s).

Fixpoint load_services (m : Maps) (ss : list Service) : result string Maps :=
  match ss with
  | [] => Ok m
  | s :: ss => m ← load_service m s; load_services m ss
  end.

(** [LoadServiceData]; [pc] is [None] when the file could not be read or
    decoded, which is only logged *)
Definition LoadServiceData (m : Maps) (pc : option ProxyConfig) : result string Maps :=
  match pc with
  | None => Ok m
  | Some pc => load_services m (pc_services pc)
  end.

(** ** The JSON copy and the cache file *)

Definition strip_cluster (c : Cluster) : Cluster :=
  {| cl_name := cl_name c; cl_endpoints := cl_endpoints c; cl_simple := cl_simple c; cl_lb := None |}.

Definition strip_route (h : HttpRoute) : HttpRoute :=
  {| hr_match := hr_match h; hr_route := hr_route h; hr_lb := None |}.

Definition strip_rule (r : RouteRule) : RouteRule :=
  {| rr_serviceName := rr_serviceName r; rr_http := option_map strip_route <$> rr_http r; rr_order := rr_order r |}.

(** [CowMaps.copy], [LoadCache]: the balancers are not part of the JSON text *)
Definition strip_service (s : Service) : Service :=
  {| sv_name := sv_name s; sv_hosts := sv_hosts s;
     sv_clusters := strip_cluster <$> sv_clusters s; sv_rules := strip_rule <$> sv_rules s;
     sv_lb := None |}.

(** the copy of [src] into fresh tables *)
Definition dup (src : Maps) : Maps :=
  {| ServiceMap := strip_service <$> ServiceMap src; RuleMap := map strip_rule <$> RuleMap src;
     Endpoints := Endpoints src; Clusters := (λ cs : gmap string Cluster, strip_cluster <$> cs) <$> Clusters src;
     lbs := ∅; wrrs := ∅; fresh_ref := 0 |}.

(** [CowMaps]: readers see a table until [Update] stores what the callback makes
    of its copy *)
Definition NewCowMaps (maps : Maps) : Maps := dup maps.
Definition CowGet (current : Maps) : Maps := current.
Definition CowUpdate (callback : Maps → Maps) (current : Maps) : Maps := callback (dup current).

(** [LoadCache] of the file written for [saved], into the empty tables of the
    start; [None] when the file cannot be read or decoded *)
Definition LoadCache (m : Maps) (saved : option Maps) : Maps :=
  match saved with
  | None => m
  | Some saved =>
      {| ServiceMap := ServiceMap (dup saved) ∪ ServiceMap m; RuleMap := RuleMap (dup saved) ∪ RuleMap m;
         Endpoints := Endpoints (dup saved) ∪ Endpoints m; Clusters := Clusters (dup saved) ∪ Clusters m;
         lbs := lbs m; wrrs := wrrs m; fresh_ref := fresh_ref m |}
  end.

(** [Load]: the cache, then the static configuration *)
Definition Load (saved : option Maps) (pc : option ProxyConfig) : result string Maps :=
  LoadServiceData (LoadCache NewMaps saved) pc.

(** ** Matching *)

Class Regexp := regexp_match : string → string → option bool.   (* regexp.MatchString *)

(** the order in which a Go map is visited *)
Record map_order (A : Type) := {
  visit : gmap string A → list (string * A);
  visit_all : ∀ m, visit m ≡ₚ map_to_list m
}.
Arguments visit {A} _ _.

Definition GetCluster (order : map_order Cluster) (m : Maps) (serviceId : string) : list Cluster :=
  match Clusters m !! serviceId with Some cs => (visit order cs).*2 | None => [] end.
Arguments visit_all {A} _ _.

Section Match.
Context `{UrlParser} `{GoUnicode} `{Regexp}.
Variable orders : map_order StringMatch.
Variable ep_order : map_order Endpoint.

Definition checkMatch (sm : StringMatch) (reqV : string) (ignoreCase : bool) : bool * bool :=
  if Empty sm then (false, false) else
  let tmpReqVal := if ignoreCase then ToLower reqV else reqV in
  let isMatched :=
    if negb (String.eqb (sm_exact sm) "") then
      String.eqb tmpReqVal (if ignoreCase then ToLower (sm_exact sm) else sm_exact sm)
    else if negb (String.eqb (sm_prefix sm) "") then
      HasPrefix tmpReqVal (if ignoreCase then ToLower (sm_prefix sm) else sm_prefix sm)
    else if negb (String.eqb (sm_regex sm) "") then
      match regexp_match (sm_regex sm) tmpReqVal with Some b => b | None => false end
    else false in
  (isMatched, true).

(** a configured matcher that does not match *)
Definition fails (sm : StringMatch) (v : string) (ic : bool) : bool :=
  let '(matched, need) := checkMatch sm v ic in need && negb matched.

(** the loop over [match.Headers]: headerMatched, from its value before *)
Fixpoint header_loop_matched (req : Request) (hs : list (string * StringMatch)) (headerMatched : bool) : bool :=
  match hs with
  | [] => headerMatched
  | (header, sm) :: hs =>
      let '(matched, needMatch) := checkMatch sm (Header_Get (ReqHeader req) header) false in
      if needMatch && negb matched then false else header_loop_matched req hs matched
  end.

(** the loop over [match.WithoutHeaders] *)
Fixpoint without_loop_matched (req : Request) (hs : list (string * StringMatch)) : bool :=
  match hs with
  | [] => false
  | (header, sm) :: hs =>
      let '(matched, needMatch) := checkMatch sm (Header_Get (ReqHeader req) header) false in
      if needMatch && matched then true else without_loop_matched req hs
  end.

(** the loop over [match.QueryParams]: paramMatched *)
Fixpoint param_loop_matched (req : Request) (ps : list (string * StringMatch)) : bool :=
  match ps with
  | [] => true
  | (name, sm) :: ps =>
      let '(matched, needMatch) := checkMatch sm (QueryGet (url_query (ReqURL req)) name) false in
      if needMatch && matched then false else param_loop_matched req ps
  end.

(** whether one match block lets the request through; [need] is true as soon
    as the map is not empty, so the tests reduce to these *)
Definition block_matches (req : Request) (mr : HttpMatchRequest) : bool :=
  negb (fails (mr_method mr) (Method req) false) &&
  negb (fails (mr_authority mr) (Authority req) false) &&
  negb (fails (mr_scheme mr) (url_scheme (ReqURL req)) false) &&
  negb (fails (mr_uri mr) (RequestURI req) (mr_ignoreUriCase mr)) &&
  header_loop_matched req (visit orders (mr_headers mr)) true &&
  negb (without_loop_matched req (visit orders (mr_withoutHeaders mr))) &&
  param_loop_matched req (visit orders (mr_queryParams mr)) &&
  ((mr_port mr =? 0)%Z || (mr_port mr =? Port req)%Z).

Definition set_lb (m : Maps) (r : nat) (b : Balancer) : Maps :=
  {| ServiceMap := ServiceMap m; RuleMap := RuleMap m; Endpoints := Endpoints m; Clusters := Clusters m;
     lbs := <[r := b]> (lbs m); wrrs := wrrs m; fresh_ref := fresh_ref m |}.
Definition set_wrr (m : Maps) (r : nat) (nodes : list WeightNode) : Maps :=
  {| ServiceMap := ServiceMap m; RuleMap := RuleMap m; Endpoints := Endpoints m; Clusters := Clusters m;
     lbs := lbs m; wrrs := <[r := nodes]> (wrrs m); fresh_ref := fresh_ref m |}.

Definition select_at (m : Maps) (r : option nat) (rnd : nat) (eps : list Endpoint)
  : result string (option Endpoint) * Maps :=
  match r ≫= λ r, b ← lbs m !! r; Some (r, b) with
  | Some (r, b) => let '(res, b) := Select b rnd eps in (res, set_lb m r b)
  | None => (Panic NilDeref, m)
  end.

(** the action of a route whose match block let the request through *)
Definition route_action (m : Maps) (rnd : nat) (service : string) (w : nat)
  : result string (option Endpoint) * Maps :=
  let '(cluster, nodes) := WRR_Select (default [] (wrrs m !! w)) "" in
  let m := set_wrr m w nodes in
  match Clusters m !! service with
  | None => (Err "service no cluster", m)
  | Some clusterMap =>
      match clusterMap !! cluster with
      | None => (Err "cluster not found", m)
      | Some c =>
          match cl_lb c with
          | None => (Err "cluster not found", m)
          | Some lb =>
              if String.eqb (cl_simple c) PASSTHROUGH then (Err "PassThrough", m)
              else select_at m (Some lb) rnd (cl_endpoints c)
          end
      end
  end.

(** the first block of the first route that lets the request through and has a
    balancer *)
Definition route_matches (req : Request) (r : option HttpRoute) : option nat :=
  match r with
  | None => None
  | Some r => match hr_lb r with
              | Some w => if existsb (block_matches req) (hr_match r) then Some w else None
              | None => None
              end
  end.

Fixpoint first_route (req : Request) (rs : list (option HttpRoute)) : option nat :=
  match rs with
  | [] => None
  | r :: rs => match route_matches req r with Some w => Some w | None => first_route req rs end
  end.

Definition GetEndpoints (m : Maps) (serviceId : string) : list Endpoint :=
  (visit ep_order (default ∅ (Endpoints m !! serviceId))).*2.

Definition Match (m : Maps) (rnd : nat) (req : Request) : result string (option Endpoint) * Maps :=
  match GetService m (Host req) with
  | None => (Err "no service", m)
  | Some service =>
      match GetRule m (sv_name service) with
      | Some (r :: rules) =>
          match first_route req (rr_http r ++ (rules ≫= rr_http)) with
          | Some w => route_action m rnd (sv_name service) w
          | None => (Err "no endpoint", m)
          end
      | _ =>
          let endpoints := GetEndpoints m (sv_name service) in
          if length endpoints =? 0 then (Err "no cluster", m)
          else select_at m (sv_lb service) rnd endpoints
      end
  end.
End Match.

(** ** Laws *)

Section Laws.
Context `{UrlParser} `{GoUnicode} `{Regexp}.

Lemma header_loop_spec req hs :
  Forall (λ kv, Empty kv.2 = false) hs →
  header_loop_matched req hs true =
    forallb (λ kv, negb (fails kv.2 (Header_Get (ReqHeader req) kv.1) false)) hs.
Proof.
  induction 1 as [|[k sm] hs Hsm Hne IH]; [done|]. cbn [header_loop_matched forallb fst snd].
  unfold fails at 1. unfold checkMatch. cbn [snd] in Hsm. rewrite Hsm. cbn [andb negb].
  set (mt := if negb (String.eqb (sm_exact sm) "") then _ else _).
  destruct mt; cbn [andb negb]; [exact IH|done].
Qed.

Lemma without_loop_spec req hs :
  without_loop_matched req hs =
    existsb (λ kv, (checkMatch kv.2 (Header_Get (ReqHeader req) kv.1) false).1) hs.
Proof.
  induction hs as [|[k sm] hs IH]; simpl; [done|]. unfold checkMatch.
  destruct (Empty sm); simpl; [done|]. rewrite IH. by case_match.
Qed.

Lemma param_loop_spec req ps :
  param_loop_matched req ps =
    negb (existsb (λ kv, (checkMatch kv.2 (QueryGet (url_query (ReqURL req)) kv.1) false).1) ps).
Proof.
  induction ps as [|[k sm] ps IH]; simpl; [done|]. unfold checkMatch.
  destruct (Empty sm); simpl; [done|]. rewrite IH. by case_match.
Qed.

Lemma forallb_visit {A} (o : map_order A) m (P : string * A → bool) :
  forallb P (visit o m) = true ↔ map_Forall (λ k v, P (k, v) = true) m.
Proof.
  rewrite forallb_forall. split.
  - intros Hf k v Hk. apply Hf. apply list_elem_of_In. rewrite (visit_all o m). by apply elem_of_map_to_list.
  - intros Hf [k v] Hin. apply list_elem_of_In in Hin. rewrite (visit_all o m) in Hin.
    apply elem_of_map_to_list in Hin. by apply Hf.
Qed.

Lemma existsb_negb {A} (P : A → bool) l : negb (existsb P l) = forallb (λ x, negb (P x)) l.
Proof. induction l; simpl; [done|]. by rewrite negb_orb, IHl. Qed.

Lemma Select_member b rnd eps e : (Select b rnd eps).1 = Ok (Some e) → e ∈ eps.
Proof.
  unfold Select, RoundRobin_Select, Random_Select, LastConn_Select, PassThrough_Select, at_index. destruct b; simpl; repeat (case_match; simplify_eq/=); intros; simplify_eq;
    by eapply list_elem_of_lookup_2.
Qed.

Lemma select_at_member m r rnd eps e : (select_at m r rnd eps).1 = Ok (Some e) → e ∈ eps.
Proof.
  unfold select_at. destruct (r ≫= _) as [[r' b]|]; [|done].
  destruct (Select b rnd eps) as [res b'] eqn:E. simpl. intros ->.
  apply (Select_member b rnd). by rewrite E.
Qed.

Lemma cluster_balancer_rr s : cluster_balancer s = RoundRobin 0.
Proof. unfold cluster_balancer, RANDOM, LEAST_CONN, PASSTHROUGH, ROUND_ROBIN. by destruct (String.eqb s ""). Qed.
End Laws.

(** ** The balancers that loading installs *)

Definition is_rr (b : Balancer) : Prop := ∃ n, b = RoundRobin n.
Definition only_rr (m : Maps) : Prop := map_Forall (λ _ b, is_rr b) (lbs m).

Lemma new_lb_rr m n : only_rr m → only_rr (new_lb m (RoundRobin n)).2.
Proof. intros Hm r b Hb. cbn in Hb. apply lookup_insert_Some in Hb as [[_ <-]|[_ Hb]]; [by eexists|by eapply Hm]. Qed.

Lemma load_cluster_rr service m c : only_rr m → only_rr (load_cluster service m c).
Proof.
  intros Hm. unfold load_cluster. destruct (cl_lb c); [done|]. rewrite cluster_balancer_rr.
  pose proof (new_lb_rr m 0 Hm). by destruct (new_lb m (RoundRobin 0)).
Qed.

Lemma load_clusters_rr service m cs : only_rr m → only_rr (foldl (load_cluster service) m cs).
Proof. revert m. induction cs as [|c cs IH]; intros m Hm; simpl; [done|]. by apply IH, load_cluster_rr. Qed.

Lemma load_routes_lbs acc rs acc' : load_routes acc rs = Ok acc' → lbs acc'.2 = lbs acc.2.
Proof.
  revert acc. induction rs as [|r rs IH]; intros acc; simpl; [intros ?; by simplify_eq|].
  destruct (load_route acc r) as [acc1|e|p] eqn:E; simpl; [|done..].
  intros Hr%IH. rewrite Hr. destruct acc as [done m]. unfold load_route in E.
  destruct r as [r|]; [|discriminate]. destruct (hr_lb r); simpl in E; by injection E as <-.
Qed.

Lemma load_rules_lbs service m rs m' : load_rules service m rs = Ok m' → lbs m' = lbs m.
Proof.
  revert m. induction rs as [|r rs IH]; intros m; simpl; [intros ?; by simplify_eq|].
  unfold load_rule. destruct (load_routes ([], m) (rr_http r)) as [[http m1]|e|p] eqn:E; simpl; [|done..].
  intros Hr%IH. rewrite Hr. simpl. by apply load_routes_lbs in E.
Qed.

Lemma load_service_rr m s m' : only_rr m → load_service m s = Ok m' → only_rr m'.
Proof.
  intros Hm. unfold load_service.
  assert (∀ lb m1, only_rr m1 → ∀ m2, load_rules (sv_name s) (put_service (foldl (load_cluster (sv_name s))
     (ensure_tables m1 (sv_name s)) (sv_clusters s))
     {| sv_name := sv_name s; sv_hosts := sv_hosts s; sv_clusters := sv_clusters s; sv_rules := sv_rules s; sv_lb := lb |})
     (sv_rules s) = Ok m2 → only_rr m2) as Hgo.
  { intros lb m1 Hm1 m2 Hr. apply load_rules_lbs in Hr. unfold only_rr. rewrite Hr. cbn [put_service lbs].
    change (only_rr (foldl (load_cluster (sv_name s)) (ensure_tables m1 (sv_name s)) (sv_clusters s))).
    apply load_clusters_rr. exact Hm1. }
  destruct (sv_lb s).
  - by apply Hgo.
  - pose proof (new_lb_rr m 0 Hm) as H1. destruct (new_lb m (RoundRobin 0)) as [r m1]. by apply Hgo.
Qed.

Lemma load_services_rr m ss m' : only_rr m → load_services m ss = Ok m' → only_rr m'.
Proof.
  revert m. induction ss as [|s ss IH]; intros m Hm; simpl; [intros ?; by simplify_eq|].
  destruct (load_service m s) as [m1|e|p] eqn:E; simpl; [|done..]. apply IH. by eapply load_service_rr.
Qed.

Section MatchLaws.
Context `{UrlParser} `{GoUnicode} `{Regexp}.

Lemma fails_nonempty sm v ic : Empty sm = false → fails sm v ic = negb (checkMatch sm v ic).1.
Proof. intros He. unfold fails, checkMatch. by rewrite He. Qed.

(** the condition a match block states, without an order of evaluation *)
Definition block_spec (req : Request) (mr : HttpMatchRequest) : Prop :=
  fails (mr_method mr) (Method req) false = false ∧
  fails (mr_authority mr) (Authority req) false = false ∧
  fails (mr_scheme mr) (url_scheme (ReqURL req)) false = false ∧
  fails (mr_uri mr) (RequestURI req) (mr_ignoreUriCase mr) = false ∧
  map_Forall (λ k sm, (checkMatch sm (Header_Get (ReqHeader req) k) false).1 = true) (mr_headers mr) ∧
  map_Forall (λ k sm, (checkMatch sm (Header_Get (ReqHeader req) k) false).1 = false) (mr_withoutHeaders mr) ∧
  map_Forall (λ k sm, (checkMatch sm (QueryGet (url_query (ReqURL req)) k) false).1 = false) (mr_queryParams mr) ∧
  (mr_port mr = 0%Z ∨ mr_port mr = Port req).

Lemma block_matches_iff orders req mr :
  map_Forall (λ _ sm, Empty sm = false) (mr_headers mr) →
  block_matches orders req mr = true ↔ block_spec req mr.
Proof.
  intros Hne. unfold block_matches, block_spec.
  rewrite !andb_true_iff, !negb_true_iff, orb_true_iff, !Z.eqb_eq.
  rewrite header_loop_spec.
  2:{ apply Forall_forall. intros [k sm] Hin. rewrite (visit_all orders (mr_headers mr)) in Hin.
      apply elem_of_map_to_list in Hin. by apply Hne in Hin. }
  assert (∀ m (v : string → string),
    existsb (λ kv, (checkMatch kv.2 (v kv.1) false).1) (visit orders m) = false ↔
    map_Forall (λ (k : string) sm, (checkMatch sm (v k) false).1 = false) m) as Hn.
  { intros m v. rewrite <- negb_true_iff, existsb_negb, forallb_visit.
    split; intros Hf k sm Hk; specialize (Hf k sm Hk); by apply negb_true_iff. }
  rewrite forallb_visit, without_loop_spec, param_loop_spec, negb_true_iff.
  rewrite (Hn _ (λ k, Header_Get (ReqHeader req) k)), (Hn _ (λ k, QueryGet (url_query (ReqURL req)) k)).
  cbn [fst snd].
  assert (map_Forall (λ k sm, negb (fails sm (Header_Get (ReqHeader req) k) false) = true) (mr_headers mr) ↔
          map_Forall (λ k sm, (checkMatch sm (Header_Get (ReqHeader req) k) false).1 = true) (mr_headers mr)) as ->.
  { split; intros Hf k sm Hk; specialize (Hf k sm Hk); specialize (Hne k sm Hk); simpl in *;
      rewrite fails_nonempty, negb_involutive in *; done. }
  tauto.
Qed.
End MatchLaws.

(** ** Properties *)


Module RouteExample.
#[export] Instance urls : UrlParser := {|
  ParseRequestURI := λ s, Some {| url_scheme := ""; url_host := ""; url_query := "" |};
  QueryGet := λ q name, if String.eqb q name then "1" else "" |}.
#[export] Instance unicode : GoUnicode := λ s, s.
#[export] Instance regexp : Regexp := λ p s, Some (String.eqb p s).
Definition order {A} : map_order A := {| visit := map_to_list; visit_all := λ m, reflexivity _ |}.
(** visits the entries the other way round *)
Lemma reverse_perm {A} (m : gmap string A) : reverse (map_to_list m) ≡ₚ map_to_list m.
Proof. apply reverse_Permutation. Qed.
Definition backwards {A} : map_order A := {| visit := λ m, reverse (map_to_list m); visit_all := reverse_perm |}.
Definition any : StringMatch := mk_sm "" "" "".
Definition block (headers params : gmap string StringMatch) : HttpMatchRequest := {|
  mr_uri := mk_sm "" "/api" ""; mr_scheme := any; mr_method := mk_sm "GET" "" ""; mr_authority := any;
  mr_headers := headers; mr_port := 0; mr_queryParams := params; mr_ignoreUriCase := false; mr_withoutHeaders := ∅ |}.
Definition request : Request :=
  req_base "GET" "/api/x" "HTTP/1.1" 1 1 {| url_scheme := ""; url_host := ""; url_query := "debug" |}
    {[ "X-Env" := ["test"] ]} "svc".
End RouteExample.


(** With an empty header matcher the order decides, and a request that has the
    configured query parameter is refused. *)
Example header_order_matters :
  let mr := RouteExample.block {[ "x-env" := mk_sm "test" "" ""; "x-any" := mk_sm "" "" "" ]} ∅ in
  block_matches (H:=RouteExample.urls) (H0:=RouteExample.unicode) (H1:=RouteExample.regexp)
    RouteExample.order RouteExample.request mr ≠
  block_matches (H:=RouteExample.urls) (H0:=RouteExample.unicode) (H1:=RouteExample.regexp)
    RouteExample.backwards RouteExample.request mr.
Proof. vm_compute. discriminate. Qed.

Example query_param_inverted :
  block_matches (H:=RouteExample.urls) (H0:=RouteExample.unicode) (H1:=RouteExample.regexp)
    RouteExample.order RouteExample.request (RouteExample.block ∅ {[ "debug" := mk_sm "1" "" "" ]}) = false.
Proof. reflexivity. Qed.

(** A request is only ever routed inside its service: an endpoint [Match]
    returns is registered for the service of the request's host, or belongs to
    one of its clusters, whose load balancing policy is then not the default
    one. *)
Theorem Match_endpoint_of_service `{UrlParser} `{GoUnicode} `{Regexp} orders ep_order m rnd req e :
  (Match orders ep_order m rnd req).1 = Ok (Some e) →
  ∃ service, GetService m (Host req) = Some service ∧
    ((∃ k, default ∅ (Endpoints m !! sv_name service) !! k = Some e) ∨
     (∃ cs name c, Clusters m !! sv_name service = Some cs ∧ cs !! name = Some c ∧
        e ∈ cl_endpoints c ∧ cl_simple c ≠ "")).
Proof.
  unfold Match. destruct (GetService m (Host req)) as [service|]; [|done]. intros Hm. exists service. split; [done|].
  assert ((if length (GetEndpoints ep_order m (sv_name service)) =? 0 then (Err "no cluster", m)
           else select_at m (sv_lb service) rnd (GetEndpoints ep_order m (sv_name service))).1 = Ok (Some e) →
          ∃ k, default ∅ (Endpoints m !! sv_name service) !! k = Some e) as Hep.
  { destruct (_ =? 0); [done|]. intros Hs%select_at_member. unfold GetEndpoints in Hs.
    apply list_elem_of_fmap in Hs as ([k e'] & -> & Hin). rewrite (visit_all ep_order) in Hin.
    apply elem_of_map_to_list in Hin. by exists k. }
  destruct (GetRule m (sv_name service)) as [[|r rules]|]; [left; by apply Hep| |left; by apply Hep].
  destruct (first_route _ _ _) as [w|]; [|done]. right. unfold route_action in Hm.
  destruct (WRR_Select _ _) as [cluster nodes]. cbn [Clusters set_wrr] in Hm.
  destruct (Clusters m !! sv_name service) as [cs|]; [|done].
  destruct (cs !! cluster) as [c|] eqn:Hc; [|done]. destruct (cl_lb c) as [lb|]; [|done].
  destruct (String.eqb_spec (cl_simple c) PASSTHROUGH) as [_|Hs]; [done|].
  apply select_at_member in Hm. exists cs, cluster, c. done.
Qed.

Definition demo_config : ProxyConfig := {| pc_services := [
  {| sv_name := "s"; sv_hosts := ["svc"]; sv_lb := None;
     sv_clusters := [{| cl_name := "c"; cl_endpoints := [Build_Endpoint "10.0.0.1" "80"]; cl_simple := "RANDOM"; cl_lb := None |}];
     sv_rules := [{| rr_serviceName := "s"; rr_order := 0;
       rr_http := [Some {| hr_match := [RouteExample.block ∅ ∅]; hr_lb := None;
                           hr_route := [{| dest_cluster := "c"; dest_weight := 100 |}] |}] |}] |}] |}.

Lemma Match_endpoint_of_service_witness : ∃ m service,
  LoadServiceData NewMaps (Some demo_config) = Ok m ∧ GetService m "svc" = Some service ∧
  ((∃ k, default ∅ (Endpoints m !! sv_name service) !! k = Some (Build_Endpoint "10.0.0.1" "80")) ∨
   (∃ cs name c, Clusters m !! sv_name service = Some cs ∧ cs !! name = Some c ∧
      Build_Endpoint "10.0.0.1" "80" ∈ cl_endpoints c ∧ cl_simple c ≠ "")).
Proof.
  destruct (LoadServiceData NewMaps (Some demo_config)) as [m|e|p] eqn:E; [|vm_compute in E; discriminate E..].
  destruct (Match_endpoint_of_service (H:=RouteExample.urls) (H0:=RouteExample.unicode) (H1:=RouteExample.regexp)
    RouteExample.order RouteExample.order m 0 RouteExample.request (Build_Endpoint "10.0.0.1" "80")) as (s & Hs & Ho).
  - vm_compute in E. injection E as <-. vm_compute. reflexivity.
  - exists m, s. split; [reflexivity|]. split; [exact Hs|exact Ho].
Defined.

(** The policies RANDOM, LEAST_CONN and PASSTHROUGH are never installed:
    their variables are empty strings, so loading any configuration makes every
    balancer a round robin, whatever the configured policy says, and a cluster
    without a policy answers "PassThrough" to every request routed to it. *)
Theorem loaded_balancers saved pc m :
  Load saved pc = Ok m →
  map_Forall (λ _ b, ∃ n, b = RoundRobin n) (lbs m) ∧
  ∀ rnd service w cs c name nodes,
    WRR_Select (default [] (wrrs m !! w)) "" = (name, nodes) →
    Clusters m !! service = Some cs → cs !! name = Some c → cl_simple c = "" → is_Some (cl_lb c) →
    (route_action m rnd service w).1 = Err "PassThrough".
Proof.
  intros Hl. split.
  - assert (only_rr (LoadCache NewMaps saved)) as H0.
    { intros r b Hb. destruct saved; simpl in Hb; by rewrite lookup_empty in Hb. }
    unfold Load, LoadServiceData in Hl. destruct pc as [pc|]; [|by simplify_eq].
    by eapply load_services_rr in Hl.
  - intros rnd service w cs c name nodes Hw Hcs Hc Hs [lb Hlb].
    unfold route_action. rewrite Hw. cbn [Clusters set_wrr]. by rewrite Hcs, Hc, Hlb, Hs.
Qed.

Lemma loaded_balancers_witness : ∃ m,
  Load None (Some demo_config) = Ok m ∧ map_Forall (λ _ b, ∃ n, b = RoundRobin n) (lbs m).
Proof.
  destruct (Load None (Some demo_config)) as [m|e|p] eqn:E; [|vm_compute in E; discriminate E..].
  exists m. split; [reflexivity|]. exact (proj1 (loaded_balancers None (Some demo_config) m E)).
Defined.

(** A service that is known from the cache file only brings the proxy down:
    the cache does not hold its balancer, so the first request for it that
    reaches its endpoints dereferences nil. *)
Theorem cached_service_panics `{UrlParser} `{GoUnicode} `{Regexp} orders ep_order saved rnd req service :
  GetService saved (Host req) = Some service →
  default [] (GetRule saved (sv_name service)) = [] →
  default ∅ (Endpoints saved !! sv_name service) ≠ ∅ →
  ∃ m, Load (Some saved) None = Ok m ∧ (Match orders ep_order m rnd req).1 = Panic NilDeref.
Proof.
  intros Hs Hr He. eexists. split; [reflexivity|]. unfold Match, GetService, GetRule.
  cbn [LoadCache ServiceMap RuleMap Endpoints dup NewMaps]. unfold GetService in Hs.
  rewrite !(right_id_L ∅ (∪)), lookup_fmap, Hs. cbn [fmap option_fmap option_map strip_service sv_name sv_lb].
  rewrite lookup_fmap. unfold GetRule in Hr.
  assert ((map strip_rule <$> RuleMap saved !! sv_name service) = None ∨
          (map strip_rule <$> RuleMap saved !! sv_name service) = Some []) as Hrule.
  { destruct (RuleMap saved !! sv_name service) as [rs|]; simpl in *; [subst; by right|by left]. }
  set (m := {| ServiceMap := _ |}).
  assert (length (GetEndpoints ep_order m (sv_name service)) =? 0 = false) as Hlen.
  { apply Nat.eqb_neq. unfold GetEndpoints. rewrite length_fmap. subst m. cbn [Endpoints].
    rewrite (visit_all ep_order), length_map_to_list. intros Hz.
    apply He, map_size_empty_iff, Hz. }
  destruct Hrule as [-> | ->]; rewrite Hlen; done.
Qed.

Lemma cached_service_panics_witness : ∃ m,
  let saved := {| ServiceMap := {[ "svc" := {| sv_name := "s"; sv_hosts := ["svc"]; sv_clusters := []; sv_rules := []; sv_lb := Some 0 |} ]};
                  RuleMap := ∅; Endpoints := {[ "s" := {[ "10.0.0.1:80" := Build_Endpoint "10.0.0.1" "80" ]} ]};
                  Clusters := ∅; lbs := {[ 0 := RoundRobin 0 ]}; wrrs := ∅; fresh_ref := 1 |} in
  Load (Some saved) None = Ok m ∧
  (Match (H:=RouteExample.urls) (H0:=RouteExample.unicode) (H1:=RouteExample.regexp)
     RouteExample.order RouteExample.order m 0 RouteExample.request).1 = Panic NilDeref.
Proof.
  eexists. intros saved.
  destruct (cached_service_panics (H:=RouteExample.urls) (H0:=RouteExample.unicode) (H1:=RouteExample.regexp)
    RouteExample.order RouteExample.order saved 0 RouteExample.request
    {| sv_name := "s"; sv_hosts := ["svc"]; sv_clusters := []; sv_rules := []; sv_lb := Some 0 |}) as (m & Hl & Hm).
  - reflexivity.
  - reflexivity.
  - discriminate.
  - split; [reflexivity|]. injection Hl as <-. exact Hm.
Defined.
