(* ===== verification/RouteCache.v ===== *)
(** * The cache file of the route tables

    [SaveAsync], the goroutine of [SaveCache] and the reading of [LoadCache] in
    cmd/proxy/data/config.go, with the permissions of the file: the saver takes
    requests from a channel of capacity one and writes the tables with
    [ioutil.WriteFile] and the decimal mode 644.  What the tables are after
    [LoadCache] is in RouteMatch.

    [encoding/json] is an argument; files follow POSIX: the class of the owner
    alone decides for the owner, and user 0 may do everything. *)

From S2P Require Export RouteMatch GoIO.

Local Open Scope string_scope.
Local Open Scope nat_scope.
Local Open Scope list_scope.

Definition SAVE_TO_FILE : string := "SAVE2FILE".

Record cache_file := mk_file { f_data : bytes; f_owner : Z; f_mode : Z }.

(** the mode of a new file: the permission bits less those of the umask *)
Definition create_mode (perm umask : Z) : Z := Z.ldiff (Z.land perm 511) umask.

(** the three bits of the class that applies to the owner and to others *)
Definition has_bit (user : Z) (f : cache_file) (bit : Z) : bool :=
  (user =? 0)%Z || Z.testbit (f_mode f) (bit + if (user =? f_owner f)%Z then 6 else 0).
Definition may_read (user : Z) (f : cache_file) : bool := has_bit user f 2.
Definition may_write (user : Z) (f : cache_file) : bool := has_bit user f 1.

(** [ioutil.WriteFile]: an existing file keeps its owner and mode *)
Definition WriteFile (user umask : Z) (old : option cache_file) (data : bytes) (perm : Z) : result string cache_file :=
  match old with
  | Some f => if may_write user f then Ok (mk_file data (f_owner f) (f_mode f)) else Err "permission denied"
  | None => Ok (mk_file data user (create_mode perm umask))
  end.

Definition ReadFile (user : Z) (f : option cache_file) : result string bytes :=
  match f with
  | Some f => if may_read user f then Ok (f_data f) else Err "permission denied"
  | None => Err "no such file or directory"
  end.

Section Saver.
Variable Marshal : Maps → result string bytes.
Variable Unmarshal : bytes → result string Maps.
Variables user umask : Z.

Record saver := mk_saver { sv_pending : list string; sv_alive : bool; sv_file : option cache_file; sv_logged : list string }.

(** one request: the goroutine ends when the tables cannot be encoded *)
Definition save_once (m : Maps) (s : saver) (rest : list string) : saver :=
  match Marshal m with
  | Err err => mk_saver rest false (sv_file s) (sv_logged s ++ ["配置数据Json序列化失败" +:+ err])
  | Panic _ => mk_saver rest false (sv_file s) (sv_logged s)
  | Ok data =>
      match WriteFile user umask (sv_file s) data 644 with
      | Ok f => mk_saver rest true (Some f) (sv_logged s)
      | Err err => mk_saver rest true (sv_file s) (sv_logged s ++ ["缓存配置数据到文件失败" +:+ err])
      | Panic _ => mk_saver rest true (sv_file s) (sv_logged s)
      end
  end.

(** [SaveAsync] sends, or waits while the channel is full ([None]) *)
Definition SaveAsync (s : saver) : option saver :=
  if length (sv_pending s) <? 1
  then Some (mk_saver (sv_pending s ++ [SAVE_TO_FILE]) (sv_alive s) (sv_file s) (sv_logged s)) else None.

(** a step of a caller of [SaveAsync], which waits while the channel is full, or
    of the goroutine, with the tables of that moment *)
Inductive saver_step : saver → saver → Prop :=
  | saver_async s s' : SaveAsync s = Some s' → saver_step s s'
  | saver_take s save rest m : sv_alive s = true → sv_pending s = save :: rest →
      saver_step s (if String.eqb save SAVE_TO_FILE then save_once m s rest
                    else mk_saver rest true (sv_file s) (sv_logged s)).

(** what [LoadCache] decodes, [None] when it only logs an error *)
Definition read_cache (f : option cache_file) : option Maps :=
  match ReadFile user f with
  | Ok body => match Unmarshal body with Ok m => Some m | _ => None end
  | _ => None
  end.

Definition load_cache (m : Maps) (f : option cache_file) : Maps := LoadCache m (read_cache f).

(** the cache file was written by this program *)
Definition own_file (f : cache_file) : Prop := f_owner f = user ∧ f_mode f = create_mode 644 umask ∧ ∃ m, Marshal m = Ok (f_data f).

Definition saver_ok (s : saver) : Prop :=
  length (sv_pending s) ≤ 1 ∧ Forall (eq SAVE_TO_FILE) (sv_pending s) ∧ ∀ f, sv_file s = Some f → own_file f.

Lemma saver_step_ok s s' : saver_ok s → saver_step s s' → saver_ok s'.
Proof.
  intros (Hl & Hp & Hf) Hs. destruct Hs as [s s' Hn|s save rest m Ha Hr].
  - unfold SaveAsync in Hn. destruct (Nat.ltb_spec (length (sv_pending s)) 1); [|done]. injection Hn as <-.
    split; [cbn; rewrite length_app; cbn; lia|]. split; [|exact Hf]. cbn. apply Forall_app_2; [done|by repeat constructor].
  - rewrite Hr in Hl, Hp. inversion Hp as [|? ? <- Hrest]; subst. cbn in Hl. rewrite String.eqb_refl.
    unfold save_once. destruct (Marshal m) as [data|err|q] eqn:Hm; [|by split_and!; [cbn; lia|done..]..].
    assert (∀ f, WriteFile user umask (sv_file s) data 644 = Ok f → own_file f) as Hw.
    { unfold WriteFile. destruct (sv_file s) as [f0|].
      - destruct (may_write user f0); [|done]. intros f [= <-]. destruct (Hf f0 eq_refl) as (? & ? & _). split_and!; [done..|by eexists].
      - intros f [= <-]. split_and!; [done..|by eexists]. }
    destruct (WriteFile _ _ _ _ _) as [f|err|q]; (split; [cbn; lia|]; split; [done|]); cbn; [|exact Hf..].
    intros f' [= <-]. by apply Hw.
Qed.
End Saver.

(** ** Properties *)

(** What the saver stores can be loaded by the superuser, and by nobody else
    who is its owner.  In every run of it, with whatever tables, the channel
    holds at most one request and the cache file, if the program created it, was
    made from some tables and has the mode that decimal 644 gives, which lacks
    the read bit of the owner: [LoadCache] of a process of another user than 0
    always fails, while for user 0 the tables come back as the JSON text has
    them. *)
Theorem cache_readable_by_root Marshal Unmarshal user umask s m0 :
  (∀ m data, Marshal m = Ok data → Unmarshal data = Ok (dup m)) →
  rtc (saver_step Marshal user umask) (mk_saver [] true None []) s →
  length (sv_pending s) ≤ 1 ∧
  match sv_file s with
  | None => True
  | Some f =>
      if (user =? 0)%Z then ∃ m, load_cache Unmarshal user m0 (Some f) = LoadCache m0 (Some (dup m))
      else load_cache Unmarshal user m0 (Some f) = m0
  end.
Proof.
  intros Hrt Hs. assert (saver_ok Marshal user umask s) as (Hl & _ & Hf).
  { eapply invariant_reachable; [intros ? ?; apply saver_step_ok| |exact Hs]. split_and!; [cbn; lia|constructor|done]. }
  split; [done|]. destruct (sv_file s) as [f|]; [|done]. destruct (Hf f eq_refl) as (Ho & Hm & m & Hd).
  unfold load_cache, read_cache, ReadFile, may_read, has_bit. rewrite Ho, Z.eqb_refl. destruct (user =? 0)%Z eqn:E.
  - cbn. rewrite (Hrt m _ Hd). by exists m.
  - assert (Z.testbit (f_mode f) 8 = false) as Hb; [|change (2 + 6)%Z with 8%Z; by rewrite Hb].
    rewrite Hm. unfold create_mode. rewrite Z.ldiff_spec, Z.land_spec. reflexivity.
Qed.

Module CacheExample.
Definition Marshal (m : Maps) : result string bytes :=
  if (size (ServiceMap m) =? 0) && (size (RuleMap m) =? 0) && (size (Endpoints m) =? 0) && (size (Clusters m) =? 0)
  then Ok [] else Err "json".
Definition Unmarshal (b : bytes) : result string Maps := Ok NewMaps.
Definition empty : saver := mk_saver [] true None [].
(** one request, taken at once, of a process of user 1000 with umask 022 *)
Definition requested : saver := mk_saver [SAVE_TO_FILE] true None [].
Definition saved : saver := save_once Marshal 1000 18 NewMaps requested [].
Lemma cache_reached : rtc (saver_step Marshal 1000 18) empty saved.
Proof.
  apply rtc_l with requested; [by apply (saver_async _ _ _ empty)|].
  apply rtc_once. by apply (saver_take Marshal 1000 18 requested SAVE_TO_FILE [] NewMaps).
Qed.
Lemma marshals m data : Marshal m = Ok data → Unmarshal data = Ok (dup m).
Proof.
  unfold Marshal. destruct (_ && _) eqn:E; [intros _|done].
  apply andb_prop in E as [[[Hs%Nat.eqb_eq Hr%Nat.eqb_eq]%andb_prop He%Nat.eqb_eq]%andb_prop Hc%Nat.eqb_eq].
  apply map_size_empty_inv in Hs, Hr, He, Hc. unfold dup. rewrite Hs, Hr, He, Hc. unfold Unmarshal, NewMaps.
  by rewrite !fmap_empty.
Qed.
End CacheExample.

Lemma cache_readable_by_root_witness :
  (∃ f, sv_file CacheExample.saved = Some f) ∧
  load_cache CacheExample.Unmarshal 1000 NewMaps (sv_file CacheExample.saved) = NewMaps.
Proof.
  split; [by eexists|].
  exact (proj2 (cache_readable_by_root CacheExample.Marshal CacheExample.Unmarshal 1000 18 CacheExample.saved NewMaps
    CacheExample.marshals CacheExample.cache_reached)).
Defined.
