(* ===== verification/Mitm.v ===== *)
(** * TLS interception

    Models pkg/tls/mitm/ca.go (the store of CA certificates with its cache of
    leaf certificates), buffered_conn.go, and of cmd/proxy/outbound.go the
    listener that serves one connection, the transport cache, the detection of
    the intercepted protocol and the checks of the handler.

    Certificates are what [crypto/tls] and [crypto/x509] make of a key pair:
    a leaf remembers the CA that signed it, its name and its expiry; the
    cryptography itself, PEM and JSON are outside.  Times are nanoseconds. *)

From S2P Require Export Credentials.

Local Open Scope string_scope.
Local Open Scope nat_scope.
Local Open Scope list_scope.

(** ** The certificate store *)

Record CA := { ca_cert : string; ca_key : string }.
Record Leaf := { lf_domain : string; lf_ca : CA; lf_notAfter : Z }.

#[export] Instance CA_eq_dec : EqDecision CA.
Proof. solve_decision. Defined.

Record CertStore := {
  primary : option CA;
  secondary : option CA;
  leafCache : gmap string Leaf;
  cs_vaultURI : string
}.

Definition NewCertStore (vaultURI : string) : CertStore :=
  {| primary := None; secondary := None; leafCache := ∅; cs_vaultURI := trim_slashes vaultURI |}.

Definition hour : Z := (3600 * second)%Z.

(** a certificate states its times in whole seconds *)
Definition leaf_expiry (now : Z) : Z := ((now + 24 * hour) / second * second)%Z.

Lemma leaf_expiry_hour now : (now + hour < leaf_expiry now)%Z.
Proof.
  unfold leaf_expiry. set (a := (now + 24 * hour)%Z).
  pose proof (Z.div_mod a second ltac:(done)). pose proof (Z.mod_pos_bound a second ltac:(done)).
  unfold a, hour, second in *. lia.
Qed.

(** [generateLeafCert]; [crypto]: the error of key generation or signing *)
Definition generateLeafCert (ca : option CA) (domain : string) (now : Z) (crypto : option string) : result string Leaf :=
  match ca with
  | None => Err "no CA certificate loaded"
  | Some ca =>
      match crypto with
      | None => Ok {| lf_domain := domain; lf_ca := ca; lf_notAfter := leaf_expiry now |}
      | Some e => Err e
      end
  end.

(** the cached leaf, when it is valid for another hour *)
Definition cached_leaf (cs : CertStore) (domain : string) (now : Z) : option Leaf :=
  match leafCache cs !! domain with
  | Some leaf => if (now + hour <? lf_notAfter leaf)%Z then Some leaf else None
  | None => None
  end.

Definition store_leaf (cs : CertStore) (leaf : Leaf) : CertStore :=
  {| primary := primary cs; secondary := secondary cs;
     leafCache := <[lf_domain leaf := leaf]> (leafCache cs); cs_vaultURI := cs_vaultURI cs |}.

(** [GetCertificate] without interference *)
Definition GetCertificate (cs : CertStore) (serverName : string) (now : Z) (crypto : option string)
  : result string Leaf * CertStore :=
  let domain := TrimSpace serverName in
  if String.eqb domain "" then (Err "missing tls server name", cs) else
  match cached_leaf cs domain now with
  | Some leaf => (Ok leaf, cs)
  | None =>
      match generateLeafCert (primary cs) domain now crypto with
      | Ok leaf => (Ok leaf, store_leaf cs leaf)
      | Err e => (Err e, cs)
      | Panic p => (Panic p, cs)
      end
  end.

Definition CertReload (cs : CertStore) (certs : list CA) : CertStore :=
  match certs with
  | [] => cs
  | c :: rest =>
      {| primary := Some c; secondary := head rest; leafCache := ∅; cs_vaultURI := cs_vaultURI cs |}
  end.

(** the pairs of the payload that load: both parts non-empty after trimming and
    accepted by [load], which stands for [tls.X509KeyPair] and
    [x509.ParseCertificate] *)
Definition valid_pairs (load : string → string → option CA) (certs keys : list string) : list CA :=
  omap (λ '(c, k),
    let c := TrimSpace c in let k := TrimSpace k in
    if String.eqb c "" || String.eqb k "" then None else load c k) (zip certs keys).

(** [FetchAndReload], from the answer of the vault and the decoder *)
Definition FetchAndReload (cs : CertStore) (a : http_answer)
    (decode : bytes → result string (list string * list string))
    (load : string → string → option CA) : option string * CertStore :=
  if String.eqb (cs_vaultURI cs) "" then (Some "vault URI not configured", cs) else
  match a with
  | Transport err => (Some ("failed to fetch CA from vault: " +:+ err), cs)
  | Answer code body =>
      if negb (code =? 200)%Z then (Some ("vault CA returned " +:+ Itoa code +:+ ": " +:+ match body with Ok b => to_string b | _ => "" end), cs) else
      match body ≫= decode with
      | Err e => (Some ("failed to decode CA response: " +:+ e), cs)
      | Panic _ => (Some "panic", cs)
      | Ok (certs, keys) =>
          if (length certs =? 0) || (length keys =? 0) then (Some "no CA certificates returned", cs)
          else if negb (length certs =? length keys) then (Some ("mismatched CA payload: " +:+ Itoa (Z.of_nat (length certs)) +:+ " certs, " +:+ Itoa (Z.of_nat (length keys)) +:+ " keys"), cs)
          else match valid_pairs load certs keys with
          | [] => (Some "no valid CA certificates loaded", cs)
          | cas => (None, CertReload cs cas)
          end
      end
  end.

(** [GetActiveCAPEM]; [pem] encodes one certificate *)
Definition GetActiveCAPEM (pem : CA → bytes) (cs : CertStore) : bytes :=
  match primary cs with Some c => pem c | None => [] end ++
  match secondary cs with Some c => pem c | None => [] end.

(** *** The store under concurrency

    [GetCertificate] holds no lock: it looks at the cache, reads the CA, signs,
    and stores.  A thread that has read the CA is [Signing]. *)

Inductive thread :=
  | Idle
  | Signing (domain : string) (ca : CA)
  | Done (leaf : Leaf).

Record cstate := { st_store : CertStore; st_threads : list thread }.

Inductive cert_step : cstate → cstate → Prop :=
  | cert_hit s i domain now leaf :
      st_threads s !! i = Some Idle → cached_leaf (st_store s) domain now = Some leaf →
      cert_step s {| st_store := st_store s; st_threads := <[i := Done leaf]> (st_threads s) |}
  | cert_read s i domain now ca :
      st_threads s !! i = Some Idle → cached_leaf (st_store s) domain now = None →
      primary (st_store s) = Some ca →
      cert_step s {| st_store := st_store s; st_threads := <[i := Signing domain ca]> (st_threads s) |}
  | cert_store s i domain ca now :
      st_threads s !! i = Some (Signing domain ca) →
      let leaf := {| lf_domain := domain; lf_ca := ca; lf_notAfter := leaf_expiry now |} in
      cert_step s {| st_store := store_leaf (st_store s) leaf; st_threads := <[i := Done leaf]> (st_threads s) |}
  | cert_again s i leaf :
      st_threads s !! i = Some (Done leaf) →
      cert_step s {| st_store := st_store s; st_threads := <[i := Idle]> (st_threads s) |}
  | cert_reload s certs :
      cert_step s {| st_store := CertReload (st_store s) certs; st_threads := st_threads s |}.

(** every cached leaf is signed by the primary CA *)
Definition signed_by_primary (cs : CertStore) : Prop :=
  map_Forall (λ d l, lf_domain l = d ∧ primary cs = Some (lf_ca l)) (leafCache cs).

Lemma GetCertificate_signed cs serverName now ok :
  signed_by_primary cs → signed_by_primary (GetCertificate cs serverName now ok).2.
Proof.
  intros Hcs. unfold GetCertificate. destruct (String.eqb _ ""); [done|].
  destruct (cached_leaf _ _ _); [done|]. unfold generateLeafCert.
  destruct (primary cs) as [ca|] eqn:Hp; [|done]. destruct ok; [done|].
  intros d l Hl. cbn in Hl. apply lookup_insert_Some in Hl as [[<- <-]|[_ Hl]]; [done|].
  cbn [primary store_leaf snd]. destruct (Hcs d l Hl) as [? Hl']. done.
Qed.

Lemma GetCertificate_primary cs serverName now ok : primary (GetCertificate cs serverName now ok).2 = primary cs.
Proof.
  unfold GetCertificate. destruct (String.eqb _ ""); [done|]. destruct (cached_leaf _ _ _); [done|].
  by destruct (generateLeafCert _ _ _ _).
Qed.

Lemma CertReload_signed cs certs : signed_by_primary cs → signed_by_primary (CertReload cs certs).
Proof. intros Hcs. destruct certs; [done|]. intros d l Hl. cbn in Hl. by rewrite lookup_empty in Hl. Qed.

(** what a certificate that was handed out says *)
Lemma GetCertificate_ok cs serverName now ok leaf cs' : signed_by_primary cs →
  GetCertificate cs serverName now ok = (Ok leaf, cs') →
  lf_domain leaf = TrimSpace serverName ∧ primary cs = Some (lf_ca leaf) ∧ (now + hour < lf_notAfter leaf)%Z.
Proof.
  intros Hs Hg.
  unfold GetCertificate in Hg. destruct (String.eqb _ ""); [done|].
  destruct (cached_leaf cs (TrimSpace serverName) now) as [l|] eqn:Hc.
  - unfold cached_leaf in Hc. destruct (leafCache cs !! TrimSpace serverName) as [l'|] eqn:Hl; [|done].
    destruct (_ <? _)%Z eqn:Ht; [|done]. simplify_eq. destruct (Hs _ _ Hl) as [? ?].
    split_and!; [done..|by apply Z.ltb_lt].
  - unfold generateLeafCert in Hg. destruct (primary cs) as [ca|]; [|done]. destruct ok; [done|].
    injection Hg as <- _. cbn [lf_domain lf_ca lf_notAfter]. split_and!; [done..|].
    by apply leaf_expiry_hour.
Qed.

(** the operations one after the other *)
Inductive cert_op : CertStore → CertStore → Prop :=
  | op_get cs serverName now ok : cert_op cs (GetCertificate cs serverName now ok).2
  | op_fetch cs a decode load : cert_op cs (FetchAndReload cs a decode load).2.

Lemma FetchAndReload_cases cs a decode load :
  (FetchAndReload cs a decode load).2 = cs ∨
  ∃ certs, certs ≠ [] ∧ FetchAndReload cs a decode load = (None, CertReload cs certs).
Proof.
  unfold FetchAndReload. repeat case_match; simpl; auto.
  right. exists (c :: l1). done.
Qed.

(** ** A connection with bytes read ahead *)

(** [BufferedConn]: the bytes read before come first *)
Definition NewBufferedConn (conn : reader) (preRead : bytes) : reader :=
  mk_reader (preRead ++ rd_data conn) (rd_fail conn) (rd_size conn).

(** ** The listener for one connection *)

Inductive chan_state := NotMade | OpenChan | ClosedChan.

Record listener := { l_used : bool; l_done : chan_state }.

(** what a call to [Accept] does now: the connection, an error, or it waits *)
Inductive accept_result := Accepted | AcceptClosed | AcceptBlocks.

Definition make_done (d : chan_state) : chan_state := match d with NotMade => OpenChan | _ => d end.

Definition Accept (l : listener) : accept_result * listener :=
  let d := make_done (l_done l) in
  if l_used l then
    (match d with ClosedChan => AcceptClosed | _ => AcceptBlocks end, {| l_used := true; l_done := d |})
  else (Accepted, {| l_used := true; l_done := d |}).

(** [Close] of the listener and of the connection it handed out, which share
    the once *)
Definition ListenerClose (l : listener) : listener := {| l_used := l_used l; l_done := ClosedChan |}.

(** [Close] of a [singleConn] and of a [singleTLSConn]: the connection, then the
    listener; [err] is what closing the connection yields *)
Definition singleConn_Close (err : option string) (l : listener) : option string * listener := (err, ListenerClose l).
Definition singleTLSConn_Close (err : option string) (l : listener) : option string * listener := (err, ListenerClose l).

Inductive lstep : listener * nat → listener * nat → Prop :=
  | lstep_accept l n : (Accept l).1 = Accepted → lstep (l, n) ((Accept l).2, S n)
  | lstep_wait l n : (Accept l).1 ≠ Accepted → lstep (l, n) ((Accept l).2, n)
  | lstep_close l n : lstep (l, n) (ListenerClose l, n).

Definition accepted_once (s : listener * nat) : Prop := s.2 = if l_used s.1 then 1 else 0.

Lemma accepted_once_invariant : invariant lstep accepted_once.
Proof.
  intros s s' Hs Hst. unfold accepted_once in *. destruct Hst as [l n Ha|l n Ha|l n]; simpl in *; [|destruct l as [[] d]..]; simpl in *; try done.
  destruct l as [[] d]; simpl in *; [by destruct d|lia].
Qed.

(** ** The transports to upstream servers *)

Section Transports.
Context {T : Type}.
Variable new_transport : string → T.

Definition Transport_for (c : gmap string T) (serverName : string) : T * gmap string T :=
  match c !! serverName with
  | Some t => (t, c)
  | None => let t := new_transport serverName in (t, <[serverName := t]> c)
  end.
End Transports.

(** ** What is spoken inside the TLS connection *)

Inductive mitmProtocol := mitmProtocolHTTP1 | mitmProtocolHTTP2 | mitmProtocolGenericTLS.

Definition isHTTPRequestPrefix (header : string) : bool :=
  HasPrefix header "GET" || HasPrefix header "POST" || HasPrefix header "HEAD" ||
  HasPrefix header "CONNECT" || HasPrefix header "OPTIONS" || HasPrefix header "PUT" ||
  HasPrefix header "DELETE" || HasPrefix header "PATCH".

Definition http2ClientPreface : string :=
  "PRI * HTTP/2.0" +:+ CRLF +:+ CRLF +:+ "SM" +:+ CRLF +:+ CRLF.

Definition detectMITMProtocol (rd : reader) (negotiatedProtocol : string) : result read_error mitmProtocol :=
  if String.eqb negotiatedProtocol "h2" then Ok mitmProtocolHTTP2
  else if String.eqb negotiatedProtocol "http/1.1" then Ok mitmProtocolHTTP1
  else
    let '(peek, err) := Peek rd (String.length http2ClientPreface) in
    let sniff :=
      if length peek =? 0 then mitmProtocolGenericTLS
      else if (String.length http2ClientPreface <=? length peek) &&
              String.eqb (to_string (take (String.length http2ClientPreface) peek)) http2ClientPreface
      then mitmProtocolHTTP2
      else if isHTTPRequestPrefix (to_string (take (length peek `min` 5) peek)) then mitmProtocolHTTP1
      else mitmProtocolGenericTLS in
    match err with
    | Some ErrTimeout => Ok mitmProtocolGenericTLS
    | None | Some ErrBufferFull | Some EOF => Ok sniff
    | Some e => Err e
    end.

(** ** The handler of an intercepted request *)

Section Handler.
Context `{GoUnicode}.
Context {IS CS : Type} `{IdentityService IS} `{CredentialService CS}.

Inductive mitm_answer :=
  | Misdirected                          (* 421 sni_host_mismatch *)
  | BadGateway (err : string)
  | ForwardTo (dst serverName : string) (h : Header).

(** [ServeHTTP]: what the client is answered, or where the request is sent, the
    name the upstream TLS handshake uses and the header *)
Definition ServeHTTP (enabled : bool) (agentID serverName dstHost host : string)
    (sources : option (list RuntimeManager.UserSource)) (h : Header) (ids : IS) (creds : CS)
  : result string mitm_answer * IS * CS :=
  let targetHost := Injection.normalizeHost host in
  let targetHost := if String.eqb targetHost "" then serverName else targetHost in
  if negb (String.eqb serverName "") && negb (String.eqb targetHost "") && negb (String.eqb targetHost serverName)
  then (Ok Misdirected, ids, creds) else
  match Injection.applyCredentialInjection enabled agentID targetHost sources h ids creds with
  | (Err e, _, ids, creds) => (Ok (BadGateway e), ids, creds)
  | (Panic p, _, ids, creds) => (Panic p, ids, creds)
  | (Ok _, h, ids, creds) => (Ok (ForwardTo dstHost targetHost h), ids, creds)
  end.
End Handler.

(** ** Properties *)

(** Without interference, every cached leaf certificate is signed by the
    CA in force: in any sequence of certificate requests and CA refreshes the
    leaves of a replaced CA are gone, a failed refresh changes nothing, and a
    certificate handed out is for the name asked for and signed by the CA in
    force, or was cached under that condition. *)
Theorem leaf_matches_ca uri cs serverName now ok leaf cs' :
  rtc cert_op (NewCertStore uri) cs →
  GetCertificate cs serverName now ok = (Ok leaf, cs') →
  lf_domain leaf = TrimSpace serverName ∧ primary cs = Some (lf_ca leaf) ∧ (now + hour < lf_notAfter leaf)%Z.
Proof.
  intros Hr Hg. assert (signed_by_primary cs) as Hs.
  { apply (invariant_reachable cert_op signed_by_primary (NewCertStore uri)); [|apply map_Forall_empty|exact Hr].
    intros s s' Hs Hst. destruct Hst as [cs0 name t b|cs0 a decode load]; [by apply GetCertificate_signed|].
    destruct (FetchAndReload_cases cs0 a decode load) as [->|(certs & _ & ->)]; [done|by apply CertReload_signed]. }
  exact (GetCertificate_ok cs serverName now ok leaf cs' Hs Hg).
Qed.

Lemma leaf_matches_ca_witness :
  let load c k := Some {| ca_cert := c; ca_key := k |} in
  let cs := (FetchAndReload (NewCertStore "http://vault") (Answer 200 (Ok [])) (λ _, Ok (["cert "], ["key"])) load).2 in
  ∃ leaf cs', GetCertificate cs "a.test" 0 None = (Ok leaf, cs') ∧
    lf_domain leaf = TrimSpace "a.test" ∧ primary cs = Some (lf_ca leaf) ∧ (0 + hour < lf_notAfter leaf)%Z.
Proof.
  intros load cs.
  destruct (GetCertificate cs "a.test" 0 None) as [[leaf|e|p] cs'] eqn:E; [|vm_compute in E; discriminate E..].
  exists leaf, cs'. split; [reflexivity|].
  apply (leaf_matches_ca "http://vault" cs "a.test" 0 None leaf cs'); [|exact E].
  apply rtc_once. apply (op_fetch (NewCertStore "http://vault")).
Defined.

(** Under concurrency the cache can hold a leaf of a replaced CA: a
    request that read the old CA stores its leaf after the refresh cleared the
    cache, and the leaf is then served for up to 23 hours. *)
Theorem stale_leaf_reachable ca1 ca2 domain vaultURI :
  ca1 ≠ ca2 → ∃ s leaf,
  rtc cert_step {| st_store := CertReload (NewCertStore vaultURI) [ca1]; st_threads := [Idle] |} s ∧
  primary (st_store s) = Some ca2 ∧ leafCache (st_store s) !! domain = Some leaf ∧ lf_ca leaf = ca1 ∧
  cached_leaf (st_store s) domain 0 = Some leaf.
Proof.
  intros Hne. set (s0 := {| st_store := CertReload (NewCertStore vaultURI) [ca1]; st_threads := [Idle] |}).
  set (s1 := {| st_store := st_store s0; st_threads := [Signing domain ca1] |}).
  set (s2 := {| st_store := CertReload (st_store s1) [ca2]; st_threads := st_threads s1 |}).
  set (leaf := {| lf_domain := domain; lf_ca := ca1; lf_notAfter := leaf_expiry 0 |}).
  exists {| st_store := store_leaf (st_store s2) leaf; st_threads := [Done leaf] |}, leaf. split.
  - apply rtc_l with s1; [by apply (cert_read s0 0 domain 0 ca1)|].
    apply rtc_l with s2; [by apply (cert_reload s1 [ca2])|].
    apply rtc_once. by apply (cert_store s2 0 domain ca1 0).
  - split; [done|]. unfold cached_leaf. cbn [st_store store_leaf leafCache]. rewrite lookup_insert_eq.
    split_and!; [done|done|]. reflexivity.
Qed.

Lemma stale_leaf_reachable_witness : ∃ s leaf,
  rtc cert_step {| st_store := CertReload (NewCertStore "v") [{| ca_cert := "old"; ca_key := "k" |}]; st_threads := [Idle] |} s ∧
  primary (st_store s) = Some {| ca_cert := "new"; ca_key := "k" |} ∧ leafCache (st_store s) !! "a.test" = Some leaf ∧
  lf_ca leaf = {| ca_cert := "old"; ca_key := "k" |} ∧ cached_leaf (st_store s) "a.test" 0 = Some leaf.
Proof. apply stale_leaf_reachable. discriminate. Defined.

(** The listener hands its connection out at most once, whatever calls of
    [Accept] and [Close] are made and in whatever order; once closed, a further
    [Accept] returns instead of waiting. *)
Theorem listener_once s :
  rtc lstep ({| l_used := false; l_done := NotMade |}, 0) s →
  s.2 ≤ 1 ∧ (s.2 = 1 → (Accept (ListenerClose s.1)).1 = AcceptClosed).
Proof.
  intros Hs.
  pose proof (λ H, invariant_reachable _ _ _ _ accepted_once_invariant H Hs) as Ha. specialize (Ha eq_refl).
  unfold accepted_once in Ha. destruct s as [[[] d] n]; simpl in *; subst; (split; [lia|done]).
Qed.

Lemma listener_once_witness :
  let l0 := {| l_used := false; l_done := NotMade |} in
  (1 ≤ 1 ∧ (1 = 1 → (Accept (ListenerClose (Accept l0).2)).1 = AcceptClosed))%nat.
Proof.
  intros l0. apply (listener_once ((Accept l0).2, 1)). apply rtc_once. by apply lstep_accept.
Defined.

(** A request inside an intercepted connection is only forwarded under the
    name its TLS handshake announced: when the handshake had a name, the Host
    header (normalised) is that name or absent, the upstream handshake uses that
    name, and the injected header comes from the credential of that name. *)
Theorem mitm_forwards_sni_only `{GoUnicode} {IS CS} `{IdentityService IS} `{CredentialService CS}
    enabled agentID serverName dstHost host sources h (ids : IS) (creds : CS) dst name h' ids' creds' :
  serverName ≠ "" →
  ServeHTTP enabled agentID serverName dstHost host sources h ids creds = (Ok (ForwardTo dst name h'), ids', creds') →
  dst = dstHost ∧ name = serverName ∧
  (Injection.normalizeHost host = "" ∨ Injection.normalizeHost host = serverName) ∧
  ∃ userID, Injection.applyCredentialInjection enabled agentID serverName sources h ids creds = (Ok userID, h', ids', creds').
Proof.
  intros Hne. unfold ServeHTTP.
  destruct (String.eqb_spec (Injection.normalizeHost host) "") as [E|E].
  - rewrite (proj2 (String.eqb_neq _ _) Hne), String.eqb_refl. cbn [negb andb].
    destruct (Injection.applyCredentialInjection _ _ _ _ _ _ _) as [[[[u|e|p] h1] i1] c1]; intros ?; simplify_eq. eauto 10.
  - rewrite (proj2 (String.eqb_neq _ _) Hne), (proj2 (String.eqb_neq _ _) E). cbn [negb andb].
    destruct (String.eqb_spec (Injection.normalizeHost host) serverName) as [->|_]; [|done]. cbn [negb].
    destruct (Injection.applyCredentialInjection _ _ _ _ _ _ _) as [[[[u|e|p] h1] i1] c1]; intros ?; simplify_eq. eauto 10.
Qed.

Lemma mitm_forwards_sni_only_witness :
  let ids : IdentityService unit := λ s _ _, (Ok "", s) in
  let creds : CredentialService unit := λ s _ _ _, (Ok None, s) in
  ServeHTTP (H:=PolicyExample.unicode) (H0:=ids) (H1:=creds) true "agent" "a.test" "10.0.0.1:443" "A.test:443" None ∅ tt tt =
    (Ok (ForwardTo "10.0.0.1:443" "a.test" ∅), tt, tt) ∧
  ("10.0.0.1:443" = "10.0.0.1:443" ∧ "a.test" = "a.test" ∧
   (Injection.normalizeHost (H:=PolicyExample.unicode) "A.test:443" = "" ∨
    Injection.normalizeHost (H:=PolicyExample.unicode) "A.test:443" = "a.test") ∧
   ∃ userID, Injection.applyCredentialInjection (H:=PolicyExample.unicode) (H0:=ids) (H1:=creds) true "agent" "a.test" None ∅ tt tt =
     (Ok userID, ∅, tt, tt))%string.
Proof.
  intros ids creds.
  assert (ServeHTTP (H:=PolicyExample.unicode) (H0:=ids) (H1:=creds) true "agent" "a.test" "10.0.0.1:443" "A.test:443" None ∅ tt tt =
    (Ok (ForwardTo "10.0.0.1:443" "a.test" ∅), tt, tt)) as Hs by reflexivity.
  split; [exact Hs|].
  exact (mitm_forwards_sni_only (H:=PolicyExample.unicode) (H0:=ids) (H1:=creds) true "agent" "a.test" "10.0.0.1:443" "A.test:443"
           None ∅ tt tt "10.0.0.1:443" "a.test" ∅ tt tt ltac:(discriminate) Hs).
Defined.

(** The five bytes the proxy looks at recognise a request only by the
    methods GET, POST, HEAD, PUT and PATCH: the tests for CONNECT, OPTIONS and
    DELETE, which are longer, never succeed. *)
Theorem isHTTPRequestPrefix_five header :
  String.length header = 5 →
  isHTTPRequestPrefix header = true ↔
  HasPrefix header "GET" = true ∨ HasPrefix header "POST" = true ∨ HasPrefix header "HEAD" = true ∨
  HasPrefix header "PUT" = true ∨ HasPrefix header "PATCH" = true.
Proof.
  intros Hl. unfold isHTTPRequestPrefix.
  assert (∀ p, 5 < String.length p → HasPrefix header p = false) as Hlong.
  { intros p Hp. apply not_true_iff_false. intros E. apply Injection.HasPrefix_length in E. lia. }
  rewrite (Hlong "CONNECT"), (Hlong "OPTIONS"), (Hlong "DELETE") by (simpl; lia).
  rewrite !orb_true_iff. naive_solver.
Qed.

Lemma isHTTPRequestPrefix_five_witness :
  isHTTPRequestPrefix "CONNE" = true ↔
  HasPrefix "CONNE" "GET" = true ∨ HasPrefix "CONNE" "POST" = true ∨ HasPrefix "CONNE" "HEAD" = true ∨
  HasPrefix "CONNE" "PUT" = true ∨ HasPrefix "CONNE" "PATCH" = true.
Proof. apply (isHTTPRequestPrefix_five "CONNE"). reflexivity. Defined.
