(* ===== verification/Requests.v ===== *)
(** * The requests the program makes

    The requests of domainpolicy/manager.go and runtimeconfig/manager.go
    ([fetch]), pkg/credential/fetcher.go, pkg/identity/resolver.go and
    pkg/tls/mitm/ca.go: their addresses, queries and bodies, and the way their
    answers reach the operations of ConfigManager, Credentials and Mitm, whose
    [http_answer] is the answer to such a request.  The two ways to find the
    address of the instance ([localIP]) are here too.

    [url.Parse] and the HTTP client are arguments; a parsed URL is its text
    without the query, and the raw query. *)

From S2P Require Export Query Mitm.
From Stdlib Require Import Ascii.

Local Open Scope string_scope.
Local Open Scope nat_scope.
Local Open Scope list_scope.

Record endpoint := mk_endpoint { ep_base : string; ep_RawQuery : string }.

Inductive http_request :=
  | GET (e : endpoint)
  | POST (url contentType : string) (body : string).

Section Requests.
Variable url_Parse : string → result string endpoint.
Variable Do : http_request → http_answer.

Definition set_query (e : endpoint) (v : Values) : endpoint := mk_endpoint (ep_base e) (Encode v).

(** ** The configuration servers *)

(** [fetch] of the domain policy *)
Definition policy_query (o : Options) (query : Values) : Values :=
  Values_Set (Values_Set query "app" (AppName o)) "ip" (InstanceIP o).

Definition policy_request (o : Options) : result string http_request :=
  e ← url_Parse (URL_ o); Ok (GET (set_query e (policy_query o (ParseQuery (ep_RawQuery e))))).

(** [fetch] of the runtime configuration *)
Definition runtime_query (o : Options) (query : Values) : Values :=
  let query := if String.eqb (AppName o) "" then query else Values_Set query "app" (AppName o) in
  let query := if String.eqb (InstanceIP o) "" then query else Values_Set query "ip" (InstanceIP o) in
  Values_Set query "agent_id" (AgentID o).

Definition runtime_request (o : Options) : result string http_request :=
  e ← url_Parse (trim_slashes (URL_ o) +:+ "/internal/credential-runtime-config");
  Ok (GET (set_query e (runtime_query o (ParseQuery (ep_RawQuery e))))).

(** what a manager gets: its URL may not parse, the server may not answer *)
Definition answer_of (r : result string http_request) : http_answer :=
  match r with
  | Ok req => Do req
  | Err err => Transport err
  | Panic _ => Transport "panic"
  end.

Definition policy_fetch (o : Options) : result string bytes :=
  fetch PolicyManager.status_text (answer_of (policy_request o)).
Definition runtime_fetch (o : Options) : result string bytes :=
  fetch RuntimeManager.status_text (answer_of (runtime_request o)).

(** ** The address of the instance *)

(** of the first interface; an address that is no [*net.IPNet] is [None] *)
Definition policy_localIP (addrs : result string (list (option IP))) : result string string :=
  addrs ← addrs;
  match head (filter (λ ip, negb (bool_decide (ip = []) || IsLoopback ip || IsLinkLocalUnicast ip || IsLinkLocalMulticast ip) = true)
                (omap id addrs)) with
  | Some ip => Ok (ip_string ip)
  | None => Err "no valid local IP address found"
  end.

(** of the socket a packet to 8.8.8.8 would leave from *)
Definition runtime_localIP (dialled : result string (option IP)) : result string string :=
  addr ← dialled; match addr with Some ip => Ok (ip_string ip) | None => Err "no local ip" end.

(** ** The vault *)

Definition member_nonempty (kv : string * string) : list (string * string) :=
  if String.eqb kv.2 "" then [] else [kv].

(** [resolveRequest] of the credentials, whose user may be left out *)
Definition credential_members (agentID targetHost userID : string) : list (string * string) :=
  [("agent_id", agentID); ("target_host", targetHost)] ++ member_nonempty ("user_id", userID).

Definition credential_request (vaultURI agentID targetHost userID : string) : http_request :=
  POST (vaultURI +:+ "/internal/credentials/resolve") "application/json"
    (json_object (credential_members agentID targetHost userID)).

(** [resolveRequest] of the identities *)
Definition identity_request (vaultURI provider token : string) : http_request :=
  POST (vaultURI +:+ "/internal/identity/resolve") "application/json"
    (json_object [("provider", provider); ("token", token)]).

Definition ca_request (vaultURI : string) : http_request :=
  GET (mk_endpoint (vaultURI +:+ "/internal/ca/keypair") "").
End Requests.

(** the vault as Credentials sees it, from a server of HTTP requests *)
Section Vault.
Variable server : Z → http_request → http_answer.

(** [Fetcher.Fetch] and the two [Resolve] *)
Definition credential_Fetch (decode : bytes → result string (option Credential.t)) (now : Z) (vaultURI agentID targetHost userID : string)
  : result string (option Credential.t) :=
  Credential.Fetch decode vaultURI (server now (credential_request vaultURI agentID targetHost userID)).

Definition credential_Resolve (decode : bytes → result string (option Credential.t)) (r : Credential.Resolver)
    (now later : Z) (agentID targetHost userID : string) : result string (option Credential.t) * Credential.Resolver :=
  Credential.Resolve decode (λ t a h u, server t (credential_request (Credential.vaultURI r) a h u)) r now later
    agentID targetHost userID.

Definition identity_Resolve (decode : bytes → result string (string * Z)) (token_hash : string → string) (r : Identity.Resolver)
    (now later : Z) (provider token : string) : result string string * Identity.Resolver :=
  Identity.Resolve decode (λ t p k, server t (identity_request (Identity.vaultURI r) p k)) token_hash r now later
    provider token.

Definition FetchAndReload_from (decode : bytes → result string (list string * list string))
    (load : string → string → option CA) (cs : CertStore) (now : Z) : option string * CertStore :=
  FetchAndReload cs (server now (ca_request (cs_vaultURI cs))) decode load.
End Vault.

(** ** What the servers read *)

Definition query_of (r : http_request) : Values :=
  match r with GET e => ParseQuery (ep_RawQuery e) | POST _ _ _ => ∅ end.

Definition members_of (r : http_request) : option (list (string * string)) :=
  match r with GET _ => None | POST _ _ body => read_object body end.

Lemma parse_part_nonempty m part : map_Forall (λ _ vs, vs ≠ []) m → map_Forall (λ _ vs, vs ≠ []) (parse_part m part).
Proof.
  intros Hm. unfold parse_part. destruct (_ || _); [done|].
  destruct (match Cut part "="%char with Some kv => kv | None => (part, "") end) as [k v].
  destruct (QueryUnescape k) as [k'|], (QueryUnescape v) as [v'|]; try done.
  unfold add_pair. cbn. apply map_Forall_insert_2; [|done]. by destruct (default [] _).
Qed.

Lemma ParseQuery_nonempty q : map_Forall (λ _ vs, vs ≠ []) (ParseQuery q).
Proof.
  unfold ParseQuery. assert (∀ m, map_Forall (λ _ vs, vs ≠ []) m → map_Forall (λ _ vs, vs ≠ []) (foldl parse_part m (Split q "&"%char))) as H.
  { induction (Split q "&"%char) as [|p l IH]; intros m Hm; [done|]. by apply IH, parse_part_nonempty. }
  apply H, map_Forall_empty.
Qed.

Lemma Values_Set_nonempty v k x : map_Forall (λ _ vs, vs ≠ []) v → map_Forall (λ _ vs, vs ≠ []) (Values_Set v k x).
Proof. intros Hv. by apply map_Forall_insert_2. Qed.

Lemma policy_query_nonempty o q : map_Forall (λ _ vs, vs ≠ []) (policy_query o (ParseQuery q)).
Proof. by do 2 apply Values_Set_nonempty; apply ParseQuery_nonempty. Qed.

Lemma runtime_query_nonempty o q : map_Forall (λ _ vs, vs ≠ []) (runtime_query o (ParseQuery q)).
Proof.
  unfold runtime_query. apply Values_Set_nonempty.
  destruct (String.eqb (AppName o) ""), (String.eqb (InstanceIP o) ""); repeat apply Values_Set_nonempty; apply ParseQuery_nonempty.
Qed.

Lemma policy_request_query url_Parse o req : policy_request url_Parse o = Ok req →
  ∃ e, url_Parse (URL_ o) = Ok e ∧ query_of req = policy_query o (ParseQuery (ep_RawQuery e)).
Proof.
  unfold policy_request. destruct (url_Parse _) as [e|?|?]; [|done..]. intros [= <-]. exists e. split; [done|].
  apply ParseQuery_Encode, policy_query_nonempty.
Qed.

Lemma runtime_request_query url_Parse o req : runtime_request url_Parse o = Ok req →
  ∃ e, url_Parse (trim_slashes (URL_ o) +:+ "/internal/credential-runtime-config") = Ok e ∧
    query_of req = runtime_query o (ParseQuery (ep_RawQuery e)).
Proof.
  unfold runtime_request. destruct (url_Parse _) as [e|?|?]; [|done..]. intros [= <-]. exists e. split; [done|].
  apply ParseQuery_Encode, runtime_query_nonempty.
Qed.

Lemma sanitized_valid kvs : Forall (λ kv, valid_utf8 kv.1 ∧ valid_utf8 kv.2) kvs → prod_map sanitize sanitize <$> kvs = kvs.
Proof. induction 1 as [|[k v] kvs [Hk Hv] _ IH]; [done|]. cbn in *. by rewrite IH, Hk, Hv. Qed.

Lemma credential_members_inj a h u a' h' u' : credential_members a h u = credential_members a' h' u' → a = a' ∧ h = h' ∧ u = u'.
Proof.
  unfold credential_members, member_nonempty. cbn. destruct (String.eqb_spec u "") as [->|], (String.eqb_spec u' "") as [->|];
    intros E; by simplify_eq.
Qed.

Lemma sanitize_keys k : k ∈ ["agent_id"; "target_host"; "user_id"; "provider"; "token"] → sanitize k = k.
Proof.
  assert (Forall valid_utf8 ["agent_id"; "target_host"; "user_id"; "provider"; "token"]) as H
    by (apply (bool_decide_unpack _); vm_compute; reflexivity).
  rewrite Forall_forall in H. apply H.
Qed.

Ltac members_valid := repeat constructor; cbn; first [done|apply (bool_decide_unpack _); by vm_compute].

(** ** Properties *)

(** C18: The servers read what the program means.  The domain policy server finds
    in the query the application and the address of the instance once each,
    whatever bytes they hold and whatever the configured URL says of them, and
    every other parameter of that URL unchanged; the runtime configuration server
    likewise, with the agent, and without a parameter that is empty.  The vault
    reads, as a JSON object, the agent, the host and the user of a credential
    question, the user only if there is one, and the provider and the token of
    an identity question; bytes that are no UTF-8 are replaced, so that questions
    in UTF-8 that differ are different requests. *)
Theorem requests_read_back url_Parse :
  (∀ o req, policy_request url_Parse o = Ok req → ∃ e, url_Parse (URL_ o) = Ok e ∧ ∀ key,
     query_of req !! key =
       if String.eqb key "ip" then Some [InstanceIP o] else if String.eqb key "app" then Some [AppName o]
       else ParseQuery (ep_RawQuery e) !! key) ∧
  (∀ o req, runtime_request url_Parse o = Ok req →
     ∃ e, url_Parse (trim_slashes (URL_ o) +:+ "/internal/credential-runtime-config") = Ok e ∧ ∀ key,
     query_of req !! key =
       if String.eqb key "agent_id" then Some [AgentID o]
       else if String.eqb key "ip" && negb (String.eqb (InstanceIP o) "") then Some [InstanceIP o]
       else if String.eqb key "app" && negb (String.eqb (AppName o) "") then Some [AppName o]
       else ParseQuery (ep_RawQuery e) !! key) ∧
  (∀ uri agent host user, members_of (credential_request uri agent host user) =
     Some ([("agent_id", sanitize agent); ("target_host", sanitize host)] ++
           if String.eqb user "" then [] else [("user_id", sanitize user)])) ∧
  (∀ uri provider token, members_of (identity_request uri provider token) =
     Some [("provider", sanitize provider); ("token", sanitize token)]) ∧
  (∀ uri agent host user uri' agent' host' user',
     Forall valid_utf8 [agent; host; user; agent'; host'; user'] →
     credential_request uri agent host user = credential_request uri' agent' host' user' →
     agent = agent' ∧ host = host' ∧ user = user').
Proof.
  split; [|split; [|split; [|split]]].
  - intros o req (e & He & Hq)%policy_request_query. exists e. split; [exact He|]. intros key. rewrite Hq.
    unfold policy_query, Values_Set. destruct (String.eqb_spec key "ip") as [->|]; [by rewrite lookup_insert_eq|].
    rewrite lookup_insert_ne by done. destruct (String.eqb_spec key "app") as [->|]; [by rewrite lookup_insert_eq|].
    by rewrite lookup_insert_ne.
  - intros o req (e & He & Hq)%runtime_request_query. exists e. split; [exact He|]. intros key. rewrite Hq.
    unfold runtime_query, Values_Set. destruct (String.eqb_spec key "agent_id") as [->|]; [by rewrite lookup_insert_eq|].
    rewrite lookup_insert_ne by done.
    destruct (String.eqb (InstanceIP o) "") eqn:Hi, (String.eqb (AppName o) "") eqn:Ha; cbn [negb]; rewrite ?andb_false_r, ?andb_true_r;
      repeat (match goal with |- context [String.eqb key ?k] => destruct (String.eqb_spec key k) as [->|] end;
              [by rewrite ?lookup_insert_ne, ?lookup_insert_eq by done|]); by rewrite ?lookup_insert_ne.
  - intros uri agent host user. unfold members_of, credential_request. rewrite read_json_object.
    unfold credential_members, member_nonempty. cbn [snd]. f_equal.
    destruct (String.eqb user ""); cbn [app fmap list_fmap prod_map fst snd]; by rewrite !sanitize_keys by (set_solver).
  - intros uri provider token. unfold members_of, identity_request. rewrite read_json_object.
    cbn [fmap list_fmap prod_map fst snd]. by rewrite !sanitize_keys by set_solver.
  - intros uri agent host user uri' agent' host' user' Hv Heq.
    assert (members_of (credential_request uri agent host user) = members_of (credential_request uri' agent' host' user')) as Hm
      by by rewrite Heq.
    unfold members_of, credential_request in Hm. rewrite !read_json_object in Hm.
    rewrite !Forall_cons in Hv. destruct Hv as (Ha & Hh & Hu & Ha' & Hh' & Hu' & _).
    rewrite !sanitized_valid in Hm; [apply (inj Some) in Hm; by apply credential_members_inj| |];
      unfold credential_members, member_nonempty; cbn; destruct (String.eqb _ ""); members_valid.
Qed.

Lemma requests_read_back_witness :
  let url_Parse := λ _ : string, Ok (E:=string) (mk_endpoint "http://policy/v1" "app=old&region=a+b") in
  let o := mk_options "http://policy/v1?app=old&region=a+b" "" 0 0 "" "shop & co" "10.0.0.1" "a1" in
  ∃ req, policy_request url_Parse o = Ok req ∧ query_of req !! "app" = Some ["shop & co"] ∧
    query_of req !! "region" = Some ["a b"] ∧
    members_of (credential_request "http://vault" "a1" "h" "") = Some [("agent_id", "a1"); ("target_host", "h")].
Proof.
  intros url_Parse o. destruct (requests_read_back url_Parse) as (Hp & _ & Hc & _).
  destruct (policy_request url_Parse o) as [req|?|?] eqn:E; [|discriminate E..].
  destruct (Hp o req E) as (e & He & Hq). injection He as <-. exists req. split; [reflexivity|].
  rewrite !Hq, Hc. split; [reflexivity|]. split; reflexivity.
Defined.
