(* ===== verification/Intercept.v ===== *)
(** * One intercepted connection

    [mitmTLSProc] of cmd/proxy/outbound.go with the handler it serves, the round
    tripper with its cache of transports, and the tunnel of a TLS connection that
    does not carry HTTP.

    crypto/tls, net/http and x/net/http2 are the environment ([tls_world]): a
    handshake reads the ClientHello, asks for a certificate of the name in it and
    goes on with it or reports its refusal; a server of HTTP turns the plaintext
    into requests and hands each to the handler. *)

From S2P Require Export HttpProxy Mitm.

Local Open Scope string_scope.
Local Open Scope nat_scope.
Local Open Scope list_scope.

(** ** What the libraries answer *)

(** how many bytes of the client a handshake reads, and what it writes *)
Record handshake_io := mk_io { hs_read : nat; hs_sent : bytes }.

(** what the handshake agreed on, and the plaintext that follows *)
Record tls_session := mk_session { t_NegotiatedProtocol : string; t_in : reader }.

Inductive handshake :=
  | HandshakeFails (io : handshake_io) (err : string)
  | AsksCertificate (serverName : string) (refused : handshake_io)
      (goes_on : Leaf → handshake_io * result string tls_session).

(** the error of [http.Server.Serve] *)
Inductive serve_error := ServeErrClosed | ServeOther (text : string).

Record tls_world := {
  tw_buffered : nat;                        (* reader.Buffered() *)
  tw_plain_buffered : nat;                  (* plaintextReader.Buffered() *)
  tw_now : Z * Z;                           (* the times of the two certificate requests *)
  tw_crypto : option string * option string;
  tw_Server : reader → handshake;           (* tls.Server and Handshake *)
  tw_ciphertext : bytes;                    (* what the client receives after the handshake *)
  tw_serve : mitmProtocol → reader → list (string * Header) * option serve_error;
  tw_dial : string → option string;         (* net.Dial *)
  tw_Client : string → option string * reader;  (* tls.Client, for a server name: its error, the plaintext *)
  tw_first : bool
}.

Inductive mitm_error :=
  | CapturePeek (e : read_error)
  | PrepareCertificate (e : string)
  | TLSHandshake (e : string)
  | DetectProtocol (e : read_error)
  | BufferPreRead (e : read_error)
  | ServeConnection (e : string)
  | DialUpstream (e : string)
  | UpstreamHandshake (e : string)
  | RawTunnel (e : proxy_error)
  | InterceptPanic (p : panic).

(** ** Connections *)

(** [NewBufferedConn] over the bytes the reader has buffered and the connection
    under it *)
Definition rebuffer (n : nat) (rd : reader) : result read_error reader :=
  match Peek rd n with
  | ([], Some e) => Err e
  | (preRead, _) => Ok (NewBufferedConn (consume n rd) preRead)
  end.

(** The buffered bytes were only looked at, so [reader] still has them; what
    else the handshake read is gone from the connection. *)
Definition after_handshake (buffered : nat) (io : handshake_io) (c : conns) : conns :=
  set_down_out
    (set_down_in c (set_data (down_in c)
       (take buffered (rd_data (down_in c)) ++ drop (buffered `max` hs_read io) (rd_data (down_in c)))))
    (Write (down_out c) (hs_sent io)).2.

(** [tlsConn.Close] closes the connection under it too: reads get what was
    buffered, then an error, and writes fail *)
Definition close_down (buffered : nat) (c : conns) : conns :=
  mk_conns (mk_reader (take buffered (rd_data (down_in c))) (ErrNet "use of closed network connection") (rd_size (down_in c)))
    (mk_writer (w_out (down_out c)) (Some 0)) (up_in c) (up_out c) (up_closed c) true.

(** ** The transports *)

Record transport := mk_transport { tr_ServerName : string; tr_RootCAs : bool }.

#[export] Instance transport_eq_dec : EqDecision transport.
Proof. solve_decision. Defined.

Definition newMITMHTTPTransport (rootCAs : bool) (serverName : string) : transport := mk_transport serverName rootCAs.

(** what leaves for the upstream: a request of the reverse proxy, to an address,
    over a transport; or the plaintext of a tunnel, to an address, for a name *)
Inductive relayed :=
  | Forwarded (dst : string) (tr : transport) (h : Header)
  | Tunnelled (dst serverName : string) (sent : bytes).

(** [mitmTransportCache] *)
Record mitmTransportCache := mk_cache { tc_rootCAs : bool; tc_transports : gmap string transport }.

Definition newMITMTransportCache (rootCAs : bool) : mitmTransportCache := mk_cache rootCAs ∅.

(** the transports that are told to close what is idle, in the order of the map *)
Definition cache_CloseIdleConnections (order : gmap string transport → list (string * transport)) (c : mitmTransportCache) : list transport :=
  (order (tc_transports c)).*2.

(** the context of a request, as far as its server name goes *)
Definition context : Type := option string.
Definition withMITMServerName (ctx : context) (serverName : string) : context := Some serverName.
Definition mitmServerNameFromContext (ctx : context) : string := default "" ctx.

(** [RoundTrip]: the server name comes from the context of the request *)
Definition RoundTrip (cache : mitmTransportCache) (targetAddr : string) (ctx : context) (h : Header)
  : relayed * mitmTransportCache :=
  let serverName := mitmServerNameFromContext ctx in
  let '(tr, ts) := Transport_for (newMITMHTTPTransport (tc_rootCAs cache)) (tc_transports cache) serverName in
  (Forwarded targetAddr tr h, mk_cache (tc_rootCAs cache) ts).

Section Intercept.
Context `{GoUnicode}.
Context {IS CS : Type} `{IdentityService IS} `{CredentialService CS}.

(** what the outbound server shares between its connections, and what its
    interceptions have sent upstream so far *)
Record shared := mk_shared {
  o_ids : IS;
  o_creds : CS;
  o_certs : CertStore;
  o_relayed : list relayed
}.

Definition set_services (s : shared) (ids : IS) (creds : CS) : shared := mk_shared ids creds (o_certs s) (o_relayed s).
Definition set_cert_store (s : shared) (cs : CertStore) : shared := mk_shared (o_ids s) (o_creds s) cs (o_relayed s).
Definition relay (s : shared) (r : relayed) : shared := mk_shared (o_ids s) (o_creds s) (o_certs s) (o_relayed s ++ [r]).

Section Server.
Variables (enabled : bool) (agentID : string) (rootCAs : bool).
Variable sources : option (list RuntimeManager.UserSource).

(** [newMITMHandler] *)
Record mitmHandler := mk_handler { mh_dstHost : string; mh_serverName : string; mh_transports : mitmTransportCache }.

Definition handler_CloseIdleConnections (order : gmap string transport → list (string * transport)) (h : mitmHandler) : list transport :=
  cache_CloseIdleConnections order (mh_transports h).

Definition newMITMHandler (dstHost serverName : string) : mitmHandler :=
  mk_handler dstHost serverName (newMITMTransportCache rootCAs).

(** one request, up to its round trip *)
Definition serve_request (s : shared) (m : mitmHandler) (r : string * Header) : shared * mitmHandler * option panic :=
  match ServeHTTP enabled agentID (mh_serverName m) (mh_dstHost m) r.1 sources r.2 (o_ids s) (o_creds s) with
  | (Ok (ForwardTo dst name h), ids, creds) =>
      let '(sent, cache) := RoundTrip (mh_transports m) dst (withMITMServerName None name) h in
      (relay (set_services s ids creds) sent, mk_handler (mh_dstHost m) (mh_serverName m) cache, None)
  | (Panic p, ids, creds) => (set_services s ids creds, m, Some p)
  | (_, ids, creds) => (set_services s ids creds, m, None)
  end.

(** The requests of the connection, in the order in which the handlers run.  A
    panic of a handler is recovered by the server: HTTP/1 closes the connection,
    HTTP/2 resets the stream. *)
Fixpoint serve_requests (p : mitmProtocol) (s : shared) (m : mitmHandler) (rs : list (string * Header)) : shared :=
  match rs with
  | [] => s
  | r :: rs =>
      match serve_request s m r, p with
      | (s, _, Some _), mitmProtocolHTTP1 => s
      | (s, m, _), _ => serve_requests p s m rs
      end
  end.

(** [proxyMITMTLSConnection] *)
Definition proxyMITMTLSConnection (tw : tls_world) (s : shared) (plain : reader) (dstHost serverName : string)
  : option mitm_error * shared :=
  match tw_dial tw dstHost with
  | Some e => (Some (DialUpstream e), s)
  | None =>
      match tw_Client tw serverName with
      | (Some e, _) => (Some (UpstreamHandshake e), s)
      | (None, up) =>
          let '(e, c) := proxyRawConnection (mk_conns plain (mk_writer [] None) up (mk_writer [] None) false false)
                           (tw_first tw) in
          (RawTunnel <$> e, relay s (Tunnelled dstHost serverName (w_out (up_out c))))
      end
  end.

(** the part of [mitmTLSProc] after the handshake *)
Definition serve_session (tw : tls_world) (s : shared) (ts : tls_session) (dstHost serverName : string)
  : option mitm_error * shared :=
  match detectMITMProtocol (t_in ts) (t_NegotiatedProtocol ts) with
  | Err e => (Some (DetectProtocol e), s)
  | Panic p => (Some (InterceptPanic p), s)
  | Ok protocol =>
      let handler := newMITMHandler dstHost serverName in
      match protocol with
      | mitmProtocolHTTP2 =>
          match rebuffer (tw_plain_buffered tw) (t_in ts) with
          | Err e => (Some (BufferPreRead e), s)
          | Panic p => (Some (InterceptPanic p), s)
          | Ok plaintextConn =>
              (None, serve_requests protocol s handler (tw_serve tw protocol plaintextConn).1)
          end
      | mitmProtocolHTTP1 =>
          match rebuffer (tw_plain_buffered tw) (t_in ts) with
          | Err e => (Some (BufferPreRead e), s)
          | Panic p => (Some (InterceptPanic p), s)
          | Ok plaintextConn =>
              let '(rs, err) := tw_serve tw protocol plaintextConn in
              (match err with
               | None | Some ServeErrClosed => None
               | Some (ServeOther e) => if Contains e "closed network connection" then None else Some (ServeConnection e)
               end, serve_requests protocol s handler rs)
          end
      | mitmProtocolGenericTLS => proxyMITMTLSConnection tw s (t_in ts) dstHost serverName
      end
  end.

(** the certificate made before the handshake, for the name of the ClientHello *)
Definition prepare_certificate (tw : tls_world) (cs : CertStore) (serverName : string)
  : result string (option Leaf) * CertStore :=
  if String.eqb serverName "" then (Ok None, cs) else
  match GetCertificate cs serverName (tw_now tw).1 (tw_crypto tw).1 with
  | (Ok leaf, cs) => (Ok (Some leaf), cs)
  | (Err e, cs) => (Err e, cs)
  | (Panic p, cs) => (Panic p, cs)
  end.

(** the callback of the handshake *)
Definition certificate_for (tw : tls_world) (cs : CertStore) (fallbackCert : option Leaf) (hello : string)
  : result string Leaf * CertStore :=
  match Injection.normalizeHost hello, fallbackCert with
  | "", Some leaf => (Ok leaf, cs)
  | _, _ => GetCertificate cs hello (tw_now tw).2 (tw_crypto tw).2
  end.

(** [mitmTLSProc].  The deferred [tlsConn.Close] runs after the handshake
    succeeded. *)
Definition mitmTLSProc (tw : tls_world) (s : shared) (c : conns) (dstHost fallbackHost : string)
  : option mitm_error * conns * shared :=
  match rebuffer (tw_buffered tw) (down_in c) with
  | Err e => (Some (CapturePeek e), c, s)
  | Panic p => (Some (InterceptPanic p), c, s)
  | Ok bufConn =>
      let serverName := Injection.normalizeHost fallbackHost in
      match prepare_certificate tw (o_certs s) serverName with
      | (Err e, cs) => (Some (PrepareCertificate e), c, set_cert_store s cs)
      | (Panic p, cs) => (Some (InterceptPanic p), c, set_cert_store s cs)
      | (Ok fallbackCert, cs) =>
          match tw_Server tw bufConn with
          | HandshakeFails io err => (Some (TLSHandshake err), after_handshake (tw_buffered tw) io c, set_cert_store s cs)
          | AsksCertificate hello refused goes_on =>
              match certificate_for tw cs fallbackCert hello with
              | (Err e, cs) => (Some (TLSHandshake e), after_handshake (tw_buffered tw) refused c, set_cert_store s cs)
              | (Panic p, cs) => (Some (InterceptPanic p), after_handshake (tw_buffered tw) refused c, set_cert_store s cs)
              | (Ok leaf, cs) =>
                  let s := set_cert_store s cs in
                  match goes_on leaf with
                  | (io, Err e) => (Some (TLSHandshake e), after_handshake (tw_buffered tw) io c, s)
                  | (io, Panic p) => (Some (InterceptPanic p), after_handshake (tw_buffered tw) io c, s)
                  | (io, Ok ts) =>
                      let name := Injection.normalizeHost hello in
                      let name := if String.eqb name "" then serverName else name in
                      let '(err, s) := serve_session tw s ts dstHost name in
                      let c := after_handshake (tw_buffered tw) io c in
                      (err, close_down (tw_buffered tw) (set_down_out c (Write (down_out c) (tw_ciphertext tw)).2), s)
                  end
              end
          end
      end
  end.

(** ** What an interception relays *)

(** an entry of the trace for an address and a server name *)
Definition relayed_for (dstHost serverName : string) (r : relayed) : Prop :=
  match r with
  | Forwarded dst tr _ => dst = dstHost ∧ tr_RootCAs tr = rootCAs ∧ (serverName ≠ "" → tr_ServerName tr = serverName)
  | Tunnelled dst name _ => dst = dstHost ∧ name = serverName
  end.

(** nothing but relaying happens from [s] to [s'] *)
Definition relays (dstHost serverName : string) (s s' : shared) : Prop :=
  o_certs s' = o_certs s ∧
  ∃ sent, o_relayed s' = o_relayed s ++ sent ∧ Forall (relayed_for dstHost serverName) sent.

Lemma relays_refl dstHost serverName s s' :
  o_certs s' = o_certs s → o_relayed s' = o_relayed s → relays dstHost serverName s s'.
Proof. intros Hc Hr. split; [done|]. exists []. by rewrite app_nil_r. Qed.

Lemma relays_one dstHost serverName s s' r : relayed_for dstHost serverName r →
  o_certs s' = o_certs s → o_relayed s' = o_relayed s ++ [r] → relays dstHost serverName s s'.
Proof. intros Hr Hc Ha. split; [done|]. exists [r]. split; [done|by constructor]. Qed.

Lemma relays_trans dstHost serverName s s1 s2 :
  relays dstHost serverName s s1 → relays dstHost serverName s1 s2 → relays dstHost serverName s s2.
Proof.
  intros [Hc (l & Hl & Hf)] [Hc' (l' & Hl' & Hf')]. split; [congruence|].
  exists (l ++ l'). rewrite Hl', Hl, <- app_assoc. split; [done|]. by apply Forall_app.
Qed.

(** the transports of a handler are those of their names *)
Definition handler_ok (dstHost serverName : string) (m : mitmHandler) : Prop :=
  mh_dstHost m = dstHost ∧ mh_serverName m = serverName ∧ tc_rootCAs (mh_transports m) = rootCAs ∧
  map_Forall (λ n tr, tr = newMITMHTTPTransport rootCAs n) (tc_transports (mh_transports m)).

Lemma newMITMHandler_ok dstHost serverName : handler_ok dstHost serverName (newMITMHandler dstHost serverName).
Proof. split_and!; [done..|]. apply map_Forall_empty. Qed.

Lemma RoundTrip_spec cache targetAddr serverName h r cache' :
  tc_rootCAs cache = rootCAs → map_Forall (λ n tr, tr = newMITMHTTPTransport rootCAs n) (tc_transports cache) →
  RoundTrip cache targetAddr (withMITMServerName None serverName) h = (r, cache') →
  r = Forwarded targetAddr (mk_transport serverName rootCAs) h ∧ tc_rootCAs cache' = rootCAs ∧
  map_Forall (λ n tr, tr = newMITMHTTPTransport rootCAs n) (tc_transports cache').
Proof.
  intros Hr Hc. unfold RoundTrip, Transport_for.
  change (mitmServerNameFromContext (withMITMServerName None serverName)) with serverName. cbv zeta. rewrite Hr.
  destruct (tc_transports cache !! serverName) as [tr|] eqn:E; intros ?; simplify_eq/=.
  - by rewrite (Hc _ _ E).
  - split_and!; [done..|]. by apply map_Forall_insert_2.
Qed.

Lemma ServeHTTP_forward serverName dstHost host h ids creds dst name h' ids' creds' :
  ServeHTTP enabled agentID serverName dstHost host sources h ids creds = (Ok (ForwardTo dst name h'), ids', creds') →
  dst = dstHost ∧ (serverName ≠ "" → name = serverName).
Proof.
  unfold ServeHTTP.
  set (target := if String.eqb (Injection.normalizeHost host) "" then serverName else Injection.normalizeHost host).
  destruct (negb (String.eqb serverName "") && negb (String.eqb target "") && negb (String.eqb target serverName)) eqn:E;
    [by intros|].
  destruct (Injection.applyCredentialInjection _ _ _ _ _ _ _) as [[[[u|e|p] h1] i1] c1]; intros ?; simplify_eq/=.
  split; [done|]. intros Hne. apply String.eqb_neq in Hne. rewrite Hne in E. cbn [negb andb] in E.
  apply andb_false_iff in E as [E|E]; apply negb_false_iff, String.eqb_eq in E; [|done].
  destruct (String.eqb (Injection.normalizeHost host) "") eqn:E1; [done|by rewrite E in E1].
Qed.

Lemma serve_request_spec dstHost serverName s m r s' m' p : handler_ok dstHost serverName m →
  serve_request s m r = (s', m', p) → relays dstHost serverName s s' ∧ handler_ok dstHost serverName m'.
Proof.
  intros (Hd & Hn & Hr & Ht). unfold serve_request.
  destruct (ServeHTTP _ _ _ _ _ _ _ _ _) as [[[[|e|dst name h]|e|q] ids] creds] eqn:E;
    try (intros ?; simplify_eq/=; split; [by apply relays_refl|done]).
  apply ServeHTTP_forward in E as [-> Hname]. rewrite Hd, Hn in *.
  destruct (RoundTrip (mh_transports m) dstHost (withMITMServerName None name) h) as [sent cache] eqn:Er.
  apply RoundTrip_spec in Er as (-> & Hr' & Ht'); [|done..].
  intros ?; simplify_eq/=. split; [|done]. eapply relays_one; [|done..]. done.
Qed.

Lemma serve_requests_spec dstHost serverName p rs s m : handler_ok dstHost serverName m →
  relays dstHost serverName s (serve_requests p s m rs).
Proof.
  revert s m. induction rs as [|r rs IH]; intros s m Hm; cbn [serve_requests]; [by apply relays_refl|].
  destruct (serve_request s m r) as [[s1 m1] q] eqn:E.
  destruct (serve_request_spec _ _ _ _ _ _ _ _ Hm E) as [Hs Hm1].
  destruct q; [destruct p|]; try done; (eapply relays_trans; [exact Hs|by apply IH]).
Qed.

Lemma serve_session_spec tw s ts dstHost serverName e s' :
  serve_session tw s ts dstHost serverName = (e, s') → relays dstHost serverName s s'.
Proof.
  unfold serve_session. pose proof (newMITMHandler_ok dstHost serverName) as Hm.
  destruct (detectMITMProtocol _ _) as [[]|e0|q]; try (intros ?; simplify_eq; by apply relays_refl).
  - destruct (rebuffer _ _) as [rd|?|?]; try (intros ?; simplify_eq; by apply relays_refl).
    destruct (tw_serve _ _ _) as [rs err]. intros ?; simplify_eq. by apply serve_requests_spec.
  - destruct (rebuffer _ _) as [rd|?|?]; intros ?; simplify_eq; [by apply serve_requests_spec|by apply relays_refl..].
  - unfold proxyMITMTLSConnection. destruct (tw_dial _ _); [intros ?; simplify_eq; by apply relays_refl|].
    destruct (tw_Client tw serverName) as [[er|] up]; [intros ?; simplify_eq; by apply relays_refl|].
    destruct (proxyRawConnection _ _) as [er c]. intros [= _ <-].
    by apply (relays_one _ _ s _ (Tunnelled dstHost serverName (w_out (up_out c)))).
Qed.

(** ** The course of an interception *)

Lemma rebuffer_id n rd : n ≤ rd_size rd → n ≤ length (rd_data rd) → rebuffer n rd = Ok rd.
Proof.
  intros Hs Hd. unfold rebuffer, Peek. rewrite (proj2 (Nat.ltb_ge _ _) Hs), (proj2 (Nat.leb_le _ _) Hd).
  assert (NewBufferedConn (consume n rd) (take n (rd_data rd)) = rd) as He
    by (destruct rd; unfold NewBufferedConn, consume; cbn in *; by rewrite take_drop).
  destruct (take n (rd_data rd)); by rewrite He.
Qed.

Lemma prepare_certificate_spec tw cs name r cs' : prepare_certificate tw cs name = (r, cs') →
  (signed_by_primary cs → signed_by_primary cs') ∧ primary cs' = primary cs ∧ (name = "" → r = Ok None).
Proof.
  unfold prepare_certificate. destruct (String.eqb_spec name "") as [->|Hn]; [intros ?; by simplify_eq|].
  pose proof (GetCertificate_signed cs name (tw_now tw).1 (tw_crypto tw).1) as Hs.
  pose proof (GetCertificate_primary cs name (tw_now tw).1 (tw_crypto tw).1) as Hp.
  destruct (GetCertificate _ _ _ _) as [[leaf|e|q] cs1]; intros ?; simplify_eq; done.
Qed.

Lemma certificate_for_spec tw cs fallback hello leaf cs' :
  signed_by_primary cs → (Injection.normalizeHost hello = "" → fallback = None) →
  certificate_for tw cs fallback hello = (Ok leaf, cs') →
  lf_domain leaf = TrimSpace hello ∧ primary cs = Some (lf_ca leaf).
Proof.
  intros Hcs Hf. unfold certificate_for.
  assert (match Injection.normalizeHost hello, fallback with
          | "", Some leaf => (Ok leaf, cs)
          | _, _ => GetCertificate cs hello (tw_now tw).2 (tw_crypto tw).2 end =
          GetCertificate cs hello (tw_now tw).2 (tw_crypto tw).2) as ->.
  { destruct (Injection.normalizeHost hello); [by rewrite Hf|done]. }
  intros Hg. by destruct (GetCertificate_ok _ _ _ _ _ _ Hcs Hg) as (? & ? & _).
Qed.

Lemma certificate_for_signed tw cs fallback hello :
  (signed_by_primary cs → signed_by_primary (certificate_for tw cs fallback hello).2) ∧
  primary (certificate_for tw cs fallback hello).2 = primary cs.
Proof.
  unfold certificate_for.
  pose proof (GetCertificate_signed cs hello (tw_now tw).2 (tw_crypto tw).2).
  pose proof (GetCertificate_primary cs hello (tw_now tw).2 (tw_crypto tw).2).
  by destruct (Injection.normalizeHost hello), fallback.
Qed.
(** the bytes the reader has buffered are there *)
Definition buffered_ok (tw : tls_world) (c : conns) : Prop :=
  tw_buffered tw ≤ rd_size (down_in c) ∧ tw_buffered tw ≤ length (rd_data (down_in c)).

(** An interception ends before its session began, without having relayed
    anything, or with what the session gave. *)
Lemma mitmTLSProc_inv tw s c dstHost fallbackHost err c' s' :
  buffered_ok tw c → mitmTLSProc tw s c dstHost fallbackHost = (err, c', s') →
  (signed_by_primary (o_certs s) → signed_by_primary (o_certs s')) ∧ primary (o_certs s') = primary (o_certs s) ∧
  ((err ≠ None ∧ o_relayed s' = o_relayed s ∧ (c' = c ∨ ∃ io, c' = after_handshake (tw_buffered tw) io c)) ∨
   ∃ hello refused goes_on leaf io ts s1,
     tw_Server tw (down_in c) = AsksCertificate hello refused goes_on ∧ goes_on leaf = (io, Ok ts) ∧
     o_relayed s1 = o_relayed s ∧
     (signed_by_primary (o_certs s) → Injection.normalizeHost hello = Injection.normalizeHost fallbackHost →
        lf_domain leaf = TrimSpace hello ∧ primary (o_certs s') = Some (lf_ca leaf)) ∧
     serve_session tw s1 ts dstHost
       (if String.eqb (Injection.normalizeHost hello) "" then Injection.normalizeHost fallbackHost
        else Injection.normalizeHost hello) = (err, s') ∧
     ∃ w, c' = close_down (tw_buffered tw) (set_down_out (after_handshake (tw_buffered tw) io c) w)).
Proof.
  intros [Hb1 Hb2]. unfold mitmTLSProc. rewrite rebuffer_id by done. cbv zeta.
  destruct (prepare_certificate _ _ _) as [r cs1] eqn:Ep.
  destruct (prepare_certificate_spec _ _ _ _ _ Ep) as (Hs1 & Hp1 & Hn1).
  destruct r as [fallbackCert|e|q]; [|intros [= <- <- <-]; split; [auto|split; [done|]]; left; by eauto..].
  destruct (tw_Server tw (down_in c)) as [io e|hello refused goes_on] eqn:Eh;
    [intros [= <- <- <-]; split; [auto|split; [done|]]; left; by eauto|].
  pose proof (certificate_for_signed tw cs1 fallbackCert hello) as [Hs2 Hp2].
  destruct (certificate_for tw cs1 fallbackCert hello) as [r cs2] eqn:Ec. cbn [snd] in Hs2, Hp2. rewrite Hp1 in Hp2.
  destruct r as [leaf|e|q]; [|intros [= <- <- <-]; split; [auto|split; [done|]]; left; by eauto..].
  destruct (goes_on leaf) as [io [ts|e|q]] eqn:Eg; [|intros [= <- <- <-]; split; [auto|split; [done|]]; left; by eauto..].
  destruct (serve_session _ _ _ _ _) as [er s2] eqn:Ess. intros [= <- <- <-].
  destruct (serve_session_spec _ _ _ _ _ _ _ Ess) as [Hc2 _]. cbn [o_certs set_cert_store] in Hc2.
  rewrite Hc2. split; [auto|]. split; [done|]. right.
  exists hello, refused, goes_on, leaf, io, ts, (set_cert_store s cs2). split_and!; [done..| |exact Ess|by eexists].
  intros Hcs Hh. rewrite Hp2, <- Hp1. apply (certificate_for_spec tw cs1 fallbackCert hello leaf cs2); [auto| |done].
  intros H0'. rewrite Hh in H0'. by specialize (Hn1 H0') as [= ->].
Qed.
End Server.
End Intercept.

(** ** Properties *)



(** A tunnel of other TLS traffic always reports an error, also after it ran to
    its end. *)
Lemma generic_tls_never_succeeds `{GoUnicode} {IS CS} tw (s : shared (IS:=IS) (CS:=CS)) plain dstHost serverName :
  (proxyMITMTLSConnection tw s plain dstHost serverName).1 ≠ None.
Proof.
  unfold proxyMITMTLSConnection, proxyRawConnection. destruct (tw_dial _ _); [done|].
  destruct (tw_Client _ _) as [[e|] up]; [done|]. by destruct (proxyTunnel _ _) as [[e|] c].
Qed.

(** In a session without a server name every request chooses its own. *)
Lemma nameless_session_any_host `{GoUnicode} {IS CS} `{IdentityService IS} `{CredentialService CS}
    agentID sources dstHost host h (ids : IS) (creds : CS) : Injection.normalizeHost host ≠ "" →
  ServeHTTP false agentID "" dstHost host sources h ids creds =
    (Ok (ForwardTo dstHost (Injection.normalizeHost host) h), ids, creds).
Proof. intros Hh. unfold ServeHTTP. by rewrite (proj2 (String.eqb_neq _ _) Hh). Qed.

Module InterceptExample.
Definition ids : IdentityService unit := λ s _ _, (Ok "", s).
Definition creds : CredentialService unit := λ s _ _ _, (Ok None, s).
Definition ca : CA := {| ca_cert := "cert"; ca_key := "key" |}.
Definition certs : CertStore := CertReload (NewCertStore "http://vault") [ca].
Definition s0 : shared (IS:=unit) (CS:=unit) := mk_shared tt tt certs [].
(** a client that speaks HTTP/1 inside, whose ClientHello is of ten bytes *)
Definition tw : tls_world := {|
  tw_buffered := 10; tw_plain_buffered := 0; tw_now := (0, 0)%Z; tw_crypto := (None, None);
  tw_Server := λ rd, AsksCertificate "a.test" (mk_io 10 [])
    (λ _, (mk_io 20 (of_string "ServerHello"), Ok (mk_session "http/1.1" (mk_reader [] EOF 4096))));
  tw_ciphertext := []; tw_serve := λ _ _, ([("A.test:443", ∅)], Some ServeErrClosed);
  tw_dial := λ _, None; tw_Client := λ _, (None, mk_reader [] EOF 4096); tw_first := true |}.
(** one whose handshake is refused on the ClientHello *)
Definition refusing : tls_world := {|
  tw_buffered := 10; tw_plain_buffered := 0; tw_now := (0, 0)%Z; tw_crypto := (None, None);
  tw_Server := λ rd, HandshakeFails (mk_io 10 (of_string "alert")) "no common cipher";
  tw_ciphertext := []; tw_serve := λ _ _, ([], None);
  tw_dial := λ _, None; tw_Client := λ _, (None, mk_reader [] EOF 4096); tw_first := true |}.
Definition c : conns := mk_conns (mk_reader (of_string "ClientHelloAndMore") EOF 4096) (mk_writer [] None)
  (mk_reader [] EOF 4096) (mk_writer [] None) false false.
Definition run tw := mitmTLSProc (H:=PolicyExample.unicode) (H0:=ids) (H1:=creds) false "" false None tw s0 c "10.0.0.1:443" "a.test".
Definition after tw : conns := (run tw).1.2.
Definition final tw : shared := (run tw).2.
End InterceptExample.

Lemma buffered_example : buffered_ok InterceptExample.tw InterceptExample.c.
Proof. split; vm_compute; lia. Qed.

Lemma signed_example : signed_by_primary (o_certs InterceptExample.s0).
Proof. apply CertReload_signed, map_Forall_empty. Qed.


