(* ===== verification/Socket.v ===== *)
(** * The original destination of redirected traffic (pkg/socket)

    What the kernel says about a redirected datagram ([ParseOriginalDstFromOOB])
    or connection ([GetOriginalDst]).  Sockets and the parser of control
    messages (golang.org/x/sys) are the environment. *)

From S2P Require Export GoNet.

Local Open Scope string_scope.
Local Open Scope nat_scope.
Local Open Scope list_scope.

Record UDPAddr := { ua_IP : IP; ua_Port : Z }.

#[export] Instance UDPAddr_eq_dec : EqDecision UDPAddr.
Proof. solve_decision. Defined.

(** [UDPAddr.String], without zone *)
Definition addr_string (a : UDPAddr) : string := JoinHostPort (ip_string (ua_IP a)) (Itoa (ua_Port a)).

(** a parsed control message: level, type, data *)
Record control_message := { cm_level : Z; cm_type : Z; cm_data : list Z }.

Definition IPPROTO_IP : Z := 0.
Definition IP_ORIGDSTADDR : Z := 20.

(** the loop of [ParseOriginalDstFromOOB] *)
Fixpoint find_original_dst (msgs : list control_message) : result string UDPAddr :=
  match msgs with
  | [] => Err "original destination not found"
  | m :: msgs =>
      if negb (cm_level m =? IPPROTO_IP)%Z || negb (cm_type m =? IP_ORIGDSTADDR)%Z then find_original_dst msgs
      else match cm_data m with
      | _ :: _ :: p1 :: p2 :: a :: b :: c :: d :: _ => Ok {| ua_IP := IPv4 a b c d; ua_Port := 256 * p1 + p2 |}
      | data => Err ("original dst control message too short: " +:+ Itoa (Z.of_nat (length data)))
      end
  end.

Definition ParseOriginalDstFromOOB (parse : list Z → result string (list control_message)) (oob : list Z)
  : result string UDPAddr :=
  match parse oob with
  | Ok msgs => find_original_dst msgs
  | Err e => Err ("parse control message: " +:+ e)
  | Panic p => Panic p
  end.

(** the options a socket is given; [setsockopt level option] is the error *)
Definition IP_RECVORIGDSTADDR : Z := 20.
Definition IP_TRANSPARENT : Z := 19.
Definition IP_FREEBIND : Z := 15.

Definition wrapped (what : string) (err : option string) : option string := (λ e, what +:+ ": " +:+ e) <$> err.

Definition EnableUDPSocketOptions (setsockopt : Z → Z → option string) : option string :=
  wrapped "set IP_RECVORIGDSTADDR" (setsockopt IPPROTO_IP IP_RECVORIGDSTADDR).

Definition EnableTransparentSocketOptions (setsockopt : Z → Z → option string) : option string :=
  match setsockopt IPPROTO_IP IP_TRANSPARENT with
  | Some e => wrapped "set IP_TRANSPARENT" (Some e)
  | None => wrapped "set IP_FREEBIND" (setsockopt IPPROTO_IP IP_FREEBIND)
  end.

(** original_dst_udp_stub.go: the systems that are not Linux *)
Module UDPStub.
Definition not_linux : string := "udp transparent proxy requires linux".
Definition EnableUDPSocketOptions (fd : Z) : option string := Some not_linux.
Definition EnableTransparentSocketOptions (fd : Z) : option string := Some not_linux.
Definition ParseOriginalDstFromOOB (oob : list Z) : result string UDPAddr := Err not_linux.
End UDPStub.

(** what [GetOriginalDst] makes of the 16 bytes of the socket option: the raw
    address and the host *)
Definition original_dst (addr : list Z) : option (list Z * string) :=
  match addr with
  | _ :: _ :: p1 :: p2 :: a :: b :: c :: d :: _ =>
      Some ([1; a; b; c; d; p1; p2]%Z, dotted [a; b; c; d] +:+ ":" +:+ Itoa (wrap_u 16 (256 * p1 + p2)))
  | _ => None
  end.

(** [GetOriginalDst]: the socket option, then the copied connection *)
Definition GetOriginalDst (file_err option_err conn_err : option string) (addr : list Z)
  : result string (list Z * string) :=
  match file_err, option_err, conn_err with
  | Some e, _, _ | None, Some e, _ | None, None, Some e => Err e
  | None, None, None => match original_dst addr with Some r => Ok r | None => Panic IndexOutOfRange end
  end.

