(* ===== verification/Dispatch.v ===== *)
(** * Handling of an accepted connection

    Models the connection loops of cmd/proxy/outbound.go and inbound.go, the
    two [HttpProc] of http.go, domain_policy.go's raw check,
    inbound_target.go and the fields of traffic_log.go: how the first bytes
    choose between an HTTP exchange, TLS interception and a raw tunnel, and
    what the domain policy sees.

    The original destination of the socket, the outcome of dialling, the
    libraries an interception uses ([tls_world]), the map orders and the bytes
    lost with each discarded reader are arguments.  A connection is served by
    [util.GO], which turns a panic into the end of the process. *)

From S2P Require Export ClientHello Socket RouteMatch Intercept.

Local Open Scope string_scope.
Local Open Scope nat_scope.
Local Open Scope list_scope.

(** ** domain_policy.go, inbound_target.go, traffic_log.go *)

Definition outboundDirection : string := DirectionOutbound.
Definition inboundDirection : string := DirectionInbound.

Definition protoTCP : string := "tcp".
Definition protoTLS : string := "tls".
Definition protoHTTP : string := "http".
Definition protoCONNECT : string := "connect".
Definition protoWS : string := "websocket".

(** of the inbound server, which keeps no connections *)
Definition generateKey (localAddr remoteAddr : string) : string := localAddr +:+ "-" +:+ remoteAddr.
Definition inbound_AddConn {C} (conn : C) : option string := None.
Definition inbound_RemoveConn {C} (conn : C) : option string := None.

Definition inboundDialTarget (originalTarget : string) : string :=
  match SplitHostPort originalTarget with
  | Some (_, port) => JoinHostPort "127.0.0.1" port
  | None => originalTarget
  end.

Record trafficMetadata := mk_traffic {
  tm_direction : string; tm_proto : string; tm_domain : string; tm_targetIP : string;
  tm_targetPort : string; tm_remoteAddr : string; tm_localAddr : string
}.

Definition splitHostPort (addr : string) : string * string :=
  match SplitHostPort addr with Some (h, p) => (h, p) | None => (addr, "-") end.

Definition newTrafficMetadata (direction remote local targetAddr : string) : trafficMetadata :=
  let '(host, port) := splitHostPort targetAddr in
  mk_traffic direction protoTCP "-" host port remote local.

Definition withProto (m : trafficMetadata) (proto : string) : trafficMetadata :=
  mk_traffic (tm_direction m) proto (tm_domain m) (tm_targetIP m) (tm_targetPort m) (tm_remoteAddr m) (tm_localAddr m).

Definition withDomain (m : trafficMetadata) (domain : string) : trafficMetadata :=
  if String.eqb domain "" then m
  else mk_traffic (tm_direction m) (tm_proto m) domain (tm_targetIP m) (tm_targetPort m) (tm_remoteAddr m) (tm_localAddr m).

Definition with_port (m : trafficMetadata) (port : Z) : trafficMetadata :=
  if (0 <? port)%Z then
    mk_traffic (tm_direction m) (tm_proto m) (tm_domain m) (tm_targetIP m) (Itoa port) (tm_remoteAddr m) (tm_localAddr m)
  else m.

(** [log]: the line of a connection *)
Definition traffic_line (m : trafficMetadata) : string :=
  "traffic direction=" +:+ tm_direction m +:+ " proto=" +:+ tm_proto m +:+ " domain=" +:+ tm_domain m +:+
  " target_ip=" +:+ tm_targetIP m +:+ " target_port=" +:+ tm_targetPort m +:+ " remote_addr=" +:+ tm_remoteAddr m +:+
  " local_addr=" +:+ tm_localAddr m.

Definition logHTTPRequest (direction remote local targetAddr : string) (r : Request) : trafficMetadata :=
  let meta := withDomain (withProto (newTrafficMetadata direction remote local targetAddr) protoHTTP) (TargetDomain r) in
  let meta := if String.eqb (Method r) "CONNECT" then withProto meta protoCONNECT else meta in
  with_port meta (Port r).

Definition logTCPConnection (direction remote local targetAddr : string) : trafficMetadata :=
  newTrafficMetadata direction remote local targetAddr.

Definition logTLSConnection (direction remote local targetAddr : string) (rd : reader) : trafficMetadata :=
  let meta := newTrafficMetadata direction remote local targetAddr in
  match PeekClientHelloServerName rd with
  | Ok (serverName, true, None) => withDomain (withProto meta protoTLS) serverName
  | _ => meta
  end.

Definition logUpgradedConnection (direction remote local targetAddr : string) (r : Request) (upgradeType : string)
  : trafficMetadata :=
  let meta := withDomain (newTrafficMetadata direction remote local targetAddr) (TargetDomain r) in
  let meta := if EqualFoldASCII upgradeType protoWS then withProto meta protoWS
              else withProto meta upgradeType in
  with_port meta (Port r).

(** ** The servers *)

Record proxy_config := {
  pcfg_policy : option (manager Policy);
  pcfg_serverName : string;
  pcfg_mitm : bool;
  pcfg_agentID : string;
  pcfg_rootCAs : bool;                                       (* additional upstream roots *)
  pcfg_certStore : bool;                                     (* there is one *)
  pcfg_runtime : option (manager RuntimeManager.compiled);
  pcfg_injection : bool                                      (* there is a credential resolver *)
}.

(** What the environment answers during one exchange. *)
Record world := {
  w_dial : string → option string;          (* [Some] error text *)
  w_random : nat;
  w_choices : choices;
  w_tls : tls_world
}.

Section Servers.
Context `{UrlParser} `{HttpGuts} `{GoUnicode} `{Regexp}.
Context {IS CS : Type} `{IdentityService IS} `{CredentialService CS}.
Variable sm_order : RouteMatch.map_order StringMatch.
Variable ep_order : RouteMatch.map_order Endpoint.

(** the decision of the policy manager, [None] without one *)
Definition policy_decision (cfg : proxy_config) (direction domain target : string) : option Decision :=
  (λ m, PolicyManager.Evaluate m direction domain target) <$> pcfg_policy cfg.

(** [enforceDomainPolicy]: the refusal is written to the client *)
Definition enforce (cfg : proxy_config) (direction domain target : string) (c : conns)
  : option proxy_error * conns :=
  match enforceDomainPolicy (policy_decision cfg direction domain target) with
  | None => (None, c)
  | Some text => (Some PDone, set_down_out c (WriteString (down_out c) text).2)
  end.

(** the name a raw connection announces *)
Definition raw_domain (rd : reader) : string :=
  match PeekClientHelloServerName rd with
  | Ok (serverName, true, None) => serverName
  | _ => ""
  end.

Definition enforceRawDomainPolicy (cfg : proxy_config) (direction target : string) (c : conns)
  : option proxy_error * conns :=
  enforce cfg direction (raw_domain (down_in c)) target c.

(** the shared state of the outbound server *)
Record ostate := { o_maps : Maps; o_shared : shared (IS:=IS) (CS:=CS) }.

Definition set_header (r : Request) (h : Header) : Request :=
  {| Method := Method r; Proto := Proto r; ProtoMajor := ProtoMajor r; ProtoMinor := ProtoMinor r;
     ReqURL := ReqURL r; Port := Port r; Authority := Authority r; ReqHeader := h;
     ContentLength := ContentLength r; TransferEncoding := TransferEncoding r; Host := Host r;
     RemoteAddr := RemoteAddr r; LocalAddr := LocalAddr r; RequestURI := RequestURI r; Close := Close r |}.

Definition set_addrs (r : Request) (remote local : string) : Request :=
  {| Method := Method r; Proto := Proto r; ProtoMajor := ProtoMajor r; ProtoMinor := ProtoMinor r;
     ReqURL := ReqURL r; Port := Port r; Authority := Authority r; ReqHeader := ReqHeader r;
     ContentLength := ContentLength r; TransferEncoding := TransferEncoding r; Host := Host r;
     RemoteAddr := remote; LocalAddr := local; RequestURI := RequestURI r; Close := Close r |}.

(** [(o *OutboundServer) HttpProc] *)
Definition OutboundHttpProc (cfg : proxy_config) (w : world) (sources : option (list RuntimeManager.UserSource))
    (s : ostate) (c : conns) (dstHost : string) : option proxy_error * conns * ostate :=
  match ReadRequest (down_in c) with
  | Err e => (Some (PHttp e), c, s)
  | Panic p => (Some (PPanic p), c, s)
  | Ok (req, rd) =>
      let c := set_down_in c rd in
      match enforce cfg outboundDirection (TargetDomain req) dstHost c with
      | (Some e, c) => (Some e, c, s)
      | (None, c) =>
          let '(m, maps) := Match sm_order ep_order (o_maps s) (w_random w) req in
          let st ids creds := {| o_maps := maps; o_shared := set_services (o_shared s) ids creds |} in
          let go dstHost :=
            match Injection.applyCredentialInjection (pcfg_injection cfg) (pcfg_agentID cfg) (TargetDomain req)
                    sources (ReqHeader req) (o_ids (o_shared s)) (o_creds (o_shared s)) with
            | (Err _, _, ids, creds) => (Some PDone, c, st ids creds)
            | (Panic p, _, ids, creds) => (Some (PPanic p), c, st ids creds)
            | (Ok _, h, ids, creds) =>
                let '(e, c) := proxyHTTPRequest c (w_dial w dstHost) (set_header req h)
                                 (pcfg_serverName cfg) (w_choices w) in
                (e, c, st ids creds)
            end in
          match m with
          | Ok (Some endpoint) => go (Ip endpoint +:+ ":" +:+ EpPort endpoint)
          | Ok None => (Some (PPanic NilDeref), c, {| o_maps := maps; o_shared := o_shared s |})
          | Panic p => (Some (PPanic p), c, {| o_maps := maps; o_shared := o_shared s |})
          | Err _ => go dstHost
          end
      end
  end.

(** [(inProxyServer) HttpProc2] *)
Definition InboundHttpProc2 (cfg : proxy_config) (w : world) (remote local : string) (c : conns)
    (dstHost dialTarget : string) : option proxy_error * conns :=
  match ReadRequest (down_in c) with
  | Err e => (Some (PHttp e), c)
  | Panic p => (Some (PPanic p), c)
  | Ok (req, rd) =>
      let c := set_down_in c rd in
      let req := set_addrs req remote local in
      match enforce cfg inboundDirection (TargetDomain req) dstHost c with
      | (Some e, c) => (Some e, c)
      | (None, c) => proxyHTTPRequest c (w_dial w dialTarget) req (pcfg_serverName cfg) (w_choices w)
      end
  end.

Definition InboundHttpProc (cfg : proxy_config) (w : world) (remote local : string) (c : conns) (dstHost : string)
  : option proxy_error * conns :=
  InboundHttpProc2 cfg w remote local c dstHost dstHost.

Definition proxyTLSPassthrough (w : world) (c : conns) (dstHost : string) : option proxy_error * conns :=
  match w_dial w dstHost with
  | Some _ => (Some PDone, c)
  | None => proxyRawConnection c (tunnel_first (w_choices w))
  end.

Definition shouldMITM (cfg : proxy_config) (serverName dstHost : string) : bool :=
  if negb (pcfg_mitm cfg) || negb (pcfg_certStore cfg) then false else
  match pcfg_runtime cfg with
  | None => false
  | Some m =>
      let host := Injection.normalizeHost serverName in
      let host := if String.eqb host "" then Injection.extractHost dstHost else host in
      RuntimeManager.MITMEnabledForHost m host
  end.

(** one turn of a loop: go on with the next request, close, or end the process *)
Inductive turn := Continue | Stop | Crash (p : panic).

(** what the error of an exchange means for the loop; [util.GO] recovers a
    panic and calls [log.Panic] *)
Definition turn_of (e : option proxy_error) : turn :=
  match e with
  | None => Continue
  | Some (PPanic p) => Crash p
  | Some _ => Stop
  end.

Definition inbound_http (header : string) : bool :=
  HasPrefix header "GET" || HasPrefix header "POST" || HasPrefix header "HEAD" || HasPrefix header "CONNECT" ||
  HasPrefix header "OPTIONS" || HasPrefix header "PUT" || HasPrefix header "DELETE".

Definition dst_or (dstHost fallback : string) : string := if String.eqb dstHost "" then fallback else dstHost.

(** the body of the loop in [(o *OutboundServer) proc] *)
Definition outbound_turn (cfg : proxy_config) (w : world) (sources : option (list RuntimeManager.UserSource))
    (s : ostate) (c : conns) (dstHost : string) : turn * conns * ostate :=
  match Peek (down_in c) 5 with
  | (_, Some _) => (Stop, c, s)
  | (peek, None) =>
      if isHTTPRequestPrefix (to_string peek) then
        let '(e, c, s) := OutboundHttpProc cfg w sources s c (dst_or dstHost "192.168.0.105:28080") in
        (turn_of e, c, s)
      else
        let dstHost := dst_or dstHost "192.168.0.105:28081" in
        let mitm := match PeekClientHelloServerName (down_in c) with
                    | Ok (serverName, true, None) =>
                        if shouldMITM cfg serverName dstHost then Some serverName else None
                    | _ => None
                    end in
        match mitm with
        | Some serverName =>
            match enforce cfg outboundDirection (Injection.normalizeHost serverName) dstHost c with
            | (Some _, c) => (Stop, c, s)
            | (None, c) =>
                let '(e, c, sh) := mitmTLSProc (pcfg_injection cfg) (pcfg_agentID cfg) (pcfg_rootCAs cfg) sources
                                     (w_tls w) (o_shared s) c dstHost serverName in
                let s := {| o_maps := o_maps s; o_shared := sh |} in
                match e with
                | None => (Stop, c, s)
                | Some (InterceptPanic p) => (Crash p, c, s)
                | Some _ => (Stop, (proxyTLSPassthrough w c dstHost).2, s)
                end
            end
        | None =>
            match enforceRawDomainPolicy cfg outboundDirection dstHost c with
            | (Some _, c) => (Stop, c, s)
            | (None, c) => (Stop, (proxyTLSPassthrough w c dstHost).2, s)
            end
        end
  end.

(** the body of the loop in [(inProxyServer) proc] *)
Definition inbound_turn (cfg : proxy_config) (w : world) (remote local : string) (c : conns)
    (dstHost dialTarget : string) : turn * conns :=
  match Peek (down_in c) 5 with
  | (_, Some _) => (Stop, c)
  | (peek, None) =>
      if inbound_http (to_string peek) then
        let dialTarget := if String.eqb dstHost "" then "192.168.0.105:28080" else dialTarget in
        let '(e, c) := InboundHttpProc2 cfg w remote local c (dst_or dstHost "192.168.0.105:28080") dialTarget in
        (turn_of e, c)
      else
        let dialTarget := if String.eqb dstHost "" then "192.168.0.105:28081" else dialTarget in
        match enforceRawDomainPolicy cfg inboundDirection (dst_or dstHost "192.168.0.105:28081") c with
        | (Some _, c) => (Stop, c)
        | (None, c) => (Stop, (proxyTLSPassthrough w c dialTarget).2)
        end
  end.

(** The loop makes a new reader on each turn: [lost] is what the previous one
    had taken off the connection and not used.  A new upstream connection is
    opened on each turn ([next_up]). *)
Definition fresh_upstream (c : conns) (up : reader * writer) : conns :=
  mk_conns (down_in c) (down_out c) up.1 up.2 false (down_closed c).

(** how a connection ends; [None]: not within [fuel] turns *)
Fixpoint outbound_loop (fuel : nat) (cfg : proxy_config) (ws : nat → world) (lost : nat → nat)
    (next_up : nat → reader * writer) (sources : option (list RuntimeManager.UserSource))
    (s : ostate) (c : conns) (dstHost : string) : option turn * conns * ostate :=
  match fuel with
  | O => (None, c, s)
  | S fuel =>
      match outbound_turn cfg (ws fuel) sources s (fresh_upstream c (next_up fuel)) dstHost with
      | (Continue, c, s) =>
          outbound_loop fuel cfg ws lost next_up sources s
            (set_down_in c (consume (lost fuel) (down_in c))) (dst_or dstHost "192.168.0.105:28080")
      | (t, c, s) => (Some t, c, s)
      end
  end.

Fixpoint inbound_loop (fuel : nat) (cfg : proxy_config) (ws : nat → world) (lost : nat → nat)
    (next_up : nat → reader * writer) (remote local : string) (c : conns) (dstHost dialTarget : string)
  : option turn * conns :=
  match fuel with
  | O => (None, c)
  | S fuel =>
      match inbound_turn cfg (ws fuel) remote local (fresh_upstream c (next_up fuel)) dstHost dialTarget with
      | (Continue, c) =>
          inbound_loop fuel cfg ws lost next_up remote local (set_down_in c (consume (lost fuel) (down_in c)))
            (dst_or dstHost "192.168.0.105:28080")
            (if String.eqb dstHost "" then "192.168.0.105:28080" else dialTarget)
      | (t, c) => (Some t, c)
      end
  end.

(** the connection is closed at the end, unless the process is gone *)
Definition close_client (e : option turn) (c : conns) : conns :=
  match e with
  | Some Stop => mk_conns (down_in c) (down_out c) (up_in c) (up_out c) (up_closed c) true
  | _ => c
  end.

(** an accepted connection, with what the socket says of its original
    destination; an outbound connection may not be a TCP connection ([None]) *)
Definition outbound_serve (fuel : nat) (cfg : proxy_config) (ws : nat → world) (lost : nat → nat)
    (next_up : nat → reader * writer) (sources : option (list RuntimeManager.UserSource))
    (s : ostate) (c : conns) (original : option (result string (list Z * string))) : option turn * conns * ostate :=
  match original with
  | Some (Panic p) => (Some (Crash p), c, s)
  | _ =>
      let dstHost := match original with Some (Ok (_, host)) => host | _ => "" end in
      let '(e, c, s) := outbound_loop fuel cfg ws lost next_up sources s c dstHost in
      (e, close_client e c, s)
  end.

Definition inbound_serve (fuel : nat) (cfg : proxy_config) (ws : nat → world) (lost : nat → nat)
    (next_up : nat → reader * writer) (remote local : string) (c : conns)
    (original : result string (list Z * string)) : option turn * conns :=
  match original with
  | Panic p => (Some (Crash p), c)
  | _ =>
      let '(dstHost, dialTarget) := match original with Ok (_, host) => (host, inboundDialTarget host) | _ => ("", "") end in
      let '(e, c) := inbound_loop fuel cfg ws lost next_up remote local c dstHost dialTarget in
      (e, close_client e c)
  end.

(** ** What reaches the upstream *)

Lemma enforce_up cfg direction domain target c e c' :
  enforce cfg direction domain target c = (e, c') →
  up_out c' = up_out c ∧ up_in c' = up_in c ∧ down_in c' = down_in c ∧
  match e with
  | None => c' = c ∧ (policy_decision cfg direction domain target = None ∨
      ∃ d, policy_decision cfg direction domain target = Some d ∧ Allowed d = true)
  | Some _ => ∃ d, policy_decision cfg direction domain target = Some d ∧ Allowed d = false ∧
      down_out c' = (WriteString (down_out c) (writeDomainPolicyForbidden (Reason d))).2
  end.
Proof.
  unfold enforce, enforceDomainPolicy. destruct (policy_decision _ _ _ _) as [d|].
  - destruct (Allowed d) eqn:Ed; intros ?; simplify_eq; split_and!; try done; naive_solver.
  - intros ?; simplify_eq. split_and!; try done. by left.
Qed.

(** the policy lets a connection with this name through *)
Definition permitted (cfg : proxy_config) (direction domain target : string) : Prop :=
  policy_decision cfg direction domain target = None ∨
  ∃ d, policy_decision cfg direction domain target = Some d ∧ Allowed d = true.

Lemma OutboundHttpProc_up cfg w sources s c dstHost e c' s' :
  OutboundHttpProc cfg w sources s c dstHost = (e, c', s') →
  up_out c' = up_out c ∨
  ∃ req rd, ReadRequest (down_in c) = Ok (req, rd) ∧ permitted cfg outboundDirection (TargetDomain req) dstHost.
Proof.
  unfold OutboundHttpProc. destruct (ReadRequest (down_in c)) as [[req rd]|?|?]; [|intros ?; simplify_eq; by left..].
  destruct (enforce cfg outboundDirection (TargetDomain req) dstHost (set_down_in c rd)) as [[e1|] c1] eqn:He;
    apply enforce_up in He as (Hup & _ & _ & Hp).
  - intros ?; simplify_eq. by left.
  - intros _. right. exists req, rd. split; [done|]. by destruct Hp.
Qed.

(** an exchange does not touch what interceptions have sent *)
Lemma OutboundHttpProc_relayed cfg w sources s c dstHost :
  o_relayed (o_shared (OutboundHttpProc cfg w sources s c dstHost).2) = o_relayed (o_shared s).
Proof. unfold OutboundHttpProc. repeat case_match; by simplify_eq/=. Qed.

Lemma InboundHttpProc2_up cfg w remote local c dstHost dialTarget e c' :
  InboundHttpProc2 cfg w remote local c dstHost dialTarget = (e, c') →
  up_out c' = up_out c ∨
  ∃ req rd, ReadRequest (down_in c) = Ok (req, rd) ∧ permitted cfg inboundDirection (TargetDomain req) dstHost.
Proof.
  unfold InboundHttpProc2. destruct (ReadRequest (down_in c)) as [[req rd]|?|?]; [|intros ?; simplify_eq; by left..].
  destruct (enforce cfg inboundDirection (TargetDomain (set_addrs req remote local)) dstHost (set_down_in c rd)) as [[e1|] c1] eqn:He;
    apply enforce_up in He as (Hup & _ & _ & Hp).
  - intros ?; simplify_eq. by left.
  - intros _. right. exists req, rd. split; [done|]. by destruct Hp.
Qed.

Lemma OutboundHttpProc_certs cfg w sources s c dstHost :
  o_certs (o_shared (OutboundHttpProc cfg w sources s c dstHost).2) = o_certs (o_shared s).
Proof. unfold OutboundHttpProc. repeat case_match; by simplify_eq/=. Qed.

(** only the raw turns intercept: what one sends was asked for by the runtime
    configuration, and the CA in force stays *)
Lemma outbound_turn_relays cfg w sources s c dstHost t c' s' :
  buffered_ok (w_tls w) c → outbound_turn cfg w sources s c dstHost = (t, c', s') →
  primary (o_certs (o_shared s')) = primary (o_certs (o_shared s)) ∧
  ∃ sent, o_relayed (o_shared s') = o_relayed (o_shared s) ++ sent ∧
    (sent ≠ [] → let dst := dst_or dstHost "192.168.0.105:28081" in
       shouldMITM cfg (raw_domain (down_in c)) dst = true ∧
       ∃ name, Forall (relayed_for (pcfg_rootCAs cfg) dst name) sent).
Proof.
  intros Hb. unfold outbound_turn.
  assert (primary (o_certs (o_shared s)) = primary (o_certs (o_shared s)) ∧
    ∃ sent, o_relayed (o_shared s) = o_relayed (o_shared s) ++ sent ∧ (sent ≠ [] →
      let dst := dst_or dstHost "192.168.0.105:28081" in shouldMITM cfg (raw_domain (down_in c)) dst = true ∧
      ∃ name, Forall (relayed_for (pcfg_rootCAs cfg) dst name) sent)) as Hsame
    by (split; [done|exists []; by rewrite app_nil_r]).
  destruct (Peek (down_in c) 5) as [peek [e|]]; [by intros [= _ _ <-]|].
  destruct (isHTTPRequestPrefix _).
  { pose proof (OutboundHttpProc_relayed cfg w sources s c (dst_or dstHost "192.168.0.105:28080")) as Hl.
    pose proof (OutboundHttpProc_certs cfg w sources s c (dst_or dstHost "192.168.0.105:28080")) as Hc.
    destruct (OutboundHttpProc _ _ _ _ _ _) as [[e c1] s1]. cbn [snd] in Hl, Hc. intros [= _ _ <-].
    by rewrite Hl, Hc. }
  cbv zeta. set (d := dst_or dstHost "192.168.0.105:28081") in *.
  set (mitm := match PeekClientHelloServerName (down_in c) with Ok _ => _ | _ => _ end).
  assert (∀ name, mitm = Some name → name = raw_domain (down_in c) ∧ shouldMITM cfg name d = true) as Hname.
  { unfold mitm, raw_domain. intros name. repeat case_match; naive_solver. }
  destruct mitm as [name|].
  - destruct (Hname name eq_refl) as [-> Hm].
    destruct (enforce _ _ _ _ _) as [[e|] c1] eqn:He; apply enforce_up in He as (_ & _ & Hdi & Hd); [by intros [= _ _ <-]|].
    destruct Hd as [-> _].
    destruct (mitmTLSProc _ _ _ _ _ _ _ _ _) as [[e c2] sh] eqn:Et.
    apply mitmTLSProc_inv in Et as (Hs & Hp & Hcase); [|done].
    assert (∃ sent, o_relayed sh = o_relayed (o_shared s) ++ sent ∧
      (sent ≠ [] → ∃ nm, Forall (relayed_for (pcfg_rootCAs cfg) d nm) sent)) as (sent & Hr & Hf).
    { destruct Hcase as [(_ & Hr & _)|(hello & rf & go & leaf & io & ts & s1 & _ & _ & Hr & _ & Hss & _)].
      - exists []. by rewrite Hr, app_nil_r.
      - apply serve_session_spec in Hss as [_ (sent & Hsent & Hf)]. exists sent. rewrite Hsent, Hr. eauto. }
    intros Heq. assert (o_shared s' = sh) as -> by (destruct e as [[]|]; by injection Heq as _ _ <-).
    split; [done|]. exists sent. split; [done|]. intros Hne. split; [done|]. by apply Hf.
  - destruct (enforceRawDomainPolicy _ _ _ _) as [[e|] c1]; by intros [= _ _ <-].
Qed.

Lemma passthrough_up w c dstHost :
  up_out (proxyTLSPassthrough w c dstHost).2 = up_out c ∨ w_dial w dstHost = None.
Proof. unfold proxyTLSPassthrough. destruct (w_dial w dstHost); auto. Qed.

(** ** The end of a connection *)

Definition client_left (c : conns) : nat := length (rd_data (down_in c)).

Lemma enforce_left cfg direction domain target c e c' :
  enforce cfg direction domain target c = (e, c') → client_left c' = client_left c.
Proof. intros (_ & _ & Hd & _)%enforce_up. unfold client_left. by rewrite Hd. Qed.

Lemma OutboundHttpProc_left cfg w sources s c dstHost c' s' :
  OutboundHttpProc cfg w sources s c dstHost = (None, c', s') → client_left c' < client_left c.
Proof.
  unfold OutboundHttpProc. destruct (ReadRequest (down_in c)) as [[req rd]|?|?] eqn:Hr; [|done..].
  apply ReadRequest_takes in Hr. destruct (enforce _ _ _ _ _) as [[e|] c1] eqn:He; apply enforce_left in He; [done|].
  unfold client_left in He. cbn [set_down_in down_in] in He. destruct (Match _ _ _ _ _) as [m maps]. cbv zeta.
  destruct m as [[ep|]|e|p]; [|done| |done].
  all: destruct (Injection.applyCredentialInjection _ _ _ _ _ _ _) as [[[r h] ids] creds]; destruct r; [|done..];
    match goal with |- context [proxyHTTPRequest ?c1 ?d ?rq ?n ?ch] =>
      pose proof (proxyHTTPRequest_left c1 d rq n ch) as Hl; destruct (proxyHTTPRequest c1 d rq n ch) as [e0 c2] end;
    intros ?; simplify_eq; unfold client_left; cbn in Hl; lia.
Qed.

Lemma outbound_turn_left cfg w sources s c dstHost c' s' :
  outbound_turn cfg w sources s c dstHost = (Continue, c', s') → client_left c' < client_left c.
Proof.
  unfold outbound_turn. destruct (Peek _ _) as [peek [e|]]; [done|]. destruct (isHTTPRequestPrefix _).
  - destruct (OutboundHttpProc _ _ _ _ _ _) as [[[e|] c1] s1] eqn:Ho; [by destruct e|].
    intros [= <- <-]. by eapply OutboundHttpProc_left.
  - cbv zeta. destruct (match PeekClientHelloServerName (down_in c) with Ok _ => _ | _ => _ end).
    + destruct (enforce _ _ _ _ _) as [[e|] c1]; [done|].
      by destruct (mitmTLSProc _ _ _ _ _ _ _ _ _) as [[[[]|] c2] sh].
    + by destruct (enforceRawDomainPolicy _ _ _ _) as [[e|] c1].
Qed.

Lemma inbound_turn_left cfg w remote local c dstHost dialTarget c' :
  inbound_turn cfg w remote local c dstHost dialTarget = (Continue, c') → client_left c' < client_left c.
Proof.
  unfold inbound_turn. destruct (Peek _ _) as [peek [e|]]; [done|]. destruct (inbound_http _).
  - destruct (InboundHttpProc2 _ _ _ _ _ _ _) as [[e|] c1] eqn:Ho; [by destruct e|]. intros [= <-]. revert Ho.
    unfold InboundHttpProc2. destruct (ReadRequest (down_in c)) as [[req rd]|?|?] eqn:Hr; [|done..].
    apply ReadRequest_takes in Hr. cbv zeta. destruct (enforce _ _ _ _ _) as [[e|] c2] eqn:He; apply enforce_left in He; [done|].
    unfold client_left in *. cbn [set_down_in down_in] in He. intros Ho.
    match type of Ho with ?x = _ => assert (x.2 = c1) as <- by (by rewrite Ho) end.
    eapply Nat.le_lt_trans; [apply proxyHTTPRequest_left|]. lia.
  - by destruct (enforceRawDomainPolicy _ _ _ _) as [[e|] c1].
Qed.

(** a loop ends before its fuel does: each turn that goes on has read a byte *)
Lemma outbound_loop_ends fuel cfg ws lost next_up sources s c dstHost : client_left c < fuel →
  ∃ t, (outbound_loop fuel cfg ws lost next_up sources s c dstHost).1.1 = Some t ∧ t ≠ Continue.
Proof.
  revert s c dstHost. induction fuel as [|fuel IH]; intros s c dstHost Hl; [lia|]. cbn [outbound_loop].
  destruct (outbound_turn _ _ _ _ _ _) as [[t c1] s1] eqn:Ht. destruct t; [|by eexists..].
  apply outbound_turn_left in Ht. apply IH. unfold client_left in *. cbn in *. rewrite length_drop. lia.
Qed.

Lemma inbound_loop_ends fuel cfg ws lost next_up remote local c dstHost dialTarget : client_left c < fuel →
  ∃ t, (inbound_loop fuel cfg ws lost next_up remote local c dstHost dialTarget).1 = Some t ∧ t ≠ Continue.
Proof.
  revert c dstHost dialTarget. induction fuel as [|fuel IH]; intros c dstHost dialTarget Hl; [lia|]. cbn [inbound_loop].
  destruct (inbound_turn _ _ _ _ _ _ _) as [t c1] eqn:Ht. destruct t; [|by eexists..].
  apply inbound_turn_left in Ht. apply IH. unfold client_left in *. cbn in *. rewrite length_drop. lia.
Qed.
End Servers.

(** ** Properties *)

(** C13: Serving a connection ends.  However requests, responses, policy and
    upstreams turn out, a client that sends [n] bytes makes at most [n] further
    turns of either loop; the loop is left for good, and then the connection to
    the client is closed, unless a panic ends the whole process. *)
Theorem connection_ends `{UrlParser} `{HttpGuts} `{GoUnicode} `{Regexp} {IS CS} `{IdentityService IS} `{CredentialService CS}
    sm_order ep_order cfg ws lost next_up sources (s : ostate (IS:=IS) (CS:=CS)) c remote local outbound_original inbound_original fuel :
  client_left c < fuel →
  let '(e1, c1, s1) := outbound_serve sm_order ep_order fuel cfg ws lost next_up sources s c outbound_original in
  let '(e2, c2) := inbound_serve fuel cfg ws lost next_up remote local c inbound_original in
  ((e1 = Some Stop ∧ down_closed c1 = true) ∨ ∃ p, e1 = Some (Crash p)) ∧
  ((e2 = Some Stop ∧ down_closed c2 = true) ∨ ∃ p, e2 = Some (Crash p)).
Proof.
  intros Hl. unfold outbound_serve, inbound_serve.
  assert (∀ t c, t ≠ Continue →
    (Some t = Some Stop ∧ down_closed (close_client (Some t) c) = true) ∨ ∃ p, Some t = Some (Crash p)) as Hend.
  { intros [] c' Ht; [done|by left|right; by eexists]. }
  assert (∀ d, let '(e, c', s') := outbound_loop sm_order ep_order fuel cfg ws lost next_up sources s c d in
    (e = Some Stop ∧ down_closed (close_client e c') = true) ∨ ∃ p, e = Some (Crash p)) as H1'.
  { intros d. pose proof (outbound_loop_ends sm_order ep_order fuel cfg ws lost next_up sources s c d Hl) as (t & He & Hne).
    destruct (outbound_loop _ _ _ _ _ _ _ _ _ _ _) as [[e c'] s']. cbn in He. subst e. by apply Hend. }
  assert (∀ d t, let '(e, c') := inbound_loop fuel cfg ws lost next_up remote local c d t in
    (e = Some Stop ∧ down_closed (close_client e c') = true) ∨ ∃ p, e = Some (Crash p)) as H2'.
  { intros d dt. pose proof (inbound_loop_ends fuel cfg ws lost next_up remote local c d dt Hl) as (t & He & Hne).
    destruct (inbound_loop _ _ _ _ _ _ _ _ _ _) as [e c']. cbn in He. subst e. by apply Hend. }
  destruct outbound_original as [[[? d]|?|p]|]; [specialize (H1' d)|specialize (H1' "")|clear H1'|specialize (H1' "")];
    try destruct (outbound_loop _ _ _ _ _ _ _ _ _ _ _) as [[e1 c1] s1];
    (destruct inbound_original as [[? d']|?|q]; [specialize (H2' d' (inboundDialTarget d'))|specialize (H2' "" "")|clear H2'];
     [destruct (inbound_loop _ _ _ _ _ _ _ _ _ _) as [e2 c2]..|]); split; try done; right; by eexists.
Qed.

(** Nothing is forwarded around the policy: if a turn of the outbound loop
    puts a byte on the upstream connection, or an interception it makes sends
    anything, the domain policy permitted the connection for the original
    destination under the name the client gave, the target domain of its request
    or the server name of its ClientHello. *)
Theorem outbound_respects_policy `{UrlParser} `{HttpGuts} `{GoUnicode} `{Regexp} {IS CS}
    `{IdentityService IS} `{CredentialService CS} sm_order ep_order cfg w sources (s : ostate (IS:=IS) (CS:=CS)) c dstHost t c' s' :
  outbound_turn sm_order ep_order cfg w sources s c dstHost = (t, c', s') →
  up_out c' ≠ up_out c ∨ o_relayed (o_shared s') ≠ o_relayed (o_shared s) →
  (∃ req rd, ReadRequest (down_in c) = Ok (req, rd) ∧
     permitted cfg "outbound" (TargetDomain req) (dst_or dstHost "192.168.0.105:28080")) ∨
  (∃ domain, (domain = raw_domain (down_in c) ∨ domain = Injection.normalizeHost (raw_domain (down_in c))) ∧
     permitted cfg "outbound" domain (dst_or dstHost "192.168.0.105:28081")).
Proof.
  unfold outbound_turn. destruct (Peek (down_in c) 5) as [peek [e|]]; [intros ? []; by simplify_eq|].
  destruct (isHTTPRequestPrefix _).
  { pose proof (OutboundHttpProc_relayed sm_order ep_order cfg w sources s c (dst_or dstHost "192.168.0.105:28080")) as Hl.
    destruct (OutboundHttpProc _ _ _ _ _ _ _ _) as [[e c1] s1] eqn:Hp. apply OutboundHttpProc_up in Hp.
    intros Ht Hne. left. destruct Hp as [Hp|Hp]; [|exact Hp]. simplify_eq/=. by destruct Hne. }
  set (d := dst_or dstHost "192.168.0.105:28081").
  set (mitm := match PeekClientHelloServerName (down_in c) with Ok _ => _ | _ => _ end).
  assert (∀ name, mitm = Some name → name = raw_domain (down_in c)) as Hname.
  { unfold mitm, raw_domain. intros name. repeat case_match; naive_solver. }
  destruct mitm as [name|].
  - specialize (Hname name eq_refl). subst name.
    destruct (enforce _ _ _ _ _) as [[e|] c1] eqn:He; apply enforce_up in He as (Hup & _ & _ & Hd).
    + intros ? []; by simplify_eq.
    + intros _ _. right. eexists. split; [by right|]. by destruct Hd.
  - unfold enforceRawDomainPolicy. destruct (enforce _ _ _ _ _) as [[e|] c1] eqn:He; apply enforce_up in He as (Hup & _ & _ & Hd).
    + intros ? []; by simplify_eq.
    + intros _ _. right. eexists. split; [by left|]. by destruct Hd.
Qed.

(** The same for the inbound loop, whose policy has its own direction. *)
Theorem inbound_respects_policy `{UrlParser} `{HttpGuts} `{GoUnicode} cfg w remote local c dstHost dialTarget t c' :
  inbound_turn cfg w remote local c dstHost dialTarget = (t, c') → up_out c' ≠ up_out c →
  (∃ req rd, ReadRequest (down_in c) = Ok (req, rd) ∧
     permitted cfg "inbound" (TargetDomain req) (dst_or dstHost "192.168.0.105:28080")) ∨
  permitted cfg "inbound" (raw_domain (down_in c)) (dst_or dstHost "192.168.0.105:28081").
Proof.
  unfold inbound_turn. destruct (Peek (down_in c) 5) as [peek [e|]]; [intros ? []; by simplify_eq|].
  destruct (inbound_http _).
  { destruct (InboundHttpProc2 _ _ _ _ _ _ _) as [e c1] eqn:Hp. apply InboundHttpProc2_up in Hp.
    intros Ht Hne. left. destruct Hp as [Hp|Hp]; [|exact Hp]. by simplify_eq/=. }
  unfold enforceRawDomainPolicy. destruct (enforce _ _ _ _ _) as [[e|] c1] eqn:He; apply enforce_up in He as (Hup & _ & _ & Hd).
  - intros ? []; by simplify_eq.
  - intros _ _. right. by destruct Hd.
Qed.

Module DispatchExample.
Definition ids : IdentityService unit := λ s _ _, (Ok "", s).
Definition creds : CredentialService unit := λ s _ _ _, (Ok None, s).
Definition cfg : proxy_config := {| pcfg_policy := None; pcfg_serverName := "lhotse"; pcfg_mitm := false;
  pcfg_agentID := ""; pcfg_rootCAs := false; pcfg_certStore := false; pcfg_runtime := None; pcfg_injection := false |}.
Definition w : world := {| w_dial := λ _, None; w_random := 0; w_tls := InterceptExample.tw;
  w_choices := Build_choices map_to_list 0 true |}.
Definition client (text : string) : conns :=
  mk_conns (mk_reader (of_string text) EOF 18437) (mk_writer [] None)
    (mk_reader (of_string ("HTTP/1.1 200 OK" +:+ CRLF +:+ "Content-Length: 2" +:+ CRLF +:+ CRLF +:+ "hi")) EOF 4096)
    (mk_writer [] None) false false.
Definition s0 : ostate := {| o_maps := NewMaps; o_shared := mk_shared tt tt (NewCertStore "") [] |}.
Definition run (text : string) :=
  outbound_turn (H:=RouteExample.urls) (H0:=Concrete.guts) (H1:=RouteExample.unicode) (H2:=RouteExample.regexp)
    (H3:=ids) (H4:=creds) RouteExample.order RouteExample.order cfg w None s0 (client text) "10.0.0.1:80".
End DispatchExample.

Lemma outbound_respects_policy_witness :
  let text := "GET / HTTP/1.1" +:+ CRLF +:+ "Host: a" +:+ CRLF +:+ CRLF in
  ∃ t c' s', DispatchExample.run text = (t, c', s') ∧
  ((∃ req rd, ReadRequest (H:=RouteExample.urls) (H0:=Concrete.guts) (down_in (DispatchExample.client text)) = Ok (req, rd) ∧
     permitted (H1:=RouteExample.unicode) DispatchExample.cfg "outbound" (TargetDomain req) "10.0.0.1:80") ∨
  (∃ domain, (domain = raw_domain (down_in (DispatchExample.client text)) ∨
              domain = Injection.normalizeHost (H:=RouteExample.unicode) (raw_domain (down_in (DispatchExample.client text)))) ∧
     permitted (H1:=RouteExample.unicode) DispatchExample.cfg "outbound" domain "10.0.0.1:80")).
Proof.
  intros text. destruct (DispatchExample.run text) as [[t c'] s'] eqn:E. exists t, c', s'. split; [reflexivity|].
  apply (outbound_respects_policy (H:=RouteExample.urls) (H0:=Concrete.guts) (H1:=RouteExample.unicode)
    (H2:=RouteExample.regexp) (H3:=DispatchExample.ids) (H4:=DispatchExample.creds)
    RouteExample.order RouteExample.order DispatchExample.cfg DispatchExample.w None DispatchExample.s0
    (DispatchExample.client text) "10.0.0.1:80" t c' s' E).
  left. intros Hup. assert (length (w_out (up_out (DispatchExample.run text).1.2)) = 27) as Hl by (vm_compute; reflexivity).
  rewrite E in Hl. simpl in Hl. rewrite Hup in Hl. discriminate Hl.
Defined.

(** After a session of an interception the fallback has the bytes the reader had
    buffered, and sends them to the destination again. *)
Lemma closed_fallback_replays w c b dstHost : w_dial w dstHost = None → w_left (up_out c) = None →
  up_out (proxyTLSPassthrough w (close_down b c) dstHost).2 = written (up_out c) (take b (rd_data (down_in c))).
Proof.
  intros Hd Hw. unfold proxyTLSPassthrough, proxyRawConnection, proxyTunnel, Copy. rewrite Hd.
  cbn [close_down up_out down_in rd_data]. rewrite Write_unlimited by done. cbn [rd_fail].
  destruct (Write _ _) as [[e|] w']; cbn; by repeat case_match; simplify_eq/=.
Qed.

Lemma connection_ends_witness :
  let c := DispatchExample.client ("GET / HTTP/1.1" +:+ CRLF +:+ "Host: a" +:+ CRLF +:+ CRLF) in
  let '(e, c', s') := outbound_serve (H:=RouteExample.urls) (H0:=Concrete.guts) (H1:=RouteExample.unicode)
    (H2:=RouteExample.regexp) (H3:=DispatchExample.ids) (H4:=DispatchExample.creds) RouteExample.order RouteExample.order
    100 DispatchExample.cfg (λ _, DispatchExample.w) (λ _, 0) (λ _, (mk_reader [] EOF 4096, mk_writer [] None)) None
    DispatchExample.s0 c (Some (Ok ([], "10.0.0.1:80"))) in
  (e = Some Stop ∧ down_closed c' = true) ∨ ∃ p, e = Some (Crash p).
Proof.
  intros c. pose proof (connection_ends (H:=RouteExample.urls) (H0:=Concrete.guts) (H1:=RouteExample.unicode)
    (H2:=RouteExample.regexp) (H3:=DispatchExample.ids) (H4:=DispatchExample.creds) RouteExample.order RouteExample.order
    DispatchExample.cfg (λ _, DispatchExample.w) (λ _, 0) (λ _, (mk_reader [] EOF 4096, mk_writer [] None)) None
    DispatchExample.s0 c "" "" (Some (Ok ([], "10.0.0.1:80"))) (Err "no socket") 100) as Hend.
  destruct (outbound_serve _ _ _ _ _ _ _ _ _ _ _) as [[e c'] s'].
  assert (client_left c < 100) as Hl by (apply (bool_decide_unpack _); vm_compute; reflexivity).
  specialize (Hend Hl). destruct (inbound_serve _ _ _ _ _ _ _ _ _) as [e2 c2]. apply Hend.
Defined.
