(* ===== verification/Iptables.v ===== *)
(** * The builder of iptables rules

    Models iptables/pkg/builder/iptables_builder_impl.go with the constants,
    commands and configuration it uses (iptables/pkg/constants, log/command.go,
    config/types.go, config/validation.go, config/config.go), capture/util.go
    and capture/format.go.

    The two rule lists of a builder only grow.  A rule whose trace is logged
    is given as literals with fewer than eight words from [-j] on, so the
    [append] to a prefix of its parameters always copies. *)

From Stdlib Require Import Ascii.
From S2P Require Export GoNet.

Local Open Scope string_scope.
Local Open Scope nat_scope.
Local Open Scope list_scope.

(** ** Constants *)

Definition MANGLE : string := "mangle".
Definition NAT : string := "nat".
Definition FILTER : string := "filter".
Definition RAW : string := "raw".

Definition INPUT : string := "INPUT".
Definition OUTPUT : string := "OUTPUT".
Definition FORWARD : string := "FORWARD".
Definition PREROUTING : string := "PREROUTING".
Definition POSTROUTING : string := "POSTROUTING".
Definition BuiltInChainsMap : gset string := {[INPUT; OUTPUT; FORWARD; PREROUTING; POSTROUTING]}.

Definition TCP : string := "tcp".
Definition TPROXY : string := "TPROXY".
Definition RETURN : string := "RETURN".
Definition ACCEPT : string := "ACCEPT".
Definition REDIRECT : string := "REDIRECT".
Definition MARK : string := "MARK".
Definition CT : string := "CT".
Definition DROP : string := "DROP".
Definition IPVersionSpecific : string := "PLACEHOLDER_IP_VERSION_SPECIFIC".

Definition ISTIOOUTPUT : string := "ISTIO_OUTPUT".
Definition ISTIOINBOUND : string := "ISTIO_INBOUND".
Definition ISTIODIVERT : string := "ISTIO_DIVERT".
Definition ISTIOTPROXY : string := "ISTIO_TPROXY".
Definition ISTIOREDIRECT : string := "ISTIO_REDIRECT".
Definition ISTIOINREDIRECT : string := "ISTIO_IN_REDIRECT".

Definition DefaultIptablesProbePort : string := "15002".
Definition CommandConfigureRoutes : string := "configure-routes".
Definition ValidationContainerName : string := "istio-validation".
Definition DisableRedirectionOnLocalLoopback : string := "DISABLE_REDIRECTION_ON_LOCAL_LOOPBACK".
Definition EnvoyUser : string := "ENVOY_USER".
Definition SoOriginalDst : Z := 80.
Definition IPTABLES : string := "iptables".
Definition IPTABLESRESTORE : string := "iptables-restore".
Definition IPTABLESSAVE : string := "iptables-save".
Definition IP6TABLES : string := "ip6tables".
Definition IP6TABLESRESTORE : string := "ip6tables-restore".
Definition IP6TABLESSAVE : string := "ip6tables-save".
Definition IstioAgentDNSListenerPort : string := "15053".
Definition DefaultProxyUID : string := "1337".

(** ** log/command.go *)

Record Command := mk_command { Identifier : string; Comment : string }.

#[export] Instance Command_eq_dec : EqDecision Command.
Proof. solve_decision. Defined.

Definition JumpInbound := mk_command "JumpInbound" "direct all traffic through ISTIO_INBOUND chain".
Definition JumpOutbound := mk_command "JumpOutbound" "direct all traffic through ISTIO_OUTBOUND chain".
Definition ExcludeInboundPort := mk_command "ExcludeInboundPort" "exclude inbound port from capture".
Definition IncludeInboundPort := mk_command "IncludeInboundPort" "include inbound port for capture".
Definition InboundCapture := mk_command "InboundCapture" "redirect inbound request to proxy".
Definition KubevirtCommand := mk_command "KubevirtCommand" "Kubevirt outbound redirect".
Definition ExcludeInterfaceCommand := mk_command "ExcludeInterfaceCommand" "Excluded interface".
Definition UndefinedCommand := mk_command "UndefinedCommand" "".

(** ** config *)

Record Config := {
  ProxyPort : string;
  InboundCapturePort : string;
  InboundTunnelPort : string;
  ProxyUID : string;
  ProxyGID : string;
  InboundInterceptionMode : string;
  InboundTProxyMark : string;
  InboundTProxyRouteTable : string;
  InboundPortsInclude : string;
  InboundPortsExclude : string;
  OwnerGroupsInclude : string;
  OwnerGroupsExclude : string;
  OutboundPortsInclude : string;
  OutboundPortsExclude : string;
  OutboundIPRangesInclude : string;
  OutboundIPRangesExclude : string;
  KubeVirtInterfaces : string;
  ExcludeInterfaces : string;
  IptablesProbePort : Z;                    (* uint16 *)
  ProbeTimeout : Z;                         (* nanoseconds *)
  DryRun : bool;
  RestoreFormat : bool;
  SkipRuleApply : bool;
  RunValidation : bool;
  RedirectDNS : bool;
  DropInvalid : bool;
  CaptureAllDNS : bool;
  EnableInboundIPv6 : bool;
  DNSServersV4 : list string;
  DNSServersV6 : list string;
  OutputPath : string;
  NetworkNamespace : string;
  CNIMode : bool;
  TraceLogging : bool
}.

(** [config.Config{}] *)
Definition zero_config : Config :=
  {| ProxyPort := ""; InboundCapturePort := ""; InboundTunnelPort := ""; ProxyUID := "";
     ProxyGID := ""; InboundInterceptionMode := ""; InboundTProxyMark := ""; InboundTProxyRouteTable := "";
     InboundPortsInclude := ""; InboundPortsExclude := ""; OwnerGroupsInclude := ""; OwnerGroupsExclude := "";
     OutboundPortsInclude := ""; OutboundPortsExclude := ""; OutboundIPRangesInclude := ""; OutboundIPRangesExclude := "";
     KubeVirtInterfaces := ""; ExcludeInterfaces := ""; IptablesProbePort := 0; ProbeTimeout := 0; DryRun := false;
     RestoreFormat := false; SkipRuleApply := false; RunValidation := false;
     RedirectDNS := false; DropInvalid := false; CaptureAllDNS := false; EnableInboundIPv6 := false; DNSServersV4 := [];
     DNSServersV6 := []; OutputPath := ""; NetworkNamespace := ""; CNIMode := false; TraceLogging := false |}.

(** types.go *)
Definition filterEmpty (strs : list string) : list string := filter (λ s, s ≠ "") strs.

Definition split (s : string) : list string :=
  if String.eqb s "" then [] else filterEmpty (Split s ","%char).

Record InterceptFilter := { Values : list string; Except : bool }.

Definition InterceptAllExcept (values : list string) : InterceptFilter := {| Values := values; Except := true |}.
Definition InterceptOnly (values : list string) : InterceptFilter := {| Values := values; Except := false |}.

Definition ParseInterceptFilter (include exclude : string) : InterceptFilter :=
  if String.eqb include "*" then InterceptAllExcept (split exclude) else InterceptOnly (split include).

Definition maxOwnerGroupsInclude : nat := 64.

(** [ValidateOwnerGroups], also [Config.Validate]; [fmt.Sprint] of the list *)
Definition ValidateOwnerGroups (include exclude : string) : option string :=
  let f := ParseInterceptFilter include exclude in
  if negb (Except f) && (maxOwnerGroupsInclude <? length (Values f)) then
    Some ("number of owner groups whose outgoing traffic should be redirected to Envoy cannot exceed "
          +:+ Itoa (Z.of_nat maxOwnerGroupsInclude) +:+ ", got " +:+ Itoa (Z.of_nat (length (Values f)))
          +:+ ": [" +:+ Join (Values f) " " +:+ "]")
  else None.

Definition Validate (cfg : Config) : option string :=
  ValidateOwnerGroups (OwnerGroupsInclude cfg) (OwnerGroupsExclude cfg).

(** capture/util.go, capture/format.go *)
Definition Flatten (lists : list (list string)) : list string := concat lists.
Definition CombineMatchers (values : list string) (matcher : string → list string) : list string :=
  Flatten (matcher <$> values).
Definition FormatIptablesCommands (commands : list (list string)) : list string :=
  (λ cmd, Join cmd " ") <$> commands.

(** ** The builder *)

Record Rule := mk_rule { chain : string; table : string; params : list string }.

#[export] Instance Rule_eq_dec : EqDecision Rule.
Proof. solve_decision. Defined.

Record IptablesBuilder := mk_builder { rulesv4 : list Rule; rulesv6 : list Rule }.

Definition NewIptablesBuilder : IptablesBuilder := mk_builder [] [].

Fixpoint indexOf (element : string) (data : list string) : option nat :=
  match data with
  | [] => None
  | v :: data => if String.eqb element v then Some 0 else S <$> indexOf element data
  end.

(** [fmt.Sprintf] with the verb q, of letters *)
Definition quoted (s : string) : string := String "034" (s +:+ String "034" "").

Section Builder.
Variable cfg : Config.

(** the rule that logs hits of a rule, if there is one *)
Definition trace_rule (command : Command) (chain table : string) (head params : list string) : list Rule :=
  match indexOf "-j" params with
  | Some idx =>
      if TraceLogging cfg && bool_decide (command ≠ UndefinedCommand) then
        [mk_rule chain table (head ++ take idx params ++
           ["-j"; "NFLOG"; "--nflog-prefix"; quoted (Identifier command); "--nflog-group"; "1337"; "--nflog-size"; "20"])]
      else []
  | None => []
  end.

Definition insertInternal (command : Command) (chain table : string) (position : Z) (params : list string)
    (ipt : list Rule) : list Rule :=
  let head := ["-I"; chain; Itoa position] in
  ipt ++ [mk_rule chain table (head ++ params)] ++ trace_rule command chain table head params.

Definition appendInternal (command : Command) (chain table : string) (params : list string)
    (ipt : list Rule) : list Rule :=
  let head := ["-A"; chain] in
  ipt ++ trace_rule command chain table head params ++ [mk_rule chain table (head ++ params)].

Definition InsertRuleV4 (command : Command) (chain table : string) (position : Z) (params : list string)
    (rb : IptablesBuilder) : IptablesBuilder :=
  mk_builder (insertInternal command chain table position params (rulesv4 rb)) (rulesv6 rb).

Definition InsertRuleV6 (command : Command) (chain table : string) (position : Z) (params : list string)
    (rb : IptablesBuilder) : IptablesBuilder :=
  if negb (EnableInboundIPv6 cfg) then rb else
  mk_builder (rulesv4 rb) (insertInternal command chain table position params (rulesv6 rb)).

Definition InsertRule (command : Command) (chain table : string) (position : Z) (params : list string)
    (rb : IptablesBuilder) : IptablesBuilder :=
  InsertRuleV6 command chain table position params (InsertRuleV4 command chain table position params rb).

Definition AppendRuleV4 (command : Command) (chain table : string) (params : list string)
    (rb : IptablesBuilder) : IptablesBuilder :=
  mk_builder (appendInternal command chain table params (rulesv4 rb)) (rulesv6 rb).

Definition AppendRuleV6 (command : Command) (chain table : string) (params : list string)
    (rb : IptablesBuilder) : IptablesBuilder :=
  if negb (EnableInboundIPv6 cfg) then rb else
  mk_builder (rulesv4 rb) (appendInternal command chain table params (rulesv6 rb)).

Definition AppendRule (command : Command) (chain table : string) (params : list string)
    (rb : IptablesBuilder) : IptablesBuilder :=
  AppendRuleV6 command chain table params (AppendRuleV4 command chain table params rb).

Definition replaceVersionSpecific (contents : string) (inputs : list string) : list string :=
  (λ i, if String.eqb i IPVersionSpecific then contents else i) <$> inputs.

Definition AppendVersionedRule (ipv4 ipv6 : string) (command : Command) (chain table : string)
    (params : list string) (rb : IptablesBuilder) : IptablesBuilder :=
  AppendRuleV6 command chain table (replaceVersionSpecific ipv6 params)
    (AppendRuleV4 command chain table (replaceVersionSpecific ipv4 params) rb).
End Builder.

(** *** Rendering *)

Definition chain_key (r : Rule) : string := chain r +:+ ":" +:+ table r.

(** the first rules of the chains that have to be created *)
Fixpoint new_chains (seen : gset string) (rules : list Rule) : list Rule :=
  match rules with
  | [] => []
  | r :: rules =>
      if bool_decide (chain_key r ∈ seen) || bool_decide (chain r ∈ BuiltInChainsMap)
      then new_chains seen rules
      else r :: new_chains ({[chain_key r]} ∪ seen) rules
  end.

Definition create_command (command : string) (r : Rule) : list string := [command; "-t"; table r; "-N"; chain r].
Definition rule_command (command : string) (r : Rule) : list string := [command; "-t"; table r] ++ params r.

Definition buildRules (command : string) (rules : list Rule) : list (list string) :=
  (create_command command <$> new_chains ∅ rules) ++ (rule_command command <$> rules).

Definition BuildV4 (rb : IptablesBuilder) : list (list string) := buildRules IPTABLES (rulesv4 rb).
Definition BuildV6 (rb : IptablesBuilder) : list (list string) := buildRules IP6TABLES (rulesv6 rb).

Definition line (s : string) : string := s +:+ String LF "".

(** the block of one table in the restore format *)
Definition restore_block (table : string) (rules : list string) : string :=
  match rules with
  | [] => ""
  | _ => line ("* " +:+ table) +:+ foldr (λ r t, line r +:+ t) "" rules +:+ line "COMMIT"
  end.

(** [constructIptablesRestoreContents], from the entries in the order of the
    map iteration *)
Fixpoint constructIptablesRestoreContents (entries : list (string * list string)) : string :=
  match entries with
  | [] => ""
  | (table, rules) :: entries => restore_block table rules +:+ constructIptablesRestoreContents entries
  end.

Definition append_at (m : gmap string (list string)) (k v : string) : gmap string (list string) :=
  <[k := default [] (m !! k) ++ [v]]> m.

Definition restore_table (rules : list Rule) : gmap string (list string) :=
  let m : gmap string (list string) := <[FILTER := []]> (<[NAT := []]> (<[MANGLE := []]> ∅)) in
  let m := foldl (λ m r, append_at m (table r) ("-N " +:+ chain r)) m (new_chains ∅ rules) in
  foldl (λ m r, append_at m (table r) (Join (params r) " ")) m rules.

Definition buildRestore (order : gmap string (list string) → list (string * list string)) (rules : list Rule) : string :=
  constructIptablesRestoreContents (order (restore_table rules)).

Definition BuildV4Restore (order : gmap string (list string) → list (string * list string)) (rb : IptablesBuilder) : string :=
  buildRestore order (rulesv4 rb).
Definition BuildV6Restore (order : gmap string (list string) → list (string * list string)) (rb : IptablesBuilder) : string :=
  buildRestore order (rulesv6 rb).

(** ** Laws of the rendering *)

Lemma new_chains_spec seen rules r :
  r ∈ new_chains seen rules → r ∈ rules ∧ chain_key r ∉ seen ∧ chain r ∉ BuiltInChainsMap.
Proof.
  revert seen. induction rules as [|r0 rules IH]; intros seen; simpl; [by intros ?%elem_of_nil|].
  destruct (bool_decide (chain_key r0 ∈ seen)) eqn:E1; simpl.
  { intros H. apply IH in H as (? & ? & ?). by split_and!; [right|..]. }
  destruct (bool_decide (chain r0 ∈ BuiltInChainsMap)) eqn:E2.
  { intros H. apply IH in H as (? & ? & ?). by split_and!; [right|..]. }
  apply bool_decide_eq_false in E1, E2. intros [->|H]%elem_of_cons; [by split_and!; [left|..]|].
  apply IH in H as (? & H & ?). split_and!; [by right| |done]. intros ?. apply H, elem_of_union. by right.
Qed.

Lemma new_chains_complete seen rules r :
  r ∈ rules → chain_key r ∉ seen → chain r ∉ BuiltInChainsMap →
  ∃ r', r' ∈ new_chains seen rules ∧ chain_key r' = chain_key r.
Proof.
  revert seen. induction rules as [|r0 rules IH]; intros seen; simpl; [by intros ?%elem_of_nil|].
  intros Hr Hseen Hb.
  destruct (bool_decide (chain_key r0 ∈ seen)) eqn:E1; simpl.
  { apply bool_decide_eq_true in E1. apply elem_of_cons in Hr as [->|Hr]; [done|by apply IH]. }
  destruct (bool_decide (chain r0 ∈ BuiltInChainsMap)) eqn:E2.
  { apply bool_decide_eq_true in E2. apply elem_of_cons in Hr as [->|Hr]; [done|by apply IH]. }
  destruct (decide (chain_key r = chain_key r0)) as [Heq|Hne]; [exists r0; split; [left|done]|].
  apply elem_of_cons in Hr as [->|Hr]; [done|].
  destruct (IH ({[chain_key r0]} ∪ seen) Hr) as (r' & ? & ?); [|done|exists r'; split; [by right|done]].
  intros [?%elem_of_singleton|?]%elem_of_union; done.
Qed.

Lemma new_chains_keys seen rules : NoDup (chain_key <$> new_chains seen rules).
Proof.
  revert seen. induction rules as [|r0 rules IH]; intros seen; simpl; [constructor|].
  destruct (_ || _); [done|]. simpl. constructor; [|done].
  intros (r & Hk & Hr)%list_elem_of_fmap. apply new_chains_spec in Hr as (_ & Hs & _).
  apply Hs, elem_of_union. left. apply elem_of_singleton. done.
Qed.

(** the key determines the chain and a table without colon *)
Lemma chain_key_inj r r' :
  IndexByte (table r) ":" = None → IndexByte (table r') ":" = None →
  chain_key r = chain_key r' → chain r = chain r' ∧ table r = table r'.
Proof.
  unfold chain_key. intros H H' E.
  assert (String.length (chain r) = String.length (chain r')) as Hl.
  { pose proof (LastIndexByte_app (chain r) (table r) ":" ltac:(by apply LastIndexByte_None)) as L.
    pose proof (LastIndexByte_app (chain r') (table r') ":" ltac:(by apply LastIndexByte_None)) as L'.
    simpl in E. rewrite E in L. congruence. }
  apply str_app_inj_len in E as [E1 E2]; [|done]. by simplify_eq.
Qed.

Lemma append_at_lookup m k v t :
  default [] (append_at m k v !! t) = default [] (m !! t) ++ (if decide (k = t) then [v] else []).
Proof.
  unfold append_at. destruct (decide (k = t)) as [->|Hne].
  - by rewrite lookup_insert_eq.
  - rewrite lookup_insert_ne by done. by rewrite app_nil_r.
Qed.

Lemma append_fold_lookup (f : Rule → string) m rules t :
  default [] (foldl (λ m r, append_at m (table r) (f r)) m rules !! t) =
  default [] (m !! t) ++ (f <$> filter (λ r, table r = t) rules).
Proof.
  revert m. induction rules as [|r rules IH]; intros m; simpl; [by rewrite app_nil_r|].
  rewrite IH, append_at_lookup, filter_cons. rewrite <-app_assoc. f_equal.
  by destruct (decide (table r = t)).
Qed.

Lemma command_filter (f : Rule → list string) t (rules : list Rule) :
  (∀ r, f r !! 2 = Some (table r)) →
  filter (λ c : list string, c !! 2 = Some t) (f <$> rules) = f <$> filter (λ r, table r = t) rules.
Proof.
  intros Hf. induction rules as [|r rules IH]; [done|]. rewrite fmap_cons, !filter_cons, IH.
  destruct (decide (table r = t)) as [Ht|Hne].
  - rewrite decide_True; [done|]. by rewrite Hf, Ht.
  - rewrite decide_False; [done|]. rewrite Hf. congruence.
Qed.

Lemma restore_table_lookup command rules t :
  default [] (restore_table rules !! t) =
  (λ c, Join (drop 3 c) " ") <$> filter (λ c : list string, c !! 2 = Some t) (buildRules command rules).
Proof.
  unfold restore_table, buildRules. rewrite (append_fold_lookup (λ r, Join (params r) " ")).
  rewrite (append_fold_lookup (λ r, "-N " +:+ chain r)%string).
  rewrite filter_app, !command_filter by done. rewrite fmap_app, <-!list_fmap_compose.
  assert (default [] (<[FILTER:=[]]> (<[NAT:=[]]> (<[MANGLE:=[]]> (∅ : gmap string (list string)))) !! t) = []) as ->.
  { destruct (_ !! t) as [l|] eqn:E; [|done]. simpl.
    repeat (apply lookup_insert_Some in E as [[_ <-]|[_ E]]; [done|]). by rewrite lookup_empty in E. }
  done.
Qed.

(** ** Properties *)

(** In the commands built for any list of rules, each custom chain of each
    table is created exactly once and before the first rule, no built-in chain
    is created, and the rules follow in their order. *)
Theorem chains_created_once command rules :
  Forall (λ r, IndexByte (table r) ":" = None) rules →
  ∃ creates, buildRules command rules = creates ++ (rule_command command <$> rules) ∧
    NoDup creates ∧
    (∀ r, r ∈ rules → chain r ∉ BuiltInChainsMap → create_command command r ∈ creates) ∧
    (∀ c, c ∈ creates → ∃ r, r ∈ rules ∧ chain r ∉ BuiltInChainsMap ∧ c = create_command command r).
Proof.
  intros Htab. rewrite Forall_forall in Htab. exists (create_command command <$> new_chains ∅ rules).
  split; [done|]. split_and!.
  - assert (∀ l, NoDup (chain_key <$> l) → NoDup (create_command command <$> l)) as Hgen; [|apply Hgen, new_chains_keys].
    induction l as [|r l IH]; [constructor|]. rewrite !fmap_cons, !NoDup_cons. intros [Hn Hl]. split; [|by apply IH].
    intros (r' & E & Hr')%list_elem_of_fmap. injection E as Et Ec. apply Hn. apply list_elem_of_fmap. exists r'.
    unfold chain_key. by rewrite Et, Ec.
  - intros r Hr Hb. destruct (new_chains_complete ∅ rules r Hr) as (r' & Hr' & Hk); [by apply not_elem_of_empty|done|].
    apply list_elem_of_fmap. exists r'. split; [|done]. apply new_chains_spec in Hr' as (Hr' & _).
    apply chain_key_inj in Hk as [Hc Ht]; [|by apply Htab..]. unfold create_command. by rewrite Hc, Ht.
  - intros c (r & -> & Hr)%list_elem_of_fmap. apply new_chains_spec in Hr as (? & _ & ?). by exists r.
Qed.

Lemma chains_created_once_witness :
  ∃ creates, BuildV4 (AppendRule zero_config UndefinedCommand ISTIOOUTPUT NAT ["-j"; "RETURN"] NewIptablesBuilder) = creates ++ [["iptables"; "-t"; "nat"; "-A"; "ISTIO_OUTPUT"; "-j"; "RETURN"]] ∧
  NoDup creates ∧ ["iptables"; "-t"; "nat"; "-N"; "ISTIO_OUTPUT"] ∈ creates.
Proof.
  set (r := mk_rule ISTIOOUTPUT NAT ["-A"; "ISTIO_OUTPUT"; "-j"; "RETURN"]).
  destruct (chains_created_once IPTABLES [r]) as (creates & E & Hn & Hin & _); [by repeat constructor|].
  exists creates. split; [exact E|]. split; [exact Hn|]. apply (Hin r); [left|].
  apply (bool_decide_unpack _). vm_compute. done.
Defined.

Lemma restore_contents_block entries t l :
  (t, l) ∈ entries →
  ∃ pre post, constructIptablesRestoreContents entries = pre +:+ restore_block t l +:+ post.
Proof.
  induction entries as [|[t' l'] entries IH]; [by intros ?%elem_of_nil|].
  intros [[= -> ->]|H]%elem_of_cons; cbn [constructIptablesRestoreContents]; [by exists "", (constructIptablesRestoreContents entries)|].
  destruct (IH H) as (pre & post & ->). exists (restore_block t' l' +:+ pre)%string, post. by rewrite str_app_assoc.
Qed.


