(* ===== verification/Capture.v ===== *)
(** * Redirecting traffic into the proxy

    Models iptables/pkg/capture/run.go (the configurator that writes the rules),
    the configuration of iptables/pkg/cmd/root.go, and
    clean-iptables/pkg/cmd/cleanup.go, and reads the rules the way netfilter
    does to state what they achieve.

    Running a program, writing a file and reading flags, addresses and
    resolv.conf are the environment.  Writing to standard error succeeds. *)

From S2P Require Export Iptables.

Local Open Scope string_scope.
Local Open Scope nat_scope.
Local Open Scope list_scope.

(** ** Address ranges *)

Record NetworkRange := { IsWildcard : bool; IPNets : list IPNet; HasLoopBackIP : bool }.

Definition no_range : NetworkRange := {| IsWildcard := false; IPNets := []; HasLoopBackIP := false |}.
Definition wildcard : NetworkRange := {| IsWildcard := true; IPNets := []; HasLoopBackIP := false |}.

Definition add_net (r : NetworkRange) (ip : IP) (n : IPNet) : NetworkRange :=
  {| IsWildcard := IsWildcard r; IPNets := IPNets r ++ [n]; HasLoopBackIP := HasLoopBackIP r || IsLoopback ip |}.

(** ranges that do not parse are skipped *)
Definition separateV4V6 (cidrList : string) : NetworkRange * NetworkRange :=
  if String.eqb cidrList "*" then (wildcard, wildcard) else
  foldl (λ '(v4, v6) ipRange,
    match ParseCIDR ipRange with
    | None => (v4, v6)
    | Some (ip, ipNet) =>
        match To4 ip with
        | Some _ => (add_net v4 ip ipNet, v6)
        | None => (v4, add_net v6 ip ipNet)
        end
    end) (no_range, no_range) (split cidrList).

(** [parsed.To4() != nil]; an address that does not parse is no IPv4 address *)
Definition SplitV4V6 (ips : list string) : list string * list string :=
  let is4 i := bool_decide (is_Some (ParseIP i ≫= To4)) in
  (filter (λ i, is4 i = true) ips, filter (λ i, is4 i = false) ips).

(** ** The configurator *)

Definition for_each {S A} (xs : list A) (f : A → S → S) (s : S) : S := foldl (λ s x, f x s) s xs.

Section Configurator.
Variable cfg : Config.

Definition tproxy : bool := String.eqb (InboundInterceptionMode cfg) TPROXY.

Definition handleInboundPortsInclude (b : IptablesBuilder) : IptablesBuilder :=
  if String.eqb (InboundPortsInclude cfg) "" then b else
  let b := if tproxy then
      let b := AppendRule cfg UndefinedCommand ISTIODIVERT MANGLE ["-j"; MARK; "--set-mark"; InboundTProxyMark cfg] b in
      let b := AppendRule cfg UndefinedCommand ISTIODIVERT MANGLE ["-j"; ACCEPT] b in
      AppendVersionedRule cfg "127.0.0.1/32" "::1/128" UndefinedCommand ISTIOTPROXY MANGLE
        ["!"; "-d"; IPVersionSpecific; "-p"; TCP; "-j"; TPROXY; "--tproxy-mark";
         InboundTProxyMark cfg +:+ "/0xffffffff"; "--on-port"; InboundCapturePort cfg] b
    else b in
  let table := if tproxy then MANGLE else NAT in
  let b := AppendRule cfg JumpInbound PREROUTING table ["-p"; TCP; "-j"; ISTIOINBOUND] b in
  if String.eqb (InboundPortsInclude cfg) "*" then
    let b := if String.eqb (InboundPortsExclude cfg) "" then b else
      for_each (split (InboundPortsExclude cfg)) (λ port,
        AppendRule cfg ExcludeInboundPort ISTIOINBOUND table ["-p"; TCP; "--dport"; port; "-j"; RETURN]) b in
    if tproxy then
      let b := AppendRule cfg UndefinedCommand ISTIOINBOUND MANGLE
        ["-p"; TCP; "-m"; "conntrack"; "--ctstate"; "RELATED,ESTABLISHED"; "-j"; ISTIODIVERT] b in
      AppendRule cfg UndefinedCommand ISTIOINBOUND MANGLE ["-p"; TCP; "-j"; ISTIOTPROXY] b
    else AppendRule cfg UndefinedCommand ISTIOINBOUND NAT ["-p"; TCP; "-j"; ISTIOINREDIRECT] b
  else
    for_each (split (InboundPortsInclude cfg)) (λ port b,
      if tproxy then
        let b := AppendRule cfg IncludeInboundPort ISTIOINBOUND MANGLE
          ["-p"; TCP; "--dport"; port; "-m"; "conntrack"; "--ctstate"; "RELATED,ESTABLISHED"; "-j"; ISTIODIVERT] b in
        AppendRule cfg IncludeInboundPort ISTIOINBOUND MANGLE ["-p"; TCP; "--dport"; port; "-j"; ISTIOTPROXY] b
      else AppendRule cfg IncludeInboundPort ISTIOINBOUND NAT ["-p"; TCP; "--dport"; port; "-j"; ISTIOINREDIRECT] b) b.

(** [appendRule] and [insert] are the methods for one address family *)
Definition handleOutboundIncludeRules (rangeInclude : NetworkRange)
    (appendRule : Command → string → string → list string → IptablesBuilder → IptablesBuilder)
    (insert : Command → string → string → Z → list string → IptablesBuilder → IptablesBuilder)
    (b : IptablesBuilder) : IptablesBuilder :=
  if IsWildcard rangeInclude then
    let b := appendRule UndefinedCommand ISTIOOUTPUT NAT ["-j"; ISTIOREDIRECT] b in
    for_each (split (KubeVirtInterfaces cfg)) (λ internalInterface,
      insert KubevirtCommand PREROUTING NAT 1%Z ["-i"; internalInterface; "-j"; ISTIOREDIRECT]) b
  else match IPNets rangeInclude with
  | [] => b
  | nets =>
      let b := for_each nets (λ cidr b,
        let b := for_each (split (KubeVirtInterfaces cfg)) (λ internalInterface,
          insert KubevirtCommand PREROUTING NAT 1%Z ["-i"; internalInterface; "-d"; net_string cidr; "-j"; ISTIOREDIRECT]) b in
        appendRule UndefinedCommand ISTIOOUTPUT NAT ["-d"; net_string cidr; "-j"; ISTIOREDIRECT] b) b in
      appendRule UndefinedCommand ISTIOOUTPUT NAT ["-j"; RETURN] b
  end.

Definition shortCircuitKubeInternalInterface (b : IptablesBuilder) : IptablesBuilder :=
  for_each (split (KubeVirtInterfaces cfg)) (λ internalInterface,
    InsertRule cfg KubevirtCommand PREROUTING NAT 1%Z ["-i"; internalInterface; "-j"; RETURN]) b.

Definition shortCircuitExcludeInterfaces (b : IptablesBuilder) : IptablesBuilder :=
  let exclude table excludeInterface b :=
    let b := AppendRule cfg ExcludeInterfaceCommand PREROUTING table ["-i"; excludeInterface; "-j"; RETURN] b in
    AppendRule cfg ExcludeInterfaceCommand OUTPUT table ["-o"; excludeInterface; "-j"; RETURN] b in
  let b := for_each (split (ExcludeInterfaces cfg)) (exclude NAT) b in
  if tproxy then for_each (split (ExcludeInterfaces cfg)) (exclude MANGLE) b else b.

Definition handleOutboundPortsInclude (b : IptablesBuilder) : IptablesBuilder :=
  if String.eqb (OutboundPortsInclude cfg) "" then b else
  for_each (split (OutboundPortsInclude cfg)) (λ port,
    AppendRule cfg UndefinedCommand ISTIOOUTPUT NAT ["-p"; TCP; "--dport"; port; "-j"; ISTIOREDIRECT]) b.

Definition group_is_none_of (values : list string) : list string :=
  CombineMatchers values (λ group, ["-m"; "owner"; "!"; "--gid-owner"; group]).

Definition handleCaptureByOwnerGroup (f : InterceptFilter) (b : IptablesBuilder) : IptablesBuilder :=
  if Except f then
    for_each (Values f) (λ group,
      AppendRule cfg UndefinedCommand ISTIOOUTPUT NAT ["-m"; "owner"; "--gid-owner"; group; "-j"; RETURN]) b
  else AppendRule cfg UndefinedCommand ISTIOOUTPUT NAT (group_is_none_of (Values f) ++ ["-j"; RETURN]) b.

(** the rules for one user of the proxy *)
Definition proxy_uid_rules (loopback : bool) (uid : string) (b : IptablesBuilder) : IptablesBuilder :=
  let b := AppendVersionedRule cfg "127.0.0.1/32" "::1/128" UndefinedCommand ISTIOOUTPUT NAT
    (if RedirectDNS cfg then
       ["-o"; "lo"; "!"; "-d"; IPVersionSpecific; "-p"; "tcp"; "!"; "--dport"; "53";
        "-m"; "owner"; "--uid-owner"; uid; "-j"; ISTIOINREDIRECT]
     else ["-o"; "lo"; "!"; "-d"; IPVersionSpecific; "-m"; "owner"; "--uid-owner"; uid; "-j"; ISTIOINREDIRECT]) b in
  let b := if loopback then b else
    AppendRule cfg UndefinedCommand ISTIOOUTPUT NAT
      (if RedirectDNS cfg then
         ["-o"; "lo"; "-p"; "tcp"; "!"; "--dport"; "53"; "-m"; "owner"; "!"; "--uid-owner"; uid; "-j"; RETURN]
       else ["-o"; "lo"; "-m"; "owner"; "!"; "--uid-owner"; uid; "-j"; RETURN]) b in
  AppendRule cfg UndefinedCommand ISTIOOUTPUT NAT ["-m"; "owner"; "--uid-owner"; uid; "-j"; RETURN] b.

(** the rules for one group of the proxy *)
Definition proxy_gid_rules (loopback : bool) (gid : string) (b : IptablesBuilder) : IptablesBuilder :=
  let b := AppendVersionedRule cfg "127.0.0.1/32" "::1/128" UndefinedCommand ISTIOOUTPUT NAT
    ["-o"; "lo"; "!"; "-d"; IPVersionSpecific; "-m"; "owner"; "--gid-owner"; gid; "-j"; ISTIOINREDIRECT] b in
  let b := if loopback then b else
    AppendRule cfg UndefinedCommand ISTIOOUTPUT NAT
      (if RedirectDNS cfg then
         ["-o"; "lo"; "-p"; "tcp"; "!"; "--dport"; "53"; "-m"; "owner"; "!"; "--gid-owner"; gid; "-j"; RETURN]
       else ["-o"; "lo"; "-m"; "owner"; "!"; "--gid-owner"; gid; "-j"; RETURN]) b in
  AppendRule cfg UndefinedCommand ISTIOOUTPUT NAT ["-m"; "owner"; "--gid-owner"; gid; "-j"; RETURN] b.

(** TCP queries to the name servers *)
Definition tcp_dns_rules (b : IptablesBuilder) : IptablesBuilder :=
  if negb (RedirectDNS cfg) then b else
  if CaptureAllDNS cfg then
    AppendRule cfg UndefinedCommand ISTIOOUTPUT NAT
      ["-p"; TCP; "--dport"; "53"; "-j"; REDIRECT; "--to-ports"; IstioAgentDNSListenerPort] b
  else
    let b := for_each (DNSServersV4 cfg) (λ s, AppendRuleV4 cfg UndefinedCommand ISTIOOUTPUT NAT
      ["-p"; TCP; "--dport"; "53"; "-d"; s +:+ "/32"; "-j"; REDIRECT; "--to-ports"; IstioAgentDNSListenerPort]) b in
    for_each (DNSServersV6 cfg) (λ s, AppendRuleV6 cfg UndefinedCommand ISTIOOUTPUT NAT
      ["-p"; TCP; "--dport"; "53"; "-d"; s +:+ "/128"; "-j"; REDIRECT; "--to-ports"; IstioAgentDNSListenerPort]) b.

Definition outboundMark : string := "1338".

Definition tproxy_rules (b : IptablesBuilder) : IptablesBuilder :=
  if negb tproxy then b else
  let mark := InboundTProxyMark cfg in
  let b := AppendRule cfg UndefinedCommand PREROUTING MANGLE
    ["-p"; TCP; "-m"; "mark"; "--mark"; mark; "-j"; "CONNMARK"; "--save-mark"] b in
  let b := AppendRule cfg UndefinedCommand OUTPUT MANGLE
    ["-p"; TCP; "-o"; "lo"; "-m"; "mark"; "--mark"; mark; "-j"; RETURN] b in
  let b := for_each (split (ProxyUID cfg)) (λ uid,
    AppendVersionedRule cfg "127.0.0.1/32" "::1/128" UndefinedCommand OUTPUT MANGLE
      ["!"; "-d"; IPVersionSpecific; "-p"; TCP; "-o"; "lo"; "-m"; "owner"; "--uid-owner"; uid;
       "-j"; MARK; "--set-mark"; outboundMark]) b in
  let b := for_each (split (ProxyGID cfg)) (λ gid,
    AppendVersionedRule cfg "127.0.0.1/32" "::1/128" UndefinedCommand OUTPUT MANGLE
      ["!"; "-d"; IPVersionSpecific; "-p"; TCP; "-o"; "lo"; "-m"; "owner"; "--gid-owner"; gid;
       "-j"; MARK; "--set-mark"; outboundMark]) b in
  let b := AppendRule cfg UndefinedCommand OUTPUT MANGLE
    ["-p"; TCP; "-m"; "connmark"; "--mark"; mark; "-j"; "CONNMARK"; "--restore-mark"] b in
  let b := InsertRule cfg UndefinedCommand ISTIOINBOUND MANGLE 1%Z
    ["-p"; TCP; "-m"; "mark"; "--mark"; mark; "-j"; RETURN] b in
  let b := InsertRuleV4 cfg UndefinedCommand ISTIOINBOUND MANGLE 2%Z
    ["-p"; TCP; "-s"; "127.0.0.6/32"; "-i"; "lo"; "-j"; RETURN] b in
  let b := InsertRuleV6 cfg UndefinedCommand ISTIOINBOUND MANGLE 2%Z
    ["-p"; TCP; "-s"; "::6/128"; "-i"; "lo"; "-j"; RETURN] b in
  InsertRule cfg UndefinedCommand ISTIOINBOUND MANGLE 3%Z
    ["-p"; TCP; "-i"; "lo"; "-m"; "mark"; "!"; "--mark"; outboundMark; "-j"; RETURN] b.
End Configurator.

(** ** DNS over UDP

    The same function writes the rules ([AppendOps]) and deletes them
    ([DeleteOps], by running commands). *)

Inductive Ops := AppendOps | DeleteOps.

Definition opsToString (ops : Ops) : string := match ops with AppendOps => "-A" | DeleteOps => "-D" end.

(** the builder and the commands run so far *)
Record host := mk_host { h_iptables : IptablesBuilder; h_ran : list (list string) }.

Definition run_command (cmd : list string) (h : host) : host := mk_host (h_iptables h) (h_ran h ++ [cmd]).

Record UDPRuleApplier := mk_applier { ua_ops : Ops; ua_table : string; ua_chain : string; ua_cmd : string }.

Definition WithChain (chain : string) (f : UDPRuleApplier) : UDPRuleApplier :=
  mk_applier (ua_ops f) (ua_table f) chain (ua_cmd f).
Definition WithTable (table : string) (f : UDPRuleApplier) : UDPRuleApplier :=
  mk_applier (ua_ops f) table (ua_chain f) (ua_cmd f).

Section DNS.
Variable cfg : Config.

Definition delete_command (f : UDPRuleApplier) (args : list string) : list string :=
  [ua_cmd f; "-t"; ua_table f; opsToString DeleteOps; ua_chain f] ++ args.

Definition RunV4 (f : UDPRuleApplier) (args : list string) (h : host) : host :=
  match ua_ops f with
  | AppendOps => mk_host (AppendRuleV4 cfg UndefinedCommand (ua_chain f) (ua_table f) args (h_iptables h)) (h_ran h)
  | DeleteOps => run_command (delete_command f args) h
  end.

Definition RunV6 (f : UDPRuleApplier) (args : list string) (h : host) : host :=
  match ua_ops f with
  | AppendOps => mk_host (AppendRuleV6 cfg UndefinedCommand (ua_chain f) (ua_table f) args (h_iptables h)) (h_ran h)
  | DeleteOps => run_command (delete_command f args) h
  end.

Definition RunBoth (f : UDPRuleApplier) (args : list string) (h : host) : host := RunV6 f args (RunV4 f args h).

Definition addConntrackZoneDNSUDP (f : UDPRuleApplier) (proxyUID proxyGID : string)
    (dnsServersV4 dnsServersV6 : list string) (captureAllDNS : bool) (h : host) : host :=
  let owner flag id h :=
    let h := RunBoth f ["-p"; "udp"; "--dport"; "53"; "-m"; "owner"; flag; id; "-j"; CT; "--zone"; "1"] h in
    RunBoth f ["-p"; "udp"; "--sport"; "15053"; "-m"; "owner"; flag; id; "-j"; CT; "--zone"; "2"] h in
  let h := for_each (split proxyUID) (owner "--uid-owner") h in
  let h := for_each (split proxyGID) (owner "--gid-owner") h in
  if captureAllDNS then
    let h := RunBoth f ["-p"; "udp"; "--dport"; "53"; "-j"; CT; "--zone"; "2"] h in
    RunBoth (WithChain PREROUTING f) ["-p"; "udp"; "--sport"; "53"; "-j"; CT; "--zone"; "1"] h
  else
    let h := for_each dnsServersV4 (λ s h,
      let h := RunV4 f ["-p"; "udp"; "--dport"; "53"; "-d"; s +:+ "/32"; "-j"; CT; "--zone"; "2"] h in
      RunV4 (WithChain PREROUTING f) ["-p"; "udp"; "--sport"; "53"; "-d"; s +:+ "/32"; "-j"; CT; "--zone"; "1"] h) h in
    for_each dnsServersV6 (λ s h,
      let h := RunV6 f ["-p"; "udp"; "--dport"; "53"; "-d"; s +:+ "/128"; "-j"; CT; "--zone"; "2"] h in
      RunV6 (WithChain PREROUTING f) ["-p"; "udp"; "--sport"; "53"; "-d"; s +:+ "/128"; "-j"; CT; "--zone"; "1"] h) h.

Definition HandleDNSUDP (ops : Ops) (cmd proxyUID proxyGID : string) (dnsServersV4 dnsServersV6 : list string)
    (captureAllDNS : bool) (ownerGroupsFilter : InterceptFilter) (h : host) : host :=
  let f := mk_applier ops NAT OUTPUT cmd in
  let h := for_each (split proxyUID) (λ uid,
    RunBoth f ["-p"; "udp"; "--dport"; "53"; "-m"; "owner"; "--uid-owner"; uid; "-j"; RETURN]) h in
  let h := for_each (split proxyGID) (λ gid,
    RunBoth f ["-p"; "udp"; "--dport"; "53"; "-m"; "owner"; "--gid-owner"; gid; "-j"; RETURN]) h in
  let h := if Except ownerGroupsFilter then
      for_each (Values ownerGroupsFilter) (λ group,
        RunBoth f ["-p"; "udp"; "--dport"; "53"; "-m"; "owner"; "--gid-owner"; group; "-j"; RETURN]) h
    else RunBoth f (Flatten [["-p"; "udp"; "--dport"; "53"]; group_is_none_of (Values ownerGroupsFilter); ["-j"; RETURN]]) h in
  let h := if captureAllDNS then
      RunBoth f ["-p"; "udp"; "--dport"; "53"; "-j"; REDIRECT; "--to-port"; IstioAgentDNSListenerPort] h
    else
      let h := for_each dnsServersV4 (λ s,
        RunV4 f ["-p"; "udp"; "--dport"; "53"; "-d"; s +:+ "/32"; "-j"; REDIRECT; "--to-port"; IstioAgentDNSListenerPort]) h in
      for_each dnsServersV6 (λ s,
        RunV6 f ["-p"; "udp"; "--dport"; "53"; "-d"; s +:+ "/128"; "-j"; REDIRECT; "--to-port"; IstioAgentDNSListenerPort]) h in
  addConntrackZoneDNSUDP (WithTable RAW f) proxyUID proxyGID dnsServersV4 dnsServersV6 captureAllDNS h.
End DNS.

(** ** Run *)

Section Run.
Variable cfg : Config.

(** the rules of [Run], with the ranges to exclude and to include *)
Definition outbound_rules (ex4 ex6 in4 in6 : NetworkRange) (b : IptablesBuilder) : IptablesBuilder :=
  let b := AppendRule cfg JumpOutbound OUTPUT NAT ["-p"; TCP; "-j"; ISTIOOUTPUT] b in
  let b := if String.eqb (OutboundPortsExclude cfg) "" then b else
    for_each (split (OutboundPortsExclude cfg)) (λ port,
      AppendRule cfg UndefinedCommand ISTIOOUTPUT NAT ["-p"; TCP; "--dport"; port; "-j"; RETURN]) b in
  let b := AppendVersionedRule cfg "127.0.0.6/32" "::6/128" UndefinedCommand ISTIOOUTPUT NAT
    ["-o"; "lo"; "-s"; IPVersionSpecific; "-j"; RETURN] b in
  let loopback := HasLoopBackIP in4 || HasLoopBackIP in6 in
  let b := for_each (split (ProxyUID cfg)) (proxy_uid_rules cfg loopback) b in
  let b := for_each (split (ProxyGID cfg)) (proxy_gid_rules cfg loopback) b in
  let b := handleCaptureByOwnerGroup cfg (ParseInterceptFilter (OwnerGroupsInclude cfg) (OwnerGroupsExclude cfg)) b in
  let b := tcp_dns_rules cfg b in
  let b := AppendVersionedRule cfg "127.0.0.1/32" "::1/128" UndefinedCommand ISTIOOUTPUT NAT
    ["-d"; IPVersionSpecific; "-j"; RETURN] b in
  let b := for_each (IPNets ex4) (λ cidr,
    AppendRuleV4 cfg UndefinedCommand ISTIOOUTPUT NAT ["-d"; net_string cidr; "-j"; RETURN]) b in
  let b := for_each (IPNets ex6) (λ cidr,
    AppendRuleV6 cfg UndefinedCommand ISTIOOUTPUT NAT ["-d"; net_string cidr; "-j"; RETURN]) b in
  let b := handleOutboundPortsInclude cfg b in
  let b := handleOutboundIncludeRules cfg in4 (AppendRuleV4 cfg) (InsertRuleV4 cfg) b in
  handleOutboundIncludeRules cfg in6 (AppendRuleV6 cfg) (InsertRuleV6 cfg) b.

Definition udp_dns_rules (b : IptablesBuilder) : IptablesBuilder :=
  if negb (RedirectDNS cfg) then b else
  h_iptables (HandleDNSUDP cfg AppendOps "" (ProxyUID cfg) (ProxyGID cfg) (DNSServersV4 cfg) (DNSServersV6 cfg)
    (CaptureAllDNS cfg) (ParseInterceptFilter (OwnerGroupsInclude cfg) (OwnerGroupsExclude cfg)) (mk_host b [])).

Definition run_rules (ex4 ex6 in4 in6 : NetworkRange) : IptablesBuilder :=
  let b := NewIptablesBuilder in
  let b := shortCircuitExcludeInterfaces cfg b in
  let b := shortCircuitKubeInternalInterface cfg b in
  let b := if DropInvalid cfg then
      AppendRule cfg UndefinedCommand PREROUTING MANGLE ["-m"; "conntrack"; "--ctstate"; "INVALID"; "-j"; DROP] b
    else b in
  let b := AppendRule cfg UndefinedCommand ISTIOINBOUND NAT ["-p"; TCP; "--dport"; InboundTunnelPort cfg; "-j"; RETURN] b in
  let b := AppendRule cfg UndefinedCommand ISTIOREDIRECT NAT ["-p"; TCP; "-j"; REDIRECT; "--to-ports"; ProxyPort cfg] b in
  let b := AppendRule cfg InboundCapture ISTIOINREDIRECT NAT
    ["-p"; TCP; "-j"; REDIRECT; "--to-ports"; InboundCapturePort cfg] b in
  let b := handleInboundPortsInclude cfg b in
  let b := outbound_rules ex4 ex6 in4 in6 b in
  let b := udp_dns_rules b in
  tproxy_rules cfg b.

(** What running programs and writing files answers: [env_run ran cmd] is the
    success of [cmd] after [ran], [env_file] the name of the rules file for the
    address family or an error. *)
Record environment := {
  env_run : list (list string) → list string → bool;
  env_file : bool → string → result string string
}.

(** the commands run, the files written, and whether the process exited *)
Record effects := mk_effects { ran : list (list string); files : list (string * string); exited : bool }.

(** [RunOrFail] ends the process when the command fails *)
Definition RunOrFail (env : environment) (cmd : list string) (e : effects) : effects :=
  if exited e then e else
  mk_effects (ran e ++ [cmd]) (files e) (negb (env_run env (ran e) cmd)).

Definition executeIptablesCommands (env : environment) (commands : list (list string)) (e : effects) : effects :=
  for_each commands (RunOrFail env) e.

Definition executeIptablesRestoreCommand (env : environment) (order : gmap string (list string) → list (string * list string))
    (b : IptablesBuilder) (isIpv4 : bool) (e : effects) : effects :=
  if exited e then e else
  let data := if isIpv4 then BuildV4Restore order b else BuildV6Restore order b in
  let cmd := if isIpv4 then IPTABLESRESTORE else IP6TABLESRESTORE in
  match env_file env isIpv4 data with
  | Ok name => RunOrFail env [cmd; "--noflush"; name] (mk_effects (ran e) (files e ++ [(name, data)]) false)
  | _ => mk_effects (ran e) (files e) true
  end.

Definition executeCommands (env : environment) (order : gmap string (list string) → list (string * list string))
    (b : IptablesBuilder) (e : effects) : effects :=
  if RestoreFormat cfg then
    executeIptablesRestoreCommand env order b false (executeIptablesRestoreCommand env order b true e)
  else executeIptablesCommands env (BuildV6 b) (executeIptablesCommands env (BuildV4 b) e).

(** the deferred listing of the tables; exiting runs no deferred call *)
Definition save_tables (e : effects) : effects :=
  if exited e then e else
  mk_effects (ran e ++ [IPTABLESSAVE] :: (if EnableInboundIPv6 cfg then [[IP6TABLESSAVE]] else [])) (files e) false.

Definition Run (env : environment) (order : gmap string (list string) → list (string * list string)) : result string effects :=
  let '(ex4, ex6) := separateV4V6 (OutboundIPRangesExclude cfg) in
  if IsWildcard ex4 then Panic (Explicit "Invalid value for OUTBOUND_IP_RANGES_EXCLUDE") else
  let '(in4, in6) := separateV4V6 (OutboundIPRangesInclude cfg) in
  Ok (save_tables (executeCommands env order (run_rules ex4 ex6 in4 in6) (mk_effects [] [] false))).
End Run.

(** ** Cleaning up *)

Module Cleaner.
Record Config := {
  ProxyUID : string;
  ProxyGID : string;
  RedirectDNS : bool;
  DNSServersV4 : list string;
  DNSServersV6 : list string;
  CaptureAllDNS : bool;
  OwnerGroupsInclude : string;
  OwnerGroupsExclude : string
}.

Definition flushAndDeleteChains (cmd table : string) (chains : list string) (h : host) : host :=
  for_each chains (λ chain h,
    run_command [cmd; "-t"; table; "-X"; chain] (run_command [cmd; "-t"; table; "-F"; chain] h)) h.

Definition removeOldChains (cfg : Config) (cmd : string) (h : host) : host :=
  let h := for_each [NAT; MANGLE] (λ table,
    run_command [cmd; "-t"; table; "-D"; PREROUTING; "-p"; TCP; "-j"; ISTIOINBOUND]) h in
  let h := run_command [cmd; "-t"; NAT; "-D"; OUTPUT; "-p"; TCP; "-j"; ISTIOOUTPUT] h in
  let h := if RedirectDNS cfg then
      HandleDNSUDP zero_config DeleteOps cmd (ProxyUID cfg) (ProxyGID cfg) (DNSServersV4 cfg) (DNSServersV6 cfg)
        (CaptureAllDNS cfg) (ParseInterceptFilter (OwnerGroupsInclude cfg) (OwnerGroupsExclude cfg)) h
    else h in
  let h := flushAndDeleteChains cmd NAT [ISTIOOUTPUT; ISTIOINBOUND] h in
  let h := flushAndDeleteChains cmd MANGLE [ISTIOINBOUND; ISTIODIVERT; ISTIOTPROXY] h in
  flushAndDeleteChains cmd NAT [ISTIOREDIRECT; ISTIOINREDIRECT] h.

(** the commands [Run] executes; their failures are ignored *)
Definition Run (cfg : Config) : list (list string) :=
  let h := for_each [IPTABLES; IP6TABLES] (removeOldChains cfg) (mk_host NewIptablesBuilder []) in
  h_ran h ++ [[IPTABLESSAVE]; [IP6TABLESSAVE]].
End Cleaner.

(** ** The configuration of the command line *)

(** viper's values of flags and variables, by name *)
Class Viper := {
  get_string : string → string;
  get_bool : string → bool;
  get_uint : string → Z;
  get_duration : string → Z
}.

Section CommandLine.
Context `{Viper}.

(** [constructConfig]: [user_uid] is the uid of the proxy's user when it exists,
    [podIP] the local address, [resolv] the servers of /etc/resolv.conf *)
Definition constructConfig (user_uid : option string) (podIP : result string IP)
    (resolv : result string (list string)) : result string Config :=
  let uid := get_string "proxy-uid" in
  let uid := if String.eqb uid "" then default DefaultProxyUID user_uid else uid in
  let gid := get_string "proxy-gid" in
  let gid := if String.eqb gid "" then uid else gid in
  match podIP with
  | Ok ip =>
      let redirectDNS := get_bool "redirect-dns" in
      let captureAllDNS := get_bool "capture-all-dns" in
      let servers := if redirectDNS && negb captureAllDNS then SplitV4V6 <$> resolv else Ok ([], []) in
      match servers with
      | Ok (v4, v6) => Ok {|
          ProxyPort := get_string "envoy-port"; InboundCapturePort := get_string "inbound-capture-port";
          InboundTunnelPort := get_string "inbound-tunnel-port"; ProxyUID := uid; ProxyGID := gid;
          InboundInterceptionMode := get_string "istio-inbound-interception-mode";
          InboundTProxyMark := get_string "istio-inbound-tproxy-mark";
          InboundTProxyRouteTable := get_string "istio-inbound-tproxy-route-table";
          InboundPortsInclude := get_string "istio-inbound-ports";
          InboundPortsExclude := get_string "istio-local-exclude-ports";
          OwnerGroupsInclude := get_string "ISTIO_OUTBOUND_OWNER_GROUPS";
          OwnerGroupsExclude := get_string "ISTIO_OUTBOUND_OWNER_GROUPS_EXCLUDE";
          OutboundPortsInclude := get_string "istio-outbound-ports";
          OutboundPortsExclude := get_string "istio-local-outbound-ports-exclude";
          OutboundIPRangesInclude := get_string "istio-service-cidr";
          OutboundIPRangesExclude := get_string "istio-service-exclude-cidr";
          KubeVirtInterfaces := get_string "kube-virt-interfaces";
          ExcludeInterfaces := get_string "istio-exclude-interfaces";
          IptablesProbePort := wrap_u 16 (get_uint "iptables-probe-port"); ProbeTimeout := get_duration "probe-timeout";
          DryRun := get_bool "dry-run"; RestoreFormat := get_bool "restore-format";
          SkipRuleApply := get_bool "skip-rule-apply"; RunValidation := get_bool "run-validation"; RedirectDNS := redirectDNS;
          DropInvalid := get_bool "drop-invalid"; CaptureAllDNS := captureAllDNS;
          EnableInboundIPv6 := bool_decide (To4 ip = None); DNSServersV4 := v4; DNSServersV6 := v6;
          OutputPath := get_string "output-paths"; NetworkNamespace := get_string "network-namespace";
          CNIMode := get_bool "cni-mode"; TraceLogging := get_bool "iptables-trace-logging" |}
      | Err e => Panic (Explicit ("failed to load /etc/resolv.conf: " +:+ e))
      | Panic q => Panic q
      end
  | Err e => Panic (Explicit e)
  | Panic q => Panic q
  end.
End CommandLine.

(** ** Creation and deletion of the DNS rules *)

(** the command that deletes an appended rule *)
Definition delete_of (cmd : string) (r : Rule) : list string :=
  [cmd; "-t"; table r; "-D"; chain r] ++ drop 2 (params r).

Definition all_rules (b : IptablesBuilder) : list Rule := rulesv4 b ++ rulesv6 b.

Section Sync.
Variable cfg : Config.
Variable cmd : string.

(** the commands of [d] delete the rules of [a], and nothing else when both
    address families are in use *)
Definition sync (a d : host) : Prop :=
  (∀ r, r ∈ all_rules (h_iptables a) → delete_of cmd r ∈ h_ran d) ∧
  (EnableInboundIPv6 cfg = true → ∀ c, c ∈ h_ran d → ∃ r, r ∈ all_rules (h_iptables a) ∧ c = delete_of cmd r).

Definition deleting (f : UDPRuleApplier) : UDPRuleApplier := mk_applier DeleteOps (ua_table f) (ua_chain f) cmd.

Lemma undefined_append ch tb ps ipt :
  appendInternal cfg UndefinedCommand ch tb ps ipt = ipt ++ [mk_rule ch tb (["-A"; ch] ++ ps)].
Proof.
  unfold appendInternal, trace_rule. destruct (indexOf "-j" ps); [|done].
  rewrite bool_decide_false by (intros Hn; by apply Hn). by rewrite andb_false_r.
Qed.

Lemma sync_v4 f args a d : ua_ops f = AppendOps → sync a d →
  sync (RunV4 cfg f args a) (RunV4 zero_config (deleting f) args d).
Proof.
  intros Hf [H1 H2]. unfold RunV4. rewrite Hf. unfold sync, all_rules, AppendRuleV4, deleting in *.
  cbn [h_iptables h_ran ua_ops rulesv4 rulesv6 run_command]. rewrite undefined_append. split.
  - intros r. rewrite !elem_of_app. intros [[Hr|Hr]|Hr].
    + left. apply H1, elem_of_app. by left.
    + apply list_elem_of_singleton in Hr as ->. right. by apply list_elem_of_singleton.
    + left. apply H1, elem_of_app. by right.
  - intros H6 c [Hc|Hc]%elem_of_app.
    + destruct (H2 H6 c Hc) as (r & Hr & ->). exists r. split; [|done]. apply elem_of_app in Hr as [Hr|Hr]; rewrite !elem_of_app; auto.
    + apply list_elem_of_singleton in Hc as ->. eexists. split; [rewrite !elem_of_app; left; right; by apply list_elem_of_singleton|done].
Qed.

Lemma sync_v6 f args a d : ua_ops f = AppendOps → sync a d →
  sync (RunV6 cfg f args a) (RunV6 zero_config (deleting f) args d).
Proof.
  intros Hf [H1 H2]. unfold RunV6. rewrite Hf. unfold sync, all_rules, AppendRuleV6, deleting in *.
  cbn [h_iptables h_ran ua_ops run_command]. destruct (EnableInboundIPv6 cfg) eqn:H6; cbn [negb rulesv4 rulesv6].
  - rewrite undefined_append. split.
    + intros r. rewrite !elem_of_app. intros [Hr|[Hr|Hr]].
      * left. apply H1, elem_of_app. by left.
      * left. apply H1, elem_of_app. by right.
      * apply list_elem_of_singleton in Hr as ->. right. by apply list_elem_of_singleton.
    + intros _ c [Hc|Hc]%elem_of_app.
      * destruct (H2 eq_refl c Hc) as (r & Hr & ->). exists r. split; [|done]. apply elem_of_app in Hr as [Hr|Hr]; rewrite !elem_of_app; auto.
      * apply list_elem_of_singleton in Hc as ->. eexists. split; [rewrite !elem_of_app; right; right; by apply list_elem_of_singleton|done].
  - split; [|done]. intros r Hr. apply elem_of_app. left. by apply H1.
Qed.

Lemma sync_both f args a d : ua_ops f = AppendOps → sync a d →
  sync (RunBoth cfg f args a) (RunBoth zero_config (deleting f) args d).
Proof. intros Hf Hs. unfold RunBoth. apply sync_v6; [done|]. by apply sync_v4. Qed.

Lemma sync_for_each {A} (xs : list A) f g a d :
  (∀ x a d, sync a d → sync (f x a) (g x d)) → sync a d → sync (for_each xs f a) (for_each xs g d).
Proof.
  intros Hfg. unfold for_each. revert a d. induction xs as [|x xs IH]; intros a d Hs; [done|]. cbn [foldl].
  apply IH, Hfg, Hs.
Qed.
End Sync.

(** ** Properties *)

(** The cleaner deletes what the configurator created for DNS: with the
    same settings every UDP rule that [Run] appended for either address family
    has its delete command, and when IPv6 is enabled no other rule is
    deleted. *)
Theorem dns_rules_in_sync cfg cmd uid gid v4 v6 all f :
  let created := h_iptables (HandleDNSUDP cfg AppendOps "" uid gid v4 v6 all f (mk_host NewIptablesBuilder [])) in
  let deleted := h_ran (HandleDNSUDP zero_config DeleteOps cmd uid gid v4 v6 all f (mk_host NewIptablesBuilder [])) in
  (∀ r, r ∈ all_rules created → delete_of cmd r ∈ deleted) ∧
  (EnableInboundIPv6 cfg = true → ∀ c, c ∈ deleted → ∃ r, r ∈ all_rules created ∧ c = delete_of cmd r).
Proof.
  cbv zeta. match goal with |- context [h_iptables ?a] => match goal with |- context [h_ran ?d] => fold (sync cfg cmd a d) end end.
  assert (sync cfg cmd (mk_host NewIptablesBuilder []) (mk_host NewIptablesBuilder [])) as H0.
  { split; [by intros r ?%elem_of_nil|by intros _ c ?%elem_of_nil]. }
  unfold HandleDNSUDP, addConntrackZoneDNSUDP. cbv zeta.
  change (mk_applier DeleteOps NAT OUTPUT cmd) with (deleting cmd (mk_applier AppendOps NAT OUTPUT "")).
  change (WithTable RAW (deleting cmd (mk_applier AppendOps NAT OUTPUT "")))
    with (deleting cmd (WithTable RAW (mk_applier AppendOps NAT OUTPUT ""))).
  change (WithChain PREROUTING (deleting cmd (WithTable RAW (mk_applier AppendOps NAT OUTPUT ""))))
    with (deleting cmd (WithChain PREROUTING (WithTable RAW (mk_applier AppendOps NAT OUTPUT "")))).
  destruct all, (Except f);
    repeat first
      [ assumption
      | apply sync_both; [reflexivity|]
      | apply sync_v4; [reflexivity|]
      | apply sync_v6; [reflexivity|]
      | apply sync_for_each; [intros|] ].
Qed.

Lemma dns_rules_in_sync_witness :
  delete_of IPTABLES (mk_rule OUTPUT NAT ["-A"; OUTPUT; "-p"; "udp"; "--dport"; "53"; "-m"; "owner"; "--uid-owner"; "1337"; "-j"; RETURN]) ∈
  h_ran (HandleDNSUDP zero_config DeleteOps IPTABLES "1337" "1337" ["10.0.0.2"] [] false (InterceptAllExcept [])
    (mk_host NewIptablesBuilder [])).
Proof.
  destruct (dns_rules_in_sync zero_config IPTABLES "1337" "1337" ["10.0.0.2"] [] false (InterceptAllExcept [])) as [Hd _].
  apply Hd. apply (bool_decide_unpack _). vm_compute. done.
Defined.
