(* ===== verification/Netfilter.v ===== *)
(** * What the rules achieve

    Reads the rules of Capture.v the way netfilter reads them: [-A] appends to a
    chain and [-I n] inserts at position n, a packet walks a chain until a rule
    it matches ends the walk, RETURN goes back to the caller of the chain, NFLOG
    goes on, and a built-in chain that is left accepts.  Which packets an option
    matches is a class whose laws are the documented meaning of the options. *)

From Stdlib Require Import Ascii.
From S2P Require Export Capture.

Local Open Scope string_scope.
Local Open Scope nat_scope.
Local Open Scope list_scope.

(** ** Matching *)

Class Netfilter (P : Type) := {
  matches : P → list string → bool;
  proto_is : P → string → bool;
  dport_is : P → string → bool;
  out_is : P → string → bool;
  in_is : P → string → bool;
  src_in : P → string → bool;
  dst_in : P → string → bool;
  uid_is : P → string → bool;
  gid_is : P → string → bool;
  matches_nil p : matches p [] = true;
  matches_proto p x r : matches p ("-p" :: x :: r) = proto_is p x && matches p r;
  matches_dport p x r : matches p ("--dport" :: x :: r) = dport_is p x && matches p r;
  matches_not_dport p x r : matches p ("!" :: "--dport" :: x :: r) = negb (dport_is p x) && matches p r;
  matches_out p x r : matches p ("-o" :: x :: r) = out_is p x && matches p r;
  matches_in p x r : matches p ("-i" :: x :: r) = in_is p x && matches p r;
  matches_src p x r : matches p ("-s" :: x :: r) = src_in p x && matches p r;
  matches_dst p x r : matches p ("-d" :: x :: r) = dst_in p x && matches p r;
  matches_not_dst p x r : matches p ("!" :: "-d" :: x :: r) = negb (dst_in p x) && matches p r;
  matches_owner p r : matches p ("-m" :: "owner" :: r) = matches p r;
  matches_uid p x r : matches p ("--uid-owner" :: x :: r) = uid_is p x && matches p r;
  matches_not_uid p x r : matches p ("!" :: "--uid-owner" :: x :: r) = negb (uid_is p x) && matches p r;
  matches_gid p x r : matches p ("--gid-owner" :: x :: r) = gid_is p x && matches p r;
  matches_not_gid p x r : matches p ("!" :: "--gid-owner" :: x :: r) = negb (gid_is p x) && matches p r
}.

(** ** Chains *)

(** the match options of a rule, and its target with the target's options *)
Fixpoint entry_parts (e : list string) : list string * list string :=
  match e with
  | [] => ([], [])
  | o :: r =>
      if String.eqb o "-j" then ([], r)
      else if String.eqb o "!" then let '(m, t) := entry_parts r in (o :: m, t)
      else match r with
           | v :: r => let '(m, t) := entry_parts r in (o :: v :: m, t)
           | [] => ([o], [])
           end
  end.

(** a command adds an entry to a chain *)
Definition place (l : list (list string)) (command : list string) : list (list string) :=
  match command with
  | op :: _ :: e =>
      if String.eqb op "-A" then l ++ [e]
      else match e with
           | pos :: e => let n := Z.to_nat (Atoi pos).1 - 1 in take n l ++ e :: drop n l
           | [] => l
           end
  | _ => l
  end.

(** a chain after the rules, in a fresh network namespace *)
Definition chain_of (rules : list Rule) (t c : string) : list (list string) :=
  foldl place [] (params <$> filter (λ r, table r = t ∧ chain r = c) rules).

Inductive verdict := VAccept | VDrop | VRedirect (port : string) | VUnknown.
Inductive outcome := NoMatch | Returned | Hit (v : verdict).

Section Walk.
Context {P : Type} `{Netfilter P}.
Variable chains : string → list (list string).
Variable p : P.

(** [fuel] bounds the depth of jumps *)
Fixpoint walk (fuel : nat) : list (list string) → outcome :=
  fix go es :=
    match es with
    | [] => NoMatch
    | e :: es =>
        let '(m, target) := entry_parts e in
        if negb (matches p m) then go es else
        match target with
        | [] => go es
        | t :: opts =>
            if String.eqb t RETURN then Returned
            else if String.eqb t ACCEPT then Hit VAccept
            else if String.eqb t DROP then Hit VDrop
            else if String.eqb t REDIRECT then
              match opts with _ :: port :: _ => Hit (VRedirect port) | _ => Hit VUnknown end
            else if String.eqb t "NFLOG" then go es
            else match fuel with
                 | O => Hit VUnknown
                 | S fuel => match walk fuel (chains t) with Hit v => Hit v | _ => go es end
                 end
        end
    end.
End Walk.

(** the verdict of a built-in chain of the nat table *)
Definition nat_verdict `{Netfilter P} (rules : list Rule) (c : string) (p : P) : verdict :=
  match walk (chain_of rules NAT) p 3 (chain_of rules NAT c) with Hit v => v | _ => VAccept end.

(** ** The walk of a list of rules *)

Section WalkLaws.
Context {P : Type} `{Netfilter P}.
Variable chains : string → list (list string).
Variable p : P.

Lemma walk_nil fuel : walk chains p fuel [] = NoMatch.
Proof. by destruct fuel. Qed.

Lemma walk_cons fuel e es :
  walk chains p fuel (e :: es) = match walk chains p fuel [e] with NoMatch => walk chains p fuel es | r => r end.
Proof. destruct fuel; cbn [walk]; destruct (entry_parts e) as [m [|t opts]]; repeat case_match; done. Qed.

Lemma walk_app fuel a b :
  walk chains p fuel (a ++ b) = match walk chains p fuel a with NoMatch => walk chains p fuel b | r => r end.
Proof.
  induction a as [|e a IH]; [by rewrite walk_nil|]. cbn [app]. rewrite walk_cons, (walk_cons _ e a), IH.
  by destruct (walk chains p fuel [e]).
Qed.

(** one entry, by its target *)
Lemma walk_return fuel e m : entry_parts e = (m, [RETURN]) →
  walk chains p fuel [e] = if matches p m then Returned else NoMatch.
Proof. intros E. destruct fuel; cbn [walk]; rewrite E; by destruct (matches p m). Qed.

Lemma walk_redirect fuel e m o port : entry_parts e = (m, [REDIRECT; o; port]) →
  walk chains p fuel [e] = if matches p m then Hit (VRedirect port) else NoMatch.
Proof. intros E. destruct fuel; cbn [walk]; rewrite E; by destruct (matches p m). Qed.

Lemma walk_jump fuel e m c : entry_parts e = (m, [c]) →
  String.eqb c RETURN || String.eqb c ACCEPT || String.eqb c DROP || String.eqb c REDIRECT || String.eqb c "NFLOG" = false →
  walk chains p (S fuel) [e] =
    if matches p m then match walk chains p fuel (chains c) with Hit v => Hit v | _ => NoMatch end else NoMatch.
Proof.
  intros E Hc. repeat apply orb_false_iff in Hc as [Hc ?]. cbn [walk]. rewrite E.
  destruct (matches p m); [|done]. cbn [negb].
  repeat match goal with HH : String.eqb _ _ = false |- _ => rewrite HH; clear HH end.
  by destruct fuel.
Qed.

(** an entry that does not match *)
Lemma walk_no_match fuel e m t : entry_parts e = (m, t) → matches p m = false → walk chains p fuel [e] = NoMatch.
Proof. intros E Hm. destruct fuel; cbn [walk]; by rewrite E, Hm. Qed.

(** a segment with one entry group per value *)
Lemma walk_concat {A} fuel (g : A → list (list string)) (c : A → bool) r xs :
  r ≠ NoMatch → (∀ x, walk chains p fuel (g x) = if c x then r else NoMatch) →
  walk chains p fuel (concat (g <$> xs)) = if existsb c xs then r else NoMatch.
Proof.
  intros Hr Hg. induction xs as [|x xs IH]; [apply walk_nil|].
  cbn [fmap list_fmap concat existsb]. rewrite walk_app, Hg, IH. by destruct (c x), r.
Qed.

End WalkLaws.

(** ** The entries a step of the configurator adds *)

(** the entries that log hits of a rule *)
Definition trace_entries (cfg : Config) (command : Command) (ps : list string) : list (list string) :=
  params <$> trace_rule cfg command "" "" [] ps.

(** the entries of an appended rule *)
Definition entries (cfg : Config) (command : Command) (ps : list string) : list (list string) :=
  trace_entries cfg command ps ++ [ps].

Definition same_chain (t c t' c' : string) : bool := String.eqb t t' && String.eqb c c'.

(** the entries of a chain of the IPv4 tables *)
Definition ents (b : IptablesBuilder) (t c : string) : list (list string) := chain_of (rulesv4 b) t c.

Lemma chain_of_app rules l t c :
  chain_of (rules ++ l) t c = foldl place (chain_of rules t c) (params <$> filter (λ r, table r = t ∧ chain r = c) l).
Proof. unfold chain_of. by rewrite filter_app, fmap_app, foldl_app. Qed.

Lemma trace_rule_head cfg command ch tb head ps :
  params <$> trace_rule cfg command ch tb head ps = (λ e, head ++ e) <$> trace_entries cfg command ps.
Proof. unfold trace_entries, trace_rule. by repeat case_match. Qed.

Lemma trace_rule_in cfg command ch tb head ps r :
  r ∈ trace_rule cfg command ch tb head ps → chain r = ch ∧ table r = tb.
Proof. unfold trace_rule. repeat case_match; try (by intros ?%elem_of_nil). by intros ->%list_elem_of_singleton. Qed.

Lemma filter_chain_all (l : list Rule) ch tb t c :
  (∀ r, r ∈ l → chain r = ch ∧ table r = tb) →
  filter (λ r, table r = t ∧ chain r = c) l = if same_chain tb ch t c then l else [].
Proof.
  intros Hl. unfold same_chain. induction l as [|r l IH]; [by repeat case_match|].
  rewrite filter_cons, IH by (intros r' ?; apply Hl; by right). destruct (Hl r) as [-> ->]; [left|].
  destruct (String.eqb_spec tb t), (String.eqb_spec ch c); simpl; by repeat case_decide; naive_solver.
Qed.

Lemma place_appends l ch es : foldl place l ((λ e, ["-A"; ch] ++ e) <$> es) = l ++ es.
Proof.
  revert l. induction es as [|e es IH]; intros l; simpl; [by rewrite app_nil_r|]. rewrite IH. by rewrite <-app_assoc.
Qed.

Lemma chain_of_appendInternal cfg command ch tb ps ipt t c :
  chain_of (appendInternal cfg command ch tb ps ipt) t c =
  chain_of ipt t c ++ (if same_chain tb ch t c then entries cfg command ps else []).
Proof.
  unfold appendInternal. rewrite chain_of_app. rewrite (filter_chain_all _ ch tb).
  - destruct (same_chain tb ch t c); [|by rewrite app_nil_r].
    rewrite fmap_app, trace_rule_head. cbn [fmap list_fmap params].
    pose proof (place_appends (chain_of ipt t c) ch (entries cfg command ps)) as Hp.
    unfold entries in Hp |- *. by rewrite fmap_app in Hp.
  - intros r [Hr|Hr]%elem_of_app; [by apply trace_rule_in in Hr|]. by apply list_elem_of_singleton in Hr as ->.
Qed.

(** appending to the IPv4 rules, to the IPv6 rules and to both *)
Lemma ents_append4 cfg command ch tb ps b t c :
  ents (AppendRuleV4 cfg command ch tb ps b) t c =
  ents b t c ++ (if same_chain tb ch t c then entries cfg command ps else []).
Proof. apply chain_of_appendInternal. Qed.

Lemma ents_append6 cfg command ch tb ps b t c : ents (AppendRuleV6 cfg command ch tb ps b) t c = ents b t c.
Proof. unfold AppendRuleV6. by destruct (EnableInboundIPv6 cfg). Qed.

Lemma ents_insert6 cfg command ch tb pos ps b t c : ents (InsertRuleV6 cfg command ch tb pos ps b) t c = ents b t c.
Proof. unfold InsertRuleV6. by destruct (EnableInboundIPv6 cfg). Qed.

Lemma ents_append cfg command ch tb ps b t c :
  ents (AppendRule cfg command ch tb ps b) t c =
  ents b t c ++ (if same_chain tb ch t c then entries cfg command ps else []).
Proof. unfold AppendRule. by rewrite ents_append6, ents_append4. Qed.

Lemma ents_versioned cfg v4 v6 command ch tb ps b t c :
  ents (AppendVersionedRule cfg v4 v6 command ch tb ps b) t c =
  ents b t c ++ (if same_chain tb ch t c then entries cfg command (replaceVersionSpecific v4 ps) else []).
Proof. unfold AppendVersionedRule. by rewrite ents_append6, ents_append4. Qed.

(** an insertion into another chain *)
Lemma ents_insert4_other cfg command ch tb pos ps b t c :
  same_chain tb ch t c = false → ents (InsertRuleV4 cfg command ch tb pos ps b) t c = ents b t c.
Proof.
  intros Hs. unfold ents, InsertRuleV4, insertInternal. cbn [rulesv4]. rewrite chain_of_app, (filter_chain_all _ ch tb).
  - by rewrite Hs.
  - intros r [Hr|Hr]%elem_of_app; [by apply list_elem_of_singleton in Hr as ->|by apply trace_rule_in in Hr].
Qed.

Lemma ents_for_each {A} (xs : list A) f (g : A → list (list string)) b t c :
  (∀ x b, ents (f x b) t c = ents b t c ++ g x) →
  ents (for_each xs f b) t c = ents b t c ++ concat (g <$> xs).
Proof.
  intros Hf. unfold for_each. revert b. induction xs as [|x xs IH]; intros b; simpl; [by rewrite app_nil_r|].
  by rewrite IH, Hf, <-app_assoc.
Qed.

Lemma ents_for_each_same {A} (xs : list A) f b t c :
  (∀ x b, ents (f x b) t c = ents b t c) → ents (for_each xs f b) t c = ents b t c.
Proof. intros Hf. unfold for_each. revert b. induction xs as [|x xs IH]; intros b; simpl; [done|]. by rewrite IH, Hf. Qed.

Lemma entries_undefined cfg ps : entries cfg UndefinedCommand ps = [ps].
Proof. unfold entries, trace_entries, trace_rule. repeat case_match; try done. bools. naive_solver. Qed.

(** rewrites [ents] of a composition of steps *)
Ltac ents_same_chain :=
  repeat match goal with
  | |- context [same_chain ?a ?b ?c ?d] =>
      let v := eval vm_compute in (same_chain a b c d) in change (same_chain a b c d) with v; cbv iota
  end; rewrite ?app_nil_r.

Ltac ents_simpl :=
  repeat first
    [ progress cbv beta zeta
    | rewrite ents_append | rewrite ents_versioned | rewrite ents_append4 | rewrite ents_append6 | rewrite ents_insert6
    | rewrite ents_insert4_other by reflexivity
    | rewrite ents_for_each_same by (intros; unfold InsertRule, proxy_uid_rules, proxy_gid_rules; ents_simpl; reflexivity)
    | progress ents_same_chain
    | match goal with |- ents (if ?b then _ else _) _ _ = _ => destruct b eqn:? end ].

(** the chains of outgoing TCP traffic *)
Inductive outbound_chain : string → Prop :=
  | oc_output : outbound_chain OUTPUT
  | oc_istio : outbound_chain ISTIOOUTPUT
  | oc_redirect : outbound_chain ISTIOREDIRECT.

Lemma ents_kube cfg b c : outbound_chain c → ents (shortCircuitKubeInternalInterface cfg b) NAT c = ents b NAT c.
Proof. intros []; unfold shortCircuitKubeInternalInterface; by ents_simpl. Qed.

Lemma ents_inbound cfg b c : outbound_chain c → ents (handleInboundPortsInclude cfg b) NAT c = ents b NAT c.
Proof. intros []; unfold handleInboundPortsInclude; destruct (tproxy cfg); by ents_simpl. Qed.

Lemma ents_tproxy cfg b c : outbound_chain c → ents (tproxy_rules cfg b) NAT c = ents b NAT c.
Proof. intros []; unfold tproxy_rules, InsertRule; by ents_simpl. Qed.

Lemma ents_exclude cfg b c : outbound_chain c →
  ents (shortCircuitExcludeInterfaces cfg b) NAT c = ents b NAT c ++
    (if String.eqb c OUTPUT then
       concat ((λ i, entries cfg ExcludeInterfaceCommand ["-o"; i; "-j"; RETURN]) <$> split (ExcludeInterfaces cfg))
     else []).
Proof.
  intros Hc. assert (∀ b, ents (for_each (split (ExcludeInterfaces cfg)) (λ excludeInterface b,
      let b := AppendRule cfg ExcludeInterfaceCommand PREROUTING MANGLE ["-i"; excludeInterface; "-j"; RETURN] b in
      AppendRule cfg ExcludeInterfaceCommand OUTPUT MANGLE ["-o"; excludeInterface; "-j"; RETURN] b) b) NAT c = ents b NAT c) as Hm.
  { intros b'. destruct Hc; by ents_simpl. }
  unfold shortCircuitExcludeInterfaces. cbv zeta.
  assert (∀ b, ents (for_each (split (ExcludeInterfaces cfg)) (λ excludeInterface b,
      let b := AppendRule cfg ExcludeInterfaceCommand PREROUTING NAT ["-i"; excludeInterface; "-j"; RETURN] b in
      AppendRule cfg ExcludeInterfaceCommand OUTPUT NAT ["-o"; excludeInterface; "-j"; RETURN] b) b) NAT c = ents b NAT c ++
      (if String.eqb c OUTPUT then
        concat ((λ i, entries cfg ExcludeInterfaceCommand ["-o"; i; "-j"; RETURN]) <$> split (ExcludeInterfaces cfg))
       else [])) as Hn.
  { intros b'. destruct Hc.
    - apply ents_for_each. intros. by ents_simpl.
    - rewrite ents_for_each_same by (intros; by ents_simpl). by rewrite app_nil_r.
    - rewrite ents_for_each_same by (intros; by ents_simpl). by rewrite app_nil_r. }
  destruct (tproxy cfg); [rewrite Hm|]; apply Hn.
Qed.

(** the entries of the chain ISTIO_OUTPUT, part by part *)
Definition ports_entries (ports : list string) (target : string) : list (list string) :=
  concat ((λ port, [["-p"; TCP; "--dport"; port; "-j"; target]]) <$> ports).

Definition uid_entries (cfg : Config) (loopback : bool) (uid : string) : list (list string) :=
  [replaceVersionSpecific "127.0.0.1/32" (if RedirectDNS cfg then
     ["-o"; "lo"; "!"; "-d"; IPVersionSpecific; "-p"; "tcp"; "!"; "--dport"; "53"; "-m"; "owner"; "--uid-owner"; uid; "-j"; ISTIOINREDIRECT]
   else ["-o"; "lo"; "!"; "-d"; IPVersionSpecific; "-m"; "owner"; "--uid-owner"; uid; "-j"; ISTIOINREDIRECT])] ++
  (if loopback then [] else
    [if RedirectDNS cfg then
       ["-o"; "lo"; "-p"; "tcp"; "!"; "--dport"; "53"; "-m"; "owner"; "!"; "--uid-owner"; uid; "-j"; RETURN]
     else ["-o"; "lo"; "-m"; "owner"; "!"; "--uid-owner"; uid; "-j"; RETURN]]) ++
  [["-m"; "owner"; "--uid-owner"; uid; "-j"; RETURN]].

Definition gid_entries (cfg : Config) (loopback : bool) (gid : string) : list (list string) :=
  [replaceVersionSpecific "127.0.0.1/32"
     ["-o"; "lo"; "!"; "-d"; IPVersionSpecific; "-m"; "owner"; "--gid-owner"; gid; "-j"; ISTIOINREDIRECT]] ++
  (if loopback then [] else
    [if RedirectDNS cfg then
       ["-o"; "lo"; "-p"; "tcp"; "!"; "--dport"; "53"; "-m"; "owner"; "!"; "--gid-owner"; gid; "-j"; RETURN]
     else ["-o"; "lo"; "-m"; "owner"; "!"; "--gid-owner"; gid; "-j"; RETURN]]) ++
  [["-m"; "owner"; "--gid-owner"; gid; "-j"; RETURN]].

Definition group_entries (f : InterceptFilter) : list (list string) :=
  if Except f then concat ((λ g, [["-m"; "owner"; "--gid-owner"; g; "-j"; RETURN]]) <$> Values f)
  else [group_is_none_of (Values f) ++ ["-j"; RETURN]].

Definition dns_entries (cfg : Config) : list (list string) :=
  if negb (RedirectDNS cfg) then [] else
  if CaptureAllDNS cfg then [["-p"; TCP; "--dport"; "53"; "-j"; REDIRECT; "--to-ports"; IstioAgentDNSListenerPort]]
  else concat ((λ s, [["-p"; TCP; "--dport"; "53"; "-d"; s +:+ "/32"; "-j"; REDIRECT; "--to-ports"; IstioAgentDNSListenerPort]])
                 <$> DNSServersV4 cfg).

Definition range_entries (nets : list IPNet) (target : string) : list (list string) :=
  concat ((λ n, [["-d"; net_string n; "-j"; target]]) <$> nets).

Definition include_entries (r : NetworkRange) : list (list string) :=
  if IsWildcard r then [["-j"; ISTIOREDIRECT]]
  else match IPNets r with [] => [] | nets => range_entries nets ISTIOREDIRECT ++ [["-j"; RETURN]] end.

Definition istio_output_entries (cfg : Config) (ex4 in4 in6 : NetworkRange) : list (list string) :=
  let loopback := HasLoopBackIP in4 || HasLoopBackIP in6 in
  ports_entries (split (OutboundPortsExclude cfg)) RETURN ++
  [["-o"; "lo"; "-s"; "127.0.0.6/32"; "-j"; RETURN]] ++
  concat (uid_entries cfg loopback <$> split (ProxyUID cfg)) ++
  concat (gid_entries cfg loopback <$> split (ProxyGID cfg)) ++
  group_entries (ParseInterceptFilter (OwnerGroupsInclude cfg) (OwnerGroupsExclude cfg)) ++
  dns_entries cfg ++
  [["-d"; "127.0.0.1/32"; "-j"; RETURN]] ++
  range_entries (IPNets ex4) RETURN ++
  ports_entries (split (OutboundPortsInclude cfg)) ISTIOREDIRECT ++
  include_entries in4.

Lemma split_empty s : s = "" → split s = [].
Proof. by intros ->. Qed.

(** steps that leave a list of entries as it is, or add to it *)
Lemma ents_if (q : bool) f b t c (es : list (list string)) :
  (∀ b, ents (f b) t c = ents b t c ++ es) → (q = true → es = []) →
  ents (if q then b else f b) t c = ents b t c ++ es.
Proof. intros Hf Hq. destruct q; [by rewrite Hq, app_nil_r|apply Hf]. Qed.

Lemma ents_uid cfg loopback uid b :
  ents (proxy_uid_rules cfg loopback uid b) NAT ISTIOOUTPUT = ents b NAT ISTIOOUTPUT ++ uid_entries cfg loopback uid.
Proof.
  unfold proxy_uid_rules, uid_entries. destruct (RedirectDNS cfg), loopback; ents_simpl;
    rewrite !entries_undefined, <-!app_assoc; done.
Qed.

Lemma ents_gid cfg loopback gid b :
  ents (proxy_gid_rules cfg loopback gid b) NAT ISTIOOUTPUT = ents b NAT ISTIOOUTPUT ++ gid_entries cfg loopback gid.
Proof.
  unfold proxy_gid_rules, gid_entries. destruct (RedirectDNS cfg), loopback; ents_simpl;
    rewrite !entries_undefined, <-!app_assoc; done.
Qed.

Lemma ents_group cfg f b :
  ents (handleCaptureByOwnerGroup cfg f b) NAT ISTIOOUTPUT = ents b NAT ISTIOOUTPUT ++ group_entries f.
Proof.
  unfold handleCaptureByOwnerGroup, group_entries. destruct (Except f).
  - apply ents_for_each. intros. ents_simpl. by rewrite entries_undefined.
  - ents_simpl. by rewrite entries_undefined.
Qed.

Lemma ents_tcp_dns cfg b :
  ents (tcp_dns_rules cfg b) NAT ISTIOOUTPUT = ents b NAT ISTIOOUTPUT ++ dns_entries cfg.
Proof.
  unfold tcp_dns_rules, dns_entries. destruct (RedirectDNS cfg); cbn [negb]; [|by rewrite app_nil_r].
  destruct (CaptureAllDNS cfg).
  - ents_simpl. by rewrite entries_undefined.
  - rewrite ents_for_each_same by (intros; by ents_simpl). apply ents_for_each. intros. ents_simpl.
    by rewrite entries_undefined.
Qed.

Lemma ents_ports cfg s target b :
  ents (if String.eqb s "" then b else for_each (split s) (λ port,
    AppendRule cfg UndefinedCommand ISTIOOUTPUT NAT ["-p"; TCP; "--dport"; port; "-j"; target]) b) NAT ISTIOOUTPUT =
  ents b NAT ISTIOOUTPUT ++ ports_entries (split s) target.
Proof.
  apply (ents_if _ (λ b, for_each (split s) _ b)).
  - intros b'. apply ents_for_each. intros. ents_simpl. by rewrite entries_undefined.
  - intros ->%String.eqb_eq. done.
Qed.

Lemma ents_include4 cfg r b :
  ents (handleOutboundIncludeRules cfg r (AppendRuleV4 cfg) (InsertRuleV4 cfg) b) NAT ISTIOOUTPUT =
  ents b NAT ISTIOOUTPUT ++ include_entries r.
Proof.
  unfold handleOutboundIncludeRules, include_entries. destruct (IsWildcard r).
  - ents_simpl. by rewrite entries_undefined.
  - destruct (IPNets r) as [|n nets]; [by rewrite app_nil_r|]. cbv zeta. rewrite ents_append4.
    rewrite (ents_for_each _ _ (λ n, [["-d"; net_string n; "-j"; ISTIOREDIRECT]])).
    + ents_same_chain. rewrite entries_undefined. by rewrite <-app_assoc.
    + intros. rewrite ents_append4. rewrite ents_for_each_same by (intros; by ents_simpl).
      ents_same_chain. by rewrite entries_undefined.
Qed.

Lemma ents_include6 cfg r b c :
  ents (handleOutboundIncludeRules cfg r (AppendRuleV6 cfg) (InsertRuleV6 cfg) b) NAT c = ents b NAT c.
Proof.
  unfold handleOutboundIncludeRules. destruct (IsWildcard r); [by ents_simpl|].
  destruct (IPNets r); [done|]. ents_simpl. reflexivity.
Qed.

Lemma ents_ports_other cfg command t0 ch s target b c :
  same_chain t0 ch NAT c = false →
  ents (if String.eqb s "" then b else for_each (split s) (λ port,
    AppendRule cfg command ch t0 ["-p"; TCP; "--dport"; port; "-j"; target]) b) NAT c = ents b NAT c.
Proof.
  intros Hs. destruct (String.eqb s ""); [done|]. apply ents_for_each_same. intros.
  by rewrite ents_append, Hs, app_nil_r.
Qed.

Lemma ents_outbound cfg ex4 ex6 in4 in6 b :
  ents (outbound_rules cfg ex4 ex6 in4 in6 b) NAT ISTIOOUTPUT =
  ents b NAT ISTIOOUTPUT ++ istio_output_entries cfg ex4 in4 in6.
Proof.
  unfold outbound_rules, istio_output_entries, handleOutboundPortsInclude. cbv zeta.
  rewrite ents_include6, ents_include4, ents_ports.
  rewrite ents_for_each_same by (intros; by ents_simpl).
  rewrite (ents_for_each _ _ (λ n, [["-d"; net_string n; "-j"; RETURN]]))
    by (intros; ents_simpl; by rewrite entries_undefined).
  rewrite ents_versioned, ents_tcp_dns, ents_group.
  rewrite (ents_for_each _ _ _ _ _ _ (ents_gid cfg _)), (ents_for_each _ _ _ _ _ _ (ents_uid cfg _)).
  rewrite ents_versioned, ents_ports, ents_append. ents_same_chain. rewrite !entries_undefined.
  by rewrite <-!app_assoc.
Qed.

Lemma ents_outbound_output cfg ex4 ex6 in4 in6 b :
  ents (outbound_rules cfg ex4 ex6 in4 in6 b) NAT OUTPUT =
  ents b NAT OUTPUT ++ entries cfg JumpOutbound ["-p"; TCP; "-j"; ISTIOOUTPUT].
Proof.
  unfold outbound_rules, handleOutboundPortsInclude. cbv zeta. rewrite ents_include6.
  assert (∀ b, ents (handleOutboundIncludeRules cfg in4 (AppendRuleV4 cfg) (InsertRuleV4 cfg) b) NAT OUTPUT = ents b NAT OUTPUT) as ->.
  { intros b'. unfold handleOutboundIncludeRules. destruct (IsWildcard in4); [by ents_simpl|].
    destruct (IPNets in4); [done|]. by ents_simpl. }
  rewrite ents_ports_other by done. ents_simpl. unfold tcp_dns_rules, handleCaptureByOwnerGroup.
  destruct (negb (RedirectDNS cfg)), (CaptureAllDNS cfg), (Except _); ents_simpl; done.
Qed.

Lemma ents_outbound_redirect cfg ex4 ex6 in4 in6 b :
  ents (outbound_rules cfg ex4 ex6 in4 in6 b) NAT ISTIOREDIRECT = ents b NAT ISTIOREDIRECT.
Proof.
  unfold outbound_rules, handleOutboundPortsInclude. cbv zeta. rewrite ents_include6.
  assert (∀ b, ents (handleOutboundIncludeRules cfg in4 (AppendRuleV4 cfg) (InsertRuleV4 cfg) b) NAT ISTIOREDIRECT = ents b NAT ISTIOREDIRECT) as ->.
  { intros b'. unfold handleOutboundIncludeRules. destruct (IsWildcard in4); [by ents_simpl|].
    destruct (IPNets in4); [done|]. by ents_simpl. }
  rewrite ents_ports_other by done. ents_simpl. unfold tcp_dns_rules, handleCaptureByOwnerGroup.
  destruct (negb (RedirectDNS cfg)), (CaptureAllDNS cfg), (Except _); ents_simpl; done.
Qed.

(** the DNS rules only append entries for UDP *)
Definition is_udp (e : list string) : Prop := ∃ m t, entry_parts e = ("-p" :: "udp" :: m, t).

Definition grows_udp (c : string) (h h' : host) : Prop :=
  ∃ D, ents (h_iptables h') NAT c = ents (h_iptables h) NAT c ++ D ∧ Forall is_udp D.

#[local] Instance grows_udp_preorder c : PreOrder (grows_udp c).
Proof.
  split; [intros h; exists []; by rewrite app_nil_r|].
  intros h1 h2 h3 (D & E & H) (D' & E' & H'). exists (D ++ D').
  rewrite E', E, <-app_assoc. split; [done|]. by apply Forall_app.
Qed.

Lemma grows_udp_for_each {A} c (xs : list A) f h : (∀ x h, grows_udp c h (f x h)) → grows_udp c h (for_each xs f h).
Proof.
  intros Hf. unfold for_each. revert h. induction xs as [|x xs IH]; intros h; simpl; [reflexivity|].
  etransitivity; [apply (Hf x h)|apply IH].
Qed.

Lemma grows_udp_v4 cfg c f args h : ua_ops f = AppendOps → is_udp args → grows_udp c h (RunV4 cfg f args h).
Proof.
  intros Hf Ha. unfold RunV4. rewrite Hf. unfold grows_udp. cbn [h_iptables]. rewrite ents_append4, entries_undefined.
  eexists. split; [reflexivity|]. destruct (same_chain _ _ _ _); by repeat constructor.
Qed.

Lemma grows_udp_v6 cfg c f args h : ua_ops f = AppendOps → grows_udp c h (RunV6 cfg f args h).
Proof.
  intros Hf. unfold RunV6. rewrite Hf. unfold grows_udp. cbn [h_iptables]. rewrite ents_append6.
  exists []. by rewrite app_nil_r.
Qed.

Lemma grows_udp_both cfg c f args h : ua_ops f = AppendOps → is_udp args → grows_udp c h (RunBoth cfg f args h).
Proof. intros Hf Ha. unfold RunBoth. etransitivity; [by apply grows_udp_v4|by apply grows_udp_v6]. Qed.

Lemma is_udp_cons r : is_udp ("-p" :: "udp" :: r).
Proof. unfold is_udp. cbn. destruct (entry_parts r) as [m t]. by exists m, t. Qed.

Ltac grow := repeat first
  [ reflexivity
  | apply grows_udp_both; [reflexivity|apply is_udp_cons]
  | apply grows_udp_v4; [reflexivity|apply is_udp_cons]
  | apply grows_udp_v6; reflexivity
  | etransitivity; [|apply grows_udp_both; [reflexivity|apply is_udp_cons]]
  | etransitivity; [|apply grows_udp_v4; [reflexivity|apply is_udp_cons]]
  | etransitivity; [|apply grows_udp_v6; reflexivity]
  | etransitivity; [|apply grows_udp_for_each; intros; solve [grow]] ].

Lemma HandleDNSUDP_grows cfg c cmd uid gid v4 v6 (all : bool) f h :
  grows_udp c h (HandleDNSUDP cfg AppendOps cmd uid gid v4 v6 all f h).
Proof.
  unfold HandleDNSUDP, addConntrackZoneDNSUDP, WithTable, WithChain. cbv zeta. cbn [ua_ops ua_table ua_chain ua_cmd].
  destruct all, (Except f); grow.
Qed.

Lemma ents_udp_dns cfg b c : ∃ D, ents (udp_dns_rules cfg b) NAT c = ents b NAT c ++ D ∧ Forall is_udp D.
Proof.
  unfold udp_dns_rules. destruct (negb (RedirectDNS cfg)); [exists []; by rewrite app_nil_r|].
  exact (HandleDNSUDP_grows cfg c _ _ _ _ _ _ _ (mk_host b [])).
Qed.

(** ** The chains after [Run] *)

Lemma run_chain cfg ex4 ex6 in4 in6 c : outbound_chain c →
  ∃ D, Forall is_udp D ∧ ents (run_rules cfg ex4 ex6 in4 in6) NAT c =
    (if String.eqb c OUTPUT then
       concat ((λ i, entries cfg ExcludeInterfaceCommand ["-o"; i; "-j"; RETURN]) <$> split (ExcludeInterfaces cfg)) ++
       entries cfg JumpOutbound ["-p"; TCP; "-j"; ISTIOOUTPUT]
     else if String.eqb c ISTIOOUTPUT then istio_output_entries cfg ex4 in4 in6
     else [["-p"; TCP; "-j"; REDIRECT; "--to-ports"; ProxyPort cfg]]) ++ D.
Proof.
  intros Hc. unfold run_rules. cbv zeta. rewrite ents_tproxy by done.
  destruct (ents_udp_dns cfg (outbound_rules cfg ex4 ex6 in4 in6 (handleInboundPortsInclude cfg
    (AppendRule cfg InboundCapture ISTIOINREDIRECT NAT ["-p"; TCP; "-j"; REDIRECT; "--to-ports"; InboundCapturePort cfg]
    (AppendRule cfg UndefinedCommand ISTIOREDIRECT NAT ["-p"; TCP; "-j"; REDIRECT; "--to-ports"; ProxyPort cfg]
    (AppendRule cfg UndefinedCommand ISTIOINBOUND NAT ["-p"; TCP; "--dport"; InboundTunnelPort cfg; "-j"; RETURN]
    (if DropInvalid cfg then
      AppendRule cfg UndefinedCommand PREROUTING MANGLE ["-m"; "conntrack"; "--ctstate"; "INVALID"; "-j"; DROP]
        (shortCircuitKubeInternalInterface cfg (shortCircuitExcludeInterfaces cfg NewIptablesBuilder))
     else shortCircuitKubeInternalInterface cfg (shortCircuitExcludeInterfaces cfg NewIptablesBuilder))))))) c)
    as (D & -> & HD).
  exists D. split; [done|]. f_equal.
  assert (∀ b, ents (if DropInvalid cfg then
      AppendRule cfg UndefinedCommand PREROUTING MANGLE ["-m"; "conntrack"; "--ctstate"; "INVALID"; "-j"; DROP] b else b) NAT c
    = ents b NAT c) as Hdrop by (intros b; destruct (DropInvalid cfg), Hc; by ents_simpl).
  destruct Hc; [rewrite ents_outbound_output|rewrite ents_outbound|rewrite ents_outbound_redirect];
    rewrite ents_inbound by constructor; ents_simpl; rewrite Hdrop, ents_kube, ents_exclude by constructor;
    rewrite ?entries_undefined; reflexivity.
Qed.

(** ** The verdict on outgoing traffic *)

Section Outbound.
Context {P : Type} `{Netfilter P}.
Variable p : P.

(** the owner's group keeps the packet out *)
Definition group_excluded (f : InterceptFilter) : bool :=
  if Except f then existsb (gid_is p) (Values f) else forallb (λ g, negb (gid_is p g)) (Values f).

Definition dns_captured (cfg : Config) : bool :=
  RedirectDNS cfg && dport_is p "53" &&
  (CaptureAllDNS cfg || existsb (λ s, dst_in p (s +:+ "/32")) (DNSServersV4 cfg)).

Definition in_range (nets : list IPNet) : bool := existsb (λ n, dst_in p (net_string n)) nets.

(** what the configuration asks for *)
Definition outbound_spec (cfg : Config) (ex4 in4 : NetworkRange) : verdict :=
  if existsb (out_is p) (split (ExcludeInterfaces cfg)) ||
     existsb (dport_is p) (split (OutboundPortsExclude cfg)) ||
     existsb (uid_is p) (split (ProxyUID cfg)) || existsb (gid_is p) (split (ProxyGID cfg)) ||
     group_excluded (ParseInterceptFilter (OwnerGroupsInclude cfg) (OwnerGroupsExclude cfg))
  then VAccept
  else if dns_captured cfg then VRedirect IstioAgentDNSListenerPort
  else if dst_in p "127.0.0.1/32" || in_range (IPNets ex4) then VAccept
  else if existsb (dport_is p) (split (OutboundPortsInclude cfg)) || IsWildcard in4 || in_range (IPNets in4)
  then VRedirect (ProxyPort cfg)
  else VAccept.

Variable chains : string → list (list string).
Hypothesis p_tcp : proto_is p TCP = true.
Hypothesis p_udp : proto_is p "udp" = false.

Lemma walk_udp fuel D : Forall is_udp D → walk chains p fuel D = NoMatch.
Proof.
  induction 1 as [|e D (m & t & He) HD IH]; [apply walk_nil|]. rewrite walk_cons, IH.
  destruct fuel; cbn [walk]; rewrite He, matches_proto, p_udp; done.
Qed.

(** entries whose target is NFLOG, or that have none, are passed *)
Lemma entry_parts_nflog pre id :
  "-j" ∉ pre →
  let t := (entry_parts (pre ++ ["-j"; "NFLOG"; "--nflog-prefix"; quoted id; "--nflog-group"; "1337"; "--nflog-size"; "20"])).2 in
  t = [] ∨ ∃ opts, t = "NFLOG" :: opts.
Proof.
  remember (length pre) as n eqn:Hn. revert pre Hn. induction (lt_wf n) as [n _ IH]. intros pre -> Hpre.
  destruct pre as [|x pre]; [right; by eexists|]. apply not_elem_of_cons in Hpre as [Hx Hpre]. cbn [app entry_parts].
  destruct (String.eqb_spec x "-j"); [congruence|]. destruct (String.eqb_spec x "!").
  - pose proof (IH (length pre) ltac:(simpl; lia) pre eq_refl Hpre) as HH.
    by destruct (entry_parts (pre ++ _)).
  - destruct pre as [|y pre]; [left; reflexivity|]. apply not_elem_of_cons in Hpre as [Hy Hpre]. cbn [app].
    pose proof (IH (length pre) ltac:(simpl; lia) pre eq_refl Hpre) as HH.
    by destruct (entry_parts (pre ++ _)).
Qed.

Lemma indexOf_take x l i : indexOf x l = Some i → x ∉ take i l.
Proof.
  revert i. induction l as [|y l IH]; intros i; simpl; [done|]. destruct (String.eqb_spec x y) as [->|Hne].
  - intros [= <-]. apply not_elem_of_nil.
  - destruct (indexOf x l) as [j|]; [|done]. intros [= <-]. simpl. apply not_elem_of_cons. split; [done|by apply IH].
Qed.

Lemma walk_trace fuel cfg command ps : walk chains p fuel (trace_entries cfg command ps) = NoMatch.
Proof.
  unfold trace_entries, trace_rule. destruct (indexOf "-j" ps) as [i|] eqn:Hi; [|apply walk_nil].
  destruct (_ && _); [|apply walk_nil]. cbn [fmap list_fmap params app].
  pose proof (entry_parts_nflog (take i ps) (Identifier command) (indexOf_take _ _ _ Hi)) as Ht.
  destruct (entry_parts (take i ps ++ _)) as [m t] eqn:E.
  destruct fuel; cbn [walk]; rewrite E; destruct (matches p m); try done; cbn in Ht;
    destruct Ht as [->|[opts ->]]; done.
Qed.

Lemma walk_entries fuel cfg command ps : walk chains p fuel (entries cfg command ps) = walk chains p fuel [ps].
Proof. unfold entries. by rewrite walk_app, walk_trace. Qed.

Hypothesis p_lo : out_is p "lo" = false.

(** the ISTIO_REDIRECT chain sends the packet to the proxy *)
Variable proxy : string.
Hypothesis redirect_chain : ∀ fuel, walk chains p fuel (chains ISTIOREDIRECT) = Hit (VRedirect proxy).

Ltac options := repeat first
  [ rewrite matches_proto | rewrite matches_dport | rewrite matches_not_dport | rewrite matches_out
  | rewrite matches_dst | rewrite matches_owner | rewrite matches_uid | rewrite matches_gid | rewrite matches_nil
  | rewrite p_tcp | rewrite p_lo | rewrite andb_true_r | rewrite andb_false_l ]; cbn [andb negb].

Lemma walk_lo fuel e m t : entry_parts e = ("-o" :: "lo" :: m, t) → walk chains p fuel [e] = NoMatch.
Proof. intros E. apply (walk_no_match _ _ _ _ _ _ E). by options. Qed.

Ltac lo_entry := eapply walk_lo; reflexivity.

Lemma walk_ports_return fuel ports :
  walk chains p fuel (ports_entries ports RETURN) = if existsb (dport_is p) ports then Returned else NoMatch.
Proof. apply walk_concat; [done|]. intros port. erewrite walk_return by reflexivity. by options. Qed.

Lemma walk_ports_redirect fuel ports :
  walk chains p (S fuel) (ports_entries ports ISTIOREDIRECT) = if existsb (dport_is p) ports then Hit (VRedirect proxy) else NoMatch.
Proof.
  apply walk_concat; [done|]. intros port. erewrite walk_jump by reflexivity. rewrite redirect_chain. by options.
Qed.

Lemma walk_ranges_return fuel nets :
  walk chains p fuel (range_entries nets RETURN) = if in_range nets then Returned else NoMatch.
Proof. apply walk_concat; [done|]. intros n. erewrite walk_return by reflexivity. by options. Qed.

Lemma walk_ranges_redirect fuel nets :
  walk chains p (S fuel) (range_entries nets ISTIOREDIRECT) = if in_range nets then Hit (VRedirect proxy) else NoMatch.
Proof.
  apply walk_concat; [done|]. intros n. erewrite walk_jump by reflexivity. rewrite redirect_chain. by options.
Qed.

Lemma walk_uids fuel cfg loopback uids :
  walk chains p fuel (concat (uid_entries cfg loopback <$> uids)) = if existsb (uid_is p) uids then Returned else NoMatch.
Proof.
  apply walk_concat; [done|]. intros uid. unfold uid_entries. rewrite !walk_app.
  replace (walk chains p fuel [_]) with NoMatch at 1 by (symmetry; destruct (RedirectDNS cfg); lo_entry).
  replace (walk chains p fuel (if loopback then [] else _)) with NoMatch
    by (symmetry; destruct loopback; [apply walk_nil|destruct (RedirectDNS cfg); lo_entry]).
  erewrite walk_return by reflexivity. by options.
Qed.

Lemma walk_gids fuel cfg loopback gids :
  walk chains p fuel (concat (gid_entries cfg loopback <$> gids)) = if existsb (gid_is p) gids then Returned else NoMatch.
Proof.
  apply walk_concat; [done|]. intros gid. unfold gid_entries. rewrite !walk_app.
  replace (walk chains p fuel [_]) with NoMatch at 1 by (symmetry; lo_entry).
  replace (walk chains p fuel (if loopback then [] else _)) with NoMatch
    by (symmetry; destruct loopback; [apply walk_nil|destruct (RedirectDNS cfg); lo_entry]).
  erewrite walk_return by reflexivity. by options.
Qed.

Lemma none_of_parts gs :
  entry_parts (group_is_none_of gs ++ ["-j"; RETURN]) = (group_is_none_of gs, [RETURN]) ∧
  matches p (group_is_none_of gs) = forallb (λ g, negb (gid_is p g)) gs.
Proof.
  induction gs as [|g gs [IH1 IH2]]; [split; [reflexivity|apply matches_nil]|].
  change (group_is_none_of (g :: gs)) with (["-m"; "owner"; "!"; "--gid-owner"; g] ++ group_is_none_of gs).
  split.
  - cbn. by rewrite IH1.
  - cbn [app forallb]. by rewrite matches_owner, matches_not_gid, IH2.
Qed.

Lemma walk_groups fuel f :
  walk chains p fuel (group_entries f) = if group_excluded f then Returned else NoMatch.
Proof.
  unfold group_entries, group_excluded. destruct (Except f).
  - apply walk_concat; [done|]. intros g. erewrite walk_return by reflexivity. by options.
  - destruct (none_of_parts (Values f)) as [E <-]. by apply walk_return.
Qed.

Lemma walk_dns fuel cfg :
  walk chains p fuel (dns_entries cfg) = if dns_captured cfg then Hit (VRedirect IstioAgentDNSListenerPort) else NoMatch.
Proof.
  unfold dns_entries, dns_captured. destruct (RedirectDNS cfg); cbn [negb andb]; [|apply walk_nil].
  destruct (CaptureAllDNS cfg); cbn [orb].
  - erewrite walk_redirect by reflexivity. by options.
  - rewrite (walk_concat _ _ _ _ (λ s, dport_is p "53" && dst_in p (s +:+ "/32")) (Hit (VRedirect IstioAgentDNSListenerPort))); [|done|].
    + destruct (dport_is p "53"); simpl; [done|]. by induction (DNSServersV4 cfg).
    + intros s. erewrite walk_redirect by reflexivity. by options.
Qed.

Lemma walk_include fuel r :
  walk chains p (S fuel) (include_entries r) =
  if IsWildcard r || in_range (IPNets r) then Hit (VRedirect proxy)
  else match IPNets r with [] => NoMatch | _ => Returned end.
Proof.
  unfold include_entries. destruct (IsWildcard r); cbn [orb].
  - erewrite walk_jump by reflexivity. rewrite redirect_chain. by options.
  - destruct (IPNets r) as [|n nets] eqn:E; [apply walk_nil|]. rewrite walk_app, walk_ranges_redirect.
    destruct (in_range (n :: nets)); [done|]. erewrite walk_return by reflexivity. by options.
Qed.
End Outbound.

(** the chain ISTIO_OUTPUT gives the verdict of the specification, or none *)
Lemma walk_istio_output `{Netfilter P} (p : P) chains proxy fuel cfg ex4 in4 in6 :
  proto_is p TCP = true → out_is p "lo" = false →
  (∀ fuel, walk chains p fuel (chains ISTIOREDIRECT) = Hit (VRedirect proxy)) →
  walk chains p (S fuel) (istio_output_entries cfg ex4 in4 in6) =
  if existsb (dport_is p) (split (OutboundPortsExclude cfg)) ||
     existsb (uid_is p) (split (ProxyUID cfg)) || existsb (gid_is p) (split (ProxyGID cfg)) ||
     group_excluded p (ParseInterceptFilter (OwnerGroupsInclude cfg) (OwnerGroupsExclude cfg)) then Returned
  else if dns_captured p cfg then Hit (VRedirect IstioAgentDNSListenerPort)
  else if dst_in p "127.0.0.1/32" || in_range p (IPNets ex4) then Returned
  else if existsb (dport_is p) (split (OutboundPortsInclude cfg)) || IsWildcard in4 || in_range p (IPNets in4)
  then Hit (VRedirect proxy)
  else match IPNets in4 with [] => NoMatch | _ => Returned end.
Proof.
  intros Htcp Hlo Hred. unfold istio_output_entries. cbv zeta. rewrite !walk_app.
  rewrite walk_ports_return, walk_uids, walk_gids, walk_groups, walk_dns, walk_ranges_return by done.
  rewrite (walk_ports_redirect p chains Htcp proxy Hred), (walk_include p chains proxy Hred).
  rewrite (walk_lo p chains Hlo _ ["-o"; "lo"; "-s"; "127.0.0.6/32"; "-j"; RETURN] ["-s"; "127.0.0.6/32"] [RETURN]) by reflexivity.
  rewrite (walk_return chains p _ ["-d"; "127.0.0.1/32"; "-j"; RETURN] ["-d"; "127.0.0.1/32"]) by reflexivity.
  rewrite matches_dst, matches_nil, andb_true_r.
  repeat match goal with |- context [existsb ?f ?l] => destruct (existsb f l); cbn [orb]; try done end.
  all: destruct (group_excluded _ _); cbn [orb]; try done.
  all: destruct (dns_captured _ _); try done.
  all: destruct (dst_in _ _); cbn [orb]; try done.
  all: destruct (in_range _ (IPNets ex4)); done.
Qed.

(** ** The verdict on incoming traffic *)

Inductive inbound_chain : string → Prop :=
  | ic_prerouting : inbound_chain PREROUTING
  | ic_inbound : inbound_chain ISTIOINBOUND
  | ic_redirect : inbound_chain ISTIOINREDIRECT.

Section Inbound.
Context {P : Type} `{Netfilter P}.
Variable p : P.

(** what the configuration asks for, when TPROXY is not used *)
Definition inbound_spec (cfg : Config) : verdict :=
  if existsb (in_is p) (split (ExcludeInterfaces cfg)) || String.eqb (InboundPortsInclude cfg) "" ||
     dport_is p (InboundTunnelPort cfg) then VAccept
  else if String.eqb (InboundPortsInclude cfg) "*" then
    if existsb (dport_is p) (split (InboundPortsExclude cfg)) then VAccept else VRedirect (InboundCapturePort cfg)
  else if existsb (dport_is p) (split (InboundPortsInclude cfg)) then VRedirect (InboundCapturePort cfg)
  else VAccept.

(** chains through which the packet walks alike *)
Definition weq (a b : list (list string)) : Prop := ∀ chains fuel, walk chains p fuel a = walk chains p fuel b.

#[export] Instance weq_equivalence : Equivalence weq.
Proof. split; [done|intros a b Hab chains fuel; by rewrite Hab|intros a b c Hab Hbc chains fuel; by rewrite Hab]. Qed.

#[export] Instance weq_app : Proper (weq ==> weq ==> weq) app.
Proof. intros a a' Ha b b' Hb chains fuel. by rewrite !walk_app, Ha, Hb. Qed.

Lemma place_insert l ch pos e :
  (∀ chains fuel, walk chains p fuel [e] = NoMatch) → weq (place l (["-I"; ch; pos] ++ e)) l.
Proof.
  intros He chains fuel. unfold place. cbn [app].
  change (String.eqb "-I" "-A") with false. cbv iota zeta. set (n := _ - 1).
  rewrite walk_app, walk_cons, He, <-walk_app. by rewrite take_drop.
Qed.

Lemma place_inserts l ch pos es :
  Forall (λ e, ∀ chains fuel, walk chains p fuel [e] = NoMatch) es →
  weq (foldl place l ((λ e, ["-I"; ch; pos] ++ e) <$> es)) l.
Proof.
  intros Hes. revert l. induction Hes as [|e es He Hes IH]; intros l; [done|].
  cbn [fmap list_fmap foldl]. rewrite IH. by apply place_insert.
Qed.

(** inserting a rule that the packet does not match *)
Lemma ents_insert4 cfg command ch tb pos ps b t c :
  (∀ chains fuel, walk chains p fuel [ps] = NoMatch) →
  weq (ents (InsertRuleV4 cfg command ch tb pos ps b) t c) (ents b t c).
Proof.
  intros Hps. unfold ents, InsertRuleV4, insertInternal. cbn [rulesv4]. rewrite chain_of_app, (filter_chain_all _ ch tb).
  - destruct (same_chain tb ch t c); [|done]. rewrite fmap_app, trace_rule_head.
    change (params <$> [mk_rule ch tb (["-I"; ch; Itoa pos] ++ ps)]) with ((λ e, ["-I"; ch; Itoa pos] ++ e) <$> [ps]).
    rewrite <-fmap_app. apply place_inserts. constructor; [done|].
    pose proof (λ chains fuel, walk_trace p chains fuel cfg command ps) as Ht.
    unfold trace_entries in Ht |- *. destruct (trace_rule cfg command "" "" [] ps) as [|r [|r' l]] eqn:E; [constructor|by repeat constructor|].
    unfold trace_rule in E. repeat case_match; simplify_eq.
  - intros r [Hr|Hr]%elem_of_app; [by apply list_elem_of_singleton in Hr as ->|by apply trace_rule_in in Hr].
Qed.

Lemma ents_for_each_weq {A} (xs : list A) f b t c :
  (∀ x b, x ∈ xs → weq (ents (f x b) t c) (ents b t c)) → weq (ents (for_each xs f b) t c) (ents b t c).
Proof.
  intros Hf. unfold for_each. revert b. induction xs as [|x xs IH]; intros b; [done|]. cbn [foldl].
  rewrite IH by (intros; apply Hf; by right). apply Hf. left.
Qed.

Variable cfg : Config.
Hypothesis p_kube : Forall (λ i, in_is p i = false) (split (KubeVirtInterfaces cfg)).

Lemma walk_kube i r t e chains fuel :
  i ∈ split (KubeVirtInterfaces cfg) → entry_parts e = ("-i" :: i :: r, t) → walk chains p fuel [e] = NoMatch.
Proof.
  intros Hi E. apply (walk_no_match _ _ _ _ _ _ E). rewrite Forall_forall in p_kube.
  by rewrite matches_in, (p_kube i Hi).
Qed.

Lemma ents_kube_in b c : weq (ents (shortCircuitKubeInternalInterface cfg b) NAT c) (ents b NAT c).
Proof.
  unfold shortCircuitKubeInternalInterface, InsertRule. apply ents_for_each_weq. intros i b' Hi.
  rewrite ents_insert6. apply ents_insert4. intros. by eapply walk_kube.
Qed.

Lemma ents_include4_in r b c : inbound_chain c →
  weq (ents (handleOutboundIncludeRules cfg r (AppendRuleV4 cfg) (InsertRuleV4 cfg) b) NAT c) (ents b NAT c).
Proof.
  intros Hc. unfold handleOutboundIncludeRules.
  assert (∀ ps b', ents (AppendRuleV4 cfg UndefinedCommand ISTIOOUTPUT NAT ps b') NAT c = ents b' NAT c) as Ha.
  { intros. destruct Hc; by ents_simpl. }
  destruct (IsWildcard r); cbv zeta.
  - rewrite ents_for_each_weq; [by rewrite Ha|]. intros i b' Hi. apply ents_insert4. intros. by eapply walk_kube.
  - destruct (IPNets r) as [|n nets]; [done|]. rewrite Ha. apply ents_for_each_weq. intros n' b' _. rewrite Ha.
    apply ents_for_each_weq. intros i b'' Hi. apply ents_insert4. intros. by eapply walk_kube.
Qed.

Lemma ents_outbound_in ex4 ex6 in4 in6 b c : inbound_chain c →
  weq (ents (outbound_rules cfg ex4 ex6 in4 in6 b) NAT c) (ents b NAT c).
Proof.
  intros Hc. unfold outbound_rules. cbv zeta. rewrite ents_include6, ents_include4_in by done.
  match goal with |- weq ?x ?y => assert (x = y) as ->; [|done] end.
  unfold handleOutboundPortsInclude, tcp_dns_rules, handleCaptureByOwnerGroup.
  destruct (negb (RedirectDNS cfg)), (CaptureAllDNS cfg), (Except _), Hc; ents_simpl; done.
Qed.
End Inbound.

(** ** Properties *)

(** the verdict of the rules for an outgoing TCP packet *)
Lemma outbound_verdict `{Netfilter P} cfg ex4 ex6 in4 in6 (p : P) :
  proto_is p TCP = true → proto_is p "udp" = false → out_is p "lo" = false →
  nat_verdict (rulesv4 (run_rules cfg ex4 ex6 in4 in6)) OUTPUT p = outbound_spec p cfg ex4 in4.
Proof.
  intros Htcp Hudp Hlo. unfold nat_verdict. set (b := run_rules cfg ex4 ex6 in4 in6).
  destruct (run_chain cfg ex4 ex6 in4 in6 ISTIOREDIRECT) as (Dr & HDr & Er); [constructor|].
  destruct (run_chain cfg ex4 ex6 in4 in6 ISTIOOUTPUT) as (Di & HDi & Ei); [constructor|].
  destruct (run_chain cfg ex4 ex6 in4 in6 OUTPUT) as (Do & HDo & Eo); [constructor|].
  unfold ents in Er, Ei, Eo. fold b in Er, Ei, Eo.
  change (String.eqb OUTPUT OUTPUT) with true in Eo. change (String.eqb ISTIOOUTPUT OUTPUT) with false in Ei.
  change (String.eqb ISTIOOUTPUT ISTIOOUTPUT) with true in Ei. change (String.eqb ISTIOREDIRECT OUTPUT) with false in Er.
  change (String.eqb ISTIOREDIRECT ISTIOOUTPUT) with false in Er. cbv iota in Er, Ei, Eo.
  assert (∀ fuel, walk (chain_of (rulesv4 b) NAT) p fuel (chain_of (rulesv4 b) NAT ISTIOREDIRECT) = Hit (VRedirect (ProxyPort cfg))) as Hred.
  { intros fuel. rewrite Er, walk_app. erewrite walk_redirect by reflexivity. by rewrite matches_proto, matches_nil, Htcp. }
  rewrite Eo. rewrite !walk_app.
  rewrite (walk_concat _ _ _ _ (out_is p) Returned); [|done|]; cycle 1.
  { intros i. rewrite walk_entries. erewrite walk_return by reflexivity. by rewrite matches_out, matches_nil, andb_true_r. }
  rewrite walk_entries. erewrite walk_jump by reflexivity. rewrite matches_proto, matches_nil, Htcp. cbn [andb].
  rewrite Ei, walk_app, (walk_istio_output p _ (ProxyPort cfg)) by done. rewrite !walk_udp by done.
  unfold outbound_spec. destruct (existsb (out_is p) _); [done|]. cbn [orb].
  repeat case_match; simplify_eq; done.
Qed.


(** packets for the witnesses *)
Module NetExample.
Record packet := { pk_proto : string; pk_dport : string; pk_out : string; pk_in : string;
  pk_src : string; pk_dst : string; pk_uid : string; pk_gid : string }.

Definition in_cidr (addr cidr : string) : bool :=
  match ParseCIDR cidr, ParseIP addr with Some (_, n), Some ip => net_contains n ip | _, _ => false end.

Definition option_matches (p : packet) (o v : string) : bool :=
  if String.eqb o "-p" then String.eqb (pk_proto p) v
  else if String.eqb o "--dport" then String.eqb (pk_dport p) v
  else if String.eqb o "-o" then String.eqb (pk_out p) v
  else if String.eqb o "-i" then String.eqb (pk_in p) v
  else if String.eqb o "-s" then in_cidr (pk_src p) v
  else if String.eqb o "-d" then in_cidr (pk_dst p) v
  else if String.eqb o "--uid-owner" then String.eqb (pk_uid p) v
  else if String.eqb o "--gid-owner" then String.eqb (pk_gid p) v
  else true.

Fixpoint packet_matches (p : packet) (e : list string) : bool :=
  match e with
  | [] => true
  | o :: r =>
      if String.eqb o "!" then
        match r with o :: v :: r => negb (option_matches p o v) && packet_matches p r | _ => false end
      else match r with v :: r => option_matches p o v && packet_matches p r | [] => false end
  end.

#[global] Instance netfilter : Netfilter packet.
Proof.
  refine {| matches := packet_matches; proto_is p x := String.eqb (pk_proto p) x;
    dport_is p x := String.eqb (pk_dport p) x; out_is p x := String.eqb (pk_out p) x;
    in_is p x := String.eqb (pk_in p) x; src_in p x := in_cidr (pk_src p) x; dst_in p x := in_cidr (pk_dst p) x;
    uid_is p x := String.eqb (pk_uid p) x; gid_is p x := String.eqb (pk_gid p) x |}; intros; reflexivity.
Defined.

(** capture everything but port 9090, run the proxy as user 1337 *)
Definition cfg : Config := {| ProxyPort := "15001"; InboundCapturePort := "15006"; InboundTunnelPort := "15008";
  ProxyUID := "1337"; ProxyGID := "1337"; InboundInterceptionMode := "REDIRECT"; InboundTProxyMark := "1337";
  InboundTProxyRouteTable := "133"; InboundPortsInclude := "*"; InboundPortsExclude := "15090"; OwnerGroupsInclude := "*";
  OwnerGroupsExclude := ""; OutboundPortsInclude := ""; OutboundPortsExclude := "9090"; OutboundIPRangesInclude := "*";
  OutboundIPRangesExclude := "10.9.0.0/16"; KubeVirtInterfaces := "tap0"; ExcludeInterfaces := "eth9"; IptablesProbePort := 15002;
  ProbeTimeout := 5000000000; DryRun := false; RestoreFormat := false; SkipRuleApply := false; RunValidation := false; RedirectDNS := true; DropInvalid := false; CaptureAllDNS := false;
  EnableInboundIPv6 := false; DNSServersV4 := ["10.0.0.2"]; DNSServersV6 := []; OutputPath := ""; NetworkNamespace := "";
  CNIMode := false; TraceLogging := true |}.

Definition out_packet (uid dst port : string) : packet := {| pk_proto := "tcp"; pk_dport := port; pk_out := "eth0";
  pk_in := ""; pk_src := "10.0.0.7"; pk_dst := dst; pk_uid := uid; pk_gid := uid |}.
Definition in_packet (port : string) : packet := {| pk_proto := "tcp"; pk_dport := port; pk_out := "";
  pk_in := "eth0"; pk_src := "10.0.0.9"; pk_dst := "10.0.0.7"; pk_uid := ""; pk_gid := "" |}.

Definition rules : list Rule :=
  rulesv4 (run_rules cfg (separateV4V6 (OutboundIPRangesExclude cfg)).1 no_range wildcard wildcard).
End NetExample.


(** the entries the configurator adds to the chains of incoming traffic *)
Definition inbound_entries (cfg : Config) (c : string) : list (list string) :=
  if String.eqb (InboundPortsInclude cfg) "" then [] else
  if String.eqb c PREROUTING then entries cfg JumpInbound ["-p"; TCP; "-j"; ISTIOINBOUND]
  else if String.eqb c ISTIOINBOUND then
    if String.eqb (InboundPortsInclude cfg) "*" then
      concat ((λ port, entries cfg ExcludeInboundPort ["-p"; TCP; "--dport"; port; "-j"; RETURN])
        <$> split (InboundPortsExclude cfg)) ++ [["-p"; TCP; "-j"; ISTIOINREDIRECT]]
    else concat ((λ port, entries cfg IncludeInboundPort ["-p"; TCP; "--dport"; port; "-j"; ISTIOINREDIRECT])
        <$> split (InboundPortsInclude cfg))
  else [].

Lemma ents_inbound_in cfg b c : inbound_chain c → tproxy cfg = false →
  ents (handleInboundPortsInclude cfg b) NAT c = ents b NAT c ++ inbound_entries cfg c.
Proof.
  intros Hc Ht. unfold handleInboundPortsInclude, inbound_entries. rewrite Ht. cbv zeta.
  destruct (String.eqb (InboundPortsInclude cfg) ""); [by rewrite app_nil_r|].
  destruct (String.eqb (InboundPortsInclude cfg) "*"), Hc.
  all: try (ents_simpl; done).
  - ents_simpl. rewrite (ents_if _ (λ b, for_each _ _ b) _ _ _ (concat ((λ port, entries cfg ExcludeInboundPort
      ["-p"; TCP; "--dport"; port; "-j"; RETURN]) <$> split (InboundPortsExclude cfg)))).
    + ents_simpl. rewrite entries_undefined. by rewrite <-app_assoc.
    + intros b'. apply ents_for_each. intros. by ents_simpl.
    + by intros ->%String.eqb_eq.
  - rewrite (ents_for_each _ _ (λ port, entries cfg IncludeInboundPort ["-p"; TCP; "--dport"; port; "-j"; ISTIOINREDIRECT]))
      by (intros; by ents_simpl). by ents_simpl.
Qed.

Lemma ents_exclude_in cfg b c : inbound_chain c → tproxy cfg = false →
  ents (shortCircuitExcludeInterfaces cfg b) NAT c = ents b NAT c ++
    (if String.eqb c PREROUTING then
       concat ((λ i, entries cfg ExcludeInterfaceCommand ["-i"; i; "-j"; RETURN]) <$> split (ExcludeInterfaces cfg))
     else []).
Proof.
  intros Hc Ht. unfold shortCircuitExcludeInterfaces. rewrite Ht. cbv zeta. destruct Hc.
  - apply ents_for_each. intros. by ents_simpl.
  - rewrite ents_for_each_same by (intros; by ents_simpl). by rewrite app_nil_r.
  - rewrite ents_for_each_same by (intros; by ents_simpl). by rewrite app_nil_r.
Qed.

Lemma run_chain_in `{Netfilter P} (p : P) cfg ex4 ex6 in4 in6 c :
  inbound_chain c → tproxy cfg = false →
  Forall (λ i, in_is p i = false) (split (KubeVirtInterfaces cfg)) → proto_is p "udp" = false →
  weq p (ents (run_rules cfg ex4 ex6 in4 in6) NAT c)
    ((if String.eqb c PREROUTING then
        concat ((λ i, entries cfg ExcludeInterfaceCommand ["-i"; i; "-j"; RETURN]) <$> split (ExcludeInterfaces cfg))
      else if String.eqb c ISTIOINBOUND then [["-p"; TCP; "--dport"; InboundTunnelPort cfg; "-j"; RETURN]]
      else entries cfg InboundCapture ["-p"; TCP; "-j"; REDIRECT; "--to-ports"; InboundCapturePort cfg]) ++
     inbound_entries cfg c).
Proof.
  intros Hc Ht Hk Hudp. unfold run_rules, tproxy_rules. rewrite Ht. cbn [negb]. cbv zeta.
  set (b0 := if DropInvalid cfg then _ else _).
  assert (weq p (ents b0 NAT c) (if String.eqb c PREROUTING then
        concat ((λ i, entries cfg ExcludeInterfaceCommand ["-i"; i; "-j"; RETURN]) <$> split (ExcludeInterfaces cfg)) else [])) as Hb0.
  { transitivity (ents (shortCircuitKubeInternalInterface cfg (shortCircuitExcludeInterfaces cfg NewIptablesBuilder)) NAT c).
    - unfold b0. destruct (DropInvalid cfg); [|done].
      match goal with |- weq _ ?x ?y => assert (x = y) as ->; [|done] end. destruct Hc; by ents_simpl.
    - rewrite (ents_kube_in p cfg Hk). by rewrite ents_exclude_in. }
  match goal with |- weq _ (ents (udp_dns_rules _ ?b) _ _) _ => destruct (ents_udp_dns cfg b c) as (D & -> & HD) end.
  transitivity (ents (outbound_rules cfg ex4 ex6 in4 in6 (handleInboundPortsInclude cfg
    (AppendRule cfg InboundCapture ISTIOINREDIRECT NAT ["-p"; TCP; "-j"; REDIRECT; "--to-ports"; InboundCapturePort cfg]
    (AppendRule cfg UndefinedCommand ISTIOREDIRECT NAT ["-p"; TCP; "-j"; REDIRECT; "--to-ports"; ProxyPort cfg]
    (AppendRule cfg UndefinedCommand ISTIOINBOUND NAT ["-p"; TCP; "--dport"; InboundTunnelPort cfg; "-j"; RETURN] b0))))) NAT c).
  { intros chains fuel. rewrite walk_app, (walk_udp p chains Hudp _ D HD). by destruct (walk _ _ _ _). }
  rewrite (ents_outbound_in p cfg Hk) by done. rewrite ents_inbound_in by done.
  apply weq_app; [|done]. destruct Hc; ents_simpl; rewrite ?entries_undefined; rewrite Hb0; done.
Qed.


