(* ===== verification/XTables.v ===== *)
(** * Running programs (iptables/pkg/dependencies, iptables/pkg/capture/run.go, run_linux.go)

    [RealDependencies] runs the commands of the configurator.  Commands of
    xtables are retried while another process holds the xtables lock.  The
    operating system answers through [shell], which sees everything that has
    been run so far; the backoff library is the function [Retry].  The second
    part adds addresses, rules and routes over netlink. *)

From Stdlib Require Import Ascii.
From S2P Require Export Capture.

(** ** Exit codes *)

Definition NSENTER : string := "nsenter".

Definition XTablesOtherProblem : Z := 1.
Definition XTablesParameterProblem : Z := 2.
Definition XTablesVersionProblem : Z := 3.
Definition XTablesResourceProblem : Z := 4.

Definition exittypeToString (code : Z) : option string :=
  if (code =? XTablesOtherProblem)%Z then Some "xtables other problem" else
  if (code =? XTablesParameterProblem)%Z then Some "xtables parameter problem" else
  if (code =? XTablesVersionProblem)%Z then Some "xtables version problem" else
  if (code =? XTablesResourceProblem)%Z then Some "xtables resource problem" else None.

Definition XTablesCmds : gset string :=
  {[IPTABLES; IP6TABLES; IPTABLESRESTORE; IP6TABLESRESTORE; IPTABLESSAVE; IP6TABLESSAVE]}.

(** the error of [exec.Cmd.Run]: an [*exec.ExitError] or another error *)
Inductive exec_error := ExitError (code : Z) (text : string) | OtherError (text : string).

Definition error_text (e : exec_error) : string :=
  match e with ExitError _ t => t | OtherError t => t end.

Record outcome := mk_outcome { o_err : option exec_error; o_stdout : string; o_stderr : string }.

Definition exitCode (err : option exec_error) : option Z :=
  match err with Some (ExitError code _) => Some code | _ => None end.

Definition isXTablesLockError (stderr : string) (exitcode : Z) : bool :=
  if negb (exitcode =? XTablesResourceProblem)%Z then false else Contains stderr "xtables lock".

Definition transformToXTablesErrorMessage (stderr : string) (err : exec_error) : string :=
  match err with
  | OtherError t => t
  | ExitError code _ =>
      match exittypeToString code with
      | Some errtypeStr =>
          let errStr := match Cut stderr ":"%char with Some (_, rest) => rest | None => stderr end in
          errtypeStr +:+ ": " +:+ TrimSpace errStr
      | None => stderr
      end
  end.

(** ** Running *)

Record RealDependencies := mk_deps { NetworkNamespace : string; CNIMode : bool }.

(** what has been run, what has been logged as an error, and whether the
    process is gone *)
Record process := mk_process {
  history : list (list string * outcome);
  errors : list string;
  gone : bool
}.

Section Run.
Context (shell : list (list string * outcome) → list string → outcome).
(** [backoff.Retry]: given what the operation answers at each attempt, the
    number of attempts and the error *)
Context (Retry : (nat → option string) → nat * option string).

Definition argv (r : RealDependencies) (cmd : string) (args : list string) : list string :=
  if CNIMode r then [NSENTER; "--net=" +:+ NetworkNamespace r; "--"; cmd] ++ args else cmd :: args.

(** one run *)
Definition invoke (p : process) (av : list string) : process * outcome :=
  let o := shell (history p) av in
  (mk_process (history p ++ [(av, o)]) (errors p) (gone p), o).

(** the state after [k] runs of the same command *)
Fixpoint invoke_times (k : nat) (p : process) (av : list string) : process :=
  match k with O => p | S k => (invoke (invoke_times k p av) av).1 end.

(** what the [k]-th attempt answers *)
Definition attempt (p : process) (av : list string) (k : nat) : outcome :=
  (invoke (invoke_times k p av) av).2.

Definition lock_error (o : outcome) : bool :=
  match exitCode (o_err o) with
  | None => false
  | Some code => isXTablesLockError (o_stderr o) code
  end.

(** the operation that is retried: it answers nil unless the lock was taken *)
Definition operation (o : outcome) : option string :=
  if lock_error o then error_text <$> o_err o else None.

Definition log_error (msg : string) (p : process) : process :=
  mk_process (history p) (errors p ++ [msg]) (gone p).

Definition executeXTables (r : RealDependencies) (p : process) (cmd : string) (ignoreErrors : bool)
    (args : list string) : process * option string :=
  let av := argv r cmd args in
  let '(n, backoffError) := Retry (λ k, operation (attempt p av k)) in
  let o := attempt p av (n - 1) in
  let p := invoke_times n p av in
  match backoffError with
  | Some _ => (p, Some ("timed out trying to acquire XTables lock: " +:+ default "" (error_text <$> o_err o)))
  | None =>
      let p :=
        if (match o_err o with Some _ => true | None => false end || negb (String.eqb (o_stderr o) ""))
           && negb ignoreErrors then
          log_error ("Command error output: " +:+
            match o_err o with
            | Some e => transformToXTablesErrorMessage (o_stderr o) e
            | None => o_stderr o
            end) p
        else p in
      (p, error_text <$> o_err o)
  end.

Definition execute (r : RealDependencies) (p : process) (cmd : string) (ignoreErrors : bool)
    (args : list string) : process * option string :=
  let '(p, o) := invoke p (argv r cmd args) in
  let p := if negb ignoreErrors && negb (String.eqb (o_stderr o) "")
           then log_error ("Command error output: " +:+ String LF "" +:+ o_stderr o) p else p in
  (p, error_text <$> o_err o).

Definition Run (r : RealDependencies) (p : process) (cmd : string) (args : list string) : process * option string :=
  if decide (cmd ∈ XTablesCmds) then executeXTables r p cmd false args else execute r p cmd false args.

Definition RunQuietlyAndIgnore (r : RealDependencies) (p : process) (cmd : string) (args : list string) : process :=
  (if decide (cmd ∈ XTablesCmds) then executeXTables r p cmd true args else execute r p cmd true args).1.

Definition RunOrFail (r : RealDependencies) (p : process) (cmd : string) (args : list string) : process :=
  if gone p then p else
  match Run r p cmd args with
  | (p, None) => p
  | (p, Some err) =>
      let p := log_error ("Failed to execute: " +:+ cmd +:+ " " +:+ Join args " " +:+ ", " +:+ err) p in
      mk_process (history p) (errors p) true
  end.

(** [executeIptablesCommands] of the configurator, over these dependencies *)
Definition run_commands (r : RealDependencies) (p : process) (commands : list (string * list string)) : process :=
  foldl (λ p c, RunOrFail r p c.1 c.2) p commands.

(** ** Each command takes effect once

    A run that fails because the lock is taken does nothing.  The others are
    the effective ones. *)

Definition effective (h : list (list string * outcome)) : list (list string * outcome) :=
  filter (λ e, lock_error e.2 = false) h.

Lemma filter_none {A} (P : A → Prop) `{!∀ x, Decision (P x)} l : (∀ x, x ∈ l → ¬ P x) → filter P l = [].
Proof.
  induction l as [|x l IH]; intros Hl; [done|].
  rewrite filter_cons, decide_False by (apply Hl; by left). apply IH. intros y Hy. apply Hl. by right.
Qed.

(** What the documentation of backoff.Retry says: the operation is called
    until it answers nil or the backoff gives up, and the last answer is the
    result. *)
Definition retries_until_nil : Prop :=
  ∀ op, let '(n, e) := Retry op in
    0 < n ∧ (∀ k, k < n - 1 → op k ≠ None) ∧ e = op (n - 1).

Lemma invoke_times_history k p av : ∃ outs, length outs = k ∧
  history (invoke_times k p av) = history p ++ ((λ o, (av, o)) <$> outs) ∧
  gone (invoke_times k p av) = gone p ∧ (∀ j, j < k → outs !! j = Some (attempt p av j)).
Proof.
  induction k as [|k (outs & Hl & Hh & Hg & Ho)].
  { exists []. rewrite app_nil_r. do 3 (split; [done|]). intros j Hj. lia. }
  exists (outs ++ [attempt p av k]). rewrite length_app, Hl, fmap_app. cbn [invoke_times]. split; [cbn; lia|].
  split; [|split; [done|]].
  - unfold invoke. cbn [fst history]. rewrite Hh at 1. by rewrite <- app_assoc.
  - intros j Hj. destruct (decide (j = k)) as [->|].
    + by rewrite lookup_app_r, Hl, Nat.sub_diag by lia.
    + rewrite lookup_app_l by lia. apply Ho. lia.
Qed.

Lemma operation_None o : operation o = None ↔ lock_error o = false.
Proof.
  unfold operation, lock_error. destruct (o_err o) as [[c t|t]|]; cbn; [|done..].
  by destruct (isXTablesLockError _ _).
Qed.

Lemma log_error_history msg p : history (log_error msg p) = history p.
Proof. done. Qed.

Hypothesis HRetry : retries_until_nil.

(** an xtables command: blocked attempts, then the one that counts *)
Lemma executeXTables_spec r p cmd ig args :
  let '(p', err) := executeXTables r p cmd ig args in
  gone p' = gone p ∧
  match err with
  | None => ∃ o, effective (history p') = effective (history p) ++ [(argv r cmd args, o)] ∧ o_err o = None
  | Some _ => effective (history p') = effective (history p) ∨
              ∃ o, effective (history p') = effective (history p) ++ [(argv r cmd args, o)] ∧ o_err o ≠ None
  end.
Proof.
  unfold executeXTables. set (av := argv r cmd args). pose proof (HRetry (λ k, operation (attempt p av k))) as HR.
  destruct (Retry _) as [n e]. destruct HR as (Hn & Hall & He).
  destruct (invoke_times_history n p av) as (outs & Hl & Hh & Hg & Ho).
  assert (outs = take (n - 1) outs ++ [attempt p av (n - 1)]) as Hsplit.
  { rewrite <- (take_drop (n - 1) outs) at 1. f_equal. apply list_eq. intros [|i].
    - rewrite lookup_drop, Nat.add_0_r. apply Ho. lia.
    - rewrite lookup_drop. cbn. apply lookup_ge_None_2. lia. }
  assert (effective (history (invoke_times n p av)) = effective (history p) ++
    (if lock_error (attempt p av (n - 1)) then [] else [(av, attempt p av (n - 1))])) as Heff.
  { rewrite Hh. unfold effective. rewrite filter_app, Hsplit, fmap_app, filter_app. f_equal.
    rewrite (filter_none _ ((λ o, (av, o)) <$> take (n - 1) outs)).
    - rewrite app_nil_l. cbn [fmap list_fmap]. rewrite filter_cons. cbn [snd].
      by destruct (lock_error _); case_decide.
    - intros x (o & -> & Hi)%list_elem_of_fmap. apply list_elem_of_lookup in Hi as [i Hi].
      apply lookup_take_Some in Hi as [Hi Hlt]. rewrite (Ho i) in Hi by lia. injection Hi as <-. cbn.
      intros Hf. apply operation_None in Hf. by apply (Hall i). }
  subst e. destruct (operation (attempt p av (n - 1))) as [b|] eqn:Hop.
  - split; [done|]. left. rewrite Heff. destruct (lock_error _) eqn:Hlk; [by rewrite app_nil_r|].
    apply operation_None in Hlk. congruence.
  - apply operation_None in Hop. rewrite Hop in Heff.
    split; [by case_match|].
    assert (∀ q : process, (history q = history (invoke_times n p av)) →
      match error_text <$> o_err (attempt p av (n - 1)) with
      | None => ∃ o, effective (history q) = effective (history p) ++ [(av, o)] ∧ o_err o = None
      | Some _ => effective (history q) = effective (history p) ∨
                  ∃ o, effective (history q) = effective (history p) ++ [(av, o)] ∧ o_err o ≠ None
      end) as Hq.
    { intros q ->. rewrite Heff. destruct (o_err (attempt p av (n - 1))) eqn:Hoe; cbn; [right|];
        (eexists; split; [done|]); change (shell _ av) with (attempt p av (n - 1)); by rewrite Hoe. }
    apply Hq. by destruct (_ && _).
Qed.

Lemma execute_spec r p cmd ig args :
  let '(p', err) := execute r p cmd ig args in
  gone p' = gone p ∧ ∃ o, history p' = history p ++ [(argv r cmd args, o)] ∧ err = error_text <$> o_err o.
Proof.
  unfold execute, invoke. split; [by destruct (_ && _)|]. eexists. split; [by destruct (_ && _)|done].
Qed.

(** what one command that must not fail does *)
Lemma RunOrFail_spec r p cmd args : cmd ∈ XTablesCmds → gone p = false →
  let p' := RunOrFail r p cmd args in
  (∃ es, effective (history p') = effective (history p) ++ es ∧
    ((es = [] ∧ gone p' = true) ∨
     ∃ o, es = [(argv r cmd args, o)] ∧ (gone p' = false ↔ o_err o = None))).
Proof.
  intros Hin Hg. cbn zeta. unfold RunOrFail, Run. rewrite Hg, decide_True by done.
  pose proof (executeXTables_spec r p cmd false args) as Hs.
  destruct (executeXTables r p cmd false args) as [p' [err|]]; destruct Hs as [Hg' Hs]; cbn.
  - destruct Hs as [He|(o & He & Ho)].
    + exists []. rewrite app_nil_r. auto.
    + eexists. split; [done|]. right. exists o. by split.
  - destruct Hs as (o & He & Ho). eexists. split; [done|]. right. exists o. split; [done|]. by rewrite Hg', Hg.
Qed.

Lemma run_commands_gone r p cs : gone p = true → run_commands r p cs = p.
Proof.
  intros Hg. induction cs as [|c cs IH]; [done|]. unfold run_commands in *. cbn.
  unfold RunOrFail at 2. by rewrite Hg.
Qed.

(** the effective runs of a process that goes on from [p0] *)
Definition ran_in_order (r : RealDependencies) (p0 p : process) (cs : list (string * list string)) : Prop :=
  ∃ es k, effective (history p) = effective (history p0) ++ es ∧ k ≤ length cs ∧
    es.*1 = (λ c, argv r c.1 c.2) <$> take k cs ∧
    (∀ i e, es !! i = Some e → S i < length es ∨ gone p = false → o_err e.2 = None) ∧
    (gone p = false → k = length cs).

Lemma run_commands_spec r p0 cs : Forall (λ c, c.1 ∈ XTablesCmds) cs → gone p0 = false →
  ran_in_order r p0 (run_commands r p0 cs) cs.
Proof.
  intros Hall Hg0. induction cs as [|c cs IH] using rev_ind.
  { exists [], 0. rewrite app_nil_r. do 3 (split; [done|]). split; [intros i e; by rewrite lookup_nil|done]. }
  apply Forall_app in Hall as [Hall Hc]. apply Forall_inv in Hc. specialize (IH Hall).
  unfold run_commands, ran_in_order in *. rewrite foldl_snoc.
  set (p := foldl _ _ cs) in *. destruct IH as (es & k & Hes & Hk & HE & Hok & Hgone). rewrite length_app. cbn [length].
  destruct (gone p) eqn:Hg.
  { unfold RunOrFail. rewrite Hg. exists es, k. rewrite take_app_le by lia. rewrite Hg. repeat split; [done|lia|done..]. }
  specialize (Hgone eq_refl). rewrite Hgone, firstn_all in HE.
  destruct (RunOrFail_spec r p c.1 c.2 Hc Hg) as (es' & He & Hes'). rewrite He, Hes.
  destruct Hes' as [[-> Hg']|(o & -> & Hiff)].
  - exists es, (length cs). rewrite take_app_length, app_nil_r. split; [done|]. split; [lia|]. split; [done|].
    split; [|by rewrite Hg']. intros i e Hi _. eapply Hok; eauto.
  - exists (es ++ [(argv r c.1 c.2, o)]), (length cs + 1). rewrite take_ge by (rewrite length_app; cbn; lia).
    split; [by rewrite app_assoc|]. split; [lia|]. split; [by rewrite !fmap_app, HE|]. split; [|done].
    intros i e Hi Hlast. apply lookup_app_Some in Hi as [Hi|[Hle Hi]]; [by eapply Hok; eauto|].
    rewrite length_app in Hlast. cbn in Hlast. apply list_lookup_singleton_Some in Hi as [Hi <-]. cbn.
    destruct Hlast as [?|Hlast]; [lia|]. by apply Hiff.
Qed.

End Run.


(** ** The stub, which only logs (stub.go) *)

Definition stub_RunOrFail (log : list string) (cmd : string) (args : list string) : list string :=
  log ++ [cmd +:+ " " +:+ Join args " "].
Definition stub_Run (log : list string) (cmd : string) (args : list string) : list string * option string :=
  (log ++ [cmd +:+ " " +:+ Join args " "], None).
Definition stub_RunQuietlyAndIgnore (log : list string) (cmd : string) (args : list string) : list string :=
  log ++ [cmd +:+ " " +:+ Join args " "].

(** ** Addresses, rules and routes (run.go, run_linux.go)

    netlink answers each request, knowing the requests before it. *)

Inductive request :=
  | AddrAdd (link : Z) (address : string)
  | RuleAdd (ipv6 : bool) (table mark : Z)
  | RouteAdd (link : Z) (dst : string) (table : Z).

Section Routes.
Context `{GoUnicode}.
Context (LinkByName : string → Z + string) (answer : list request → request → option string).

(** a request with its answer *)
Definition ask (st : list request) (q : request) : list request * option string := (st ++ [q], answer st q).

(** run_unspecified.go: the routes of a system that is not Linux *)
Definition ErrNotImplemented : string := "not implemented".
Definition configureTProxyRoutes_unspecified : option string := Some ErrNotImplemented.

Definition ignoreExists (err : option string) : option string :=
  match err with
  | None => None
  | Some e => if Contains (ToLower e) "file exists" then None else Some e
  end.

Definition configureIPv6Addresses (cfg : Config) (st : list request) : list request * option string :=
  if negb (EnableInboundIPv6 cfg) then (st, None) else
  match LinkByName "lo" with
  | inl link =>
      let '(st, err) := ask st (AddrAdd link "::6/128") in
      match ignoreExists err with
      | Some _ => (st, Some ("failed to add IPv6 inbound address: " +:+ default "" err))
      | None => (st, None)
      end
  | inr e => (st, Some ("failed to find 'lo' link: " +:+ e))
  end.

Fixpoint add_rules (families : list bool) (table mark : Z) (st : list request) : list request * option string :=
  match families with
  | [] => (st, None)
  | family :: families =>
      match ask st (RuleAdd family table mark) with
      | (st, Some e) => (st, Some ("failed to configure netlink rule: " +:+ e))
      | (st, None) => add_rules families table mark st
      end
  end.

Fixpoint add_routes (cidrs : list string) (link table : Z) (st : list request) : list request * option string :=
  match cidrs with
  | [] => (st, None)
  | fullCIDR :: cidrs =>
      let '(st, err) := ask st (RouteAdd link fullCIDR table) in
      match ignoreExists err with
      | Some e => (st, Some ("failed to add route: " +:+ e))
      | None => add_routes cidrs link table st
      end
  end.

Definition atoi_error (s : string) (e : num_error) : string :=
  "strconv.Atoi: parsing " +:+ quoted s +:+ ": " +:+
  match e with ErrSyntax => "invalid syntax" | ErrRange => "value out of range" end.

Definition configureTProxyRoutes (cfg : Config) (st : list request) : list request * option string :=
  if String.eqb (InboundPortsInclude cfg) "" then (st, None) else
  if negb (String.eqb (InboundInterceptionMode cfg) TPROXY) then (st, None) else
  match LinkByName "lo" with
  | inl link =>
      match Atoi (InboundTProxyRouteTable cfg) with
      | (_, Some e) => (st, Some ("failed to parse InboundTProxyRouteTable: " +:+ atoi_error (InboundTProxyRouteTable cfg) e))
      | (tproxyTable, None) =>
          match Atoi (InboundTProxyMark cfg) with
          | (_, Some e) => (st, Some ("failed to parse InboundTProxyMark: " +:+ atoi_error (InboundTProxyMark cfg) e))
          | (tproxyMark, None) =>
              let v6 := EnableInboundIPv6 cfg in
              match add_rules (false :: if v6 then [true] else []) tproxyTable tproxyMark st with
              | (st, Some e) => (st, Some e)
              | (st, None) => add_routes ("0.0.0.0/0" :: if v6 then ["0::0/0"] else []) link tproxyTable st
              end
          end
      end
  | inr e => (st, Some ("failed to find 'lo' link: " +:+ e))
  end.

(** [ext] runs the program again inside the namespace in CNI mode *)
Definition ConfigureRoutes (cfg : Config) (ext : option (list string → option string)) (self : string)
    (st : list request) : list request * option string :=
  if DryRun cfg then (st, None) else
  match ext, Iptables.CNIMode cfg with
  | Some run, true => (st, run [self; "configure-routes"])
  | _, _ =>
      match configureIPv6Addresses cfg st with
      | (st, Some e) => (st, Some e)
      | (st, None) => configureTProxyRoutes cfg st
      end
  end.

(** what has to be requested for a configuration *)
Definition wanted_requests (cfg : Config) (link : Z) : list request :=
  let v6 := EnableInboundIPv6 cfg in
  let table := (Atoi (InboundTProxyRouteTable cfg)).1 in
  let mark := (Atoi (InboundTProxyMark cfg)).1 in
  (if v6 then [AddrAdd link "::6/128"] else []) ++
  (if negb (String.eqb (InboundPortsInclude cfg) "") && String.eqb (InboundInterceptionMode cfg) TPROXY then
     RuleAdd false table mark :: (if v6 then [RuleAdd true table mark] else []) ++
     RouteAdd link "0.0.0.0/0" table :: (if v6 then [RouteAdd link "0::0/0" table] else [])
   else []).

Lemma add_rules_spec fs table mark st :
  (add_rules fs table mark st).2 = None →
  (add_rules fs table mark st).1 = st ++ ((λ f, RuleAdd f table mark) <$> fs).
Proof.
  revert st. induction fs as [|f fs IH]; intros st; cbn; [by rewrite app_nil_r|].
  destruct (answer st _); [done|]. intros H1. rewrite IH by done. by rewrite <- app_assoc.
Qed.

Lemma add_routes_spec cs link table st :
  (add_routes cs link table st).2 = None →
  (add_routes cs link table st).1 = st ++ ((λ c, RouteAdd link c table) <$> cs).
Proof.
  revert st. induction cs as [|c cs IH]; intros st; cbn; [by rewrite app_nil_r|].
  destruct (ignoreExists (answer st _)); [done|]. intros H1. rewrite IH by done. by rewrite <- app_assoc.
Qed.

(** A successful configuration of the routes has made exactly the requests
    the configuration needs, in this order. *)
Lemma ConfigureRoutes_complete cfg self st link :
  DryRun cfg = false → LinkByName "lo" = inl link → (ConfigureRoutes cfg None self st).2 = None →
  (ConfigureRoutes cfg None self st).1 = st ++ wanted_requests cfg link.
Proof.
  intros Hd Hl. unfold ConfigureRoutes, configureIPv6Addresses, configureTProxyRoutes, wanted_requests.
  rewrite Hd, Hl. destruct (EnableInboundIPv6 cfg); cbn [negb ask];
    [destruct (ignoreExists _); [done|]|];
    (destruct (String.eqb (InboundPortsInclude cfg) ""); cbn [negb andb];
      [by rewrite ?app_nil_r|]);
    (destruct (String.eqb (InboundInterceptionMode cfg) TPROXY); cbn [negb]; [|by rewrite ?app_nil_r]);
    destruct (Atoi (InboundTProxyRouteTable cfg)) as [table [?|]]; try done;
    destruct (Atoi (InboundTProxyMark cfg)) as [mark [?|]]; try done;
    match goal with |- context [add_rules ?fs ?t ?m ?s] => pose proof (add_rules_spec fs t m s) as Hr;
      destruct (add_rules fs t m s) as [st' [?|]] end; try done;
    specialize (Hr eq_refl); cbn [fst] in Hr; subst st'; intros Hc; rewrite add_routes_spec by done;
    cbn; by rewrite <- !app_assoc.
Qed.
End Routes.

(** Unlike addresses and routes, a rule that exists is an error: configuring
    the routes of TPROXY a second time fails. *)
Lemma rule_exists_fails `{GoUnicode} cfg self :
  DryRun cfg = false → EnableInboundIPv6 cfg = false → InboundPortsInclude cfg = "*" →
  InboundInterceptionMode cfg = TPROXY → InboundTProxyRouteTable cfg = "133" → InboundTProxyMark cfg = "1337" →
  (ConfigureRoutes (λ _, inl 1%Z) (λ _ _, Some "file exists") cfg None self []).2
  = Some "failed to configure netlink rule: file exists".
Proof.
  intros Hd Hv Hi Hm Ht Hk. unfold ConfigureRoutes, configureIPv6Addresses, configureTProxyRoutes.
  by rewrite Hd, Hv, Hi, Hm, Ht, Hk.
Qed.
