(* ===== verification/Validation.v ===== *)
(** * Validation of the iptables rules

    iptables/pkg/validation: after the rules are in place a client connects to
    a probe address, and the service behind the rules checks that the
    connection arrives with its original port.  The service, its two
    listeners, the timer and the client are goroutines that talk through
    channels: the steps of a transition relation.

    Sockets are outside: whether an address can be listened on, which
    connections come, and the bytes of the socket option. *)

From S2P Require Export Capture.

Local Open Scope string_scope.
Local Open Scope nat_scope.
Local Open Scope list_scope.

(** ** The original destination (vld.go, vld_unix.go) *)

Inductive ByteOrder := BigEndian | LittleEndian.

(** a 16-bit field with these bytes in memory *)
Definition native (order : ByteOrder) (b0 b1 : Z) : Z :=
  match order with BigEndian => 256 * b0 + b1 | LittleEndian => 256 * b1 + b0 end.

Definition ntohs (order : ByteOrder) (n16 : Z) : Z :=
  match order with
  | BigEndian => n16
  | LittleEndian => Z.lor (Z.shiftr (Z.land n16 65280) 8) (wrap_u 16 (Z.shiftl (Z.land n16 255) 8))
  end.

(** [GetOriginalDestination]: [tcp], [file_err] as the connection has it,
    [remote] the address of the peer, [option] the 32 bytes that the socket
    option yields for the level of that family ([true]: IPv4), read as an
    IPv6MTUInfo *)
Definition GetOriginalDestination (order : ByteOrder) (tcp : bool) (file_err : option string) (remote : IP)
    (option : bool → result string (list Z)) : result string (IP * Z) :=
  if negb tcp then Err "socket is not tcp" else
  match file_err with
  | Some err => Err err
  | None =>
      let isIpv4 := bool_decide (To4 remote ≠ None) in
      if negb isIpv4 && negb (length remote =? 16) then
        Err ("neither ipv6 nor ipv4 original addr: " +:+ ip_string remote)
      else
        raw ← option isIpv4;
        let b i := nth i raw 0%Z in
        let daddr := if isIpv4 then IPv4 (b 8) (b 9) (b 10) (b 11) else take 16 (drop 8 raw) in
        Ok (daddr, ntohs order (native order (b 2) (b 3)))
  end.

(** ** The validator *)

Definition istioLocalIPv6 : IP := replicate 15 0%Z ++ [6%Z].
Definition IPv6loopback : IP := replicate 15 0%Z ++ [1%Z].

Record VConfig := mk_vconfig {
  ServerListenAddress : list string;
  ServerOriginalPort : Z;
  ServerOriginalIP : IP;
  VProbeTimeout : Z
}.

Definition genListenerAddress (ip : IP) (ports : list string) : list string :=
  (λ port, JoinHostPort (ip_string ip) port) <$> ports.

Definition NewValidator (config : Config) (hostIP : IP) : VConfig :=
  let isIpv6 := bool_decide (To4 hostIP = None) in
  let listenIP := if isIpv6 then IPv6loopback else IPv4 127 0 0 1 in
  let serverIP := if isIpv6 then istioLocalIPv6 else IPv4 127 0 0 6 in
  mk_vconfig (genListenerAddress listenIP [ProxyPort config; InboundCapturePort config]) (IptablesProbePort config)
    serverIP (ProbeTimeout config).

(** where [Client.Run] connects from and to *)
Definition client_addresses (c : VConfig) : string * string :=
  (if bool_decide (To4 (ServerOriginalIP c) = None) then "[::1]:0" else "127.0.0.1:0",
   JoinHostPort (ip_string (ServerOriginalIP c)) (Itoa (ServerOriginalPort c))).

(** [Client.Run] over the resolver and the dialler: what it returns, and what
    it logs *)
Definition Client_Run {A} (ResolveTCPAddr : string → result string A) (DialTCP : A → A → option string) (c : VConfig)
  : option string * list string :=
  let '(local, serverOriginalAddress) := client_addresses c in
  let laddr :=
    laddr ← ResolveTCPAddr "127.0.0.1:0";
    if bool_decide (To4 (ServerOriginalIP c) = None) then ResolveTCPAddr local else Ok laddr in
  match laddr with
  | Err err => (Some err, [])
  | Panic _ => (Some "panic", [])
  | Ok laddr =>
      match ResolveTCPAddr serverOriginalAddress with
      | Err err => (Some err, [])
      | Panic _ => (Some "panic", [])
      | Ok raddr =>
          match DialTCP laddr raddr with
          | Some err => (Some err, ["Error connecting to " +:+ serverOriginalAddress +:+ ": " +:+ err])
          | None => (None, [])
          end
      end
  end.

(** [reuseAddr]: the error of [Control], and the lines its callback logs for the
    options that cannot be set *)
(** [echo]: what is written before the connection is closed; both errors are
    ignored *)
Definition echo (written : list string) (echo : string) : list string * bool := (written ++ [echo], true).

Definition SO_REUSEADDR : Z := 2.
Definition SO_REUSEPORT : Z := 15.
Definition reuseAddr (Control : option string) (descriptor : Z) (setsockopt : Z → option string) : option string * list string :=
  match Control with
  | Some err => (Some err, [])
  | None => (None,
      omap (λ o, (λ err, "Fail to set fd " +:+ Itoa descriptor +:+ " " +:+ o.1 +:+ " with error " +:+ err) <$> setsockopt o.2)
        [("SO_REUSEADDR", SO_REUSEADDR); ("SO_REUSEPORT", SO_REUSEPORT)])
  end.

(** the goroutine of a listener: it accepts, or has sent its message *)
Inductive lstate := Accepting | Recovered.

(** [Service.Run]: it listens on the addresses still to come, waits for a
    message, or has returned *)
Inductive service := Listening (rest : list string) | WaitingForProbe | Returned (err : option string).

Record vstate := mk_vstate {
  v_listeners : list (string * lstate);
  v_c : nat;                                    (* messages in the channel c *)
  v_barrier : bool;                             (* a message in ServerReadyBarrier *)
  v_service : service;
  v_client : bool;                              (* the client probes *)
  v_verdict : option (option string)            (* what [Validator.Run] returned *)
}.

(** the capacity of c *)
Definition c_capacity : nat := 2.

Definition start_validation (c : VConfig) : vstate :=
  mk_vstate [] 0 false (Listening (ServerListenAddress c)) false None.

(** one connection accepted by [restoreOriginalAddress]: the state of the
    listener and the messages it sends *)
Definition restoreOriginalAddress (c : VConfig) (dst : result string (IP * Z)) : lstate * nat :=
  match dst with
  | Ok (_, port) => if negb (port =? ServerOriginalPort c)%Z then (Accepting, 0) else (Recovered, 1)
  | _ => (Accepting, 0)
  end.

(** what is observed: a connection to an address and its original destination *)
Definition observation := (string * result string (IP * Z))%type.

Inductive vstep (c : VConfig) : vstate * list observation → vstate * list observation → Prop :=
  | v_listen s t addr rest : v_service s = Listening (addr :: rest) →
      vstep c (s, t) (mk_vstate (v_listeners s ++ [(addr, Accepting)]) (v_c s) (v_barrier s) (Listening rest) (v_client s) (v_verdict s), t)
  | v_listen_fails s t addr rest : v_service s = Listening (addr :: rest) →
      vstep c (s, t) (mk_vstate (v_listeners s) (v_c s) (v_barrier s) (Listening rest) (v_client s) (v_verdict s), t)
  | v_ready s t : v_service s = Listening [] → v_listeners s ≠ [] →
      vstep c (s, t) (mk_vstate (v_listeners s) (v_c s) true WaitingForProbe (v_client s) (v_verdict s), t)
  | v_no_listener s t : v_service s = Listening [] → v_listeners s = [] →
      vstep c (s, t) (mk_vstate [] (v_c s) (v_barrier s)
        (Returned (Some ("no listener available: " +:+ Join (ServerListenAddress c) ","))) (v_client s) (v_verdict s), t)
  | v_accept s t i addr dst : v_listeners s !! i = Some (addr, Accepting) →
      v_c s + (restoreOriginalAddress c dst).2 ≤ c_capacity →
      vstep c (s, t) (mk_vstate (<[i := (addr, (restoreOriginalAddress c dst).1)]> (v_listeners s))
        (v_c s + (restoreOriginalAddress c dst).2) (v_barrier s) (v_service s) (v_client s) (v_verdict s), t ++ [(addr, dst)])
  | v_receive s t n : v_service s = WaitingForProbe → v_c s = S n →
      vstep c (s, t) (mk_vstate (v_listeners s) n (v_barrier s) (Returned None) (v_client s) (v_verdict s), t)
  | v_client_starts s t : v_barrier s = true →
      vstep c (s, t) (mk_vstate (v_listeners s) (v_c s) false (v_service s) true (v_verdict s), t)
  | v_timeout s t : v_verdict s = None →
      vstep c (s, t) (mk_vstate (v_listeners s) (v_c s) (v_barrier s) (v_service s) (v_client s) (Some (Some "validation timeout")), t)
  | v_result s t err : v_verdict s = None → v_service s = Returned err →
      vstep c (s, t) (mk_vstate (v_listeners s) (v_c s) (v_barrier s) (v_service s) (v_client s) (Some err), t).

(** ** Properties *)

Definition is_recovered (l : string * lstate) : bool := match l.2 with Recovered => true | Accepting => false end.
Definition recovered (s : vstate) : nat := length (filter (λ l, is_recovered l = true) (v_listeners s)).
Definition received (s : vstate) : nat := match v_service s with Returned None => 1 | _ => 0 end.

(** the messages are those of the listeners that saw the probe, and there are
    no more listeners than addresses *)
Record v_ok (c : VConfig) (st : vstate * list observation) : Prop := mk_v_ok {
  ok_messages : v_c st.1 + received st.1 = recovered st.1;
  ok_seen : ∀ addr, (addr, Recovered) ∈ v_listeners st.1 →
    addr ∈ ServerListenAddress c ∧ ∃ ip, (addr, Ok (ip, ServerOriginalPort c)) ∈ st.2;
  ok_addresses : (v_listeners st.1).*1 ++ match v_service st.1 with Listening rest => rest | _ => [] end
    `sublist_of` ServerListenAddress c;
  ok_error : match v_service st.1 with Returned (Some _) => v_listeners st.1 = [] | _ => True end;
  ok_verdict : v_verdict st.1 = Some None → v_service st.1 = Returned None
}.

Lemma recovered_insert ls i addr st : ls !! i = Some (addr, Accepting) →
  length (filter (λ l, is_recovered l = true) (<[i := (addr, st)]> ls)) =
  length (filter (λ l, is_recovered l = true) ls) + (if is_recovered (addr, st) then 1 else 0).
Proof.
  intros Hi. rewrite insert_take_drop by (by eapply lookup_lt_Some).
  replace (filter (λ l, is_recovered l = true) ls) with
    (filter (λ l, is_recovered l = true) (take i ls ++ (addr, Accepting) :: drop (S i) ls)) by (by rewrite take_drop_middle).
  rewrite !filter_app, !filter_cons, !length_app.
  destruct st; cbn; repeat case_decide; cbn; try done; lia.
Qed.

Lemma start_v_ok c : v_ok c (start_validation c, []).
Proof. split; cbn; try done. intros addr H. by apply not_elem_of_nil in H. Qed.

Lemma vstep_v_ok c : invariant (vstep c) (v_ok c).
Proof.
  intros s s' [Hm Hs Ha He Hv] Hst. unfold recovered, received in *.
  destruct Hst as [s t addr rest Hsv|s t addr rest Hsv|s t Hsv Hl|s t Hsv Hl|s t i addr dst Hi Hc|s t n Hsv Hc|s t Hb|s t Hn|s t err Hn Hsv];
    cbn [fst snd v_listeners v_c v_service v_verdict v_barrier] in *; split;
    cbn [fst snd v_listeners v_c v_service v_verdict v_barrier]; unfold recovered, received;
    cbn [fst snd v_listeners v_c v_service v_verdict v_barrier]; rewrite ?Hsv in *; try done.
  all: try (by intros Hv'; specialize (Hv Hv'); congruence).
  all: try (by intros [= ->]).
  - rewrite filter_app. cbn. by rewrite app_nil_r.
  - intros addr' [Hin|Hin]%elem_of_app; [by apply Hs|]. apply list_elem_of_singleton in Hin. done.
  - rewrite fmap_app, <- app_assoc. done.
  - etransitivity; [|exact Ha]. apply sublist_app; [done|]. by apply sublist_cons.
  - by rewrite Hl in *.
  - intros addr' Hin. by apply not_elem_of_nil in Hin.
  - by rewrite Hl in *.
  - rewrite recovered_insert by done. rewrite <- Hm. unfold restoreOriginalAddress.
    destruct dst as [[ip port]|e|q]; cbn; [destruct (negb _); cbn|..]; lia.
  - intros addr' Hin. apply list_elem_of_lookup in Hin as [j Hj].
    destruct (decide (j = i)) as [->|Hne].
    + rewrite list_lookup_insert_eq in Hj by (by eapply lookup_lt_Some). injection Hj as <- Hr.
      split.
      * apply (sublist_subseteq _ _ Ha), elem_of_app. left. apply list_elem_of_fmap. exists (addr, Accepting).
        split; [done|]. by eapply list_elem_of_lookup_2.
      * unfold restoreOriginalAddress in Hr. destruct dst as [[ip port]|e|q]; [|done..].
        destruct (port =? _)%Z eqn:Hp; [|done]. bools. subst port. exists ip. apply elem_of_app. right. by left.
    + rewrite list_lookup_insert_ne in Hj by done. apply list_elem_of_lookup_2 in Hj. apply Hs in Hj as [? [ip Hip]].
      split; [done|]. exists ip. apply elem_of_app. by left.
  - rewrite list_fmap_insert. cbn. rewrite list_insert_id; [done|]. by rewrite list_lookup_fmap, Hi.
  - destruct (v_service s) as [|?|[e|]]; try done. by rewrite He in Hi.
  - lia.
Qed.

Lemma recovered_pos s addr : (addr, Recovered) ∈ v_listeners s → 0 < recovered s.
Proof.
  intros Hin. unfold recovered. destruct (filter _ _) as [|x l] eqn:E; [|cbn; lia].
  assert ((addr, Recovered) ∈ filter (λ l, is_recovered l = true) (v_listeners s)) as H by (by apply list_elem_of_filter).
  rewrite E in H. by apply not_elem_of_nil in H.
Qed.

Lemma recovered_bound s i addr : v_listeners s !! i = Some (addr, Accepting) → S (recovered s) ≤ length (v_listeners s).
Proof.
  intros Hi. unfold recovered. pose proof (recovered_insert _ _ _ Recovered Hi) as H. cbn in H.
  pose proof (length_filter (λ l, is_recovered l = true) (<[i := (addr, Recovered)]> (v_listeners s))) as Hl.
  rewrite length_insert in Hl. lia.
Qed.

(** a service that still listens comes to wait, when it has a listener *)
Lemma listening_done c s t rest : v_service s = Listening rest → v_listeners s ≠ [] →
  rtc (vstep c) (s, t) (mk_vstate (v_listeners s) (v_c s) true WaitingForProbe (v_client s) (v_verdict s), t).
Proof.
  revert s. induction rest as [|addr rest IH]; intros s Hs Hl.
  - apply rtc_once. by apply v_ready.
  - eapply rtc_l; [by eapply v_listen_fails|].
    exact (IH (mk_vstate (v_listeners s) (v_c s) (v_barrier s) (Listening rest) (v_client s) (v_verdict s)) eq_refl Hl).
Qed.

(** C33: The validation is sound: it passes only if, on one of the ports the
    rules redirect to, a connection was seen whose original port is the probe
    port.  It does not hang: no listener ever blocks on its message, and once a
    listener has seen the probe, the validation can still pass unless the timer
    is first; it reports that there is no listener only if there is none. *)
Theorem validation_sound cfg hostIP s t :
  let c := NewValidator cfg hostIP in
  rtc (vstep c) (start_validation c, []) (s, t) →
  (v_verdict s = Some None → ∃ addr ip, addr ∈ ServerListenAddress c ∧ (addr, Ok (ip, IptablesProbePort cfg)) ∈ t) ∧
  (∀ i addr dst, v_listeners s !! i = Some (addr, Accepting) → v_c s + (restoreOriginalAddress c dst).2 ≤ c_capacity) ∧
  (∀ err, v_service s = Returned (Some err) → v_listeners s = []) ∧
  (∀ addr, (addr, Recovered) ∈ v_listeners s → v_verdict s = None →
     ∃ s', rtc (vstep c) (s, t) (s', t) ∧ v_verdict s' = Some None).
Proof.
  intros c Hr. pose proof (invariant_reachable _ _ _ _ (vstep_v_ok c) (start_v_ok c) Hr) as [Hm Hs Ha He Hv].
  cbn [fst snd] in *. split_and!.
  - intros Hpass. specialize (Hv Hpass). unfold received in Hm. rewrite Hv in Hm.
    destruct (filter (λ l, is_recovered l = true) (v_listeners s)) as [|[addr st] l] eqn:E.
    { unfold recovered in Hm. rewrite E in Hm. cbn in Hm. lia. }
    assert ((addr, st) ∈ filter (λ l, is_recovered l = true) (v_listeners s)) as Hin by (rewrite E; by left).
    apply list_elem_of_filter in Hin as [Hst Hin]. destruct st; [done|]. apply Hs in Hin as [? [ip Hip]]. by exists addr, ip.
  - intros i addr dst Hi. apply recovered_bound in Hi. apply sublist_length in Ha.
    rewrite length_app, length_fmap in Ha. unfold c, NewValidator in Ha. cbn in Ha.
    assert ((restoreOriginalAddress c dst).2 ≤ 1) by (unfold restoreOriginalAddress; repeat case_match; cbn; lia).
    unfold c_capacity. lia.
  - intros err Herr. by rewrite Herr in He.
  - intros addr Hin Hn. pose proof (recovered_pos _ _ Hin) as Hpos. unfold received in Hm.
    assert (v_listeners s ≠ []) as Hne by (intros E; rewrite E in Hin; by apply not_elem_of_nil in Hin).
    destruct (v_service s) as [rest| |[err|]] eqn:Hsv.
    + destruct (v_c s) as [|n] eqn:Hc; [lia|]. eexists. split.
      * etransitivity; [by eapply listening_done|]. eapply rtc_l; [by eapply (v_receive _ _ _ n)|].
        apply rtc_once. by eapply (v_result _ _ _ None).
      * done.
    + destruct (v_c s) as [|n] eqn:Hc; [lia|]. eexists. split.
      * eapply rtc_l; [by eapply (v_receive _ _ _ n)|]. apply rtc_once. by eapply (v_result _ _ _ None).
      * done.
    + by rewrite He in Hne.
    + eexists. split; [apply rtc_once; by eapply (v_result _ _ _ None)|done].
Qed.

Module ValidationExample.
Definition cfg : Config := {|
  ProxyPort := "15001"; InboundCapturePort := "15006"; InboundTunnelPort := "15008"; ProxyUID := "1337"; ProxyGID := "1337";
  InboundInterceptionMode := ""; InboundTProxyMark := ""; InboundTProxyRouteTable := ""; InboundPortsInclude := "";
  InboundPortsExclude := ""; OwnerGroupsInclude := ""; OwnerGroupsExclude := ""; OutboundPortsInclude := "";
  OutboundPortsExclude := ""; OutboundIPRangesInclude := ""; OutboundIPRangesExclude := ""; KubeVirtInterfaces := "";
  ExcludeInterfaces := ""; IptablesProbePort := 15002; ProbeTimeout := 5000000000; DryRun := false; RestoreFormat := true;
  SkipRuleApply := false; RunValidation := true; RedirectDNS := false; DropInvalid := false; CaptureAllDNS := false;
  EnableInboundIPv6 := false; DNSServersV4 := []; DNSServersV6 := []; OutputPath := ""; NetworkNamespace := "";
  CNIMode := false; TraceLogging := false |}.
Definition c : VConfig := NewValidator cfg (IPv4 10 0 0 7).
Definition probe : result string (IP * Z) := Ok (IPv4 127 0 0 6, 15002%Z).
Definition passed : vstate :=
  mk_vstate [("127.0.0.1:15001", Accepting); ("127.0.0.1:15006", Recovered)] 0 true (Returned None) false (Some None).
End ValidationExample.

(** one step, with the state after it computed *)
Tactic Notation "step" open_constr(lem) := eapply rtc_l; [eapply lem|cbn -[NewValidator]].

Lemma validation_sound_witness : ∃ addr ip, addr ∈ ["127.0.0.1:15001"; "127.0.0.1:15006"] ∧
  (addr, Ok (ip, 15002%Z)) ∈ [("127.0.0.1:15001", Ok (IPv4 10 0 0 1, 80%Z)); ("127.0.0.1:15006", ValidationExample.probe)].
Proof.
  apply (validation_sound ValidationExample.cfg (IPv4 10 0 0 7) ValidationExample.passed); [|done].
  set (c := NewValidator _ _). vm_compute in c.
  step v_listen; [done|]. step v_listen; [done|]. step v_ready; [done..|].
  step (v_accept c _ _ 0 "127.0.0.1:15001" (Ok (IPv4 10 0 0 1, 80%Z))); [done|vm_compute; lia|].
  step (v_accept c _ _ 1 "127.0.0.1:15006" ValidationExample.probe); [done|vm_compute; lia|].
  step (v_receive c _ _ 0); [done..|]. step (v_result c _ _ None); [done..|]. apply rtc_refl.
Defined.

(** The port is recovered whatever the byte order of the machine. *)
Lemma ntohs_native order hi lo : (0 ≤ hi < 256)%Z → (0 ≤ lo < 256)%Z → ntohs order (native order hi lo) = (256 * hi + lo)%Z.
Proof.
  intros Hh Hl. destruct order; [done|].
  assert (forallb (λ h, forallb (λ l,
    Z.eqb (ntohs LittleEndian (native LittleEndian (Z.of_nat h) (Z.of_nat l))) (256 * Z.of_nat h + Z.of_nat l))
    (seq 0 256)) (seq 0 256) = true) as H by (by vm_compute).
  rewrite forallb_forall in H. specialize (H (Z.to_nat hi)). rewrite in_seq, forallb_forall in H.
  specialize (H ltac:(lia) (Z.to_nat lo)). rewrite in_seq, !Z2Nat.id, Z.eqb_eq in H by lia. apply H. lia.
Qed.

(** The address is not: an IPv4 socket address is laid out differently from
    the IPv6 one it is read as, and yields 0.0.0.0. *)
Lemma original_address_lost order a b c d hi lo :
  (0 ≤ hi < 256)%Z → (0 ≤ lo < 256)%Z →
  GetOriginalDestination order true None (IPv4 127 0 0 1)
    (λ _, Ok ([2; 0; hi; lo; a; b; c; d] ++ replicate 24 0)%Z) = Ok (IPv4 0 0 0 0, 256 * hi + lo)%Z.
Proof. intros Hh Hl. unfold GetOriginalDestination. cbn [negb mbind result_bind]. rewrite bool_decide_eq_true_2 by done. cbn [negb andb app nth replicate]. by rewrite ntohs_native. Qed.
