(* ===== verification/CommandLine.v ===== *)
(** * Command lines (iptables/pkg/cmd/root.go, clean-iptables/pkg/cmd/root.go, cmd/proxy/server.go)

    The three commands define flags, bind them to keys of viper with defaults,
    and read a configuration from the keys.  Viper and pflag are libraries: the
    program's part is the list of flags it defines and the list of calls it
    makes, and what a key reads after these calls is the argument [get].  The
    usage texts are left out. *)

From Stdlib Require Import Ascii.
From S2P Require Export Env Capture.

(** ** Flags and calls *)

Inductive value :=
  | VNil
  | VStr (s : string)
  | VBool (b : bool)
  | VInt (z : Z)
  | VDur (ns : Z)
  | VBoolVar (v : Env.Var).

Record flag := mk_flag { f_name : string; f_short : string; f_default : value }.

Inductive call :=
  | AutomaticEnv
  | SetEnvKeyReplacer (old new : string)
  | BindPFlag (key : string) (f : flag)
  | BindEnv (key : string)
  | SetDefault (key : string) (d : value).

(** [cmd.Flags().Lookup(key)]; binding nil is an error, which ends the process *)
Fixpoint lookup_flag (flags : list flag) (key : string) : option flag :=
  match flags with
  | [] => None
  | f :: flags => if String.eqb (f_name f) key then Some f else lookup_flag flags key
  end.

Record binding := mk_binding { b_calls : list call; b_exited : bool }.

Definition make (c : call) (b : binding) : binding :=
  if b_exited b then b else mk_binding (b_calls b ++ [c]) false.

Definition bind_pflag (flags : list flag) (key : string) (b : binding) : binding :=
  match lookup_flag flags key with
  | Some f => make (BindPFlag key f) b
  | None => mk_binding (b_calls b) true
  end.

(** [viper.BindPFlag(key, ...)] and [viper.SetDefault(key, d)] *)
Definition bind_with_default (flags : list flag) (e : string * value) (b : binding) : binding :=
  make (SetDefault e.1 e.2) (bind_pflag flags e.1 b).
Definition env_with_default (e : string * value) (b : binding) : binding :=
  make (SetDefault e.1 e.2) (make (BindEnv e.1) b).

Definition start_binding : binding :=
  make (SetEnvKeyReplacer "-" "_") (make AutomaticEnv (mk_binding [] false)).

Definition seconds (n : Z) : Z := n * 1000000000.

(** ** The keys

    iptables/pkg/constants and cmd/proxy/constants *)
Module IptablesKeys.
Definition InboundInterceptionMode : string := "istio-inbound-interception-mode".
Definition InboundTProxyMark : string := "istio-inbound-tproxy-mark".
Definition InboundTProxyRouteTable : string := "istio-inbound-tproxy-route-table".
Definition InboundPorts : string := "istio-inbound-ports".
Definition LocalExcludePorts : string := "istio-local-exclude-ports".
Definition ExcludeInterfaces : string := "istio-exclude-interfaces".
Definition ServiceCidr : string := "istio-service-cidr".
Definition ServiceExcludeCidr : string := "istio-service-exclude-cidr".
Definition OutboundPorts : string := "istio-outbound-ports".
Definition LocalOutboundPortsExclude : string := "istio-local-outbound-ports-exclude".
Definition EnvoyPort : string := "envoy-port".
Definition InboundCapturePort : string := "inbound-capture-port".
Definition InboundTunnelPort : string := "inbound-tunnel-port".
Definition ProxyUID : string := "proxy-uid".
Definition ProxyGID : string := "proxy-gid".
Definition KubeVirtInterfaces : string := "kube-virt-interfaces".
Definition DryRun : string := "dry-run".
Definition TraceLogging : string := "iptables-trace-logging".
Definition Clean : string := "clean".
Definition RestoreFormat : string := "restore-format".
Definition SkipRuleApply : string := "skip-rule-apply".
Definition RunValidation : string := "run-validation".
Definition IptablesProbePort : string := "iptables-probe-port".
Definition ProbeTimeout : string := "probe-timeout".
Definition RedirectDNS : string := "redirect-dns".
Definition DropInvalid : string := "drop-invalid".
Definition CaptureAllDNS : string := "capture-all-dns".
Definition OutputPath : string := "output-paths".
Definition NetworkNamespace : string := "network-namespace".
Definition CNIMode : string := "cni-mode".
End IptablesKeys.

(** the keys of the proxy *)
Module ProxyKeys.
Definition ServerName : string := "server-name".
Definition FileName : string := "file-name".
Definition ProxyMgrPort : string := "proxy-mgr-port".
Definition InBoundProxyPort : string := "in-bound-proxy-port".
Definition OutBoundProxyPort : string := "out-bound-proxy-port".
Definition UDPProxyPort : string := "udp-proxy-port".
Definition ConnIdleTimeOut : string := "conn-idle-time-out".
Definition CacheFileName : string := "cache-file-name".
Definition CacheDuration : string := "cache-duration".
Definition DomainPolicyURL : string := "domain-policy-url".
Definition DomainPolicyCacheFile : string := "domain-policy-cache-file".
Definition DomainPolicyRefreshInterval : string := "domain-policy-refresh-interval".
Definition DomainPolicyFetchTimeout : string := "domain-policy-fetch-timeout".
Definition DomainPolicyScope : string := "domain-policy-scope".
Definition AppName : string := "app-name".
Definition InstanceIP : string := "instance-ip".
Definition MITMEnabled : string := "mitm-enabled".
Definition VaultURI : string := "vault-uri".
Definition AgentID : string := "agent-id".
Definition UpstreamCAFile : string := "upstream-ca-file".
Definition CAPollInterval : string := "ca-poll-interval".
Definition CAInitTimeout : string := "ca-init-timeout".
Definition CredentialRuntimeCacheFile : string := "credential-runtime-cache-file".
Definition CredentialRuntimeRefresh : string := "credential-runtime-refresh-interval".
Definition CredentialRuntimeFetch : string := "credential-runtime-fetch-timeout".
End ProxyKeys.

(** ** idefav-iptables *)

Module IptablesCmd.
Section Cmd.
Context (LookupEnv : string → option string) (allVars : registry).

(** a star in double quotes *)
Definition star : string := String "034" (String "*" (String "034" "")).

(** the variables registered when the packages are loaded *)
Definition OwnerGroupsInclude : Env.Var :=
  (RegisterStringVar allVars "ISTIO_OUTBOUND_OWNER_GROUPS" "*"
    ("Comma separated list of groups whose outgoing traffic is to be redirected to Envoy.
A group can be specified either by name or by a numeric GID.
The wildcard character " +:+ star +:+ " can be used to configure redirection of traffic from all groups.")).2.

Definition OwnerGroupsExclude : Env.Var :=
  (RegisterStringVar allVars "ISTIO_OUTBOUND_OWNER_GROUPS_EXCLUDE" ""
    ("Comma separated list of groups whose outgoing traffic is to be excluded from redirection to Envoy.
A group can be specified either by name or by a numeric GID.
Only applies when traffic from all groups (i.e. " +:+ star +:+ ") is being redirected to Envoy.")).2.

Definition dnsCaptureByAgent : bool :=
  BoolVar_Get LookupEnv (RegisterBoolVar allVars "IDEFAV_META_DNS_CAPTURE" false
    "If set to true, enable the capture of outgoing DNS packets on port 53, redirecting to istio-agent on :15053").2.

Definition InvalidDropByIptables : Env.Var :=
  (RegisterBoolVar allVars "INVALID_DROP" false
    "If set to true, enable the invalid drop iptables rule, default false will cause iptables reset out of window packets").2.

Definition bindCmdlineFlags : list flag := [
  mk_flag IptablesKeys.EnvoyPort "p" (VStr "");
  mk_flag IptablesKeys.InboundCapturePort "z" (VStr "");
  mk_flag IptablesKeys.InboundTunnelPort "e" (VStr "");
  mk_flag IptablesKeys.ProxyUID "u" (VStr "");
  mk_flag IptablesKeys.ProxyGID "g" (VStr "");
  mk_flag IptablesKeys.InboundInterceptionMode "m" (VStr "");
  mk_flag IptablesKeys.InboundPorts "b" (VStr "");
  mk_flag IptablesKeys.LocalExcludePorts "d" (VStr "");
  mk_flag IptablesKeys.ExcludeInterfaces "" (VStr "");
  mk_flag IptablesKeys.ServiceCidr "i" (VStr "");
  mk_flag IptablesKeys.ServiceExcludeCidr "x" (VStr "");
  mk_flag IptablesKeys.OutboundPorts "q" (VStr "");
  mk_flag IptablesKeys.LocalOutboundPortsExclude "o" (VStr "");
  mk_flag IptablesKeys.KubeVirtInterfaces "k" (VStr "");
  mk_flag IptablesKeys.InboundTProxyMark "t" (VStr "");
  mk_flag IptablesKeys.InboundTProxyRouteTable "r" (VStr "");
  mk_flag IptablesKeys.DryRun "n" (VBool false);
  mk_flag IptablesKeys.TraceLogging "" (VBool false);
  mk_flag IptablesKeys.RestoreFormat "f" (VBool true);
  mk_flag IptablesKeys.IptablesProbePort "" (VStr DefaultIptablesProbePort);
  mk_flag IptablesKeys.ProbeTimeout "" (VDur (seconds 5));
  mk_flag IptablesKeys.SkipRuleApply "" (VBool false);
  mk_flag IptablesKeys.RunValidation "" (VBool false);
  mk_flag IptablesKeys.RedirectDNS "" (VBool dnsCaptureByAgent);
  mk_flag IptablesKeys.DropInvalid "" (VBool (BoolVar_Get LookupEnv InvalidDropByIptables));
  mk_flag IptablesKeys.CaptureAllDNS "" (VBool false);
  mk_flag IptablesKeys.OutputPath "" (VStr "");
  mk_flag IptablesKeys.NetworkNamespace "" (VStr "");
  mk_flag IptablesKeys.CNIMode "" (VBool false)].

Definition before_owner_groups : list (string * value) := [
  (IptablesKeys.EnvoyPort, VStr "15001"); (IptablesKeys.InboundCapturePort, VStr "15006"); (IptablesKeys.InboundTunnelPort, VStr "15008");
  (IptablesKeys.ProxyUID, VStr ""); (IptablesKeys.ProxyGID, VStr ""); (IptablesKeys.InboundInterceptionMode, VStr "");
  (IptablesKeys.InboundPorts, VStr ""); (IptablesKeys.LocalExcludePorts, VStr ""); (IptablesKeys.ExcludeInterfaces, VStr "");
  (IptablesKeys.ServiceCidr, VStr ""); (IptablesKeys.ServiceExcludeCidr, VStr "")].

Definition owner_groups : list (string * value) := [
  ("ISTIO_OUTBOUND_OWNER_GROUPS", VStr "*"); ("ISTIO_OUTBOUND_OWNER_GROUPS_EXCLUDE", VStr "")].

(** the default of drop-invalid is the variable itself, not its value *)
Definition after_owner_groups : list (string * value) := [
  (IptablesKeys.OutboundPorts, VStr ""); (IptablesKeys.LocalOutboundPortsExclude, VStr "");
  (IptablesKeys.KubeVirtInterfaces, VStr ""); (IptablesKeys.InboundTProxyMark, VStr "1337");
  (IptablesKeys.InboundTProxyRouteTable, VStr "133"); (IptablesKeys.DryRun, VBool false);
  (IptablesKeys.TraceLogging, VBool false); (IptablesKeys.RestoreFormat, VBool true);
  (IptablesKeys.IptablesProbePort, VStr DefaultIptablesProbePort); (IptablesKeys.ProbeTimeout, VDur (seconds 5)); (IptablesKeys.SkipRuleApply, VBool false);
  (IptablesKeys.RunValidation, VBool false); (IptablesKeys.RedirectDNS, VBool dnsCaptureByAgent);
  (IptablesKeys.DropInvalid, VBoolVar InvalidDropByIptables); (IptablesKeys.CaptureAllDNS, VBool false); (IptablesKeys.OutputPath, VStr "");
  (IptablesKeys.NetworkNamespace, VStr ""); (IptablesKeys.CNIMode, VBool false)].

Definition bindFlags (flags : list flag) : binding :=
  let b := for_each before_owner_groups (bind_with_default flags) start_binding in
  let b := for_each owner_groups env_with_default b in
  for_each after_owner_groups (bind_with_default flags) b.
End Cmd.
End IptablesCmd.

(** ** istio-clean-iptables *)

Module CleanCmd.
Section Cmd.
Context (LookupEnv : string → option string) (allVars : registry).

Definition dnsCaptureByAgent : bool :=
  BoolVar_Get LookupEnv (RegisterBoolVar allVars "ISTIO_META_DNS_CAPTURE" false
    "If set to true, enable the capture of outgoing DNS packets on port 53, redirecting to istio-agent on :15053").2.

Definition init : list flag := [
  mk_flag IptablesKeys.DryRun "n" (VBool false); mk_flag IptablesKeys.ProxyUID "u" (VStr ""); mk_flag IptablesKeys.ProxyGID "g" (VStr "");
  mk_flag IptablesKeys.RedirectDNS "" (VBool dnsCaptureByAgent)].

Definition clean_defaults : list (string * value) := [
  (IptablesKeys.DryRun, VBool false); (IptablesKeys.ProxyUID, VStr ""); (IptablesKeys.ProxyGID, VStr "");
  (IptablesKeys.RedirectDNS, VBool dnsCaptureByAgent)].

Definition bindFlags (flags : list flag) : binding :=
  for_each IptablesCmd.owner_groups env_with_default
    (for_each clean_defaults (bind_with_default flags) start_binding).
End Cmd.

(** [constructConfig]; servers are looked up even when all DNS is captured *)
Definition constructConfig `{Viper} (user_uid : option string) (resolv : result string (list string)) :
    result string Cleaner.Config :=
  let uid := get_string IptablesKeys.ProxyUID in
  let uid := if String.eqb uid "" then default DefaultProxyUID user_uid else uid in
  let gid := get_string IptablesKeys.ProxyGID in
  let gid := if String.eqb gid "" then uid else gid in
  let redirectDNS := get_bool IptablesKeys.RedirectDNS in
  match (if redirectDNS then SplitV4V6 <$> resolv else Ok ([], [])) with
  | Ok (v4, v6) => Ok {|
      Cleaner.ProxyUID := uid; Cleaner.ProxyGID := gid; Cleaner.RedirectDNS := redirectDNS;
      Cleaner.DNSServersV4 := v4; Cleaner.DNSServersV6 := v6; Cleaner.CaptureAllDNS := get_bool IptablesKeys.CaptureAllDNS;
      Cleaner.OwnerGroupsInclude := get_string "ISTIO_OUTBOUND_OWNER_GROUPS";
      Cleaner.OwnerGroupsExclude := get_string "ISTIO_OUTBOUND_OWNER_GROUPS_EXCLUDE" |}
  | Err e => Panic (Explicit ("failed to load /etc/resolv.conf: " +:+ e))
  | Panic q => Panic q
  end.
End CleanCmd.

(** ** The proxy *)

Module ProxyCmd.

Definition bindCmdFlags : list flag := [
  mk_flag ProxyKeys.ServerName "s" (VStr "Lhotse Proxy"); mk_flag ProxyKeys.FileName "c" (VStr "config.yaml");
  mk_flag ProxyKeys.CacheFileName "" (VStr "cache.json"); mk_flag ProxyKeys.ProxyMgrPort "m" (VInt 15030);
  mk_flag ProxyKeys.InBoundProxyPort "i" (VInt 15006); mk_flag ProxyKeys.OutBoundProxyPort "o" (VInt 15001);
  mk_flag ProxyKeys.UDPProxyPort "" (VInt 15009); mk_flag ProxyKeys.ConnIdleTimeOut "" (VDur (seconds 60));
  mk_flag ProxyKeys.CacheDuration "" (VDur (seconds 60)); mk_flag ProxyKeys.DomainPolicyURL "" (VStr "");
  mk_flag ProxyKeys.DomainPolicyCacheFile "" (VStr "/tmp/lhotse-domain-policy-cache.json");
  mk_flag ProxyKeys.DomainPolicyRefreshInterval "" (VDur (seconds 300));
  mk_flag ProxyKeys.DomainPolicyFetchTimeout "" (VDur (seconds 5)); mk_flag ProxyKeys.DomainPolicyScope "" (VStr "outbound");
  mk_flag ProxyKeys.AppName "" (VStr ""); mk_flag ProxyKeys.InstanceIP "" (VStr ""); mk_flag ProxyKeys.MITMEnabled "" (VBool false);
  mk_flag ProxyKeys.VaultURI "" (VStr ""); mk_flag ProxyKeys.AgentID "" (VStr ""); mk_flag ProxyKeys.UpstreamCAFile "" (VStr "");
  mk_flag ProxyKeys.CAPollInterval "" (VDur (seconds 300)); mk_flag ProxyKeys.CAInitTimeout "" (VDur (seconds 120));
  mk_flag ProxyKeys.CredentialRuntimeCacheFile "" (VStr "/tmp/lhotse-credential-runtime-cache.json");
  mk_flag ProxyKeys.CredentialRuntimeRefresh "" (VDur (seconds 300));
  mk_flag ProxyKeys.CredentialRuntimeFetch "" (VDur (seconds 5))].

Definition bound_keys : list string := [
  ProxyKeys.ServerName; ProxyKeys.FileName; ProxyKeys.CacheFileName; ProxyKeys.CacheDuration; ProxyKeys.ProxyMgrPort; ProxyKeys.InBoundProxyPort;
  ProxyKeys.OutBoundProxyPort; ProxyKeys.UDPProxyPort; ProxyKeys.ConnIdleTimeOut; ProxyKeys.DomainPolicyURL; ProxyKeys.DomainPolicyCacheFile;
  ProxyKeys.DomainPolicyRefreshInterval; ProxyKeys.DomainPolicyFetchTimeout; ProxyKeys.DomainPolicyScope; ProxyKeys.AppName; ProxyKeys.InstanceIP;
  ProxyKeys.MITMEnabled; ProxyKeys.VaultURI; ProxyKeys.AgentID; ProxyKeys.UpstreamCAFile; ProxyKeys.CAPollInterval; ProxyKeys.CAInitTimeout;
  ProxyKeys.CredentialRuntimeCacheFile; ProxyKeys.CredentialRuntimeRefresh; ProxyKeys.CredentialRuntimeFetch].

Definition bindFlags (flags : list flag) : binding :=
  for_each bound_keys (bind_pflag flags) start_binding.

Record Config := mk_config {
  ServerName : string; FileName : string; ProxyMgrPort : Z; InBoundProxyPort : Z; OutBoundProxyPort : Z;
  UDPProxyPort : Z; ConnIdleTimeOut : Z; CacheFileName : string; CacheDuration : Z; DomainPolicyURL : string;
  DomainPolicyCacheFile : string; DomainPolicyRefreshInterval : Z; DomainPolicyFetchTimeout : Z;
  DomainPolicyScope : string; AppName : string; InstanceIP : string; MITMEnabled : bool; VaultURI : string;
  AgentID : string; UpstreamCAFile : string; CAPollInterval : Z; CAInitTimeout : Z;
  CredentialRuntimeCacheFile : string; CredentialRuntimeRefresh : Z; CredentialRuntimeFetch : Z
}.

(** [get_int32] is viper's GetInt32 *)
Definition constructCfg `{Viper} (get_int32 : string → Z) : Config := {|
  ServerName := get_string ProxyKeys.ServerName; FileName := get_string ProxyKeys.FileName;
  CacheFileName := get_string ProxyKeys.CacheFileName; ProxyMgrPort := get_int32 ProxyKeys.ProxyMgrPort;
  InBoundProxyPort := get_int32 ProxyKeys.InBoundProxyPort; OutBoundProxyPort := get_int32 ProxyKeys.OutBoundProxyPort;
  UDPProxyPort := get_int32 ProxyKeys.UDPProxyPort; ConnIdleTimeOut := get_duration ProxyKeys.ConnIdleTimeOut;
  CacheDuration := get_duration ProxyKeys.CacheDuration; DomainPolicyURL := get_string ProxyKeys.DomainPolicyURL;
  DomainPolicyCacheFile := get_string ProxyKeys.DomainPolicyCacheFile;
  DomainPolicyRefreshInterval := get_duration ProxyKeys.DomainPolicyRefreshInterval;
  DomainPolicyFetchTimeout := get_duration ProxyKeys.DomainPolicyFetchTimeout;
  DomainPolicyScope := get_string ProxyKeys.DomainPolicyScope; AppName := get_string ProxyKeys.AppName;
  InstanceIP := get_string ProxyKeys.InstanceIP; MITMEnabled := get_bool ProxyKeys.MITMEnabled; VaultURI := get_string ProxyKeys.VaultURI;
  AgentID := get_string ProxyKeys.AgentID; UpstreamCAFile := get_string ProxyKeys.UpstreamCAFile;
  CAPollInterval := get_duration ProxyKeys.CAPollInterval; CAInitTimeout := get_duration ProxyKeys.CAInitTimeout;
  CredentialRuntimeCacheFile := get_string ProxyKeys.CredentialRuntimeCacheFile;
  CredentialRuntimeRefresh := get_duration ProxyKeys.CredentialRuntimeRefresh;
  CredentialRuntimeFetch := get_duration ProxyKeys.CredentialRuntimeFetch |}.
End ProxyCmd.

(** ** Reading the keys

    What the documentation of viper says about reading a key after a list of
    calls: a flag given on the command line, else a non-empty environment
    variable (with AutomaticEnv every key has one: upper case, with the
    replacer applied), else the default set last, else the default of the
    flag.  [cl] are the values given on the command line. *)

Definition ascii_upper (c : ascii) : ascii :=
  if (97 <=? byte_val c)%Z && (byte_val c <=? 122)%Z then byte_of (byte_val c - 32) else c.
Definition env_key (key : string) : string :=
  str_map (λ c, if Ascii.eqb c "-" then "_"%char else ascii_upper c) key.

Definition bound_flag (calls : list call) (key : string) : option flag :=
  last (omap (λ c, match c with BindPFlag k f => if String.eqb k key then Some f else None | _ => None end) calls).
Definition last_default (calls : list call) (key : string) : option value :=
  last (omap (λ c, match c with SetDefault k d => if String.eqb k key then Some d else None | _ => None end) calls).
Definition reads_env (calls : list call) (key : string) : bool :=
  existsb (λ c, match c with AutomaticEnv => true | BindEnv k => String.eqb k key | _ => false end) calls.

Section Reading.
Context (cl : string → option value) (env : string → option string).

Definition from_env (key : string) : option value :=
  match env (env_key key) with
  | Some s => if String.eqb s "" then None else Some (VStr s)
  | None => None
  end.

(** the command line, then the environment, then [d] *)
Definition pick (flagged : bool) (key : string) (d : value) : value :=
  match (if flagged then cl key else None), from_env key with
  | Some v, _ => v
  | None, Some v => v
  | None, None => d
  end.

Definition resolve (calls : list call) (key : string) : value :=
  let f := bound_flag calls key in
  match f ≫= (λ f, cl (f_name f)) with
  | Some v => v
  | None =>
      match (if reads_env calls key then from_env key else None) with
      | Some v => v
      | None =>
          match last_default calls key with
          | Some d => d
          | None => match f with Some f => f_default f | None => VNil end
          end
      end
  end.

Context (get : list call → string → value).
Hypothesis viper_get : ∀ calls key, get calls key = resolve calls key.

(** the conversions of viper on values of the right kind *)
Context (to_string : value → string) (to_bool : value → bool) (to_uint : value → Z) (to_duration : value → Z).
Hypothesis to_string_str : ∀ s, to_string (VStr s) = s.
Hypothesis to_bool_bool : ∀ b, to_bool (VBool b) = b.
Hypothesis to_bool_struct : ∀ v, to_bool (VBoolVar v) = false.
Hypothesis to_uint_str : to_uint (VStr DefaultIptablesProbePort) = 15002%Z.
Hypothesis to_duration_dur : ∀ d, to_duration (VDur d) = d.

Definition reader (calls : list call) : Viper := {|
  get_string := λ k, to_string (get calls k);
  get_bool := λ k, to_bool (get calls k);
  get_uint := λ k, to_uint (get calls k);
  get_duration := λ k, to_duration (get calls k)
|}.

(** names and short names of flags, which pflag requires to be unique *)
Definition unique_flags (flags : list flag) : Prop :=
  NoDup (f_name <$> flags) ∧ NoDup (filter (λ s, s ≠ "") (f_short <$> flags)).

(** the binding of the commands went through, and a key reads as [pick] says *)
Definition reads_as (b : binding) (flagged : bool) (e : string * value) : Prop :=
  get (b_calls b) e.1 = pick flagged e.1 e.2.

Section Iptables.
Context (LookupEnv : string → option string) (allVars : registry).
Let flags := IptablesCmd.bindCmdlineFlags LookupEnv allVars.
Let b := IptablesCmd.bindFlags LookupEnv allVars flags.

Lemma iptables_binding :
  unique_flags flags ∧ b_exited b = false ∧
  Forall (reads_as b true) (IptablesCmd.before_owner_groups ++ IptablesCmd.after_owner_groups LookupEnv allVars) ∧
  Forall (reads_as b false) IptablesCmd.owner_groups.
Proof.
  unfold reads_as, b, flags, IptablesCmd.bindFlags, IptablesCmd.bindCmdlineFlags, IptablesCmd.after_owner_groups.
  generalize (IptablesCmd.dnsCaptureByAgent LookupEnv allVars) as dns.
  generalize (BoolVar_Get LookupEnv (IptablesCmd.InvalidDropByIptables allVars)) as drop.
  generalize (IptablesCmd.InvalidDropByIptables allVars) as dropvar.
  intros dropvar drop dns. split; [split; apply (bool_decide_unpack _); by vm_compute|].
  split; [by vm_compute|]. split; apply Forall_forall; intros e He; rewrite viper_get;
    revert e He; apply Forall_forall; repeat constructor.
Qed.

(** what [constructConfig] yields when nothing is given *)
Definition default_iptables_config (uid : string) (ip : IP) (v4 v6 : list string) : Iptables.Config := {|
  ProxyPort := "15001"; InboundCapturePort := "15006"; InboundTunnelPort := "15008"; ProxyUID := uid; ProxyGID := uid;
  InboundInterceptionMode := ""; InboundTProxyMark := "1337"; InboundTProxyRouteTable := "133";
  InboundPortsInclude := ""; InboundPortsExclude := ""; OwnerGroupsInclude := "*"; OwnerGroupsExclude := "";
  OutboundPortsInclude := ""; OutboundPortsExclude := ""; OutboundIPRangesInclude := "";
  OutboundIPRangesExclude := ""; KubeVirtInterfaces := ""; ExcludeInterfaces := ""; IptablesProbePort := 15002;
  ProbeTimeout := 5000000000; DryRun := false; RestoreFormat := true; SkipRuleApply := false; RunValidation := false;
  RedirectDNS := IptablesCmd.dnsCaptureByAgent LookupEnv allVars; DropInvalid := false; CaptureAllDNS := false;
  EnableInboundIPv6 := bool_decide (To4 ip = None); DNSServersV4 := v4; DNSServersV6 := v6; OutputPath := "";
  NetworkNamespace := ""; CNIMode := false; TraceLogging := false |}.

Lemma iptables_defaults user ip servers :
  (∀ k, cl k = None) → (∀ k, from_env k = None) →
  Capture.constructConfig (H := reader (b_calls b)) user (Ok ip) (Ok servers) =
  Ok (let servers := if IptablesCmd.dnsCaptureByAgent LookupEnv allVars then SplitV4V6 servers else ([], []) in
      default_iptables_config (default DefaultProxyUID user) ip servers.1 servers.2).
Proof.
  intros Hcl Henv. destruct iptables_binding as (_ & _ & Hf & Ho).
  assert (∀ k d, (k, d) ∈ (IptablesCmd.before_owner_groups ++ IptablesCmd.after_owner_groups LookupEnv allVars) ++
    IptablesCmd.owner_groups → get (b_calls b) k = d) as Hk.
  { intros k d Hin. apply elem_of_app in Hin as [Hin|Hin].
    - rewrite Forall_forall in Hf. specialize (Hf _ Hin). unfold reads_as, pick in Hf. cbn in Hf.
      by rewrite Hcl, Henv in Hf.
    - rewrite Forall_forall in Ho. specialize (Ho _ Hin). unfold reads_as, pick in Ho. cbn in Ho.
      by rewrite Henv in Ho. }
  unfold Capture.constructConfig, reader. cbn [get_string get_bool get_uint get_duration].
  repeat match goal with
  | |- context [get (b_calls b) ?k] =>
      erewrite (Hk k) by (apply list_elem_of_In; cbn [In app]; repeat (first [left; reflexivity | right]))
  end.
  rewrite !to_string_str, !to_bool_bool, to_bool_struct, to_uint_str, to_duration_dur.
  cbn [String.eqb]. unfold default_iptables_config.
  destruct (IptablesCmd.dnsCaptureByAgent LookupEnv allVars); cbn [andb negb fmap result_fmap];
    [by destruct (SplitV4V6 servers)|done].
Qed.
End Iptables.

Section Others.
Context (LookupEnv : string → option string) (allVars : registry).

Lemma clean_binding :
  let flags := CleanCmd.init LookupEnv allVars in
  let b := CleanCmd.bindFlags LookupEnv allVars flags in
  unique_flags flags ∧ b_exited b = false ∧
  Forall (reads_as b true) (CleanCmd.clean_defaults LookupEnv allVars) ∧
  Forall (reads_as b false) IptablesCmd.owner_groups.
Proof.
  unfold reads_as, CleanCmd.bindFlags, CleanCmd.init, CleanCmd.clean_defaults.
  generalize (CleanCmd.dnsCaptureByAgent LookupEnv allVars) as dns. cbn zeta.
  intros dns. split; [split; apply (bool_decide_unpack _); by vm_compute|].
  split; [by vm_compute|]. split; apply Forall_forall; intros e He; rewrite viper_get;
    revert e He; apply Forall_forall; repeat constructor.
Qed.

Lemma proxy_binding :
  let b := ProxyCmd.bindFlags ProxyCmd.bindCmdFlags in
  unique_flags ProxyCmd.bindCmdFlags ∧ b_exited b = false ∧
  Forall (reads_as b true) ((λ f, (f_name f, f_default f)) <$> ProxyCmd.bindCmdFlags).
Proof.
  unfold reads_as. cbn zeta. split; [split; apply (bool_decide_unpack _); by vm_compute|].
  split; [by vm_compute|]. apply Forall_forall; intros e He; rewrite viper_get;
    revert e He; apply Forall_forall; repeat constructor.
Qed.
End Others.

(** C38: none of the three commands fails while it defines and binds its
    flags (the names and short names are unique and every bound key has a
    flag), and afterwards each key reads as documented: the value on the
    command line where the key has a flag, else the environment variable of
    that key, else the default of the program, "15001" for envoy-port and so
    on.  In particular, when nothing is given, the configuration of
    idefav-iptables is the default one, which drops no invalid packets even
    if INVALID_DROP is set, since the default of that key is no boolean. *)
Theorem options_precedence LookupEnv allVars user ip servers :
  (let flags := IptablesCmd.bindCmdlineFlags LookupEnv allVars in
   let b := IptablesCmd.bindFlags LookupEnv allVars flags in
   unique_flags flags ∧ b_exited b = false ∧
   Forall (reads_as b true) (IptablesCmd.before_owner_groups ++ IptablesCmd.after_owner_groups LookupEnv allVars) ∧
   Forall (reads_as b false) IptablesCmd.owner_groups ∧
   ((∀ k, cl k = None) → (∀ k, from_env k = None) →
    Capture.constructConfig (H := reader (b_calls b)) user (Ok ip) (Ok servers) =
    Ok (let servers := if IptablesCmd.dnsCaptureByAgent LookupEnv allVars then SplitV4V6 servers else ([], []) in
        default_iptables_config LookupEnv allVars (default DefaultProxyUID user) ip servers.1 servers.2))) ∧
  (let flags := CleanCmd.init LookupEnv allVars in
   let b := CleanCmd.bindFlags LookupEnv allVars flags in
   unique_flags flags ∧ b_exited b = false ∧
   Forall (reads_as b true) (CleanCmd.clean_defaults LookupEnv allVars) ∧
   Forall (reads_as b false) IptablesCmd.owner_groups) ∧
  (let b := ProxyCmd.bindFlags ProxyCmd.bindCmdFlags in
   unique_flags ProxyCmd.bindCmdFlags ∧ b_exited b = false ∧
   Forall (reads_as b true) ((λ f, (f_name f, f_default f)) <$> ProxyCmd.bindCmdFlags)).
Proof.
  split; [|split; [apply clean_binding|apply proxy_binding]].
  destruct (iptables_binding LookupEnv allVars) as (H1 & H2 & H3 & H4). do 4 (split; [done|]).
  by apply iptables_defaults.
Qed.
End Reading.

Lemma options_precedence_witness :
  let env k := if String.eqb k "ENVOY_PORT" then Some "16001" else None in
  resolve (λ _, None) env (b_calls (IptablesCmd.bindFlags (λ _, None) ∅ (IptablesCmd.bindCmdlineFlags (λ _, None) ∅)))
    "envoy-port" = VStr "16001".
Proof.
  intros env.
  destruct (options_precedence (λ _, None) env (resolve (λ _, None) env) (λ _ _, eq_refl)
    (λ v, match v with VStr s => s | _ => "" end) (λ v, match v with VBool b => b | _ => false end)
    (λ v, match v with VStr s => (Atoi s).1 | _ => 0%Z end) (λ v, match v with VDur d => d | _ => 0%Z end)
    (λ _, eq_refl) (λ _, eq_refl) (λ _, eq_refl) eq_refl (λ _, eq_refl) (λ _, None) ∅ None [] [])
    as ((_ & _ & H & _) & _).
  apply Forall_app in H as [H _]. apply Forall_cons in H as [H _]. exact H.
Defined.

(** The cleaner reads a key it never binds: the flag --capture-all-dns of
    idefav-iptables has no counterpart. *)
Lemma cleaner_ignores_capture_all_dns LookupEnv allVars cl :
  resolve cl (λ _, None) (b_calls (CleanCmd.bindFlags LookupEnv allVars (CleanCmd.init LookupEnv allVars)))
    "capture-all-dns" = VNil.
Proof.
  unfold CleanCmd.bindFlags, CleanCmd.init, CleanCmd.clean_defaults.
  by generalize (CleanCmd.dnsCaptureByAgent LookupEnv allVars).
Qed.
