(* ===== verification/Management.v ===== *)
(** * The management server

    cmd/mgr: the download of a new version (download.go) and the handlers of
    mgr.go, in particular the two that write and delete the iptables rules with
    a fixed configuration.

    The file system is a map from paths to files; paths that differ as strings
    are taken to name different files.  Each call that may fail has its outcome
    in a record.  Running iptables is XTables. *)

From S2P Require Export GoIO Netfilter XTables Env.

Local Open Scope string_scope.
Local Open Scope nat_scope.
Local Open Scope list_scope.

(** ** Download *)

Record file := mk_file { f_data : bytes; f_executable : bool }.
Notation filesystem := (gmap string file).

#[export] Instance file_eq_dec : EqDecision file.
Proof. solve_decision. Defined.

(** what the calls of one download meet *)
Record download_env := {
  d_Executable : result string string;
  d_Create : option string;
  d_Chmod : option string;
  d_Get : string → (Z * bytes) + string;         (* status and body, or an error *)
  d_Copy : option (nat * string);                (* the bytes written before the error *)
  d_Remove : option string;
  d_Rename1 : option string;
  d_Rename2 : option string
}.

Definition Rename (fault : option string) (old new : string) (fs : filesystem) : option string * filesystem :=
  match fault, fs !! old with
  | Some err, _ => (Some err, fs)
  | None, None => (Some "no such file or directory", fs)
  | None, Some f => (None, if decide (old = new) then fs else <[new := f]> (delete old fs))
  end.

Definition download_url (appName version : string) : string :=
  "http://localhost:18888/api/download?appName=" +:+ appName +:+ "&version=" +:+ version.

Definition Download (e : download_env) (appName version : string) (fs : filesystem)
  : result string (option string * filesystem) :=
  let url := download_url appName version in
  match d_Executable e with
  | Err err => Panic (Explicit err)
  | Panic p => Panic p
  | Ok exPath =>
      let newVersionPath := exPath +:+ "-" +:+ version in
      match d_Create e with
      | Some err => Ok (Some err, fs)
      | None =>
          let fs := <[newVersionPath := mk_file [] (default false (f_executable <$> fs !! newVersionPath))]> fs in
          match d_Chmod e with
          | Some err => Ok (Some err, fs)
          | None =>
              let fs := <[newVersionPath := mk_file [] true]> fs in
              match d_Get e url with
              | inr err => Ok (Some err, fs)
              | inl (status, body) =>
                  if negb (status =? 200)%Z then Ok (Some "获取指定版本程序失败", fs) else
                  match d_Copy e with
                  | Some (n, err) => Ok (Some err, <[newVersionPath := mk_file (take n body) true]> fs)
                  | None =>
                      let fs := <[newVersionPath := mk_file body true]> fs in
                      let bakFile := exPath +:+ "-bak" in
                      let fs := match d_Remove e with None => delete bakFile fs | Some _ => fs end in
                      match Rename (d_Rename1 e) exPath bakFile fs with
                      | (Some err, fs) => Ok (Some err, fs)
                      | (None, fs) => Ok (Rename (d_Rename2 e) newVersionPath exPath fs)
                      end
                  end
              end
          end
      end
  end.

(** ** Handlers *)

Definition handle_version (Version : string) : string := Version +:+ String LF "".
Definition handle_demo (Version : string) : string := Version +:+ String LF "".

Definition handle_upgrade (err : option string) : string :=
  match err with Some err => "upgraded failed:" +:+ err | None => "upgraded success" end.

Definition handle_download (e : download_env) (ver : string) (fs : filesystem) : result string (string * filesystem) :=
  match Download e "lhotse-agent" ver fs with
  | Ok (Some err, fs) => Ok (err, fs)
  | Ok (None, fs) => Ok ("更新成功", fs)
  | Err err => Err err
  | Panic p => Panic p
  end.

(** [getLocalIP]: the first interface address that is not local; an address
    that is no [*net.IPNet] is [None] *)
Definition usable (ip : IP) : bool := negb (IsLoopback ip) && negb (IsLinkLocalUnicast ip) && negb (IsLinkLocalMulticast ip).

Definition getLocalIP (addrs : result string (list (option IP))) : result string IP :=
  match addrs with
  | Err err => Err err
  | Panic p => Panic p
  | Ok addrs =>
      match head (filter (λ ip, usable ip = true) (omap id addrs)) with
      | Some ip => Ok ip
      | None => Err "no valid local IP address found"
      end
  end.

(** *** The rules *)

Definition EnvoyUser : string := "ENVOY_USER".

(** the configuration of /iptables, with the user of the proxy *)
Definition capture_config (user : string) : Config := {|
  DryRun := false; TraceLogging := false; RestoreFormat := false; ProxyPort := "15001"; InboundCapturePort := "15006";
  InboundTunnelPort := "15008"; ProxyUID := user; ProxyGID := user; InboundInterceptionMode := "";
  InboundTProxyMark := "1337"; InboundTProxyRouteTable := "133"; InboundPortsInclude := "*";
  InboundPortsExclude := "18080,22,15030"; OwnerGroupsInclude := "*"; OwnerGroupsExclude := "";
  OutboundPortsInclude := ""; OutboundPortsExclude := "28080,22"; OutboundIPRangesInclude := "*";
  OutboundIPRangesExclude := ""; KubeVirtInterfaces := ""; ExcludeInterfaces := ""; IptablesProbePort := 15002;
  ProbeTimeout := 5000000000; SkipRuleApply := false; RunValidation := false; RedirectDNS := false; DropInvalid := false;
  CaptureAllDNS := false; OutputPath := ""; Iptables.NetworkNamespace := ""; Iptables.CNIMode := false;
  EnableInboundIPv6 := false; DNSServersV4 := []; DNSServersV6 := [] |}.

(** the configuration of /clean-iptables *)
Definition clean_config : Cleaner.Config := {|
  Cleaner.ProxyUID := ""; Cleaner.ProxyGID := ""; Cleaner.RedirectDNS := false; Cleaner.DNSServersV4 := [];
  Cleaner.DNSServersV6 := []; Cleaner.CaptureAllDNS := false; Cleaner.OwnerGroupsInclude := "*";
  Cleaner.OwnerGroupsExclude := "" |}.

(** a command line of the configurator as program and arguments *)
Definition split_command (c : list string) : string * list string :=
  match c with [] => ("", []) | cmd :: args => (cmd, args) end.

Section Rules.
Context (shell : list (list string * outcome) → list string → outcome).
Context (Retry : (nat → option string) → nat * option string).
Context (LookupEnv : string → option string).

Definition deps : RealDependencies := mk_deps "" false.

Definition quietly (p : process) (cs : list (list string)) : process :=
  foldl (λ p c, RunQuietlyAndIgnore shell Retry deps p (split_command c).1 (split_command c).2) p cs.

(** [ext.Run] with the error ignored *)
Definition best_effort (p : process) (cs : list (list string)) : process :=
  foldl (λ p c, (Run shell Retry deps p (split_command c).1 (split_command c).2).1) p cs.

(** /clean-iptables; the answer [None]: the process is gone *)
Definition handle_clean_iptables (p : process) : process * option string :=
  match ValidateOwnerGroups (Cleaner.OwnerGroupsInclude clean_config) (Cleaner.OwnerGroupsExclude clean_config) with
  | Some err => (p, Some err)
  | None =>
      let h := for_each [IPTABLES; IP6TABLES] (Cleaner.removeOldChains clean_config) (mk_host NewIptablesBuilder []) in
      (best_effort (quietly p (h_ran h)) [[IPTABLESSAVE]; [IP6TABLESSAVE]], Some "操作成功")
  end.

(** /iptables: the registry of variables, the process, the answer.  The
    configuration neither asks for routes nor for validation. *)
Definition handle_iptables (allVars : registry) (p : process) : registry * result string (process * option string) :=
  let '(allVars, var) := RegisterStringVar allVars EnvoyUser "lhotse-agent" "Envoy proxy username" in
  let cfg := capture_config (StringVar_Get LookupEnv var) in
  (allVars,
   match Validate cfg with
   | Some err => Ok (p, Some err)
   | None =>
       let '(ex4, ex6) := separateV4V6 (OutboundIPRangesExclude cfg) in
       if IsWildcard ex4 then Panic (Explicit "Invalid value for OUTBOUND_IP_RANGES_EXCLUDE") else
       let '(in4, in6) := separateV4V6 (OutboundIPRangesInclude cfg) in
       let b := run_rules cfg ex4 ex6 in4 in6 in
       let p := run_commands shell Retry deps p (split_command <$> BuildV4 b ++ BuildV6 b) in
       if gone p then Ok (p, None) else
       let p := best_effort p ([IPTABLESSAVE] :: (if EnableInboundIPv6 cfg then [[IP6TABLESSAVE]] else [])) in
       Ok (p, Some "操作成功")
   end).
End Rules.

(** ** A download never loses the program *)

Lemma str_app_ne a c s : a +:+ String c s ≠ a.
Proof. intros E. apply (f_equal String.length) in E. rewrite str_length_app in E. cbn in E. lia. Qed.


Module DownloadExample.
Definition world : filesystem := <["/app/lhotse" := mk_file (of_string "v1") true]> ∅.
Definition fine : download_env := {|
  d_Executable := Ok "/app/lhotse"; d_Create := None; d_Chmod := None; d_Get := λ _, inl (200%Z, of_string "v2");
  d_Copy := None; d_Remove := None; d_Rename1 := None; d_Rename2 := None |}.
End DownloadExample.


(** The version "bak" is answered with success although the old program stays
    and the download is gone. *)
Lemma download_bak_lost :
  let '(r, fs') := match Download DownloadExample.fine "lhotse-agent" "bak" DownloadExample.world with
                   | Ok x => x | _ => (Some "", ∅) end in
  r = None ∧ fs' = DownloadExample.world.
Proof. split; by vm_compute. Qed.

(** A download that fails leaves its file behind: empty, and executable. *)
Lemma download_leaves_file :
  let e := {| d_Executable := Ok "/app/lhotse"; d_Create := None; d_Chmod := None; d_Get := λ _, inl (404%Z, []);
    d_Copy := None; d_Remove := None; d_Rename1 := None; d_Rename2 := None |} in
  let '(r, fs') := match Download e "lhotse-agent" "3" DownloadExample.world with Ok x => x | _ => (None, ∅) end in
  r = Some "获取指定版本程序失败" ∧ fs' !! "/app/lhotse-3" = Some (mk_file [] true).
Proof. split; by vm_compute. Qed.

(** ** What /iptables and /clean-iptables achieve *)

Lemma build_xtables b : Forall (λ c, c.1 ∈ XTablesCmds) (split_command <$> BuildV4 b ++ BuildV6 b).
Proof.
  assert (∀ cmd rules, cmd ∈ XTablesCmds → Forall (λ c, c.1 ∈ XTablesCmds) (split_command <$> buildRules cmd rules)) as H.
  { intros cmd rules Hc. unfold buildRules. rewrite fmap_app. apply Forall_app.
    split; apply Forall_fmap; apply Forall_fmap; by apply Forall_true. }
  rewrite fmap_app. apply Forall_app. split; apply H; set_solver.
Qed.

Lemma build_nonempty b : Forall (λ c, c ≠ []) (BuildV4 b ++ BuildV6 b).
Proof.
  assert (∀ cmd rules, Forall (λ c, c ≠ []) (buildRules cmd rules)) as H.
  { intros cmd rules. unfold buildRules. apply Forall_app. split; apply Forall_fmap; by apply Forall_true. }
  apply Forall_app. split; apply H.
Qed.

(** the user in whose name the proxy runs *)
Definition proxy_user (LookupEnv : string → option string) : string := default "lhotse-agent" (LookupEnv EnvoyUser).

Lemma registered_user LookupEnv allVars :
  let v := (RegisterStringVar allVars EnvoyUser "lhotse-agent" "Envoy proxy username").2 in
  StringVar_Get LookupEnv v = proxy_user LookupEnv.
Proof.
  assert ((RegisterStringVar allVars EnvoyUser "lhotse-agent" "Envoy proxy username").2 =
    mk_var EnvoyUser "lhotse-agent" "Envoy proxy username" false false STRING) as E.
  { unfold RegisterStringVar, RegisterVar, getVar. cbn [Name Description String.eqb].
    destruct (allVars !! EnvoyUser); cbn [fst snd]; by rewrite lookup_insert_eq. }
  cbn zeta. rewrite E. unfold StringVar_Get, StringVar_Lookup, raw_value, proxy_user. cbn [Name DefaultValue].
  by destruct (LookupEnv EnvoyUser).
Qed.

(** the rules of /iptables *)
Definition captured (user : string) : IptablesBuilder :=
  run_rules (capture_config user) no_range no_range wildcard wildcard.

Section Handlers.
Context (shell : list (list string * outcome) → list string → outcome).
Context (Retry : (nat → option string) → nat * option string).
Context (LookupEnv : string → option string).
Hypothesis HRetry : retries_until_nil Retry.

Lemma best_effort_one p cmd : cmd ∈ XTablesCmds →
  let p' := best_effort shell Retry p [[cmd]] in
  gone p' = gone p ∧ ∃ es, effective (history p') = effective (history p) ++ es ∧ Forall (λ e, e.1 = [cmd]) es.
Proof.
  intros Hc. unfold best_effort. cbn [foldl split_command fst snd]. unfold Run. rewrite decide_True by done.
  pose proof (executeXTables_spec shell Retry HRetry deps p cmd false []) as Hs.
  destruct (executeXTables _ _ _ _ _ _ _) as [p' [err|]]; destruct Hs as [Hg Hs]; cbn [fst].
  - split; [done|]. destruct Hs as [He|(o & He & _)]; rewrite He; [exists []; by rewrite app_nil_r|].
    eexists. split; [done|]. by constructor.
  - split; [done|]. destruct Hs as (o & He & _). rewrite He. eexists. split; [done|]. by constructor.
Qed.

Lemma handle_iptables_run allVars p :
  (handle_iptables shell Retry LookupEnv allVars p).2 =
  let b := captured (proxy_user LookupEnv) in
  let p := run_commands shell Retry deps p (split_command <$> BuildV4 b ++ BuildV6 b) in
  if gone p then Ok (p, None) else Ok (best_effort shell Retry p [[IPTABLESSAVE]], Some "操作成功").
Proof.
  unfold handle_iptables. pose proof (registered_user LookupEnv allVars) as Hu.
  destruct (RegisterStringVar _ _ _ _) as [allVars' var]. cbn [snd] in *. cbn zeta in Hu. rewrite Hu.
  unfold captured. by generalize (proxy_user LookupEnv).
Qed.

End Handlers.


(** *** Capturing twice, and cleaning *)

Module ChainExample.
(** the chains that successful commands made and removed *)
Definition chains (h : list (list string * outcome)) : gset (string * string) :=
  foldl (λ s e,
    match e.1, o_err e.2 with
    | [_; _; t; op; c], None =>
        if String.eqb op "-N" then {[(t, c)]} ∪ s else if String.eqb op "-X" then s ∖ {[(t, c)]} else s
    | _, _ => s
    end) ∅ h.

(** iptables, as far as making chains goes *)
Definition shell (h : list (list string * outcome)) (av : list string) : outcome :=
  match av with
  | [_; _; t; op; c] =>
      if String.eqb op "-N" && bool_decide ((t, c) ∈ chains h)
      then mk_outcome (Some (ExitError 1 "exit status 1")) "" "iptables: Chain already exists."
      else mk_outcome None "" ""
  | _ => mk_outcome None "" ""
  end.

Definition once (op : nat → option string) : nat * option string := (1, op 0).

Definition capture (p : process) : process * option string :=
  match (handle_iptables shell once (λ _, None) ∅ p).2 with Ok r => r | _ => (p, None) end.
Definition clean (p : process) : process * option string := handle_clean_iptables shell once p.
End ChainExample.

(** Asking for the capture a second time ends the agent: the chains exist, and
    the command that makes them must not fail.  After cleaning it works. *)
Lemma capture_twice_ends_process :
  let p := mk_process [] [] false in
  let p1 := (ChainExample.capture p).1 in
  (ChainExample.capture p).2 = Some "操作成功" ∧ gone (ChainExample.capture p1).1 = true ∧
  (ChainExample.clean p1).2 = Some "操作成功" ∧ (ChainExample.capture (ChainExample.clean p1).1).2 = Some "操作成功".
Proof. split_and!; by vm_compute. Qed.

(** the rules in chains the cleaner empties, and the jumps to them that it
    deletes *)
Definition cleaned_rule (r : Rule) : Prop :=
  r = mk_rule PREROUTING NAT ["-A"; PREROUTING; "-p"; TCP; "-j"; ISTIOINBOUND] ∨
  r = mk_rule OUTPUT NAT ["-A"; OUTPUT; "-p"; TCP; "-j"; ISTIOOUTPUT] ∨
  (table r = NAT ∧ chain r ∈ [ISTIOINBOUND; ISTIOOUTPUT; ISTIOREDIRECT; ISTIOINREDIRECT]).

Definition all_cleaned (b : IptablesBuilder) : Prop := Forall cleaned_rule (rulesv4 b) ∧ Forall cleaned_rule (rulesv6 b).

Lemma all_cleaned_for_each {A} (xs : list A) f b :
  (∀ x b, all_cleaned b → all_cleaned (f x b)) → all_cleaned b → all_cleaned (for_each xs f b).
Proof. intros Hf. unfold for_each. revert b. induction xs as [|x xs IH]; intros b Hb; [done|]. apply IH. by apply Hf. Qed.

Section Cleaning.
Variable cfg : Config.
Hypothesis untraced : TraceLogging cfg = false.

Lemma appendInternal_untraced command ch tb ps l :
  appendInternal cfg command ch tb ps l = l ++ [mk_rule ch tb (["-A"; ch] ++ ps)].
Proof. unfold appendInternal, trace_rule. rewrite untraced. by destruct (indexOf "-j" ps). Qed.

Lemma cleaned_append4 command ch tb ps b : cleaned_rule (mk_rule ch tb (["-A"; ch] ++ ps)) →
  all_cleaned b → all_cleaned (AppendRuleV4 cfg command ch tb ps b).
Proof. intros Hr [H4 H6]. split; [|done]. cbn. rewrite appendInternal_untraced. apply Forall_app. by split; [|constructor]. Qed.

Lemma cleaned_append6 command ch tb ps b : cleaned_rule (mk_rule ch tb (["-A"; ch] ++ ps)) →
  all_cleaned b → all_cleaned (AppendRuleV6 cfg command ch tb ps b).
Proof.
  intros Hr [H4 H6]. unfold AppendRuleV6. destruct (negb _); [done|]. split; [done|].
  cbn. rewrite appendInternal_untraced. apply Forall_app. by split; [|constructor].
Qed.

Lemma cleaned_append command ch tb ps b : cleaned_rule (mk_rule ch tb (["-A"; ch] ++ ps)) →
  all_cleaned b → all_cleaned (AppendRule cfg command ch tb ps b).
Proof. intros. by apply cleaned_append6, cleaned_append4. Qed.

(** a rule in one of the four chains is fine whatever it says *)
Lemma cleaned_in_chain (v4 v6 command ch ps : _) b : ch ∈ [ISTIOINBOUND; ISTIOOUTPUT; ISTIOREDIRECT; ISTIOINREDIRECT] →
  all_cleaned b →
  all_cleaned (AppendRule cfg command ch NAT ps b) ∧ all_cleaned (AppendRuleV4 cfg command ch NAT ps b) ∧
  all_cleaned (AppendRuleV6 cfg command ch NAT ps b) ∧ all_cleaned (AppendVersionedRule cfg v4 v6 command ch NAT ps b).
Proof.
  intros Hc Hb. assert (∀ ps, cleaned_rule (mk_rule ch NAT (["-A"; ch] ++ ps))) as Hr by (intros ?; right; right; done).
  split_and!; [by apply cleaned_append|by apply cleaned_append4|by apply cleaned_append6|].
  by apply cleaned_append6, cleaned_append4.
Qed.

Ltac in_chain := cbv beta;
  lazymatch goal with
  | |- all_cleaned (AppendRule _ _ _ _ _ _) => refine (proj1 (cleaned_in_chain "" "" _ _ _ _ _ _))
  | |- all_cleaned (AppendRuleV4 _ _ _ _ _ _) => refine (proj1 (proj2 (cleaned_in_chain "" "" _ _ _ _ _ _)))
  | |- all_cleaned (AppendRuleV6 _ _ _ _ _ _) => refine (proj1 (proj2 (proj2 (cleaned_in_chain "" "" _ _ _ _ _ _))))
  | |- all_cleaned (AppendVersionedRule _ _ _ _ _ _ _ _) => refine (proj2 (proj2 (proj2 (cleaned_in_chain _ _ _ _ _ _ _ _))))
  end; [apply (bool_decide_unpack _); by vm_compute|].

Lemma cleaned_owner loopback id b : all_cleaned b →
  all_cleaned (proxy_uid_rules cfg loopback id b) ∧ all_cleaned (proxy_gid_rules cfg loopback id b).
Proof. intros Hb. unfold proxy_uid_rules, proxy_gid_rules. split; destruct loopback; repeat in_chain; done. Qed.

Lemma cleaned_group f b : all_cleaned b → all_cleaned (handleCaptureByOwnerGroup cfg f b).
Proof. intros Hb. unfold handleCaptureByOwnerGroup. destruct (Except f); [apply all_cleaned_for_each; [intros ???|done]|]; by in_chain. Qed.

Lemma cleaned_ports b : all_cleaned b → all_cleaned (handleOutboundPortsInclude cfg b).
Proof.
  intros Hb. unfold handleOutboundPortsInclude. destruct (String.eqb _ _); [done|].
  apply all_cleaned_for_each; [intros ???; by in_chain|done].
Qed.

Hypothesis no_tproxy : tproxy cfg = false.
Hypothesis no_kubevirt : Iptables.split (KubeVirtInterfaces cfg) = [].

Lemma cleaned_inbound b : all_cleaned b → all_cleaned (handleInboundPortsInclude cfg b).
Proof.
  intros Hb. unfold handleInboundPortsInclude. rewrite no_tproxy. destruct (String.eqb _ ""); [done|].
  assert (all_cleaned (AppendRule cfg JumpInbound PREROUTING NAT ["-p"; TCP; "-j"; ISTIOINBOUND] b)) as Hj
    by (apply cleaned_append; [by left|done]).
  destruct (String.eqb _ "*").
  - in_chain. destruct (String.eqb _ _); [done|]. apply all_cleaned_for_each; [intros ???; by in_chain|done].
  - apply all_cleaned_for_each; [intros ???; by in_chain|done].
Qed.

Lemma cleaned_include r (v6 : bool) b : all_cleaned b →
  all_cleaned (if v6 then handleOutboundIncludeRules cfg r (AppendRuleV6 cfg) (InsertRuleV6 cfg) b
               else handleOutboundIncludeRules cfg r (AppendRuleV4 cfg) (InsertRuleV4 cfg) b).
Proof.
  intros Hb. unfold handleOutboundIncludeRules. rewrite no_kubevirt. cbn [for_each foldl].
  destruct v6, (IsWildcard r); try (by in_chain); destruct (IPNets r); try done; in_chain;
    (apply all_cleaned_for_each; [intros ???|]; by in_chain).
Qed.

Hypothesis no_exclude : Iptables.split (ExcludeInterfaces cfg) = [].
Hypothesis keeps_invalid : DropInvalid cfg = false.
Hypothesis no_dns : RedirectDNS cfg = false.

Lemma plain_rules_cleaned ex4 ex6 in4 in6 : all_cleaned (run_rules cfg ex4 ex6 in4 in6).
Proof.
  unfold run_rules, tproxy_rules, udp_dns_rules, shortCircuitExcludeInterfaces, shortCircuitKubeInternalInterface.
  rewrite no_tproxy, no_exclude, no_kubevirt, keeps_invalid, no_dns. cbn [negb for_each foldl].
  unfold outbound_rules, tcp_dns_rules. rewrite no_dns. cbn [negb].
  apply (cleaned_include in6 true), (cleaned_include in4 false), cleaned_ports.
  do 2 (apply all_cleaned_for_each; [intros ???; by in_chain|]). in_chain. apply cleaned_group.
  do 2 (apply all_cleaned_for_each; [intros ???; by apply cleaned_owner|]). in_chain.
  match goal with |- all_cleaned (if _ then ?x else _) => assert (all_cleaned x) as Hx end.
  { apply cleaned_append; [by right; left|]. apply cleaned_inbound. do 3 in_chain. split; constructor. }
  destruct (String.eqb _ _); [done|]. apply all_cleaned_for_each; [intros ???; by in_chain|done].
Qed.
End Cleaning.

(** what the cleaner runs for one family, in so far as it does not depend on
    its configuration *)
Definition empties (cmd : string) (ran : list (list string)) (r : Rule) : Prop :=
  delete_of cmd r ∈ ran ∨
  ∃ before between after, ran = before ++ [[cmd; "-t"; table r; "-F"; chain r]] ++ between ++
    [[cmd; "-t"; table r; "-X"; chain r]] ++ after.

(** the chain is emptied by the command at position [n] *)
Ltac emptied n :=
  match goal with |- ∃ _ _ _, ?l = _ => exists (take n l), [], (drop (n + 2) l); reflexivity end.

Lemma removeOldChains_empties cfg cmd h r : Cleaner.RedirectDNS cfg = false → cleaned_rule r →
  ∃ own, h_ran (Cleaner.removeOldChains cfg cmd h) = h_ran h ++ own ∧ empties cmd own r.
Proof.
  intros Hd Hr. unfold Cleaner.removeOldChains, Cleaner.flushAndDeleteChains. rewrite Hd.
  cbn [for_each foldl run_command h_ran]. rewrite <- !app_assoc. eexists. split; [done|]. cbn [app].
  destruct Hr as [->|[->|[Ht Hc]]]; [left; unfold delete_of; cbn; set_solver..|]. right. rewrite Ht.
  repeat apply elem_of_cons in Hc as [->|Hc].
  - emptied 5.
  - emptied 3.
  - emptied 13.
  - emptied 15.
  - by apply not_elem_of_nil in Hc.
Qed.

Lemma empties_within cmd a own b r : empties cmd own r → empties cmd (a ++ own ++ b) r.
Proof.
  intros [Hd|(x & y & z & ->)]; [left; set_solver|]. right. exists (a ++ x), y, (z ++ b). by rewrite <- !app_assoc.
Qed.

(** C30: The cleaner undoes a plain capture: with neither TPROXY, nor excluded
    or KubeVirt interfaces, nor dropping of invalid packets, nor DNS, nor
    tracing, each rule the configurator wrote, in either family and for any
    ranges, is deleted by one of the cleaner's commands or is in a chain that
    is first emptied and then deleted.  (/iptables of the management server is
    such a capture.) *)
Theorem clean_undoes_capture cfg ccfg ex4 ex6 in4 in6 :
  TraceLogging cfg = false → tproxy cfg = false → Iptables.split (KubeVirtInterfaces cfg) = [] →
  Iptables.split (ExcludeInterfaces cfg) = [] → DropInvalid cfg = false → RedirectDNS cfg = false →
  Cleaner.RedirectDNS ccfg = false →
  let b := run_rules cfg ex4 ex6 in4 in6 in
  Forall (empties IPTABLES (Cleaner.Run ccfg)) (rulesv4 b) ∧ Forall (empties IP6TABLES (Cleaner.Run ccfg)) (rulesv6 b).
Proof.
  intros Ht Hp Hk He Hi Hd Hc b. destruct (plain_rules_cleaned cfg Ht Hp Hk He Hi Hd ex4 ex6 in4 in6) as [H4 H6].
  unfold Cleaner.Run. cbn [for_each foldl].
  set (h4 := Cleaner.removeOldChains ccfg IPTABLES (mk_host NewIptablesBuilder [])).
  split; eapply Forall_impl; try eassumption; intros r Hr.
  - destruct (removeOldChains_empties ccfg IPTABLES (mk_host NewIptablesBuilder []) r Hc Hr) as (own & E & Hown).
    destruct (removeOldChains_empties ccfg IP6TABLES h4 r Hc Hr) as (own' & E' & _).
    rewrite E'. unfold h4. rewrite E, <- !app_assoc. by apply empties_within.
  - destruct (removeOldChains_empties ccfg IP6TABLES h4 r Hc Hr) as (own' & E' & Hown).
    rewrite E', <- app_assoc. by apply empties_within.
Qed.

Lemma clean_undoes_capture_witness :
  let b := captured "lhotse-agent" in
  Forall (empties IPTABLES (Cleaner.Run clean_config)) (rulesv4 b) ∧
  Forall (empties IP6TABLES (Cleaner.Run clean_config)) (rulesv6 b).
Proof. apply (clean_undoes_capture (capture_config "lhotse-agent") clean_config no_range no_range wildcard wildcard); reflexivity. Defined.
