(* ===== verification/Commands.v ===== *)
(** * The commands that install, route and clean (iptables/pkg/cmd, clean-iptables/pkg/cmd)

    [rootCmd] and [configureRoutesCommand] of iptables/pkg/cmd/root.go and
    [rootCmd] of clean-iptables/pkg/cmd/root.go: they build the configuration,
    choose the dependencies (the real ones or the stub of a dry run), run the
    configurator or the cleaner, set the routes and validate the capture.

    A command changes a [machine] and ends in one of three ways: normally, by
    [os.Exit] (the status is in the machine) or by a panic. *)

From S2P Require Export Management Validation.

Local Open Scope string_scope.
Local Open Scope nat_scope.
Local Open Scope list_scope.

(** ** Dependencies *)

Inductive Dependencies := StdoutStub | Real (r : RealDependencies).

(** the programs run, the output of the stub, the rules files written, the
    requests made over netlink, the status the process exited with *)
Record machine := mk_machine {
  mc_proc : process;
  mc_stdout : list string;
  mc_files : list (string * string);
  mc_requests : list request;
  mc_exit : option Z
}.

Definition start_machine : machine := mk_machine (mk_process [] [] false) [] [] [] None.

Definition exited (m : machine) : bool := match mc_exit m with Some _ => true | None => false end.

Definition set_proc (m : machine) (p : process) : machine :=
  mk_machine p (mc_stdout m) (mc_files m) (mc_requests m) (mc_exit m).
Definition print (m : machine) (out : list string) : machine :=
  mk_machine (mc_proc m) out (mc_files m) (mc_requests m) (mc_exit m).
Definition write_file (m : machine) (f : string * string) : machine :=
  mk_machine (mc_proc m) (mc_stdout m) (mc_files m ++ [f]) (mc_requests m) (mc_exit m).
Definition set_requests (m : machine) (st : list request) : machine :=
  mk_machine (mc_proc m) (mc_stdout m) (mc_files m) st (mc_exit m).

(** [os.Exit] *)
Definition exit_with (m : machine) (code : Z) : machine :=
  mk_machine (mc_proc m) (mc_stdout m) (mc_files m) (mc_requests m) (Some code).

(** [handleErrorWithCode] *)
Definition handleErrorWithCode (m : machine) (err : string) (code : Z) : machine :=
  exit_with (set_proc m (log_error err (mc_proc m))) code.

Definition handleError (m : machine) (err : string) : machine := handleErrorWithCode m err 1.

(** [Execute] of a command, which cobra may end with an error *)
Definition Execute (m : machine) (rootCmd : machine → machine * option string) : machine :=
  match rootCmd m with
  | (m, Some err) => handleError m err
  | (m, None) => m
  end.

Definition ValidationErrorCode : Z := 126.

Section Commands.
Context `{GoUnicode}.
Context (shell : list (list string * outcome) → list string → outcome).
Context (Retry : (nat → option string) → nat * option string).
Context (LinkByName : string → Z + string) (answer : list request → request → option string).
(** the rules file of an address family: its name, or the error *)
Context (env_file : bool → string → result string string).
Context (order : gmap string (list string) → list (string * list string)).
Context (self : string).                                  (* os.Args[0] *)
Context (addrs : result string (list (option IP))).       (* net.InterfaceAddrs *)
Context (validate : VConfig → option string).             (* Validator.Run *)

(** [RunOrFail] of the dependencies; [os.Exit(-1)] is status 255 *)
Definition ext_RunOrFail (ext : Dependencies) (m : machine) (c : string * list string) : machine :=
  if exited m then m else
  match ext with
  | StdoutStub => print m (stub_RunOrFail (mc_stdout m) c.1 c.2)
  | Real r =>
      let p := XTables.RunOrFail shell Retry r (mc_proc m) c.1 c.2 in
      if gone p then exit_with (set_proc m p) 255 else set_proc m p
  end.

(** [Run] of the dependencies, with its error *)
Definition ext_Run (ext : Dependencies) (m : machine) (c : string * list string) : machine * option string :=
  match ext with
  | StdoutStub => let '(out, e) := stub_Run (mc_stdout m) c.1 c.2 in (print m out, e)
  | Real r => let '(p, e) := XTables.Run shell Retry r (mc_proc m) c.1 c.2 in (set_proc m p, e)
  end.

Definition ext_RunQuietlyAndIgnore (ext : Dependencies) (m : machine) (c : string * list string) : machine :=
  match ext with
  | StdoutStub => print m (stub_RunQuietlyAndIgnore (mc_stdout m) c.1 c.2)
  | Real r => set_proc m (XTables.RunQuietlyAndIgnore shell Retry r (mc_proc m) c.1 c.2)
  end.

(** ** The configurator over the dependencies *)

Section Configurator.
Variables (cfg : Config) (ext : Dependencies).

Definition run_all (m : machine) (cs : list (list string)) : machine :=
  foldl (ext_RunOrFail ext) m (split_command <$> cs).

(** [executeIptablesRestoreCommand], whose error exits with status 1 *)
Definition restore (b : IptablesBuilder) (isIpv4 : bool) (m : machine) : machine :=
  if exited m then m else
  let data := if isIpv4 then BuildV4Restore order b else BuildV6Restore order b in
  match env_file isIpv4 data with
  | Ok name => ext_RunOrFail ext (write_file m (name, data)) (if isIpv4 then IPTABLESRESTORE else IP6TABLESRESTORE, ["--noflush"; name])
  | Err e => handleErrorWithCode m ("Failed to execute iptables-restore command: " +:+ e) 1
  | Panic _ => exit_with m 2
  end.

Definition executeCommands (b : IptablesBuilder) (m : machine) : machine :=
  if RestoreFormat cfg then restore b false (restore b true m) else run_all (run_all m (BuildV4 b)) (BuildV6 b).

(** the deferred listing, also after a panic, but not after an exit *)
Definition list_tables (m : machine) : machine :=
  if exited m then m else
  let m := (ext_Run ext m (IPTABLESSAVE, [])).1 in
  if EnableInboundIPv6 cfg then (ext_Run ext m (IP6TABLESSAVE, [])).1 else m.

(** [IptablesConfigurator.Run] *)
Definition configurator_Run (m : machine) : machine * option panic :=
  let '(ex4, ex6) := separateV4V6 (OutboundIPRangesExclude cfg) in
  if IsWildcard ex4 then (list_tables m, Some (Explicit "Invalid value for OUTBOUND_IP_RANGES_EXCLUDE")) else
  let '(in4, in6) := separateV4V6 (OutboundIPRangesInclude cfg) in
  (list_tables (executeCommands (run_rules cfg ex4 ex6 in4 in6) m), None).

(** [ConfigureRoutes]; in CNI mode the dependencies run the program itself *)
Definition routes (with_ext : bool) (m : machine) : machine * option string :=
  if negb (DryRun cfg) && with_ext && Iptables.CNIMode cfg then ext_Run ext m (self, [CommandConfigureRoutes])
  else let '(st, e) := ConfigureRoutes LinkByName answer cfg None self (mc_requests m) in (set_requests m st, e).
End Configurator.

(** ** The commands *)

Definition iptables_dependencies (cfg : Config) : Dependencies :=
  if DryRun cfg then StdoutStub else Real (mk_deps (Iptables.NetworkNamespace cfg) (Iptables.CNIMode cfg)).

(** [getLocalIP] of iptables/pkg/cmd/root.go, the same text as that of the
    management server *)
Definition getLocalIP : result string (list (option IP)) → result string IP := Management.getLocalIP.

(** the last part of [rootCmd] *)
Definition run_validation (cfg : Config) (m : machine) : machine * option panic :=
  if negb (RunValidation cfg) then (m, None) else
  match getLocalIP addrs with
  | Err e => (m, Some (Explicit e))
  | Panic p => (m, Some p)
  | Ok hostIP =>
      match validate (NewValidator cfg hostIP) with
      | Some err => (handleErrorWithCode m err ValidationErrorCode, None)
      | None => (m, None)
      end
  end.

(** [rootCmd] of the installer, on the configuration it has constructed *)
Definition iptables_command (cfg : Config) (m : machine) : machine * option panic :=
  match Validate cfg with
  | Some err => (handleErrorWithCode m err 1, None)
  | None =>
      let ext := iptables_dependencies cfg in
      if SkipRuleApply cfg then run_validation cfg m else
      match configurator_Run cfg ext m with
      | (m, Some p) => (m, Some p)
      | (m, None) =>
          if exited m then (m, None) else
          match routes cfg ext true m with
          | (m, Some err) => (handleErrorWithCode m err 1, None)
          | (m, None) => run_validation cfg m
          end
      end
  end.

(** [configureRoutesCommand] *)
Definition configure_routes_command (cfg : Config) (m : machine) : machine :=
  match Validate cfg with
  | Some err => handleErrorWithCode m err 1
  | None =>
      if SkipRuleApply cfg then m else
      match routes cfg StdoutStub false m with
      | (m, Some err) => handleErrorWithCode m err 1
      | (m, None) => m
      end
  end.

(** [NewDependencies] of the cleaner *)
Definition clean_NewDependencies (dryRun : bool) : Dependencies :=
  if dryRun then StdoutStub else Real (mk_deps "" false).

(** [rootCmd] of the cleaner *)
Definition clean_command (dryRun : bool) (cfg : Cleaner.Config) (m : machine) : machine :=
  match ValidateOwnerGroups (Cleaner.OwnerGroupsInclude cfg) (Cleaner.OwnerGroupsExclude cfg) with
  | Some err => handleErrorWithCode m err 1
  | None =>
      let ext := clean_NewDependencies dryRun in
      let h := for_each [IPTABLES; IP6TABLES] (Cleaner.removeOldChains cfg) (mk_host NewIptablesBuilder []) in
      let m := foldl (ext_RunQuietlyAndIgnore ext) m (split_command <$> h_ran h) in
      foldl (λ m c, (ext_Run ext m (c, [])).1) m [IPTABLESSAVE; IP6TABLESSAVE]
  end.

(** ** A dry run *)

(** no program was run and nothing requested *)
Definition untouched (m m' : machine) : Prop :=
  history (mc_proc m') = history (mc_proc m) ∧ mc_requests m' = mc_requests m.

#[export] Instance untouched_preorder : PreOrder untouched.
Proof. split; [done|]. intros m1 m2 m3 [??] [??]. split; congruence. Qed.

Lemma untouched_fold {A} (f : machine → A → machine) xs m :
  (∀ m x, untouched m (f m x)) → untouched m (foldl f m xs).
Proof. intros Hf. revert m. induction xs as [|x xs IH]; intros m; [done|]. cbn. etransitivity; [apply Hf|apply IH]. Qed.

Lemma stub_RunOrFail_untouched m c : untouched m (ext_RunOrFail StdoutStub m c).
Proof. unfold ext_RunOrFail. by destruct (exited m). Qed.

Lemma stub_run_all_untouched m cs : untouched m (run_all StdoutStub m cs).
Proof. apply untouched_fold, stub_RunOrFail_untouched. Qed.

Lemma stub_restore_untouched b v4 m : untouched m (restore StdoutStub b v4 m).
Proof.
  unfold restore. destruct (exited m); [done|]. cbv zeta. destruct (env_file _ _) as [name|e|p]; [|done..].
  set (data := if v4 then _ else _). transitivity (write_file m (name, data)); [done|]. apply stub_RunOrFail_untouched.
Qed.

Lemma stub_configurator_untouched cfg m : untouched m (configurator_Run cfg StdoutStub m).1.
Proof.
  assert (∀ m, untouched m (list_tables cfg StdoutStub m)) as Hl.
  { intros m'. unfold list_tables. destruct (exited m'); [done|]. by destruct (EnableInboundIPv6 cfg). }
  unfold configurator_Run. destruct (separateV4V6 _) as [ex4 ex6]. destruct (IsWildcard ex4); [apply Hl|].
  destruct (separateV4V6 _) as [in4 in6]. cbn [fst]. etransitivity; [|apply Hl]. unfold executeCommands.
  destruct (RestoreFormat cfg); (etransitivity; [|by (apply stub_restore_untouched || apply stub_run_all_untouched)]);
    by (apply stub_restore_untouched || apply stub_run_all_untouched).
Qed.

Lemma dry_routes_untouched cfg ext with_ext m : DryRun cfg = true → untouched m (routes cfg ext with_ext m).1.
Proof. intros Hd. unfold routes, ConfigureRoutes. by rewrite Hd. Qed.

Lemma run_validation_untouched cfg m : untouched m (run_validation cfg m).1.
Proof.
  unfold run_validation. destruct (negb _); [done|]. destruct (getLocalIP addrs); [|done..]. by destruct (validate _).
Qed.

Lemma run_validation_spec cfg m m' p : run_validation cfg m = (m', p) →
  untouched m m' ∧ (p = None → mc_exit m' = None → mc_proc m' = mc_proc m ∧
    (RunValidation cfg = true → ∃ ip, getLocalIP addrs = Ok ip ∧ validate (NewValidator cfg ip) = None)).
Proof.
  intros E. split; [pose proof (run_validation_untouched cfg m) as Hu; by rewrite E in Hu|].
  revert E. unfold run_validation. destruct (RunValidation cfg); [|by intros [= <- <-]]. cbn [negb].
  destruct (getLocalIP addrs) as [ip|e|q]; [|by intros [= <- <-]..].
  destruct (validate _) eqn:Hvd; intros [= <- <-]; [done|]. by eauto.
Qed.

(** ** An installation *)

Section Installation.
Variable r : RealDependencies.
Hypothesis HRetry : retries_until_nil Retry.

(** the machine has not exited, and says so in both places *)
Definition alive (m : machine) : Prop := mc_exit m = None ∧ gone (mc_proc m) = false.

(** the machine exits when its process gives up *)
Definition in_sync (m : machine) : Prop := exited m = gone (mc_proc m).

Lemma RunOrFail_real m c : in_sync m →
  let m' := ext_RunOrFail (Real r) m c in
  in_sync m' ∧ mc_proc m' = XTables.RunOrFail shell Retry r (mc_proc m) c.1 c.2 ∧ mc_requests m' = mc_requests m.
Proof.
  unfold in_sync. intros Hs. cbv zeta. set (q := XTables.RunOrFail shell Retry r (mc_proc m) c.1 c.2).
  assert (exited m = true → q = mc_proc m) as Hq by (unfold q, XTables.RunOrFail; rewrite <- Hs; by intros ->).
  unfold ext_RunOrFail. fold q. destruct (exited m) eqn:Hx; [rewrite Hx; split_and!; [done|by rewrite Hq|done]|].
  destruct (gone q) eqn:Hg; unfold exited in *; cbn; by rewrite ?Hg, ?Hx.
Qed.

Lemma run_all_real m cs : in_sync m →
  let m' := run_all (Real r) m cs in
  in_sync m' ∧ mc_proc m' = run_commands shell Retry r (mc_proc m) (split_command <$> cs) ∧ mc_requests m' = mc_requests m.
Proof.
  unfold run_all, run_commands. generalize (split_command <$> cs). clear cs. intros cs.
  revert m. induction cs as [|c cs IH]; intros m Hm; [done|]. cbn [foldl].
  destruct (RunOrFail_real m c Hm) as (Hs & Hp & Hq). destruct (IH _ Hs) as (Hs' & Hp' & Hq').
  split; [done|]. by rewrite Hp', Hq', Hp, Hq.
Qed.

Lemma ext_Run_listing m cmd : cmd ∈ XTablesCmds → alive m →
  let m' := (ext_Run (Real r) m (cmd, [])).1 in
  alive m' ∧ mc_requests m' = mc_requests m ∧
  ∃ es, effective (history (mc_proc m')) = effective (history (mc_proc m)) ++ es ∧ Forall (λ e, e.1 = argv r cmd []) es.
Proof.
  intros Hc [Hx Hg]. unfold ext_Run, XTables.Run. cbn [fst snd]. rewrite decide_True by done.
  pose proof (executeXTables_spec shell Retry HRetry r (mc_proc m) cmd false []) as Hs.
  destruct (executeXTables _ _ _ _ _ _ _) as [p' [err|]]; destruct Hs as [Hg' Hs]; cbn [fst];
    (split; [by split; [|cbn; rewrite Hg']|]); (split; [done|]); cbn [set_proc mc_proc].
  - destruct Hs as [He|(o & He & _)]; rewrite He; [exists []; by rewrite app_nil_r|].
    eexists. split; [done|]. by constructor.
  - destruct Hs as (o & He & _). rewrite He. eexists. split; [done|]. by constructor.
Qed.

(** a listing of a table *)
Definition is_listing (e : list string * outcome) : Prop :=
  e.1 = argv r IPTABLESSAVE [] ∨ e.1 = argv r IP6TABLESSAVE [].

Lemma list_tables_real cfg m : alive m →
  let m' := list_tables cfg (Real r) m in
  alive m' ∧ mc_requests m' = mc_requests m ∧
  ∃ es, effective (history (mc_proc m')) = effective (history (mc_proc m)) ++ es ∧ Forall is_listing es.
Proof.
  intros Hm. unfold list_tables, exited. destruct Hm as [Hx Hg]. rewrite Hx.
  destruct (ext_Run_listing m IPTABLESSAVE ltac:(set_solver) (conj Hx Hg)) as (Hm1 & Hq1 & es1 & He1 & Hf1).
  set (m1 := (ext_Run (Real r) m (IPTABLESSAVE, [])).1) in *.
  assert (Forall is_listing es1) as Hl1 by (eapply Forall_impl; [exact Hf1|]; intros e He; by left).
  cbn zeta. destruct (EnableInboundIPv6 cfg); [|by eauto].
  destruct (ext_Run_listing m1 IP6TABLESSAVE ltac:(set_solver) Hm1) as (Hm2 & Hq2 & es2 & He2 & Hf2).
  split; [done|]. split; [congruence|]. exists (es1 ++ es2). rewrite He2, He1, <- app_assoc. split; [done|].
  apply Forall_app. split; [done|]. eapply Forall_impl; [exact Hf2|]. intros e He. by right.
Qed.

Definition commands_of (b : IptablesBuilder) : list (string * list string) := split_command <$> BuildV4 b ++ BuildV6 b.

(** a run of the configurator that comes to its end has applied every rule *)
Lemma configurator_real cfg m m' : RestoreFormat cfg = false → alive m →
  configurator_Run cfg (Real r) m = (m', None) → mc_exit m' = None →
  alive m' ∧ mc_requests m' = mc_requests m ∧
  ∃ ex4 ex6 in4 in6 es listing,
    separateV4V6 (OutboundIPRangesExclude cfg) = (ex4, ex6) ∧ separateV4V6 (OutboundIPRangesInclude cfg) = (in4, in6) ∧
    es.*1 = (λ c, argv r c.1 c.2) <$> commands_of (run_rules cfg ex4 ex6 in4 in6) ∧ Forall (λ e, o_err e.2 = None) es ∧
    Forall is_listing listing ∧
    effective (history (mc_proc m')) = effective (history (mc_proc m)) ++ es ++ listing.
Proof.
  intros Hr Hm. unfold configurator_Run. destruct (separateV4V6 (OutboundIPRangesExclude cfg)) as [ex4 ex6].
  destruct (IsWildcard ex4); [done|]. destruct (separateV4V6 (OutboundIPRangesInclude cfg)) as [in4 in6].
  set (b := run_rules cfg ex4 ex6 in4 in6). unfold executeCommands. rewrite Hr. unfold run_all.
  rewrite <- foldl_app, <- fmap_app. change (foldl (ext_RunOrFail (Real r)) m (split_command <$> BuildV4 b ++ BuildV6 b))
    with (run_all (Real r) m (BuildV4 b ++ BuildV6 b)).
  destruct Hm as [Hmx Hmg].
  destruct (run_all_real m (BuildV4 b ++ BuildV6 b)) as (Hs & Hp & Hq); [by unfold in_sync, exited; rewrite Hmx, Hmg|].
  set (m1 := run_all _ _ _) in *. intros [= <-] Hx.
  assert (mc_exit m1 = None) as Hx1.
  { revert Hx. unfold list_tables, exited. destruct (mc_exit m1) eqn:E; [by rewrite E|done]. }
  assert (alive m1) as He by (split; [done|]; unfold in_sync, exited in Hs; by rewrite <- Hs, Hx1).
  destruct (list_tables_real cfg m1 He) as (Ha & Hq' & listing & Hl & Hf).
  destruct He as [_ Hg1].
  destruct (run_commands_spec shell Retry HRetry r (mc_proc m) (commands_of b) (build_xtables b) Hmg)
    as (es & k & Hes & Hk & HE & Hok & Hend). unfold commands_of in *. rewrite <- Hp in *. specialize (Hend Hg1) as ->.
  split; [done|]. split; [congruence|]. exists ex4, ex6, in4, in6, es, listing. rewrite firstn_all in HE.
  split_and!; [done..| |done|by rewrite Hl, Hes, app_assoc].
  apply Forall_forall. intros e [i Hi]%list_elem_of_lookup. eapply Hok; eauto.
Qed.
End Installation.
End Commands.

Lemma argv_commands r b : XTables.CNIMode r = false → (λ c, argv r c.1 c.2) <$> commands_of b = BuildV4 b ++ BuildV6 b.
Proof.
  intros Hc. unfold commands_of. rewrite <- list_fmap_compose. rewrite <- (list_fmap_id (BuildV4 b ++ BuildV6 b)) at 2.
  apply list_fmap_ext. intros i c Hi. eapply (Forall_lookup_1 _ _ _ _ (build_nonempty b)) in Hi.
  unfold compose, argv. rewrite Hc. by destruct c.
Qed.

(** rules and routes, applied for real *)
Lemma installed `{GoUnicode} shell Retry LinkByName answer env_file order self cfg link m1 m2 :
  retries_until_nil Retry → LinkByName "lo" = inl link →
  DryRun cfg = false → Iptables.CNIMode cfg = false → RestoreFormat cfg = false →
  configurator_Run shell Retry env_file order cfg (iptables_dependencies cfg) start_machine = (m1, None) →
  mc_exit m1 = None →
  routes shell Retry LinkByName answer self cfg (iptables_dependencies cfg) true m1 = (m2, None) →
  mc_requests m2 = wanted_requests cfg link ∧
  ∃ ex4 ex6 in4 in6 es listing,
    separateV4V6 (OutboundIPRangesExclude cfg) = (ex4, ex6) ∧ separateV4V6 (OutboundIPRangesInclude cfg) = (in4, in6) ∧
    let b := run_rules cfg ex4 ex6 in4 in6 in
    effective (history (mc_proc m2)) = es ++ listing ∧ es.*1 = BuildV4 b ++ BuildV6 b ∧
    Forall (λ e, o_err e.2 = None) es ∧ Forall (λ e, e.1 = [IPTABLESSAVE] ∨ e.1 = [IP6TABLESSAVE]) listing.
Proof.
  intros HRetry Hlink Hd Hcni Hrf Hc Hm1 Hr. unfold iptables_dependencies in *. rewrite Hd, Hcni in *.
  destruct (configurator_real shell Retry env_file order _ HRetry cfg start_machine m1 Hrf (conj eq_refl eq_refl) Hc Hm1)
    as (_ & Hq1 & ex4 & ex6 & in4 & in6 & es & listing & He1 & He2 & Hes & Hok' & Hl & Hh).
  unfold routes in Hr. rewrite Hd, Hcni, andb_false_r in Hr.
  pose proof (ConfigureRoutes_complete LinkByName answer cfg self (mc_requests m1) link Hd Hlink) as Hcr.
  destruct (ConfigureRoutes _ _ _ _ _ _) as [st e]. injection Hr as <- ->. specialize (Hcr eq_refl).
  cbn [fst snd] in Hcr. cbn [mc_requests set_requests mc_proc]. rewrite Hcr, Hq1. split; [done|].
  exists ex4, ex6, in4, in6, es, listing. rewrite argv_commands in Hes by done. by split_and!.
Qed.


Module InstallExample.
#[export] Instance unicode : GoUnicode := λ s, s.
Definition shell (h : list (list string * outcome)) (av : list string) : outcome := mk_outcome None "" "".
(** gives up at the second attempt *)
Definition retry (op : nat → option string) : nat * option string := if op 0 then (2, op 1) else (1, None).
Definition run (cfg : Config) : machine * option panic :=
  iptables_command shell retry (λ _, inl 1%Z) (λ _ _, None) (λ _ _, Err "no file") map_to_list "lhotse-agent"
    (Ok [Some (IPv4 10 0 0 7)]) (λ _, None) cfg start_machine.

Lemma retry_ok : retries_until_nil retry.
Proof.
  intros op. unfold retry. destruct (op 0) as [e|] eqn:E.
  - split; [lia|]. split; [|done]. intros k Hk. replace k with 0 by lia. by rewrite E.
  - split; [lia|]. split; [intros; lia|done].
Qed.
End InstallExample.

