(* ===== verification/Diagnostics.v ===== *)
(** * What the installer reports

    iptables/pkg/log/nflog.go and command.go: the reader of the packets that the
    trace rules of the builder log ([IPTABLES_TRACE_LOGGING]), and the
    descriptions it finds for them; [Print], [String] and [Validate] of the
    configurations in iptables/pkg/config/config.go and
    clean-iptables/pkg/config/config.go; [logConfig] of
    iptables/pkg/capture/run.go.

    The netlink library, the parser of IP headers, the names of the network
    interfaces and [json.MarshalIndent] are arguments. *)

From S2P Require Export Capture Env GoIO.

Local Open Scope string_scope.
Local Open Scope nat_scope.
Local Open Scope list_scope.

(** ** The trace reader *)

Definition IDToCommand : gmap string Command := list_to_map ((λ c, (Identifier c, c)) <$>
  [JumpInbound; JumpOutbound; ExcludeInboundPort; IncludeInboundPort; InboundCapture; KubevirtCommand;
   ExcludeInterfaceCommand; UndefinedCommand]).

(** [IDToCommand[prefix].Comment]; an unknown key gives the zero command *)
Definition comment_of (prefix : string) : string := Comment (default UndefinedCommand (IDToCommand !! prefix)).

(** [nflog.Attribute], as far as it is read *)
Record Attribute := mk_attribute {
  at_Payload : option bytes;
  at_Prefix : option string;
  at_UID : option Z;
  at_GID : option Z;
  at_InDev : option Z;
  at_OutDev : option Z
}.

Inductive label_value := LText (s : string) | LNumber (n : Z).

Inductive nflog_line :=
  | Trace (level msg : string) (labels : list (string * label_value))     (* of the scope iptables *)
  | Default (level msg : string).                                          (* of the default scope *)

(** what is logged, and whether the reader waits for the end of its context *)
Record reading := mk_reading { nf_lines : list nflog_line; nf_blocks : bool }.

Section Reader.
Variable ParseHeader : bytes → option (string * string).     (* source and destination *)
Variable InterfaceByIndex : Z → option string.

Definition device (index : option Z) : string := default "" (index ≫= InterfaceByIndex).

(** the callback *)
Definition trace_line (attrs : Attribute) : nflog_line :=
  let '(src, dst) := match at_Payload attrs ≫= ParseHeader with Some p => p | None => ("", "") end in
  let prefix := default "" (at_Prefix attrs) in
  Trace "info" (comment_of prefix)
    [("command", LText prefix); ("uid", LNumber (default 0%Z (at_UID attrs))); ("gid", LNumber (default 0%Z (at_GID attrs)));
     ("inDev", LText (device (at_InDev attrs))); ("outDev", LText (device (at_OutDev attrs)));
     ("src", LText src); ("dst", LText dst)].

(** the group that is read *)
Definition nflog_group : Z := 1337.

(** [ReadNFLOGSocket]: [enabled] is TraceLoggingEnabled, [open_error] and
    [register_error] come from the library, which then calls back with packets
    and errors until the context ends *)
Definition ReadNFLOGSocket (enabled : bool) (open_error register_error : option string)
    (calls : list (Attribute + string)) : reading :=
  if negb enabled then mk_reading [] false else
  let start := Trace "info" "starting nftable log" [] in
  match open_error, register_error with
  | Some err, _ => mk_reading [start; Default "error" ("could not open nflog socket: " +:+ err)] false
  | None, Some err => mk_reading [start; Default "error" ("failed to register nflog callback: " +:+ err)] false
  | None, None =>
      mk_reading (start :: ((λ c, match c with
                            | inl attrs => trace_line attrs
                            | inr err => Trace "warn" ("log failed: " +:+ err) []
                            end) <$> calls)) true
  end.
End Reader.

(** the variable behind TraceLoggingEnabled *)
Definition TraceLoggingEnabled (LookupEnv : string → option string) (allVars : registry) : bool :=
  BoolVar_Get LookupEnv (RegisterBoolVar allVars "IPTABLES_TRACE_LOGGING" false
    ("When enable, all iptables actions will be logged. " +:+
     "This requires NET_ADMIN privilege and has noisy logs; as a result, this is intended for debugging only")).2.

(** ** The configurations as text *)

(** the verb s of a list of strings, and t of a truth value *)
Definition show_strings (l : list string) : string := "[" +:+ Join l " " +:+ "]".
Definition show_bool (b : bool) : string := if b then "true" else "false".

Definition setting (name value : string) : string := line (name +:+ "=" +:+ value).

Definition concat_lines (l : list string) : string := foldr String.append "" l.

(** [Print]: the text that is logged *)
Definition config_text (c : Config) : string := concat_lines [
  setting "PROXY_PORT" (ProxyPort c); setting "PROXY_INBOUND_CAPTURE_PORT" (InboundCapturePort c);
  setting "PROXY_TUNNEL_PORT" (InboundTunnelPort c); setting "PROXY_UID" (ProxyUID c); setting "PROXY_GID" (ProxyGID c);
  setting "INBOUND_INTERCEPTION_MODE" (InboundInterceptionMode c); setting "INBOUND_TPROXY_MARK" (InboundTProxyMark c);
  setting "INBOUND_TPROXY_ROUTE_TABLE" (InboundTProxyRouteTable c); setting "INBOUND_PORTS_INCLUDE" (InboundPortsInclude c);
  setting "INBOUND_PORTS_EXCLUDE" (InboundPortsExclude c); setting "OUTBOUND_OWNER_GROUPS_INCLUDE" (OwnerGroupsInclude c);
  setting "OUTBOUND_OWNER_GROUPS_EXCLUDE" (OwnerGroupsExclude c); setting "OUTBOUND_IP_RANGES_INCLUDE" (OutboundIPRangesInclude c);
  setting "OUTBOUND_IP_RANGES_EXCLUDE" (OutboundIPRangesExclude c); setting "OUTBOUND_PORTS_INCLUDE" (OutboundPortsInclude c);
  setting "OUTBOUND_PORTS_EXCLUDE" (OutboundPortsExclude c); setting "KUBE_VIRT_INTERFACES" (KubeVirtInterfaces c);
  setting "ENABLE_INBOUND_IPV6" (show_bool (EnableInboundIPv6 c)); setting "DNS_CAPTURE" (show_bool (RedirectDNS c));
  setting "DROP_INVALID" (show_bool (DropInvalid c)); setting "CAPTURE_ALL_DNS" (show_bool (CaptureAllDNS c));
  setting "DNS_SERVERS" (show_strings (DNSServersV4 c) +:+ "," +:+ show_strings (DNSServersV6 c));
  setting "OUTPUT_PATH" (OutputPath c); setting "NETWORK_NAMESPACE" (NetworkNamespace c);
  setting "CNI_MODE" (show_bool (CNIMode c)); setting "EXCLUDE_INTERFACES" (ExcludeInterfaces c)].

Definition Print (c : Config) : nflog_line := Default "info" (line "Istio iptables variables:" +:+ config_text c).

(** [String]: [log.Fatalf] ends the process *)
Definition String_ {C} (MarshalIndent : C → result string string) (c : C) : result string string :=
  match MarshalIndent c with
  | Err err => Err ("Unable to marshal config object: " +:+ err)
  | r => r
  end.

(** [logConfig]: the environment, then the configuration *)
Definition logged_variables : list string := [
  "ENVOY_PORT"; "INBOUND_CAPTURE_PORT"; "ISTIO_INBOUND_INTERCEPTION_MODE"; "ISTIO_INBOUND_TPROXY_ROUTE_TABLE";
  "ISTIO_INBOUND_PORTS"; "ISTIO_OUTBOUND_PORTS"; "ISTIO_LOCAL_EXCLUDE_PORTS"; "ISTIO_EXCLUDE_INTERFACES";
  "ISTIO_SERVICE_CIDR"; "ISTIO_SERVICE_EXCLUDE_CIDR"; "ISTIO_META_DNS_CAPTURE"; "INVALID_DROP"].

Definition logConfig (Getenv : string → string) (c : Config) : list nflog_line :=
  [Default "info" (line "Istio iptables environment:" +:+
     concat_lines ((λ name, setting name (Getenv name)) <$> logged_variables)); Print c].

Module Clean.
(** the lines written to standard output *)
Definition Print (c : Cleaner.Config) : string := concat_lines [
  line "Variables:"; line "----------"; setting "PROXY_UID" (Cleaner.ProxyUID c); setting "PROXY_GID" (Cleaner.ProxyGID c);
  setting "DNS_CAPTURE" (show_bool (Cleaner.RedirectDNS c)); setting "CAPTURE_ALL_DNS" (show_bool (Cleaner.CaptureAllDNS c));
  setting "DNS_SERVERS" (show_strings (Cleaner.DNSServersV4 c) +:+ "," +:+ show_strings (Cleaner.DNSServersV6 c));
  setting "OUTBOUND_OWNER_GROUPS_INCLUDE" (Cleaner.OwnerGroupsInclude c);
  setting "OUTBOUND_OWNER_GROUPS_EXCLUDE" (Cleaner.OwnerGroupsExclude c); line ""].

Definition String_ (MarshalIndent : Cleaner.Config → result string string) : Cleaner.Config → result string string :=
  Diagnostics.String_ MarshalIndent.

Definition Validate (c : Cleaner.Config) : option string :=
  ValidateOwnerGroups (Cleaner.OwnerGroupsInclude c) (Cleaner.OwnerGroupsExclude c).
End Clean.

(** ** The names in the trace *)

(** the argument of an option in the parameters of a rule *)
Fixpoint argument (option : string) (ps : list string) : list string :=
  match ps with
  | o :: ((v :: _) as rest) => if String.eqb o option then [v] else argument option rest
  | _ => []
  end.

Definition named_commands : list Command :=
  [JumpInbound; JumpOutbound; ExcludeInboundPort; IncludeInboundPort; InboundCapture; KubevirtCommand; ExcludeInterfaceCommand].

Lemma argument_skip option pre v rest : option ∉ pre →
  argument option (pre ++ option :: v :: rest) = [v].
Proof.
  induction pre as [|o pre IH]; intros Hp; [cbn; by rewrite String.eqb_refl|].
  apply not_elem_of_cons in Hp as [Hne Hp]. cbn [app argument].
  destruct (pre ++ option :: v :: rest) as [|x l] eqn:E; [by destruct pre|].
  destruct (String.eqb_spec o option); [congruence|]. by rewrite IH.
Qed.

Lemma quoted_unknown id : comment_of (quoted id) = "".
Proof.
  unfold comment_of. assert (IDToCommand !! quoted id = None) as ->; [|done].
  unfold IDToCommand. apply not_elem_of_list_to_map. cbn. unfold quoted.
  rewrite !not_elem_of_cons. repeat split; [done..|]. apply not_elem_of_nil.
Qed.

(** a number is no option *)
Lemma Itoa_no_option position o : HasPrefix o "--nflog" = true → o ≠ Itoa position.
Proof.
  intros Ho ->. unfold Itoa, pretty, pretty_Z in Ho.
  assert (∀ p, HasPrefix (Itoa (Z.pos p)) "-" = false) as Hd.
  { intros p. rewrite <- positive_nat_Z. by apply digits_no_sign, Itoa_nat_digits. }
  unfold Itoa, pretty, pretty_Z in Hd.
  destruct position as [|p|p]; [by vm_compute in Ho|..]; specialize (Hd p);
    apply HasPrefix_spec in Ho as [t Ho].
  - rewrite Ho in Hd. by destruct t.
  - cbn in Ho. injection Ho as Ho. rewrite Ho in Hd. by destruct t.
Qed.

Definition trace_options (command : Command) : list string :=
  ["-j"; "NFLOG"; "--nflog-prefix"; quoted (Identifier command); "--nflog-group"; "1337"; "--nflog-size"; "20"].

Lemma trace_rule_shape cfg command chain table position ps r :
  r ∈ trace_rule cfg command chain table ["-I"; chain; Itoa position] ps ∨ r ∈ trace_rule cfg command chain table ["-A"; chain] ps →
  ∃ head n, params r = head ++ take n ps ++ trace_options command ∧
    (head = ["-I"; chain; Itoa position] ∨ head = ["-A"; chain]).
Proof.
  unfold trace_rule. destruct (indexOf "-j" ps) as [idx|]; [|by intros [?%elem_of_nil|?%elem_of_nil]].
  destruct (_ && _); [|by intros [?%elem_of_nil|?%elem_of_nil]].
  intros [->%list_elem_of_singleton| ->%list_elem_of_singleton]; eexists _, idx; (split; [reflexivity|auto]).
Qed.

(** The trace rules and the reader agree on the group, but not on the names
    unless the rules go through iptables-restore.  For each rule the builder adds
    for a named command, the group is the one that is read; the prefix is the
    identifier in quotes, for which the reader has no description, while for
    the identifier itself, which iptables-restore makes of it, it has that of the
    command. *)
Theorem trace_rule_described cfg command chain table position ps r :
  command ∈ named_commands → "--nflog-prefix" ∉ chain :: ps → "--nflog-group" ∉ chain :: ps →
  r ∈ trace_rule cfg command chain table ["-I"; chain; Itoa position] ps ∨ r ∈ trace_rule cfg command chain table ["-A"; chain] ps →
  argument "--nflog-group" (params r) = [Itoa nflog_group] ∧
  (∃ prefix, argument "--nflog-prefix" (params r) = [prefix] ∧ prefix = quoted (Identifier command) ∧ comment_of prefix = "") ∧
  comment_of (Identifier command) = Comment command ∧ Comment command ≠ "".
Proof.
  intros Hc Hp Hg (head & n & -> & Hhead)%trace_rule_shape.
  assert (∀ o, HasPrefix o "--nflog" = true → o ∉ chain :: ps → o ∉ head ++ take n ps) as Hno.
  { intros o Ho [Hch Hps]%not_elem_of_cons. apply not_elem_of_app. split.
    - pose proof (Itoa_no_option position o Ho). destruct Hhead as [->| ->]; rewrite !not_elem_of_cons;
        split_and!; try done; try apply not_elem_of_nil; by intros ->.
    - intros (j & Hj & _)%elem_of_take. apply Hps. by eapply list_elem_of_lookup_2. }
  assert (∀ o v pre rest, trace_options command = pre ++ o :: v :: rest → HasPrefix o "--nflog" = true → o ∉ chain :: ps →
    o ∉ pre → argument o (head ++ take n ps ++ trace_options command) = [v]) as Harg.
  { intros o v pre rest -> Ho Hin Hpre. rewrite !app_assoc. apply argument_skip. apply not_elem_of_app. split; [by apply Hno|done]. }
  split; [|split].
  - apply (Harg _ _ ["-j"; "NFLOG"; "--nflog-prefix"; quoted (Identifier command)] ["--nflog-size"; "20"]); [done..|].
    rewrite !not_elem_of_cons. split_and!; try done. apply not_elem_of_nil.
  - eexists. split; [|split; [done|apply quoted_unknown]].
    apply (Harg _ _ ["-j"; "NFLOG"] ["--nflog-group"; "1337"; "--nflog-size"; "20"]); [done..|].
    rewrite !not_elem_of_cons. split_and!; try done. apply not_elem_of_nil.
  - unfold named_commands in Hc. rewrite !elem_of_cons, elem_of_nil in Hc. by destruct_or! Hc; subst.
Qed.

Lemma trace_rule_described_witness :
  let cfg := {| ProxyPort := ""; InboundCapturePort := ""; InboundTunnelPort := ""; ProxyUID := ""; ProxyGID := "";
    InboundInterceptionMode := ""; InboundTProxyMark := ""; InboundTProxyRouteTable := ""; InboundPortsInclude := "";
    InboundPortsExclude := ""; OwnerGroupsInclude := ""; OwnerGroupsExclude := ""; OutboundPortsInclude := "";
    OutboundPortsExclude := ""; OutboundIPRangesInclude := ""; OutboundIPRangesExclude := ""; KubeVirtInterfaces := "";
    ExcludeInterfaces := ""; IptablesProbePort := 0; ProbeTimeout := 0; DryRun := false; RestoreFormat := false;
    SkipRuleApply := false; RunValidation := false; RedirectDNS := false; DropInvalid := false; CaptureAllDNS := false;
    EnableInboundIPv6 := false; DNSServersV4 := []; DNSServersV6 := []; OutputPath := ""; NetworkNamespace := "";
    CNIMode := false; TraceLogging := true |} in
  ∃ r, trace_rule cfg JumpOutbound OUTPUT NAT ["-A"; OUTPUT] ["-p"; TCP; "-j"; ISTIOOUTPUT] = [r] ∧
  argument "--nflog-group" (params r) = ["1337"] ∧
  ∃ prefix, argument "--nflog-prefix" (params r) = [prefix] ∧ comment_of prefix = "".
Proof.
  intros cfg. eexists. split; [reflexivity|].
  destruct (trace_rule_described cfg JumpOutbound OUTPUT NAT 0 ["-p"; TCP; "-j"; ISTIOOUTPUT]
    (mk_rule OUTPUT NAT (["-A"; OUTPUT] ++ ["-p"; TCP] ++ trace_options JumpOutbound))) as (H1 & (prefix & H2 & _ & H3) & _).
  - by right; left.
  - apply (bool_decide_unpack _). by vm_compute.
  - apply (bool_decide_unpack _). by vm_compute.
  - right. by left.
  - split; [exact H1|]. by exists prefix.
Defined.
