(* ===== verification/Startup.v ===== *)
(** * Start and stop of the proxy

    cmd/proxy/server.go (the command: its servers, the wait for the CA, the
    refresh of it, the CA bundle it serves), loadMITMUpstreamRootCAs of
    cmd/proxy/outbound.go, Startup and Shutdown of the four servers,
    cmd/server/server.go, the command that runs the management server alone, and
    Ready, Stop and the loop over the upgrade signals of cmd/upgrade/upgrade.go.

    The command is a program over the state of the process in a monad with
    three ways not to go on: [log.Fatal] and [os.Exit] end the process, a panic
    ends it, and it may still be waiting.  Pointers to the objects of the
    process are the booleans of the places that hold them: there is one policy
    manager, one certificate store, and so on.  Files, sockets, the vault,
    certificate pools and the clock are arguments; times are nanoseconds. *)

From S2P Require Export CommandLine Dispatch.
Import ProxyCmd.

Local Open Scope string_scope.
Local Open Scope nat_scope.
Local Open Scope list_scope.

(** ** The servers and their manager *)

Record ManagementServer := mk_mgr { mgr_Addr : string }.
Record InProxyServer := mk_in { in_NumOpen : Z; in_IdleTimeOut : Z; in_Port : Z }.
Record OutboundServer := mk_out {
  out_NumOpen : Z; out_IdleTimeOut : Z; out_Port : Z;
  out_UpstreamRootCAs : bool; out_CertStore : bool; out_CredResolver : bool; out_IdentityResolver : bool;
  out_RuntimeConfig : bool
}.
Record UDPServer := mk_udp { udp_idleTimeout : Z; udp_port : Z }.

Definition NewManagementServer (addr : string) : ManagementServer := mk_mgr addr.
Definition NewInProxyServer (idleTimeOut port : Z) : InProxyServer := mk_in 0 idleTimeOut port.
Definition NewOutboundServer (idleTimeOut port : Z) (upstreamRootCAs certStore credResolver identityResolver
    runtimeCfg : bool) : OutboundServer :=
  mk_out 0 idleTimeOut port upstreamRootCAs certStore credResolver identityResolver runtimeCfg.
Definition NewUDPServer (idleTimeout port : Z) : UDPServer := mk_udp idleTimeout port.

Inductive server :=
  | Mgr (s : ManagementServer)
  | In (s : InProxyServer)
  | Out (s : OutboundServer)
  | Udp (s : UDPServer).

Definition AddServer (ServerList : list server) (s : server) : list server := ServerList ++ [s].

Section Servers.
(** listening on a network and an address *)
Variable Listen : string → string → option string.

(** [Startup] of the management server, and of the two proxies *)
Definition mgr_Startup (m : ManagementServer) : option string := Listen "tcp" (mgr_Addr m).
Definition in_Startup (i : InProxyServer) : option string := Listen "tcp" (":" +:+ Itoa (in_Port i)).
Definition out_Startup (o : OutboundServer) : option string := Listen "tcp" (":" +:+ Itoa (out_Port o)).

Definition server_Startup (s : server) : option string :=
  match s with
  | Mgr s => mgr_Startup s
  | In s => in_Startup s
  | Out s => out_Startup s
  | Udp s => Listen "udp4" (":" +:+ Itoa (udp_port s))
  end.

(** [ServerManager.Startup]: the servers that listen and the first error *)
Fixpoint Startup (ServerList : list server) : list server * option string :=
  match ServerList with
  | [] => ([], None)
  | s :: rest =>
      match server_Startup s with
      | Some err => ([], Some err)
      | None => let '(listening, err) := Startup rest in (s :: listening, err)
      end
  end.

(** [numOpen s t]: the open connections of a server [t] seconds after the stop;
    [mgr_Shutdown]: how many seconds the HTTP server takes, and its error *)
Variable numOpen : server → nat → Z.
Variable mgr_Shutdown : nat * option string.

(** [for NumOpen > 0 { time.Sleep(time.Second) }]; [None]: not over after
    [fuel] turns *)
Fixpoint drain (fuel : nat) (s : server) (t : nat) : option nat :=
  match fuel with
  | 0 => None
  | S fuel => if (0 <? numOpen s t)%Z then drain fuel s (S t) else Some t
  end.

(** when the shutdown of a server returns, and with what *)
Definition mgr_Shutdown_at (t : nat) : option (nat * option string) := Some (t + mgr_Shutdown.1, mgr_Shutdown.2).
Definition in_Shutdown (fuel : nat) (i : InProxyServer) (t : nat) : option (nat * option string) :=
  t ← drain fuel (In i) t; Some (t, None).
Definition out_Shutdown (fuel : nat) (o : OutboundServer) (t : nat) : option (nat * option string) :=
  t ← drain fuel (Out o) t; Some (t, None).

Definition server_Shutdown (fuel : nat) (s : server) (t : nat) : option (nat * option string) :=
  match s with
  | Mgr _ => mgr_Shutdown_at t
  | In i => in_Shutdown fuel i t
  | Out o => out_Shutdown fuel o t
  | Udp _ => Some (t, None)
  end.

(** [ServerManager.Shutdown]: the servers that are down, the time, the error *)
Fixpoint Shutdown (fuel : nat) (ServerList : list server) (t : nat) : list server * option (nat * option string) :=
  match ServerList with
  | [] => ([], Some (t, None))
  | s :: rest =>
      match server_Shutdown fuel s t with
      | None => ([], None)
      | Some (t, Some err) => ([s], Some (t, Some err))
      | Some (t, None) => let '(down, r) := Shutdown fuel rest t in (s :: down, r)
      end
  end.
End Servers.

(** ** The bundle of CA certificates *)

Definition systemCABundlePaths : list string := [
  "/etc/ssl/certs/ca-certificates.crt"; "/etc/pki/tls/certs/ca-bundle.crt"; "/etc/ssl/ca-bundle.pem";
  "/etc/pki/ca-trust/extracted/pem/tls-ca-bundle.pem"; "/etc/ssl/cert.pem"].

(** the two errors, the first one wrapped with the paths *)
Inductive bundle_error := errNoSystemCABundle (paths : list string) | errNoActiveCA.

Definition bundle_error_text (e : bundle_error) : string :=
  match e with
  | errNoSystemCABundle paths => "system CA bundle not found in " +:+ Join paths ", "
  | errNoActiveCA => "active MITM CA not loaded"
  end.

(** [bytes.TrimSpace] leaves nothing *)
Definition blank (b : bytes) : bool := String.eqb (TrimSpace (to_string b)) "".

Section Bundle.
Variable ReadFile : string → result string bytes.
Variable pem : CA → bytes.

Fixpoint first_bundle (paths : list string) : option bytes :=
  match paths with
  | [] => None
  | path :: rest =>
      match ReadFile path with
      | Ok b => if blank b then first_bundle rest else Some b
      | _ => first_bundle rest
      end
  end.

Definition loadSystemCABundle : result bundle_error bytes :=
  match first_bundle systemCABundlePaths with
  | Some b => Ok b
  | None => Err (errNoSystemCABundle systemCABundlePaths)
  end.

Definition ends_with_newline (b : bytes) : bool :=
  match last b with Some c => Ascii.eqb c LF | None => true end.

Definition combinedTrustBundle (certStore : option CertStore) : result bundle_error bytes :=
  match loadSystemCABundle with
  | Err e => Err e
  | Panic p => Panic p
  | Ok systemBundle =>
      match certStore with
      | None => Err errNoActiveCA
      | Some cs =>
          let activeCA := GetActiveCAPEM pem cs in
          if blank activeCA then Err errNoActiveCA else
          Ok (systemBundle ++ (if ends_with_newline systemBundle then [] else [LF]) ++ activeCA)
      end
  end.

(** the handler of /ca.crt: status, content type, body; [http.Error] ends its
    text with a newline *)
Definition serve_ca_crt (certStore : option CertStore) : Z * string * bytes :=
  match combinedTrustBundle certStore with
  | Ok bundle => (200%Z, "application/x-pem-file", bundle)
  | Err e =>
      (match e with errNoActiveCA => 503%Z | _ => 500%Z end, "text/plain; charset=utf-8",
       of_string (bundle_error_text e +:+ String LF ""))
  | Panic _ => (500%Z, "", [])
  end.
End Bundle.

(** ** The wait for the first CA

    [time.After] and [time.NewTicker] start together.  The ticker fires every
    [period]; a tick waits for its receiver in a channel of capacity one, and
    further ticks are dropped meanwhile.  When tick and timeout are both there,
    [select] takes either: [choose i] tells whether it takes the timeout at the
    [i]-th turn.  The [i]-th fetch is answered [f_answer] after [f_took]. *)

Definition period : Z := (2 * second)%Z.

Record fetch_run := mk_fetch { f_answer : http_answer; f_took : Z }.

(** now, and when the last tick was received; both since the start *)
Record wait := mk_wait { w_now : Z; w_last : Z }.

Definition next_tick (last : Z) : Z := ((last / period + 1) * period)%Z.

Inductive ca_result := CALoaded (cs : CertStore) | CATimedOut | CAStillWaiting.

Section Wait.
Variable decode : bytes → result string (list string * list string).
Variable load : string → string → option CA.
Variable timeout : Z.
Variable fetches : nat → fetch_run.
Variable choose : nat → bool.

Definition tick_ready (w : wait) : Z := Z.max (w_now w) (next_tick (w_last w)).
Definition timeout_ready (w : wait) : Z := Z.max (w_now w) timeout.

(** whether the [select] of turn [i] receives the tick *)
Definition takes_tick (w : wait) (i : nat) : bool :=
  (tick_ready w <? timeout_ready w)%Z || ((tick_ready w =? timeout_ready w)%Z && negb (choose i)).

(** turn [i] on; the result and the time *)
Fixpoint initializeCA (fuel : nat) (w : wait) (cs : CertStore) (i : nat) : ca_result * Z :=
  match fuel with
  | 0 => (CAStillWaiting, w_now w)
  | S fuel =>
      if takes_tick w i then
        let done := (tick_ready w + f_took (fetches i))%Z in
        match FetchAndReload cs (f_answer (fetches i)) decode load with
        | (None, cs) => (CALoaded cs, done)
        | (Some _, cs) => initializeCA fuel (mk_wait done (tick_ready w)) cs (S i)
        end
      else (CATimedOut, timeout_ready w)
  end.
End Wait.

(** [startBackgroundCARefresh]: the store after the polls answered so *)
Definition startBackgroundCARefresh (pollInterval : Z) : bool := (0 <? pollInterval)%Z.

Definition background_refresh (decode : bytes → result string (list string * list string))
    (load : string → string → option CA) (cs : CertStore) (answers : list http_answer) : CertStore :=
  foldl (λ cs a, (FetchAndReload cs a decode load).2) cs answers.

(** ** The command

    [run A]: a part of the command that yields an [A], or ends or holds up the
    process. *)

Inductive stop := Fatal (msg : string) | Panicked (p : panic) | StillWaiting.

Record process := mk_process {
  p_policy : option (manager Policy);
  p_data : option Maps;
  p_roots : bool;                               (* additional upstream roots *)
  p_runtime : option (manager RuntimeManager.compiled);
  p_certs : option CertStore;
  p_creds : option Credential.Resolver;
  p_ids : option Identity.Resolver;
  p_mux : list string;                          (* the patterns of mgr.HttpMux *)
  p_refreshing : bool;                          (* the background refresh runs *)
  p_servers : list server;                      (* IdefavServerManager *)
  p_listening : list server;
  p_ready : bool
}.

Definition run (A : Type) : Type := process → process * (A + stop).

#[export] Instance run_ret : MRet run := λ A a p, (p, inl a).
#[export] Instance run_bind : MBind run := λ A B f m p,
  match m p with
  | (p, inl a) => f a p
  | (p, inr s) => (p, inr s)
  end.

Definition log_fatal {A} (msg : string) : run A := λ p, (p, inr (Fatal msg)).
Definition modify (f : process → process) : run unit := λ p, (f p, inl ()).

Definition set_policy m p := mk_process (Some m) (p_data p) (p_roots p) (p_runtime p) (p_certs p) (p_creds p)
  (p_ids p) (p_mux p) (p_refreshing p) (p_servers p) (p_listening p) (p_ready p).
Definition set_data m p := mk_process (p_policy p) (Some m) (p_roots p) (p_runtime p) (p_certs p) (p_creds p)
  (p_ids p) (p_mux p) (p_refreshing p) (p_servers p) (p_listening p) (p_ready p).
Definition set_roots b p := mk_process (p_policy p) (p_data p) b (p_runtime p) (p_certs p) (p_creds p)
  (p_ids p) (p_mux p) (p_refreshing p) (p_servers p) (p_listening p) (p_ready p).
Definition set_runtime m p := mk_process (p_policy p) (p_data p) (p_roots p) (Some m) (p_certs p) (p_creds p)
  (p_ids p) (p_mux p) (p_refreshing p) (p_servers p) (p_listening p) (p_ready p).
Definition set_clients cs creds ids p := mk_process (p_policy p) (p_data p) (p_roots p) (p_runtime p) (Some cs)
  (Some creds) (Some ids) (p_mux p) (p_refreshing p) (p_servers p) (p_listening p) (p_ready p).
Definition set_certs cs p := mk_process (p_policy p) (p_data p) (p_roots p) (p_runtime p) (Some cs) (p_creds p)
  (p_ids p) (p_mux p) (p_refreshing p) (p_servers p) (p_listening p) (p_ready p).
Definition set_mux l p := mk_process (p_policy p) (p_data p) (p_roots p) (p_runtime p) (p_certs p) (p_creds p)
  (p_ids p) l (p_refreshing p) (p_servers p) (p_listening p) (p_ready p).
Definition set_refreshing b p := mk_process (p_policy p) (p_data p) (p_roots p) (p_runtime p) (p_certs p) (p_creds p)
  (p_ids p) (p_mux p) b (p_servers p) (p_listening p) (p_ready p).
Definition set_servers l p := mk_process (p_policy p) (p_data p) (p_roots p) (p_runtime p) (p_certs p) (p_creds p)
  (p_ids p) (p_mux p) (p_refreshing p) l (p_listening p) (p_ready p).
Definition set_listening l p := mk_process (p_policy p) (p_data p) (p_roots p) (p_runtime p) (p_certs p) (p_creds p)
  (p_ids p) (p_mux p) (p_refreshing p) (p_servers p) l (p_ready p).
Definition set_ready p := mk_process (p_policy p) (p_data p) (p_roots p) (p_runtime p) (p_certs p) (p_creds p)
  (p_ids p) (p_mux p) (p_refreshing p) (p_servers p) (p_listening p) true.

(** the patterns that the init function of cmd/mgr registers *)
Definition init_patterns : list string := [
  "/debug/pprof/"; "/debug/pprof/cmdline"; "/debug/pprof/profile"; "/debug/pprof/symbol"; "/debug/pprof/trace";
  "/version"; "/demo"; "/upgrade"; "/download"; "/clean-iptables"; "/iptables"].

(** the state in which the command starts *)
Definition start_process : process :=
  mk_process None None false None None None None init_patterns false [] [] false.

(** [mux.HandleFunc] panics for a pattern it has *)
Definition HandleFunc (pattern : string) : run unit := λ p,
  if bool_decide (pattern ∈ p_mux p) then (p, inr (Panicked (Explicit ("pattern " +:+ pattern))))
  else (set_mux (p_mux p ++ [pattern]) p, inl ()).

Definition registerCABundleHandler : run unit := HandleFunc "/ca.crt".
Definition RegisterRuntimeHandlers : run unit :=
  HandleFunc "/credential-runtime" ≫= λ _, HandleFunc "/credential-runtime/reload".
Definition RegisterPolicyHandlers : run unit :=
  HandleFunc "/domain-policy" ≫= λ _, HandleFunc "/domain-policy/reload".

Definition RegisterServer (s : server) : run unit :=
  modify (λ p, set_servers (AddServer (p_servers p) s) p).

(** what the process meets while it starts *)
Record surroundings := {
  s_decode_policy : bytes → result string ConfigDocument;
  s_policy_error : policy_error → string;
  s_policy_env : env;
  s_policy_cache : option bytes;
  s_saved : option Maps;
  s_config : option ProxyConfig;
  s_decode_runtime : bytes → result string RuntimeManager.Document;
  s_runtime_env : env;
  s_runtime_cache : option bytes;
  s_SSL_CERT_FILE : string;
  s_ReadFile : string → result string bytes;
  s_SystemCertPool : result string bool;        (* whether there is a pool *)
  s_AppendCertsFromPEM : bytes → bool;
  s_decode_ca : bytes → result string (list string * list string);
  s_load_ca : string → string → option CA;
  s_fetches : nat → fetch_run;
  s_choose : nat → bool;
  s_Listen : string → string → option string;
  s_Ready : option string;                      (* the error of the upgrader *)
  s_quote : string → string;                    (* the formats %q and %v of a duration *)
  s_duration : Z → string
}.

Section Command.
Context `{GoUnicode}.
Variable cfg : ProxyCmd.Config.
Variable s : surroundings.

(** whether there are additional roots; [None] for an absent file *)
Definition loadMITMUpstreamRootCAs : result string bool :=
  let caPath := TrimSpace (UpstreamCAFile cfg) in
  let caPath := if String.eqb caPath "" then TrimSpace (s_SSL_CERT_FILE s) else caPath in
  if String.eqb caPath "" then Ok false else
  match s_ReadFile s caPath with
  | Err err => Err ("read upstream CA file " +:+ s_quote s caPath +:+ ": " +:+ err)
  | Panic p => Panic p
  | Ok extraPEM =>
      if blank extraPEM then Err ("upstream CA file " +:+ s_quote s caPath +:+ " is empty") else
      match s_SystemCertPool s with
      | Err err => Err ("load system cert pool: " +:+ err)
      | Panic p => Panic p
      | Ok _ =>
          if s_AppendCertsFromPEM s extraPEM then Ok true
          else Err ("parse upstream CA file " +:+ s_quote s caPath +:+ ": no certificates found")
      end
  end.

Definition policy_options : Options :=
  mk_options (DomainPolicyURL cfg) (DomainPolicyCacheFile cfg) (DomainPolicyRefreshInterval cfg)
    (DomainPolicyFetchTimeout cfg) (DomainPolicyScope cfg) (AppName cfg) (InstanceIP cfg) "".

Definition runtime_options : Options :=
  mk_options (VaultURI cfg) (CredentialRuntimeCacheFile cfg) (CredentialRuntimeRefresh cfg)
    (CredentialRuntimeFetch cfg) "" (AppName cfg) (InstanceIP cfg) (AgentID cfg).

Definition load_data : run unit := λ p,
  match Load (s_saved s) (s_config s) with
  | Ok m => (set_data m p, inl ())
  | Err _ => (p, inl ())
  | Panic q => (p, inr (Panicked q))
  end.

Definition load_roots : run unit :=
  match loadMITMUpstreamRootCAs with
  | Ok b => modify (set_roots b)
  | Err err => log_fatal ("failed to initialize MITM upstream trust roots: " +:+ err)
  | Panic q => λ p, (p, inr (Panicked q))
  end.

Definition wait_for_ca (fuel : nat) (cs : CertStore) : run unit :=
  match (initializeCA (s_decode_ca s) (s_load_ca s) (CAInitTimeout cfg) (s_fetches s) (s_choose s) fuel
           (mk_wait 0 0) cs 0).1 with
  | CALoaded cs => modify (set_certs cs)
  | CATimedOut => log_fatal ("CA initialization timed out after " +:+ s_duration s (CAInitTimeout cfg))
  | CAStillWaiting => λ p, (p, inr StillWaiting)
  end.

(** the block [if cfg.MITMEnabled] *)
Definition start_mitm (fuel : nat) : run unit :=
  (if String.eqb (TrimSpace (VaultURI cfg)) "" then log_fatal "mitm-enabled requires --vault-uri" else mret ()) ≫= λ _,
  (if String.eqb (TrimSpace (AgentID cfg)) "" then log_fatal "mitm-enabled requires --agent-id" else mret ()) ≫= λ _,
  load_roots ≫= λ _,
  modify (set_runtime (RuntimeManager.Start (s_decode_runtime s)
    (RuntimeManager.NewManager runtime_options (s_runtime_cache s)) (s_runtime_env s))) ≫= λ _,
  let cs := NewCertStore (VaultURI cfg) in
  modify (set_clients cs (Credential.NewResolver (VaultURI cfg)) (Identity.NewResolver (VaultURI cfg))) ≫= λ _,
  wait_for_ca fuel cs ≫= λ _,
  registerCABundleHandler ≫= λ _,
  RegisterRuntimeHandlers ≫= λ _,
  modify (set_refreshing (startBackgroundCARefresh (CAPollInterval cfg))).

Definition start_servers : run unit := λ p,
  match Startup (s_Listen s) (p_servers p) with
  | (l, None) => (set_listening l p, inl ())
  | (l, Some err) => (set_listening l p, inr (Fatal err))
  end.

Definition Ready : run unit :=
  match s_Ready s with
  | Some err => λ p, (p, inr (Panicked (Explicit err)))
  | None => modify set_ready
  end.

Definition get_process : run process := λ p, (p, inl p).

(** [Run], up to the wait for the end of the process *)
Definition Run (fuel : nat) : run unit :=
  modify (set_policy (PolicyManager.Start (s_decode_policy s) (s_policy_error s)
    (PolicyManager.NewManager policy_options (s_policy_cache s)) (s_policy_env s))) ≫= λ _,
  load_data ≫= λ _,
  (if MITMEnabled cfg then start_mitm fuel else mret ()) ≫= λ _,
  RegisterPolicyHandlers ≫= λ _,
  RegisterServer (Mgr (NewManagementServer (":" +:+ Itoa (ProxyMgrPort cfg)))) ≫= λ _,
  RegisterServer (In (NewInProxyServer (ConnIdleTimeOut cfg) (InBoundProxyPort cfg))) ≫= λ _,
  get_process ≫= λ p,
  RegisterServer (Out (NewOutboundServer (ConnIdleTimeOut cfg) (OutBoundProxyPort cfg) (p_roots p)
    (bool_decide (p_certs p ≠ None)) (bool_decide (p_creds p ≠ None)) (bool_decide (p_ids p ≠ None))
    (bool_decide (p_runtime p ≠ None)))) ≫= λ _,
  RegisterServer (Udp (NewUDPServer (ConnIdleTimeOut cfg) (UDPProxyPort cfg))) ≫= λ _,
  start_servers ≫= λ _,
  Ready.

(** [ManagerCmd], the command that runs the management server alone *)
Definition ManagerCmd : run unit :=
  RegisterServer (Mgr (NewManagementServer ":18080")) ≫= λ _,
  start_servers ≫= λ _,
  Ready.
End Command.

(** The loop over SIGHUP in the init function of cmd/upgrade: the results of the
    upgrades that were asked for, and what is logged *)
Definition upgrade_signals (Upgrade : list (option string)) : list string :=
  omap (λ r, (λ err, "Upgrade failed: " +:+ err) <$> r) Upgrade.

(** [upgrade.Stop] with the hook of the command: the managers stop, then the
    servers; after 30 seconds the process ends with status 1, otherwise it ends
    when the hook is through *)
Inductive ended := Ended (down : list server) (seconds : nat) | TimedOutWith1.

Definition shutdown_limit : nat := 30.

Definition Stop (numOpen : server → nat → Z) (mgr_Shutdown : nat * option string) (p : process) : process * ended :=
  let p' := mk_process (ConfigManager.Stop <$> p_policy p) (p_data p) (p_roots p) (ConfigManager.Stop <$> p_runtime p)
    (p_certs p) (p_creds p) (p_ids p) (p_mux p) (p_refreshing p) (p_servers p) (p_listening p) (p_ready p) in
  match Shutdown numOpen mgr_Shutdown (S shutdown_limit) (p_servers p) 0 with
  | (down, Some (t, _)) => (p', if t <? shutdown_limit then Ended down t else TimedOutWith1)
  | (_, None) => (p', TimedOutWith1)
  end.

(** ** The wait *)

Lemma period_pos : (0 < period)%Z.
Proof. done. Qed.

Lemma next_tick_gt last : (last < next_tick last)%Z.
Proof.
  unfold next_tick. pose proof period_pos. pose proof (Z.div_mod last period ltac:(lia)).
  pose proof (Z.mod_pos_bound last period ltac:(lia)). nia.
Qed.

Lemma next_tick_mono a b : (a ≤ b)%Z → (next_tick a ≤ next_tick b)%Z.
Proof.
  intros. unfold next_tick. pose proof period_pos. pose proof (Z.div_le_mono a b period ltac:(lia) ltac:(lia)). nia.
Qed.

Lemma next_tick_mult k : next_tick (k * period) = ((k + 1) * period)%Z.
Proof. unfold next_tick. rewrite Z.div_mul by done. done. Qed.

Section WaitLaws.
Variable decode : bytes → result string (list string * list string).
Variable load : string → string → option CA.
Variable timeout : Z.
Variable fetches : nat → fetch_run.
Variable choose : nat → bool.

Let wait_ca := initializeCA decode load timeout fetches choose.
Definition fails (cs : CertStore) (i : nat) : Prop := ∃ e, (FetchAndReload cs (f_answer (fetches i)) decode load).1 = Some e.

Lemma FetchAndReload_fail cs a e : (FetchAndReload cs a decode load).1 = Some e →
  FetchAndReload cs a decode load = (Some e, cs).
Proof.
  destruct (FetchAndReload_cases cs a decode load) as [H|(certs & _ & ->)]; [|done].
  destruct (FetchAndReload _ _ _ _) as [e' cs'] eqn:E. cbn in *. by intros ->; subst.
Qed.

Lemma FetchAndReload_active cs a cs' : FetchAndReload cs a decode load = (None, cs') → ∃ ca, primary cs' = Some ca.
Proof.
  intros H. destruct (FetchAndReload_cases cs a decode load) as [H'|(certs & Hc & H')].
  - rewrite H in H'. cbn in H'. subst cs'. revert H. unfold FetchAndReload. repeat case_match; try done.
    intros [= <-]. by eexists.
  - rewrite H in H'. injection H' as ->. destruct certs as [|c l]; [done|]. by exists c.
Qed.

Lemma FetchAndReload_new_signed uri a cs' :
  FetchAndReload (NewCertStore uri) a decode load = (None, cs') → signed_by_primary cs'.
Proof.
  intros H. destruct (FetchAndReload_cases (NewCertStore uri) a decode load) as [H'|(certs & _ & H')]; rewrite H in H'.
  - cbn in H'. subst cs'. apply map_Forall_empty.
  - injection H' as ->. apply CertReload_signed, map_Forall_empty.
Qed.

(** the state of the wait after [i] turns that received a tick *)
Definition wait_after (w : wait) (i : nat) : Prop := (Z.of_nat i * period ≤ w_last w)%Z.

Lemma wait_step w i : wait_after w i → (w_last w ≤ w_now w)%Z → (0 ≤ f_took (fetches i))%Z →
  let w' := mk_wait (tick_ready w + f_took (fetches i)) (tick_ready w) in
  wait_after w' (S i) ∧ (w_last w' ≤ w_now w')%Z.
Proof.
  unfold wait_after. cbn. intros Hw Hn Ht. split; [|lia]. unfold tick_ready.
  pose proof (next_tick_mono _ _ Hw) as H. rewrite next_tick_mult in H. lia.
Qed.

(** the wait ends: after the timeout a turn that prefers it is the last *)
Lemma wait_ends fuel w cs i m : wait_after w i → (w_last w ≤ w_now w)%Z → (∀ j, 0 ≤ f_took (fetches j))%Z →
  i ≤ m → (timeout ≤ Z.of_nat (S m) * period)%Z → choose m = true → m < i + fuel →
  (wait_ca fuel w cs i).1 ≠ CAStillWaiting.
Proof.
  revert w cs i. induction fuel as [|fuel IH]; intros w cs i Hw Hn Ht Him Hm Hc Hf; [lia|].
  cbn. unfold takes_tick.
  destruct (decide (i = m)) as [->|].
  - pose proof (next_tick_mono _ _ Hw) as H. rewrite next_tick_mult in H.
    assert (timeout_ready timeout w ≤ tick_ready w)%Z as Hle by (unfold timeout_ready, tick_ready; lia).
    rewrite Hc, andb_false_r, orb_false_r, (proj2 (Z.ltb_ge _ _) Hle). done.
  - destruct (_ || _); [|done].
    destruct (FetchAndReload cs _ decode load) as [[e|] cs'] eqn:E; [|done].
    destruct (wait_step w i Hw Hn (Ht i)) as [H1 H2].
    apply IH; try done; lia.
Qed.

Lemma wait_outcome fuel w cs i r t : wait_ca fuel w cs i = (r, t) →
  match r with
  | CALoaded cs' => ∃ k, i ≤ k ∧ (∀ j, i ≤ j < k → fails cs j) ∧
      FetchAndReload cs (f_answer (fetches k)) decode load = (None, cs')
  | CATimedOut => (timeout ≤ t)%Z ∧ ∃ k, i ≤ k ∧ ∀ j, i ≤ j < k → fails cs j
  | CAStillWaiting => ∀ j, i ≤ j < i + fuel → fails cs j
  end.
Proof.
  revert w cs i. induction fuel as [|fuel IH]; intros w cs i; cbn.
  { intros [= <- <-] j Hj. lia. }
  destruct (takes_tick _ _ _ _).
  2: { intros [= <- <-]. split; [unfold timeout_ready; lia|]. exists i. split; [done|]. intros j Hj. lia. }
  destruct (FetchAndReload cs _ decode load) as [[e|] cs'] eqn:E.
  2: { intros [= <- <-]. exists i. split_and!; [done| |done]. intros j Hj. lia. }
  assert (fails cs i) as Hi by (exists e; by rewrite E).
  rewrite (FetchAndReload_fail cs _ e) in E by (by rewrite E). injection E as <-.
  intros H%IH. assert (∀ k, (∀ j, S i ≤ j < k → fails cs j) → ∀ j, i ≤ j < k → fails cs j) as Hk.
  { intros k Hk j Hj. destruct (decide (j = i)) as [->|]; [done|]. apply Hk. lia. }
  destruct r.
  - destruct H as (k & ? & ? & ?). exists k. split_and!; [lia|by apply Hk|done].
  - destruct H as (? & k & ? & ?). split; [done|]. exists k. split; [lia|by apply Hk].
  - apply Hk. intros j Hj. apply H. lia.
Qed.

(** a vault that answers within a period is asked at every tick *)
Lemma wait_prompt fuel w cs i (fast : ∀ j, (0 ≤ f_took (fetches j) < period)%Z) :
  w_last w = (Z.of_nat i * period)%Z → (w_last w ≤ w_now w < w_last w + period)%Z →
  (∀ s cs', i ≤ s → (∀ j, i ≤ j < s → fails cs j) →
     FetchAndReload cs (f_answer (fetches s)) decode load = (None, cs') →
     (Z.of_nat (S s) * period < timeout)%Z → s < i + fuel →
     wait_ca fuel w cs i = (CALoaded cs', Z.of_nat (S s) * period + f_took (fetches s))%Z) ∧
  ((∀ j, i ≤ j → (Z.of_nat (S j) * period ≤ timeout)%Z → fails cs j) → 0 < fuel →
     (timeout < Z.of_nat (i + fuel) * period)%Z → (Z.of_nat i * period ≤ Z.max timeout 0)%Z →
     ∃ t, wait_ca fuel w cs i = (CATimedOut, t) ∧ (Z.max timeout 0 ≤ t < Z.max timeout 0 + period)%Z).
Proof.
  revert w cs i. induction fuel as [|fuel IH]; intros w cs i Hl Hn; [split; intros; lia|].
  assert (tick_ready w = Z.of_nat (S i) * period)%Z as Hr.
  { unfold tick_ready. rewrite Hl, next_tick_mult. unfold period, second in *. lia. }
  destruct (fast i) as [Ht1 Ht2].
  assert (let w' := mk_wait (tick_ready w + f_took (fetches i)) (tick_ready w) in
    w_last w' = (Z.of_nat (S i) * period)%Z ∧ (w_last w' ≤ w_now w' < w_last w' + period)%Z) as Hw'.
  { cbn. rewrite Hr. lia. }
  cbn. unfold takes_tick, timeout_ready. rewrite Hr. split.
  - intros s cs' His Hf Hs Hlt Hfuel.
    assert (Z.of_nat (S i) * period <? Z.max (w_now w) timeout = true)%Z as ->.
    { apply Z.ltb_lt. unfold period, second in *. lia. }
    cbn [orb]. destruct (decide (s = i)) as [->|Hsi]; [by rewrite Hs|].
    destruct (Hf i) as [e He]; [lia|]. rewrite (FetchAndReload_fail cs _ e He), <- Hr.
    apply IH; try apply Hw'; try done; try lia. intros j Hj. apply Hf. lia.
  - intros Hf _ Hfuel Hi. destruct (_ || _) eqn:Etick.
    + assert (Z.of_nat (S i) * period ≤ timeout)%Z as Hle.
      { unfold period, second in *. apply orb_prop in Etick as [?%Z.ltb_lt|[?%Z.eqb_eq _]%andb_prop]; lia. }
      destruct (Hf i) as [e He]; [lia|done|]. rewrite (FetchAndReload_fail cs _ e He), <- Hr.
      apply IH; try apply Hw'; try done; try lia.
      * intros j Hj Hj2. apply Hf; [lia|done].
      * destruct fuel; [|lia]. unfold period, second in *. lia.
    + eexists. split; [done|]. apply orb_false_elim in Etick as [?%Z.ltb_ge _]. unfold period, second in *. lia.
Qed.
End WaitLaws.

(** C15: Waiting for the first CA ends.  Fetches take any time, and [select]
    may prefer the tick when the timeout is there too, but not forever: then
    the loop ends, either with the CA of the first fetch that did not fail,
    which the store has as its primary from then on, or, when every fetch so
    far failed and the time is over, with the fatal exit. *)
Theorem initializeCA_ends decode load timeout fetches choose cs :
  (∀ j, 0 ≤ f_took (fetches j))%Z → (∀ n, ∃ m, n ≤ m ∧ choose m = true) →
  ∃ fuel, ∀ more, let '(r, t) := initializeCA decode load timeout fetches choose (fuel + more) (mk_wait 0 0) cs 0 in
  match r with
  | CALoaded cs' => (∃ ca, primary cs' = Some ca) ∧ ∃ k, (∀ j, j < k → fails decode load fetches cs j) ∧
      FetchAndReload cs (f_answer (fetches k)) decode load = (None, cs')
  | CATimedOut => (timeout ≤ t)%Z ∧ ∃ k, ∀ j, j < k → fails decode load fetches cs j
  | CAStillWaiting => False
  end.
Proof.
  intros Ht Hc. destruct (Hc (Z.to_nat timeout)) as (m & Hm & Hcm). exists (S m). intros more.
  destruct (initializeCA _ _ _ _ _ _ _ _ _) as [r t] eqn:E.
  pose proof (wait_ends decode load timeout fetches choose (S m + more) (mk_wait 0 0) cs 0 m) as Hend.
  rewrite E in Hend. pose proof (wait_outcome decode load timeout fetches choose _ _ _ _ _ _ E) as Ho.
  destruct r.
  - destruct Ho as (k & _ & Hk & HF). split; [by eapply FetchAndReload_active|].
    exists k. split; [|done]. intros j Hj. apply Hk. lia.
  - destruct Ho as (? & k & _ & Hk). split; [done|]. exists k. intros j Hj. apply Hk. lia.
  - apply Hend; unfold wait_after, period, second; cbn [w_now w_last]; try done; lia.
Qed.

Lemma initializeCA_ends_witness :
  let load c k := Some {| ca_cert := c; ca_key := k |} in
  let fetches i := mk_fetch (if i =? 1 then Answer 200 (Ok []) else Transport "refused") (5 * second)%Z in
  let wait := initializeCA (λ _, Ok (["cert"], ["key"])) load (3 * second) fetches Nat.odd in
  ∃ fuel, (wait fuel (mk_wait 0 0) (NewCertStore "http://vault") 0).1 ≠ CAStillWaiting.
Proof.
  intros load fetches wait.
  destruct (initializeCA_ends (λ _, Ok (["cert"], ["key"])) load (3 * second) fetches Nat.odd (NewCertStore "http://vault"))
    as [fuel H].
  - intros j. unfold fetches, second. cbn. lia.
  - intros n. exists (S (2 * n)). split; [lia|]. apply Nat.odd_spec. exists n. lia.
  - exists fuel. specialize (H 0). rewrite Nat.add_0_r in H. unfold wait.
    destruct (initializeCA _ _ _ _ _ _ _ _ _) as [[] t]; done.
Defined.

(** C31: The wait makes progress: a vault that answers each request within two
    seconds is asked every two seconds, so the CA of the first answer that
    succeeds, if it comes before the timeout, is in force right then; if there
    is none, the process ends within two seconds of the timeout. *)
Theorem initializeCA_prompt decode load timeout fetches choose cs :
  (∀ j, 0 ≤ f_took (fetches j) < period)%Z →
  let wait fuel := initializeCA decode load timeout fetches choose fuel (mk_wait 0 0) cs 0 in
  (∀ s cs' fuel, (∀ j, j < s → fails decode load fetches cs j) →
     FetchAndReload cs (f_answer (fetches s)) decode load = (None, cs') →
     (Z.of_nat (S s) * period < timeout)%Z → s < fuel →
     wait fuel = (CALoaded cs', Z.of_nat (S s) * period + f_took (fetches s))%Z) ∧
  (∀ fuel, (∀ j, (Z.of_nat (S j) * period ≤ timeout)%Z → fails decode load fetches cs j) →
     0 < fuel → (timeout < Z.of_nat fuel * period)%Z →
     ∃ t, wait fuel = (CATimedOut, t) ∧ (Z.max timeout 0 ≤ t < Z.max timeout 0 + period)%Z).
Proof.
  intros fast wait. unfold wait.
  assert (∀ fuel, _) as H by (intros fuel; apply (wait_prompt decode load timeout fetches choose fuel (mk_wait 0 0) cs 0 fast);
    cbn; unfold period, second; lia).
  split.
  - intros s cs' fuel Hf HF Hs Hfuel. destruct (H fuel) as [H1 _]. apply H1; try done; try lia. intros j Hj. apply Hf. lia.
  - intros fuel Hf H0 Hfuel. destruct (H fuel) as [_ H2]. apply H2; try done; try lia. intros j _. apply Hf.
Qed.

Lemma initializeCA_prompt_witness :
  let load c k := Some {| ca_cert := c; ca_key := k |} in
  let fetches i := mk_fetch (if i =? 2 then Answer 200 (Ok []) else Transport "refused") second in
  ∃ cs', initializeCA (λ _, Ok (["cert"], ["key"])) load (120 * second) fetches (λ _, false) 3 (mk_wait 0 0)
    (NewCertStore "http://vault") 0 = (CALoaded cs', 7 * second)%Z.
Proof.
  intros load fetches. eexists.
  destruct (initializeCA_prompt (λ _, Ok (["cert"], ["key"])) load (120 * second) fetches (λ _, false)
    (NewCertStore "http://vault")) as [H _].
  - intros j. unfold fetches, period, second. cbn. lia.
  - apply (H 2 _ 3); [|reflexivity|done|lia].
    intros j Hj. destruct j as [|[|]]; [by eexists..|lia].
Defined.

(** A timeout of less than two seconds ends the process before the vault is
    asked at all. *)
Lemma short_timeout_never_asks decode load timeout fetches choose cs fuel : (timeout < period)%Z → 0 < fuel →
  (initializeCA decode load timeout fetches choose fuel (mk_wait 0 0) cs 0).1 = CATimedOut.
Proof.
  intros Ht Hf. destruct fuel; [lia|]. cbn. unfold takes_tick, tick_ready, timeout_ready. cbn [w_now w_last].
  replace (next_tick 0) with period by done. unfold period, second in *.
  rewrite (proj2 (Z.ltb_ge _ _)), (proj2 (Z.eqb_neq _ _)) by lia. done.
Qed.

(** ** What a start achieves *)

Lemma HandleFunc_new pattern p : pattern ∉ p_mux p →
  HandleFunc pattern p = (set_mux (p_mux p ++ [pattern]) p, inl ()).
Proof. intros H. unfold HandleFunc. by rewrite bool_decide_eq_false_2. Qed.

Section CommandLaws.
Context `{GoUnicode}.
Variable cfg : ProxyCmd.Config.
Variable s : surroundings.

(** what interception needs: a CA in force that no refresh loses, so that each
    name gets a certificate, the interception list, and the roots asked for *)
(** the managers as they are after their start *)
Definition started_policy : manager Policy :=
  PolicyManager.Start (s_decode_policy s) (s_policy_error s)
    (PolicyManager.NewManager (policy_options cfg) (s_policy_cache s)) (s_policy_env s).
Definition started_runtime : manager RuntimeManager.compiled :=
  RuntimeManager.Start (s_decode_runtime s)
    (RuntimeManager.NewManager (runtime_options cfg) (s_runtime_cache s)) (s_runtime_env s).

Definition ready_to_intercept (p : process) : Prop :=
  TrimSpace (VaultURI cfg) ≠ "" ∧ TrimSpace (AgentID cfg) ≠ "" ∧
  (p_runtime p = Some started_runtime ∧ ConfigManager.AgentID (m_options started_runtime) = AgentID cfg ∧
   URL_ (m_options started_runtime) = VaultURI cfg) ∧
  loadMITMUpstreamRootCAs cfg s = Ok (p_roots p) ∧
  ∃ cs, p_certs p = Some cs ∧ signed_by_primary cs ∧ is_Some (primary cs) ∧ ∀ answers serverName now, TrimSpace serverName ≠ "" →
    ∃ leaf, (GetCertificate (background_refresh (s_decode_ca s) (s_load_ca s) cs answers) serverName now None).1 = Ok leaf.

Section ManagerOptions.
Context {C : Type} (parse : bytes → result string C) (precheck : Options → option string)
  (bad_status : Z → string) (rename_cleans : bool).

Lemma Start_options (m : manager C) e :
  let o := m_options (ConfigManager.Start parse precheck bad_status rename_cleans m e) in
  ConfigManager.AgentID o = ConfigManager.AgentID (m_options m) ∧ URL_ o = URL_ (m_options m) ∧
  Scope_ o = Scope_ (m_options m).
Proof.
  unfold ConfigManager.Start. destruct (negb _); [done|]. cbn zeta.
  match goal with |- context [loadCache parse ?m1 e] => set (m0 := m1) end.
  assert (ConfigManager.AgentID (m_options m0) = ConfigManager.AgentID (m_options m) ∧
    URL_ (m_options m0) = URL_ (m_options m) ∧ Scope_ (m_options m0) = Scope_ (m_options m)) as Hm0.
  { unfold m0. destruct (String.eqb _ _); [|done]. by destruct (e_local_ip e). }
  destruct (0 <? _)%Z; cbn [m_options set_loop]; by rewrite Reload_options, loadCache_options.
Qed.
End ManagerOptions.

Lemma refresh_active decode load cs answers ca : primary cs = Some ca →
  ∃ ca', primary (background_refresh decode load cs answers) = Some ca'.
Proof.
  unfold background_refresh. revert cs ca. induction answers as [|a answers IH]; intros cs ca Hca; [by exists ca|]. cbn.
  destruct (FetchAndReload_cases cs a decode load) as [->|(certs & Hc & ->)]; [by eapply IH|].
  destruct certs as [|c l]; [done|]. by apply (IH _ c).
Qed.

Lemma active_certifies cs ca serverName now : primary cs = Some ca → TrimSpace serverName ≠ "" →
  ∃ leaf, (GetCertificate cs serverName now None).1 = Ok leaf.
Proof.
  intros Hca Hn. unfold GetCertificate. rewrite (proj2 (String.eqb_neq _ _) Hn).
  destruct (cached_leaf _ _ _); [by eexists|]. unfold generateLeafCert. rewrite Hca. by eexists.
Qed.

(** the process before its servers start *)
Definition quiet (p : process) : Prop := p_servers p = [] ∧ p_listening p = [] ∧ p_ready p = false.

Definition panics_itself (q : panic) : Prop :=
  (∃ l c, Load l c = Panic q) ∨ loadMITMUpstreamRootCAs cfg s = Panic q ∨ (∃ err, s_Ready s = Some err ∧ q = Explicit err).

(** a pattern that is not among those registered so far *)
Ltac fresh_pattern Hm :=
  cbn [p_mux set_policy set_data set_certs set_clients set_runtime set_roots set_mux set_refreshing set_servers]; rewrite ?Hm;
  apply (bool_decide_unpack _); by vm_compute.

Lemma start_mitm_spec fuel p p' r : quiet p → p_mux p = init_patterns → start_mitm cfg s fuel p = (p', r) →
  quiet p' ∧ p_policy p' = p_policy p ∧
  match r with
  | inl _ => ready_to_intercept p' ∧
      p_mux p' = init_patterns ++ ["/ca.crt"; "/credential-runtime"; "/credential-runtime/reload"] ∧
      p_creds p' = Some (Credential.NewResolver (VaultURI cfg)) ∧ p_ids p' = Some (Identity.NewResolver (VaultURI cfg))
  | inr (Panicked q) => panics_itself q
  | inr _ => True
  end.
Proof.
  intros Hq Hm. unfold start_mitm, mbind, run_bind, mret, run_ret.
  destruct (String.eqb (TrimSpace (VaultURI cfg)) "") eqn:Hv; [by intros [= <- <-]|].
  destruct (String.eqb (TrimSpace (AgentID cfg)) "") eqn:Ha; [by intros [= <- <-]|].
  unfold load_roots. destruct (loadMITMUpstreamRootCAs cfg s) as [roots|e|q] eqn:Hroots;
    [|by intros [= <- <-]|intros [= <- <-]; split_and!; try done; by right; left].
  unfold modify, wait_for_ca. destruct (initializeCA _ _ _ _ _ _ _ _ _) as [w t] eqn:Hw. cbn [fst].
  destruct w as [cs| |]; [|by intros [= <- <-]..].
  unfold registerCABundleHandler, RegisterRuntimeHandlers, mbind, run_bind.
  apply wait_outcome in Hw as (k & _ & _ & Hf). pose proof Hf as [ca Hca]%FetchAndReload_active.
  unfold modify. cbv beta iota zeta.
  do 3 (rewrite HandleFunc_new by fresh_pattern Hm; cbv beta iota zeta).
  intros [= <- <-]. destruct p as [pol dat rts rt ct cr id mx rf sv ls rd].
  cbn in Hq, Hm. subst mx. split; [exact Hq|]. split; [done|]. cbn [p_mux p_creds p_ids set_refreshing set_mux set_certs set_clients].
  split; [|by rewrite <- !app_assoc].
  split; [by apply String.eqb_neq|]. split; [by apply String.eqb_neq|]. split; [split; [done|]|split; [done|]].
  - unfold started_runtime, RuntimeManager.Start.
    destruct (Start_options (RuntimeManager.parse (s_decode_runtime s)) RuntimeManager.check_options
      RuntimeManager.status_text true (RuntimeManager.NewManager (runtime_options cfg) (s_runtime_cache s))
      (s_runtime_env s)) as (-> & -> & _). done.
  - exists cs. split; [done|]. split; [eapply FetchAndReload_new_signed; exact Hf|]. split; [by eexists|].
    intros answers serverName now Hn.
    destruct (refresh_active (s_decode_ca s) (s_load_ca s) cs answers ca Hca) as [ca' Hca'].
    by eapply active_certifies.
Qed.

Lemma Startup_spec Listen l : let '(l1, err) := Startup Listen l in
  match err with
  | None => l1 = l
  | Some e => ∃ srv rest, l = l1 ++ srv :: rest ∧ server_Startup Listen srv = Some e
  end.
Proof.
  induction l as [|srv l IH]; [done|]. cbn [Startup].
  destruct (server_Startup Listen srv) as [e|] eqn:E; [by exists srv, l|].
  destruct (Startup Listen l) as [l1 [e|]]; [|by f_equal].
  destruct IH as (srv' & rest & -> & ?). by exists srv', rest.
Qed.

(** the four servers, in the order of their start *)
Definition the_servers (p : process) : list server := [
  Mgr (mk_mgr (":" +:+ Itoa (ProxyMgrPort cfg))); In (mk_in 0 (ConnIdleTimeOut cfg) (InBoundProxyPort cfg));
  Out (mk_out 0 (ConnIdleTimeOut cfg) (OutBoundProxyPort cfg) (p_roots p) (MITMEnabled cfg) (MITMEnabled cfg)
    (MITMEnabled cfg) (MITMEnabled cfg)); Udp (mk_udp (ConnIdleTimeOut cfg) (UDPProxyPort cfg))].

(** the part of [Run] before the servers are registered *)
Definition prepare (fuel : nat) : run unit :=
  modify (set_policy (PolicyManager.Start (s_decode_policy s) (s_policy_error s)
    (PolicyManager.NewManager (policy_options cfg) (s_policy_cache s)) (s_policy_env s))) ≫= λ _,
  load_data s ≫= λ _, (if MITMEnabled cfg then start_mitm cfg s fuel else mret ()).

Definition prepared (p : process) : Prop :=
  if MITMEnabled cfg then
    ready_to_intercept p ∧ p_creds p = Some (Credential.NewResolver (VaultURI cfg)) ∧
    p_ids p = Some (Identity.NewResolver (VaultURI cfg))
  else p_certs p = None ∧ p_creds p = None ∧ p_ids p = None ∧ p_runtime p = None ∧ p_roots p = false.

Lemma prepare_spec fuel p r : prepare fuel start_process = (p, r) →
  quiet p ∧
  match r with
  | inl _ => prepared p ∧ p_policy p = Some started_policy ∧ NoDup (p_mux p ++ ["/domain-policy"; "/domain-policy/reload"])
  | inr (Panicked q) => panics_itself q
  | inr StillWaiting => MITMEnabled cfg = true
  | inr (Fatal _) => True
  end.
Proof.
  unfold prepare, mbind, run_bind, modify, load_data. cbv beta iota.
  destruct (Load _ _) as [dat|e|q] eqn:Hload.
  3: { intros [= <- <-]. split; [done|]. left. by exists (s_saved s), (s_config s). }
  all: unfold prepared; destruct (MITMEnabled cfg) eqn:Hm;
    [|intros [= <- <-]; split; [done|]; split; [done|]; split; [done|]; apply (bool_decide_unpack _); by vm_compute].
  all: match goal with |- start_mitm _ _ _ ?p0 = _ → _ => assert (p_policy p0 = Some started_policy) as Hpol by done; intros Hrun end;
    apply start_mitm_spec in Hrun as (Hq & Hp & Hr); [|done..]; rewrite <- Hp in Hpol; split; [done|];
    destruct r as [[]|[]]; [|done..]; destruct Hr as (? & -> & ? & ?);
    (split; [done|]; split; [done|]; apply (bool_decide_unpack _); by vm_compute).
Qed.

(** the rest of [Run] *)
Definition serve : run unit :=
  RegisterPolicyHandlers ≫= λ _,
  RegisterServer (Mgr (NewManagementServer (":" +:+ Itoa (ProxyMgrPort cfg)))) ≫= λ _,
  RegisterServer (In (NewInProxyServer (ConnIdleTimeOut cfg) (InBoundProxyPort cfg))) ≫= λ _,
  get_process ≫= λ p,
  RegisterServer (Out (NewOutboundServer (ConnIdleTimeOut cfg) (OutBoundProxyPort cfg) (p_roots p)
    (bool_decide (p_certs p ≠ None)) (bool_decide (p_creds p ≠ None)) (bool_decide (p_ids p ≠ None))
    (bool_decide (p_runtime p ≠ None)))) ≫= λ _,
  RegisterServer (Udp (NewUDPServer (ConnIdleTimeOut cfg) (UDPProxyPort cfg))) ≫= λ _,
  start_servers s ≫= λ _,
  Ready s.

Lemma Run_split fuel p : Run cfg s fuel p = (prepare fuel ≫= λ _, serve) p.
Proof.
  unfold Run, prepare, mbind, run_bind. destruct (modify _ p) as [p1 [|]]; [|done].
  destruct (load_data s p1) as [p2 [|]]; [|done]. by destruct (if MITMEnabled cfg then _ else _).
Qed.

Lemma serve_spec p p' r : quiet p → prepared p → NoDup (p_mux p ++ ["/domain-policy"; "/domain-policy/reload"]) →
  serve p = (p', r) →
  p' = mk_process (p_policy p) (p_data p) (p_roots p) (p_runtime p) (p_certs p) (p_creds p) (p_ids p)
         (p_mux p ++ ["/domain-policy"; "/domain-policy/reload"]) (p_refreshing p) (the_servers p)
         (Startup (s_Listen s) (the_servers p)).1 (if r then true else false) ∧
  r = match (Startup (s_Listen s) (the_servers p)).2, s_Ready s with
      | Some err, _ => inr (Fatal err)
      | None, Some err => inr (Panicked (Explicit err))
      | None, None => inl ()
      end.
Proof.
  intros Hq Hp Hn. unfold serve, RegisterPolicyHandlers, mbind, run_bind.
  apply NoDup_app in Hn as (_ & Hn & _).
  rewrite HandleFunc_new by (intros Hin; by apply (Hn _ Hin); left).
  rewrite HandleFunc_new.
  2: { cbn [p_mux set_mux]. intros [Hin|Hin]%elem_of_app; [apply (Hn _ Hin); right; by left|by apply list_elem_of_singleton in Hin]. }
  unfold RegisterServer, modify, get_process, start_servers, AddServer. destruct Hq as (Hq1 & Hq2 & Hq3).
  destruct p as [pol dat rts rt ct cr id mx rf sv ls rd]. cbn in Hq1, Hq2, Hq3. subst sv ls rd.
  cbn [p_policy p_data p_roots p_runtime p_certs p_creds p_ids p_mux p_refreshing p_servers p_listening p_ready
       set_mux set_servers set_listening app].
  match goal with |- context [Startup _ ?l] => assert (l = the_servers (mk_process pol dat rts rt ct cr id mx rf [] [] false)) as -> end.
  { unfold the_servers, NewManagementServer, NewInProxyServer, NewOutboundServer, NewUDPServer. cbn [p_roots].
    unfold prepared in Hp. destruct (MITMEnabled cfg); cbn in Hp.
    - destruct Hp as ((_ & _ & (Hm & _) & _ & (cs & Hcs & _)) & Hcr & Hid). cbn in *. subst.
      by rewrite !bool_decide_eq_true_2 by done.
    - destruct Hp as (-> & -> & -> & -> & _). by do 4 (rewrite bool_decide_eq_false_2 by tauto). }
  rewrite <- app_assoc. unfold Ready. destruct (Startup _ _) as [l [err|]]; [by intros [= <- <-]|].
  destruct (s_Ready s) as [err|]; by intros [= <- <-].
Qed.

Lemma Run_prepared fuel p : Run cfg s fuel start_process = (p, inl ()) →
  prepared p ∧ p_policy p = Some started_policy ∧ p_ready p = true.
Proof.
  rewrite Run_split. unfold mbind, run_bind. destruct (prepare fuel start_process) as [p0 [[]|st]] eqn:E; [|done].
  apply prepare_spec in E as (Hq & Hp & Hpol & Hn). intros [-> Hr]%serve_spec; [|done..].
  split; [done|]. by split.
Qed.

(** the servers that listen after a start *)
Lemma Run_listening fuel p : Run cfg s fuel start_process = (p, inl ()) → p_listening p = the_servers p.
Proof.
  rewrite Run_split. unfold mbind, run_bind. destruct (prepare fuel start_process) as [p0 [[]|st]] eqn:E; [|done].
  apply prepare_spec in E as (Hq & Hp & Hpol & Hn). intros [-> Hr]%serve_spec; [|done..].
  pose proof (Startup_spec (s_Listen s) (the_servers p0)) as Hst. cbn [p_listening].
  destruct (Startup (s_Listen s) (the_servers p0)) as [l [err|]]; [done|]. by subst l.
Qed.
End CommandLaws.


(** The bundle served at /ca.crt lets a client verify both the public web
    and intercepted hosts: it is the first non-blank system bundle, a newline
    if that does not end in one, and the CA certificates in force; without a
    CA in force the answer is 503, and 500 if the system has no bundle, which
    is looked for first. *)
Theorem trust_bundle_answer ReadFile pem certStore :
  match first_bundle ReadFile systemCABundlePaths with
  | None => (serve_ca_crt ReadFile pem certStore).1.1 = 500%Z
  | Some sys =>
      (∃ before path after, systemCABundlePaths = before ++ path :: after ∧ ReadFile path = Ok sys ∧ blank sys = false ∧
         Forall (λ q, ∀ b, ReadFile q = Ok b → blank b = true) before) ∧
      match certStore with
      | Some cs =>
          if blank (GetActiveCAPEM pem cs) then (serve_ca_crt ReadFile pem certStore).1.1 = 503%Z
          else ∃ nl, serve_ca_crt ReadFile pem certStore = (200%Z, "application/x-pem-file", sys ++ nl ++ GetActiveCAPEM pem cs) ∧
               (nl = [] ∨ nl = [LF]) ∧ last (sys ++ nl) = Some LF
      | None => (serve_ca_crt ReadFile pem certStore).1.1 = 503%Z
      end
  end.
Proof.
  unfold serve_ca_crt, combinedTrustBundle, loadSystemCABundle.
  destruct (first_bundle ReadFile systemCABundlePaths) as [sys|] eqn:Hf; [|done]. split.
  - revert Hf. generalize systemCABundlePaths as paths. induction paths as [|q paths IH]; [done|]. cbn.
    destruct (ReadFile q) as [b|e|x] eqn:Hq; [destruct (blank b) eqn:Hb|..].
    2: { intros [= ->]. by exists [], q, paths. }
    all: intros H; destruct (IH H) as (before & path & after & -> & ? & ? & ?);
      exists (q :: before), path, after; split_and!; try done; constructor; [|done]; intros b' Hb'; congruence.
  - destruct certStore as [cs|]; [|done]. destruct (blank (GetActiveCAPEM pem cs)); [done|].
    eexists. split; [reflexivity|]. assert (sys ≠ []) as Hne.
    { intros ->. assert (∀ paths, first_bundle ReadFile paths ≠ Some []) as Hx; [|by apply (Hx systemCABundlePaths)].
      induction paths as [|q paths IH]; [done|]. cbn. destruct (ReadFile q) as [b|e|x]; [destruct (blank b) eqn:Hb|..]; try done.
      intros [= ->]. by vm_compute in Hb. }
    unfold ends_with_newline. destruct (last sys) as [c|] eqn:Hl; [|by apply last_None in Hl].
    destruct (Ascii.eqb c LF) eqn:Hc; bools; [subst c; rewrite app_nil_r; auto|]. split; [by right|]. by rewrite last_snoc.
Qed.

Lemma drain_spec numOpen fuel srv t :
  match drain numOpen fuel srv t with
  | Some t' => t ≤ t' ∧ (numOpen srv t' ≤ 0)%Z ∧ ∀ k, t ≤ k < t' → (0 < numOpen srv k)%Z
  | None => ∀ k, t ≤ k < t + fuel → (0 < numOpen srv k)%Z
  end.
Proof.
  revert t. induction fuel as [|fuel IH]; intros t; cbn; [lia|]. destruct (0 <? numOpen srv t)%Z eqn:E; bools.
  - specialize (IH (S t)). destruct (drain _ _ _ _) as [t'|].
    + destruct IH as (? & ? & Hk). split_and!; [lia|done|]. intros k ?. destruct (decide (k = t)) as [->|]; [done|]. apply Hk. lia.
    + intros k ?. destruct (decide (k = t)) as [->|]; [done|]. apply IH. lia.
  - split_and!; [done..|]. intros. lia.
Qed.

(** A stop lets the open connections finish: once the management server is
    down, first the inbound and then the outbound server waits until it sees
    no open connection; if both do so in time, all four servers are down and
    the process ends normally at that moment, otherwise it is ended after
    thirty seconds.  If the management server fails to shut down, the other
    servers are not shut down at all. *)
Theorem graceful_stop numOpen dur err p m i o u :
  p_servers p = [Mgr m; In i; Out o; Udp u] →
  let drained s t t' := t ≤ t' ∧ (numOpen s t' ≤ 0)%Z ∧ ∀ k, t ≤ k < t' → (0 < numOpen s k)%Z in
  let '(p', e) := Stop numOpen (dur, err) p in
  (∀ m', p_policy p' = Some m' → m_stopped m' = true) ∧ (∀ m', p_runtime p' = Some m' → m_stopped m' = true) ∧
  match err with
  | Some _ => e = if dur <? shutdown_limit then Ended [Mgr m] dur else TimedOutWith1
  | None =>
      match e with
      | Ended down t => down = p_servers p ∧ t < shutdown_limit ∧ ∃ t1, drained (In i) dur t1 ∧ drained (Out o) t1 t
      | TimedOutWith1 => ∀ t1 t2, drained (In i) dur t1 → drained (Out o) t1 t2 → shutdown_limit ≤ t2
      end
  end.
Proof.
  intros Hs drained. unfold Stop. rewrite Hs.
  assert (∀ {C} (x : option (manager C)) m', ConfigManager.Stop <$> x = Some m' → m_stopped m' = true) as Hstop
    by (intros C [x|] m'; [|done]; by intros [= <-]).
  cbn [Shutdown server_Shutdown mgr_Shutdown_at fst snd]. unfold in_Shutdown, out_Shutdown. destruct err as [err|]; [by split_and!; [apply Hstop..|]|].
  cbn [Nat.add]. pose proof (drain_spec numOpen (S shutdown_limit) (In i) dur) as H1.
  assert (∀ t1 t1', drained (In i) dur t1 → drained (In i) dur t1' → t1 = t1') as Hu1.
  { intros t1 t1' (? & ? & Ha) (? & ? & Hb). destruct (Nat.lt_trichotomy t1 t1') as [?|[?|?]]; [|done|].
    - specialize (Hb t1). lia.
    - specialize (Ha t1'). lia. }
  destruct (drain numOpen (S shutdown_limit) (In i) dur) as [t1|]; cbn [mbind option_bind].
  2: { split_and!; [apply Hstop..|]. intros t1 t2 (? & ? & ?) (? & _). specialize (H1 t1). lia. }
  pose proof (drain_spec numOpen (S shutdown_limit) (Out o) t1) as H2.
  destruct (drain numOpen (S shutdown_limit) (Out o) t1) as [t2|]; cbn [mbind option_bind].
  2: { split_and!; [apply Hstop..|]. intros t1' t2 H1' (? & ? & ?). rewrite (Hu1 _ _ H1' H1) in *. specialize (H2 t2). lia. }
  split_and!; [apply Hstop..|]. destruct (t2 <? shutdown_limit) eqn:E; bools.
  - split_and!; [done..|]. exists t1. done.
  - intros t1' t2' H1' (? & ? & H2'). rewrite (Hu1 _ _ H1' H1) in *. destruct (Nat.le_gt_cases shutdown_limit t2'); [done|].
    destruct H2 as (? & ? & H2). specialize (H2 t2'). lia.
Qed.

Lemma graceful_stop_witness :
  let conns srv t := match srv with In _ => 3 - Z.of_nat t | Out _ => 7 - Z.of_nat t | _ => 0 end%Z in
  let p := mk_process None None false None None None None [] false
    [Mgr (mk_mgr ":15030"); In (mk_in 0 60 15006); Out (mk_out 0 60 15001 false false false false false); Udp (mk_udp 60 15009)]
    [] true in
  (Stop conns (1, None) p).2 = Ended (p_servers p) 7 ∧ ∃ t1, 1 ≤ t1 ≤ 7 ∧ (3 - Z.of_nat t1 ≤ 0)%Z.
Proof.
  intros conns p.
  pose proof (graceful_stop conns 1 None p (mk_mgr ":15030") (mk_in 0 60 15006) (mk_out 0 60 15001 false false false false false)
    (mk_udp 60 15009) eq_refl) as H.
  destruct (Stop conns (1, None) p) as [p' e] eqn:E. vm_compute in E. injection E as <- <-.
  split; [reflexivity|]. destruct H as (_ & _ & _ & _ & t1 & (? & ? & _) & (? & _)). by exists t1.
Defined.
