(* ===== verification/Agent.v ===== *)
(** * The running agent

    Everything together: the process that cmd/proxy/server.go has started
    (Startup), while the goroutines of its managers reload (ManagerThreads), its
    certificate store is refreshed (Mitm), and connections of both servers are
    accepted and served (Dispatch), in any order.

    One turn of a connection is one step.  A turn asks the policy manager once
    and the runtime manager once, so for what is shown here it does not matter
    when within the turn they change.  A turn that makes a certificate may store
    it later, after others have used the store.  Every turn is recorded with what
    it found and what it did. *)

From S2P Require Export Startup ManagerThreads.

Import ProxyCmd.

Local Open Scope string_scope.
Local Open Scope nat_scope.
Local Open Scope list_scope.

Section Agent.
Context `{UrlParser} `{HttpGuts} `{GoUnicode} `{Regexp}.
Context {IS CS : Type} `{IdentityService IS} `{CredentialService CS}.
Variable sm_order : RouteMatch.map_order StringMatch.
Variable ep_order : RouteMatch.map_order Endpoint.
Variable cfg : ProxyCmd.Config.
Variable s : surroundings.

(** a connection between two turns *)
Record connection := mk_connection {
  cn_inbound : bool;
  cn_io : conns;
  cn_dst : string;                      (* dst_host, "" while it is not known *)
  cn_dial : string;                     (* dialTarget of the inbound server *)
  cn_remote : string;
  cn_local : string
}.

(** a manager with the reloads that have taken its lock, and the goroutines in its
    methods *)
Definition reloading (C : Type) : Type := (shared C * gmap nat (phase C))%type.

Record managers := mk_managers {
  mn_policy : option (reloading Policy);
  mn_runtime : option (reloading RuntimeManager.compiled)
}.

Definition served {C} (r : option (reloading C)) : option (manager C) := (λ r, sh_m r.1) <$> r.
Definition reloads_of {C} (r : option (reloading C)) : list ConfigManager.env := from_option (λ r, sh_done r.1) [] r.
Definition mn_policy_reloads (mn : managers) : list ConfigManager.env := reloads_of (mn_policy mn).
Definition mn_runtime_reloads (mn : managers) : list ConfigManager.env := reloads_of (mn_runtime mn).

(** when the process is ready, no goroutine is in them *)
Definition idle {C} (m : manager C) : reloading C := (mk_sh m [], ∅).

(** a turn that was made: the connection with its new upstream, what the turn
    left of it, what interceptions sent, and the managers it asked *)
Record turn_record := mk_turn {
  tn_inbound : bool;
  tn_dst : string;
  tn_before : conns;
  tn_after : conns;
  tn_relayed : list relayed;
  tn_managers : managers
}.

Record agent := mk_agent {
  ag_process : process;                 (* as it was when it was ready *)
  ag_managers : managers;
  ag_state : ostate (IS:=IS) (CS:=CS);
  ag_conns : gmap nat connection;
  ag_turns : list turn_record;
  ag_crashed : option panic
}.

(** the process with the services its resolvers are; without interception there
    is no store, and none is asked *)
Definition start_agent (p : process) (ids : IS) (creds : CS) : agent :=
  mk_agent p (mk_managers (idle <$> p_policy p) (idle <$> p_runtime p))
    {| o_maps := default NewMaps (p_data p); o_shared := mk_shared ids creds (default (NewCertStore "") (p_certs p)) [] |} ∅ [] None.

(** what the servers see *)
Definition current (a : agent) : proxy_config := {|
  pcfg_policy := served (mn_policy (ag_managers a)); pcfg_serverName := ProxyCmd.ServerName cfg; pcfg_mitm := ProxyCmd.MITMEnabled cfg;
  pcfg_agentID := ProxyCmd.AgentID cfg; pcfg_rootCAs := p_roots (ag_process a);
  pcfg_certStore := bool_decide (p_certs (ag_process a) ≠ None); pcfg_runtime := served (mn_runtime (ag_managers a));
  pcfg_injection := bool_decide (p_creds (ag_process a) ≠ None) |}.

Definition user_sources (a : agent) : option (list RuntimeManager.UserSource) :=
  match p_ids (ag_process a) with
  | None => None
  | Some _ => RuntimeManager.UserSources <$> served (mn_runtime (ag_managers a))
  end.

(** the certificate store, which the process has exactly when it intercepts *)
Definition ag_certs (a : agent) : CertStore := o_certs (o_shared (ag_state a)).

Definition set_managers (a : agent) (mn : managers) : agent :=
  mk_agent (ag_process a) mn (ag_state a) (ag_conns a) (ag_turns a) (ag_crashed a).

(** a step of a goroutine of one manager: of the loop, of a reload over HTTP, or
    of the stop, after which connections are still served *)
Definition policy_step : reloading Policy → reloading Policy → Prop :=
  mtstep (PolicyManager.Parse (s_decode_policy s) (s_policy_error s)) PolicyManager.check_options PolicyManager.status_text false.

Definition runtime_step : reloading RuntimeManager.compiled → reloading RuntimeManager.compiled → Prop :=
  mtstep (RuntimeManager.parse (s_decode_runtime s)) RuntimeManager.check_options RuntimeManager.status_text true.

Definition set_store (a : agent) (cs : CertStore) : agent :=
  mk_agent (ag_process a) (ag_managers a)
    {| o_maps := o_maps (ag_state a); o_shared := set_cert_store (o_shared (ag_state a)) cs |}
    (ag_conns a) (ag_turns a) (ag_crashed a).

Definition set_conns (a : agent) (cs : gmap nat connection) : agent :=
  mk_agent (ag_process a) (ag_managers a) (ag_state a) cs (ag_turns a) (ag_crashed a).

(** the destination after a turn that goes on, which was one with HTTP *)
Definition go_on (cn : connection) (c : conns) : connection :=
  mk_connection (cn_inbound cn) c (dst_or (cn_dst cn) "192.168.0.105:28080")
    (if String.eqb (cn_dst cn) "" then "192.168.0.105:28080" else cn_dial cn) (cn_remote cn) (cn_local cn).

(** a turn [t] of connection [i] has ended with [c] and the state [st]; [lost] is
    what its reader had read ahead *)
Definition end_turn (a : agent) (i : nat) (cn : connection) (before c : conns) (t : turn) (st : ostate) (lost : nat) : agent :=
  mk_agent (ag_process a) (ag_managers a) st
    match t with
    | Continue => <[i := go_on cn (set_down_in c (consume lost (down_in c)))]> (ag_conns a)
    | _ => delete i (ag_conns a)
    end
    (ag_turns a ++ [mk_turn (cn_inbound cn) (cn_dst cn) before c
       (drop (length (o_relayed (o_shared (ag_state a)))) (o_relayed (o_shared st))) (ag_managers a)])
    match t with Crash q => Some q | _ => ag_crashed a end.

(** the steps of an agent that has not crashed: of a goroutine of a manager; a
    refresh of the CA; the store of a certificate that another turn has made,
    possibly with a CA that has been replaced since; a connection; a turn of one *)
Inductive agent_step : agent → agent → Prop :=
  | ag_policy a r r' : ag_crashed a = None → mn_policy (ag_managers a) = Some r → policy_step r r' →
      agent_step a (set_managers a (mk_managers (Some r') (mn_runtime (ag_managers a))))
  | ag_runtime a r r' : ag_crashed a = None → mn_runtime (ag_managers a) = Some r → runtime_step r r' →
      agent_step a (set_managers a (mk_managers (mn_policy (ag_managers a)) (Some r')))
  | ag_refresh_ca a answer : ag_crashed a = None → p_refreshing (ag_process a) = true →
      agent_step a (set_store a (FetchAndReload (ag_certs a) answer (s_decode_ca s) (s_load_ca s)).2)
  | ag_late_leaf a leaf : ag_crashed a = None → agent_step a (set_store a (store_leaf (ag_certs a) leaf))
  | ag_accept a i cn : ag_crashed a = None → ag_conns a !! i = None →
      agent_step a (set_conns a (<[i := cn]> (ag_conns a)))
  | ag_outbound a i cn w up t c st lost : ag_crashed a = None → ag_conns a !! i = Some cn → cn_inbound cn = false →
      buffered_ok (w_tls w) (cn_io cn) →
      outbound_turn sm_order ep_order (current a) w (user_sources a) (ag_state a)
        (fresh_upstream (cn_io cn) up) (cn_dst cn) = (t, c, st) →
      agent_step a (end_turn a i cn (fresh_upstream (cn_io cn) up) c t st lost)
  | ag_inbound a i cn w up t c lost : ag_crashed a = None → ag_conns a !! i = Some cn → cn_inbound cn = true →
      inbound_turn (current a) w (cn_remote cn) (cn_local cn)
        (fresh_upstream (cn_io cn) up) (cn_dst cn) (cn_dial cn) = (t, c) →
      agent_step a (end_turn a i cn (fresh_upstream (cn_io cn) up) c t (ag_state a) lost).
End Agent.

(** ** What the configuration servers asked for *)

Section AgentLaws.
Context `{UrlParser} `{HttpGuts} `{GoUnicode} `{Regexp}.
Context {IS CS : Type} `{IdentityService IS} `{CredentialService CS}.
Variable sm_order : RouteMatch.map_order StringMatch.
Variable ep_order : RouteMatch.map_order Endpoint.
Variable cfg : ProxyCmd.Config.
Variable s : surroundings.

Implicit Types (a : agent (IS:=IS) (CS:=CS)) (t : turn_record) (mn : managers).

(** the documents in force: the newest good ones among the cache file, the answer
    at the start and those of the reloads, in the order in which they took the
    lock *)
Definition policy_in_force mn : option ConfigDocument :=
  PolicyManager.document_in_force (s_decode_policy s) (s_policy_error s) (policy_options cfg) (s_policy_cache s)
    (s_policy_env s) (mn_policy_reloads mn).

Definition runtime_in_force mn : option RuntimeManager.Document :=
  RuntimeManager.document_in_force (s_decode_runtime s) (runtime_options cfg) (s_runtime_cache s)
    (s_runtime_env s) (mn_runtime_reloads mn).

(** whether the policy document is asked about a direction *)
Definition in_scope (direction : string) : bool :=
  PolicyManager.directionEnabled (m_options (PolicyManager.NewManager (policy_options cfg) None)) direction.

(** the decision of the documents *)
Definition asked mn (direction name target : string) : Decision :=
  match policy_in_force mn with
  | Some doc => if in_scope direction then spec_decision doc direction name target else allowed
  | None => allowed
  end.

Definition direction_of t : string := if tn_inbound t then "inbound" else "outbound".

(** the client announced [name] for the destination [target]: as the host of a
    request, or as the server name of a ClientHello *)
Definition announced t (name target : string) : Prop :=
  (∃ req rd, ReadRequest (down_in (tn_before t)) = Ok (req, rd) ∧ name = TargetDomain req ∧
     target = dst_or (tn_dst t) "192.168.0.105:28080") ∨
  (target = dst_or (tn_dst t) "192.168.0.105:28081" ∧ let raw := raw_domain (down_in (tn_before t)) in
   (name = raw ∨ tn_inbound t = false ∧ name = Injection.normalizeHost raw)).

Definition sent_upstream t : Prop := up_out (tn_after t) ≠ up_out (tn_before t) ∨ tn_relayed t ≠ [].

(** the name interception is decided for *)
Definition intercepted_host t : string :=
  let host := Injection.normalizeHost (raw_domain (down_in (tn_before t))) in
  if String.eqb host "" then Injection.extractHost (dst_or (tn_dst t) "192.168.0.105:28081") else host.

Definition turn_permitted t : Prop :=
  sent_upstream t → ∃ name target, announced t name target ∧
    Allowed (asked (tn_managers t) (direction_of t) name target) = true.

Definition turn_listed t : Prop :=
  tn_relayed t ≠ [] → MITMEnabled cfg = true ∧ tn_inbound t = false ∧
  (∃ doc host, runtime_in_force (tn_managers t) = Some doc ∧ host ∈ RuntimeManager.MITMHosts doc ∧
     RuntimeManager.host_covers (RuntimeManager.normalizeHost (intercepted_host t)) host = true) ∧
  ∃ roots name, loadMITMUpstreamRootCAs cfg s = Ok roots ∧
    Forall (relayed_for roots (dst_or (tn_dst t) "192.168.0.105:28081") name) (tn_relayed t).

(** ** The invariant *)

Definition managers_ok mn : Prop :=
  (∃ r, mn_policy mn = Some r ∧
     linearized (PolicyManager.Parse (s_decode_policy s) (s_policy_error s)) PolicyManager.check_options
       PolicyManager.status_text false (started_policy cfg s) r) ∧
  (if MITMEnabled cfg then ∃ r, mn_runtime mn = Some r ∧
     linearized (RuntimeManager.parse (s_decode_runtime s)) RuntimeManager.check_options
       RuntimeManager.status_text true (started_runtime cfg s) r
   else mn_runtime mn = None).

(** the store has a CA in force when there is interception *)
Definition store_ok a : Prop := MITMEnabled cfg = true → is_Some (primary (ag_certs a)).

Definition agent_ok a : Prop :=
  prepared cfg s (ag_process a) ∧ managers_ok (ag_managers a) ∧ store_ok a ∧
  Forall turn_permitted (ag_turns a) ∧ Forall turn_listed (ag_turns a).

Lemma start_managers_ok p : prepared cfg s p → p_policy p = Some (started_policy cfg s) →
  managers_ok (mk_managers (idle <$> p_policy p) (idle <$> p_runtime p)).
Proof.
  unfold managers_ok, prepared. intros Hp ->. split; [eexists; split; [done|apply linearized_start]|]. cbn [mn_runtime].
  destruct (MITMEnabled cfg).
  - destruct Hp as ((_ & _ & (-> & _) & _) & _). eexists. split; [done|apply linearized_start].
  - by destruct Hp as (_ & _ & _ & -> & _).
Qed.

Lemma managers_ok_Evaluate mn m direction name target : managers_ok mn → served (mn_policy mn) = Some m →
  PolicyManager.Evaluate m direction name target = asked mn direction name target.
Proof.
  intros [(r & Hr & Ha%linearized_agree) _]. unfold served. rewrite Hr. intros [= <-].
  rewrite (PolicyManager.Evaluate_agree _ _ _ _ _ Ha).
  unfold asked, policy_in_force, in_scope, mn_policy_reloads. rewrite Hr.
  exact (PolicyManager.reloaded_Evaluate (s_decode_policy s) (s_policy_error s) (policy_options cfg) (s_policy_cache s)
    (s_policy_env s) (sh_done r.1) direction name target).
Qed.

Lemma managers_ok_listed mn m host : managers_ok mn → served (mn_runtime mn) = Some m →
  RuntimeManager.MITMEnabledForHost m host = true →
  MITMEnabled cfg = true ∧ ∃ doc raw, runtime_in_force mn = Some doc ∧ raw ∈ RuntimeManager.MITMHosts doc ∧
    RuntimeManager.host_covers (RuntimeManager.normalizeHost host) raw = true.
Proof.
  intros [_ Hr] Hm Hh. destruct (MITMEnabled cfg); [|by rewrite Hr in Hm]. split; [done|].
  destruct Hr as (r & Hr & [_ Hc]%linearized_agree). rewrite Hr in Hm. injection Hm as <-.
  assert (m_cfg (sh_m r.1) = RuntimeManager.parse_doc <$> runtime_in_force mn) as Hc'.
  { rewrite Hc. unfold runtime_in_force, mn_runtime_reloads. rewrite Hr. apply RuntimeManager.reloaded_cfg. }
  clear Hc. rename Hc' into Hc. destruct (runtime_in_force mn) as [doc|].
  - destruct (proj1 (RuntimeManager.MITMEnabledForHost_spec _ doc host Hc) Hh) as (_ & raw & Hraw & Hcov). by exists doc, raw.
  - unfold RuntimeManager.MITMEnabledForHost in Hh. rewrite Hc in Hh. by destruct (String.eqb _ _).
Qed.

Lemma policy_step_ok mn r r' : managers_ok mn → mn_policy mn = Some r → policy_step s r r' →
  managers_ok (mk_managers (Some r') (mn_runtime mn)).
Proof.
  intros [(r0 & Hr0 & Hl) Hr] Hm Hs. simplify_eq. split; [|exact Hr]. exists r'. split; [done|].
  by eapply linearized_step.
Qed.

Lemma runtime_step_ok mn r r' : managers_ok mn → mn_runtime mn = Some r → runtime_step s r r' →
  managers_ok (mk_managers (mn_policy mn) (Some r')).
Proof.
  intros [Hp Hr] Hm Hs. split; [exact Hp|]. cbn. destruct (MITMEnabled cfg); [|by rewrite Hr in Hm].
  destruct Hr as (r0 & Hr0 & Hl). simplify_eq. exists r'. split; [done|]. by eapply linearized_step.
Qed.

(** a permission of the managers is one of the documents *)
Lemma permitted_asked a direction name target : managers_ok (ag_managers a) →
  permitted (current cfg a) direction name target → Allowed (asked (ag_managers a) direction name target) = true.
Proof.
  intros Hm Hp. pose proof Hm as [(r & Hr & _) _].
  assert (served (mn_policy (ag_managers a)) = Some (sh_m r.1)) as Hpol by (by rewrite Hr).
  unfold permitted, policy_decision in Hp. cbn [pcfg_policy current] in Hp. rewrite Hpol in Hp. cbn in Hp.
  rewrite <- (managers_ok_Evaluate _ _ _ _ _ Hm Hpol). naive_solver.
Qed.

Lemma relayed_new a (st : ostate (IS:=IS) (CS:=CS)) : drop (length (o_relayed (o_shared (ag_state a)))) (o_relayed (o_shared st)) ≠ [] →
  o_relayed (o_shared st) ≠ o_relayed (o_shared (ag_state a)).
Proof. intros Hne Heq. apply Hne. by rewrite Heq, drop_all. Qed.

Lemma outbound_permitted (a : agent (IS:=IS) (CS:=CS)) i cn w up (t : turn) c st lost : managers_ok (ag_managers a) → cn_inbound cn = false →
  outbound_turn sm_order ep_order (current cfg a) w (user_sources a) (ag_state a)
    (fresh_upstream (cn_io cn) up) (cn_dst cn) = (t, c, st) →
  Forall turn_permitted (ag_turns a) →
  Forall turn_permitted (ag_turns (end_turn a i cn (fresh_upstream (cn_io cn) up) c t st lost)).
Proof.
  intros Hm Hin Ht Ha. apply Forall_app_2; [exact Ha|]. apply Forall_singleton. unfold turn_permitted, sent_upstream. cbn.
  intros Hs. unfold announced, direction_of. cbn. rewrite Hin.
  apply outbound_respects_policy in Ht.
  2: { destruct Hs as [Hs|Hs]; [by left|right; by apply relayed_new]. }
  destruct Ht as [(req & rd & Hr & Hp)|(name & Hn & Hp)]; apply permitted_asked in Hp; [|done| |done].
  - eexists _, _. split; [left; by exists req, rd|done].
  - eexists _, _. split; [|exact Hp]. right. split; [done|]. destruct Hn; auto.
Qed.

Lemma inbound_permitted (a : agent (IS:=IS) (CS:=CS)) i cn w up (t : turn) c lost : managers_ok (ag_managers a) → cn_inbound cn = true →
  inbound_turn (current cfg a) w (cn_remote cn) (cn_local cn) (fresh_upstream (cn_io cn) up) (cn_dst cn) (cn_dial cn) = (t, c) →
  Forall turn_permitted (ag_turns a) →
  Forall turn_permitted (ag_turns (end_turn a i cn (fresh_upstream (cn_io cn) up) c t (ag_state a) lost)).
Proof.
  intros Hm Hin Ht Ha. apply Forall_app_2; [exact Ha|]. apply Forall_singleton. unfold turn_permitted, sent_upstream. cbn.
  intros Hs. unfold announced, direction_of. cbn. rewrite Hin.
  apply inbound_respects_policy in Ht.
  2: { destruct Hs as [Hs|Hs]; [done|]. by rewrite drop_all in Hs. }
  destruct Ht as [(req & rd & Hr & Hp)|Hp]; apply permitted_asked in Hp; [|done| |done].
  - eexists _, _. split; [left; by exists req, rd|done].
  - eexists _, _. split; [|exact Hp]. right. split; [done|]. by left.
Qed.

Lemma shouldMITM_listed a name dst : managers_ok (ag_managers a) → shouldMITM (current cfg a) name dst = true →
  MITMEnabled cfg = true ∧ ∃ doc host, runtime_in_force (ag_managers a) = Some doc ∧ host ∈ RuntimeManager.MITMHosts doc ∧
    RuntimeManager.host_covers (RuntimeManager.normalizeHost
      (if String.eqb (Injection.normalizeHost name) "" then Injection.extractHost dst else Injection.normalizeHost name)) host = true.
Proof.
  intros Hm. unfold shouldMITM. cbn [current pcfg_mitm pcfg_runtime]. destruct (negb _ || negb _); [done|].
  destruct (served (mn_runtime (ag_managers a))) as [m|] eqn:Hr; [|done]. intros Hh. by eapply managers_ok_listed.
Qed.

(** a turn of the outbound server keeps the store, and intercepts what is listed *)
Lemma outbound_listed (a : agent (IS:=IS) (CS:=CS)) i cn w up (t : turn) c st lost : prepared cfg s (ag_process a) → managers_ok (ag_managers a) → store_ok a →
  cn_inbound cn = false → buffered_ok (w_tls w) (cn_io cn) →
  outbound_turn sm_order ep_order (current cfg a) w (user_sources a) (ag_state a)
    (fresh_upstream (cn_io cn) up) (cn_dst cn) = (t, c, st) →
  Forall turn_listed (ag_turns a) →
  let a' := end_turn a i cn (fresh_upstream (cn_io cn) up) c t st lost in store_ok a' ∧ Forall turn_listed (ag_turns a').
Proof.
  intros Hp Hm Hs Hin Hb Ht Ha.
  apply outbound_turn_relays in Ht as (Hpr & sent & Hsent & Hl); [|exact Hb].
  split; [unfold store_ok, ag_certs; cbn; by rewrite Hpr|].
  apply Forall_app_2; [exact Ha|]. apply Forall_singleton. unfold turn_listed. cbn. rewrite Hsent, drop_app_length.
  intros Hne. destruct (Hl Hne) as (Hmitm & name & Hrel). pose proof Hmitm as [He Hlisted]%shouldMITM_listed; [|done].
  split; [done|]. split; [done|]. split; [exact Hlisted|].
  unfold prepared in Hp. rewrite He in Hp. destruct Hp as ((_ & _ & _ & Hroots & _) & _). by exists (p_roots (ag_process a)), name.
Qed.

Lemma agent_step_ok a a' : agent_ok a → agent_step sm_order ep_order cfg s a a' → agent_ok a'.
Proof.
  intros (Hp & Hm & Hs & Hok1 & Hok2) Hstep. unfold agent_ok. destruct Hstep as
    [a r r' _ Hr Hst|a r r' _ Hr Hst|a answer _ _|a leaf _|a i cn _ _|a i cn w up t c st lost _ _ Hin Hb Ht|a i cn w up t c lost _ _ Hin Ht].
  - split_and!; [done|by eapply policy_step_ok|done..].
  - split_and!; [done|by eapply runtime_step_ok|done..].
  - split_and!; [done..| |done|done]. unfold store_ok, ag_certs in *. cbn.
    destruct (FetchAndReload_cases (ag_certs a) answer (s_decode_ca s) (s_load_ca s)) as [Hf|(certs & Hc & Hf)];
      unfold ag_certs in *; rewrite Hf; [done|]. intros _. destruct certs; [done|]. by eexists.
  - by split_and!.
  - by split_and!.
  - split; [done|]. split; [done|]. edestruct outbound_listed as [Hs' Hl]; [done..|]. split; [exact Hs'|].
    split; [by eapply outbound_permitted|exact Hl].
  - split; [done|]. split; [done|]. split; [exact Hs|]. split; [by eapply inbound_permitted|].
    apply Forall_app_2; [exact Hok2|]. apply Forall_singleton. intros Hne. exfalso. apply Hne. cbn. apply drop_all.
Qed.

Lemma start_agent_ok fuel p ids creds : Run cfg s fuel start_process = (p, inl ()) → agent_ok (start_agent p ids creds).
Proof.
  intros (Hp & Hpol & _)%Run_prepared. split; [done|]. split; [by apply start_managers_ok|].
  split; [|split; constructor]. unfold store_ok, ag_certs. cbn. unfold prepared in Hp. destruct (MITMEnabled cfg).
  - destruct Hp as ((_ & _ & _ & _ & cs & -> & _ & Hc & _) & _). by intros _.
  - done.
Qed.

Lemma agent_reachable_ok fuel p ids creds a : Run cfg s fuel start_process = (p, inl ()) →
  rtc (agent_step sm_order ep_order cfg s) (start_agent p ids creds) a → agent_ok a.
Proof.
  intros Hr Hs. eapply (invariant_reachable _ agent_ok); [exact agent_step_ok| |exact Hs]. by eapply start_agent_ok.
Qed.
End AgentLaws.

(** ** Properties *)


(** C8: The running agent intercepts what it was told to and nothing else: if a
    turn decrypts a connection and relays anything, interception is enabled, the
    connection is an outbound one, a host of the interception list in force
    covers the name it announced, or its destination if it announced none, and
    everything goes to that destination, verified against the configured roots.
    Meanwhile, whatever refreshes fail, there is a certificate for every name. *)
Theorem agent_intercepts_listed `{UrlParser} `{HttpGuts} `{GoUnicode} `{Regexp} {IS CS} `{IdentityService IS} `{CredentialService CS}
    sm_order ep_order cfg s fuel p (ids : IS) (creds : CS) a :
  Startup.Run cfg s fuel start_process = (p, inl ()) →
  rtc (agent_step sm_order ep_order cfg s) (start_agent p ids creds) a →
  (∀ t, t ∈ ag_turns a → turn_listed cfg s t) ∧
  (MITMEnabled cfg = true → ∀ serverName now, TrimSpace serverName ≠ "" →
     ∃ leaf, (GetCertificate (ag_certs a) serverName now None).1 = Ok leaf).
Proof.
  intros Hr Hs. destruct (agent_reachable_ok _ _ _ _ _ _ _ _ _ Hr Hs) as (_ & _ & Hst & _ & Hok).
  split; [by apply Forall_forall|]. intros [ca Hca]%Hst serverName now Hn. by eapply active_certifies.
Qed.

(** a process with a policy and interception of one host *)
Module AgentExample.
Definition cfg : Config := {|
  ServerName := "lhotse"; FileName := ""; ProxyMgrPort := 15030; InBoundProxyPort := 15006; OutBoundProxyPort := 15001;
  UDPProxyPort := 15009; ConnIdleTimeOut := 60; CacheFileName := ""; CacheDuration := 0; DomainPolicyURL := "http://policy";
  DomainPolicyCacheFile := ""; DomainPolicyRefreshInterval := 0; DomainPolicyFetchTimeout := 0;
  DomainPolicyScope := ""; AppName := "app"; InstanceIP := "10.0.0.1"; MITMEnabled := true; VaultURI := "http://vault";
  AgentID := "agent"; UpstreamCAFile := ""; CAPollInterval := 0; CAInitTimeout := 120000000000;
  CredentialRuntimeCacheFile := ""; CredentialRuntimeRefresh := 0; CredentialRuntimeFetch := 0 |}.
Definition doc : ConfigDocument := {| doc_rules := [
  {| rd_direction := "outbound"; rd_mode := "DEFAULT_DENY"; rd_allow := ["*.github.com"]; rd_block := [] |}] |}.
Definition answer (text : string) : ConfigManager.env := {| e_now := 5; e_answer := Answer 200 (Ok (of_string text));
  e_read_fault := None; e_save_fault := None; e_local_ip := Err "" |}.
Definition s : surroundings := {|
  s_decode_policy := λ b, if String.eqb (to_string b) "doc" then Ok doc else Err "json"; s_policy_error := λ _, "bad";
  s_policy_env := answer "doc"; s_policy_cache := None; s_saved := None; s_config := None;
  s_decode_runtime := λ b, Ok {| RuntimeManager.MITMHosts := ["api.github.com"]; RuntimeManager.UserSources_ := [] |};
  s_runtime_env := answer "hosts"; s_runtime_cache := None; s_SSL_CERT_FILE := ""; s_ReadFile := λ _, Err "no file";
  s_SystemCertPool := Ok true; s_AppendCertsFromPEM := λ _, true;
  s_decode_ca := λ _, Ok (["cert"], ["key"]); s_load_ca := λ c k, Some {| ca_cert := c; ca_key := k |};
  s_fetches := λ _, mk_fetch (Answer 200 (Ok [])) 0; s_choose := λ _, false; s_Listen := λ _ _, None; s_Ready := None;
  s_quote := λ q, q; s_duration := λ _, "2m" |}.
Definition w : world := {| w_dial := λ _, None; w_random := 0; w_tls := InterceptExample.tw;
  w_choices := Build_choices map_to_list 0 true |}.
Definition client : conns := mk_conns (mk_reader (ClientHello.encode demo_hello ++ u8 99) EOF ClientHelloPeekBufferSize)
  (mk_writer [] None) (mk_reader [] EOF 4096) (mk_writer [] None) false false.
Definition up : reader * writer := (mk_reader [] EOF 4096, mk_writer [] None).
Definition cn : connection := mk_connection false client "140.82.112.5:443" "" "" "".
Definition p : process := (Startup.Run (H:=RouteExample.unicode) cfg s 5 start_process).1.
(** the connection is accepted while a reload waits for its answer *)
Definition a0 := start_agent (IS:=unit) (CS:=unit) p tt tt.
Definition a1 := set_managers a0 (mk_managers
  ((λ r : reloading Policy, (r.1, <[0 := Asking Handler]> r.2)) <$> mn_policy (ag_managers a0)) (mn_runtime (ag_managers a0))).
Definition a2 := set_conns a1 (<[0 := cn]> (ag_conns a1)).
Definition turned := outbound_turn (H:=RouteExample.urls) (H0:=Concrete.guts) (H1:=RouteExample.unicode) (H2:=RouteExample.regexp)
    (H3:=DispatchExample.ids) (H4:=DispatchExample.creds) RouteExample.order RouteExample.order
    (current cfg a2) w (user_sources a2) (ag_state a2) (fresh_upstream client up) "140.82.112.5:443".
Definition a3 := end_turn a2 0 cn (fresh_upstream client up) turned.1.2 turned.1.1 turned.2 0.
Lemma last_step : agent_step (H:=RouteExample.urls) (H0:=Concrete.guts) (H1:=RouteExample.unicode) (H2:=RouteExample.regexp)
    (H3:=DispatchExample.ids) (H4:=DispatchExample.creds) RouteExample.order RouteExample.order cfg s a2 a3.
Proof.
  apply (ag_outbound RouteExample.order RouteExample.order cfg s a2 0 cn w up turned.1.1 turned.1.2 turned.2 0).
  - reflexivity.
  - reflexivity.
  - reflexivity.
  - split; apply (bool_decide_unpack _); vm_compute; reflexivity.
  - unfold turned. by destruct (outbound_turn _ _ _ _ _ _ _ _) as [[? ?] ?].
Qed.
Lemma first_step : agent_step (H:=RouteExample.urls) (H0:=Concrete.guts) (H1:=RouteExample.unicode) (H2:=RouteExample.regexp)
    (H3:=DispatchExample.ids) (H4:=DispatchExample.creds) RouteExample.order RouteExample.order cfg s a0 a1.
Proof.
  unfold a1. destruct (mn_policy (ag_managers a0)) as [r|] eqn:Hr; [|vm_compute in Hr; discriminate Hr].
  apply (ag_policy _ _ _ _ a0 r); [reflexivity|exact Hr|].
  assert (r.2 = ∅) as He by (cbn in Hr; destruct (p_policy p); [by injection Hr as <-|discriminate Hr]).
  destruct r as [sh ths]. cbn in He |- *. subst ths. by apply t_go.
Qed.
Lemma agent_reached : rtc (agent_step (H:=RouteExample.urls) (H0:=Concrete.guts) (H1:=RouteExample.unicode) (H2:=RouteExample.regexp)
    (H3:=DispatchExample.ids) (H4:=DispatchExample.creds) RouteExample.order RouteExample.order cfg s) a0 a3.
Proof.
  apply rtc_l with a1; [exact first_step|].
  apply rtc_l with a2; [by apply ag_accept|].
  apply rtc_once, last_step.
Qed.

(** what the turn was *)
Definition facts (t : turn_record) :=
  (length (tn_relayed t), policy_in_force (H1:=RouteExample.unicode) cfg s (tn_managers t), direction_of t).
Lemma turned_facts : facts <$> ag_turns a3 = [(1, Some doc, "outbound")].
Proof. vm_compute. reflexivity. Qed.
Lemma the_turn : ∃ t, ag_turns a3 = [t] ∧ tn_relayed t ≠ [] ∧ direction_of t = "outbound" ∧
  policy_in_force (H1:=RouteExample.unicode) cfg s (tn_managers t) = Some doc.
Proof.
  pose proof turned_facts as Hf. destruct (ag_turns a3) as [|t [|]]; [done| |done]. exists t.
  unfold facts in Hf. injection Hf as Hl Hp Hd. split_and!; [done| |done|done]. by destruct (tn_relayed t).
Qed.
End AgentExample.


Lemma agent_intercepts_listed_witness :
  (∃ t, t ∈ ag_turns AgentExample.a3 ∧ tn_relayed t ≠ [] ∧
     turn_listed (H1:=RouteExample.unicode) AgentExample.cfg AgentExample.s t) ∧
  ∃ leaf, (GetCertificate (ag_certs AgentExample.a3) "b.test" 0 None).1 = Ok leaf.
Proof.
  destruct (agent_intercepts_listed (H:=RouteExample.urls) (H0:=Concrete.guts) (H1:=RouteExample.unicode) (H2:=RouteExample.regexp)
    (H3:=DispatchExample.ids) (H4:=DispatchExample.creds) RouteExample.order RouteExample.order AgentExample.cfg AgentExample.s 5
    AgentExample.p tt tt AgentExample.a3 ltac:(vm_compute; reflexivity) AgentExample.agent_reached) as [Hl Hc].
  split; [|apply Hc; [reflexivity|discriminate]].
  destruct AgentExample.the_turn as (t & Ht & Hn & _). exists t.
  assert (t ∈ ag_turns AgentExample.a3) as Hin by (rewrite Ht; by left). split; [exact Hin|]. split; [exact Hn|by apply Hl].
Defined.
