(* ===== verification/Node.v ===== *)
(** * A node: the capture and the agent together

    The kernel with the rules that the configurator has written (Capture, read by
    Netfilter), and the agent that was started beside it (Agent).  A workload, or
    the agent itself, opens TCP connections; the rules let each go directly, or
    hand it to the outbound server with the socket option that tells its original
    destination (Socket), or to another port.  No program text is modelled here:
    the steps of the kernel are those that Netfilter reads out of the rules. *)

From S2P Require Export Agent Netfilter Socket.

Local Open Scope string_scope.
Local Open Scope nat_scope.
Local Open Scope list_scope.

Section Node.
Context `{UrlParser} `{HttpGuts} `{GoUnicode} `{Regexp}.
Context {IS CS : Type} `{IdentityService IS} `{CredentialService CS}.
Context {P : Type} `{Netfilter P}.
Variable sm_order : RouteMatch.map_order StringMatch.
Variable ep_order : RouteMatch.map_order Endpoint.
Variable cfg : ProxyCmd.Config.
Variable s : surroundings.

(** the configuration of the capture, and its ranges as they were parsed *)
Variable icfg : Iptables.Config.
Variables ex4 ex6 in4 in6 : NetworkRange.

(** what the kernel keeps of the original destination of a packet *)
Variable sockaddr : P → list Z.

(** a packet that opens a TCP connection through an interface to the outside *)
Definition opens (p : P) : Prop := proto_is p TCP = true ∧ proto_is p "udp" = false ∧ out_is p "lo" = false.

Definition kernel_verdict (p : P) : verdict := nat_verdict (rulesv4 (run_rules icfg ex4 ex6 in4 in6)) OUTPUT p.

Record node := mk_node {
  nd_agent : agent (IS:=IS) (CS:=CS);
  nd_direct : list P;                (* left the machine as they were *)
  nd_captured : list (P * string);   (* handed to the outbound server, which took this for the destination *)
  nd_elsewhere : list (P * string)   (* redirected to another port *)
}.

Definition listens_on (a : agent (IS:=IS) (CS:=CS)) (port : string) : Prop :=
  ∃ o, Out o ∈ p_listening (ag_process a) ∧ port = Itoa (out_Port o).

(** what [GetOriginalDst] makes of it, "" when it fails *)
Definition destination (faults : option string * option string * option string) (p : P) : string :=
  match GetOriginalDst faults.1.1 faults.1.2 faults.2 (sockaddr p) with Ok (_, host) => host | _ => "" end.

(** all outbound connections of the agent come through the kernel *)
Definition no_new_outbound (a a' : agent (IS:=IS) (CS:=CS)) : Prop :=
  ∀ i cn, ag_conns a' !! i = Some cn → cn_inbound cn = false → ∃ cn0, ag_conns a !! i = Some cn0 ∧ cn_inbound cn0 = false.

Inductive node_step : node → node → Prop :=
  | nd_leaves n p : opens p → kernel_verdict p = VAccept →
      node_step n (mk_node (nd_agent n) (nd_direct n ++ [p]) (nd_captured n) (nd_elsewhere n))
  | nd_is_captured n p port i io faults remote local :
      opens p → kernel_verdict p = VRedirect port → listens_on (nd_agent n) port → is_Some (original_dst (sockaddr p)) →
      ag_crashed (nd_agent n) = None → ag_conns (nd_agent n) !! i = None →
      node_step n (mk_node (set_conns (nd_agent n)
          (<[i := mk_connection false io (destination faults p) "" remote local]> (ag_conns (nd_agent n))))
        (nd_direct n) (nd_captured n ++ [(p, destination faults p)]) (nd_elsewhere n))
  | nd_redirected n p port : opens p → kernel_verdict p = VRedirect port → ¬ listens_on (nd_agent n) port →
      node_step n (mk_node (nd_agent n) (nd_direct n) (nd_captured n) (nd_elsewhere n ++ [(p, port)]))
  | nd_agent_step n a' : agent_step sm_order ep_order cfg s (nd_agent n) a' → no_new_outbound (nd_agent n) a' →
      node_step n (mk_node a' (nd_direct n) (nd_captured n) (nd_elsewhere n)).

(** what the configuration exempts from the capture, or does not include *)
Definition included (p : P) : bool :=
  existsb (dport_is p) (Iptables.split (OutboundPortsInclude icfg)) || IsWildcard in4 || in_range p (IPNets in4).

Definition exempt (p : P) : bool :=
  existsb (out_is p) (Iptables.split (ExcludeInterfaces icfg)) || existsb (dport_is p) (Iptables.split (OutboundPortsExclude icfg)) ||
  existsb (uid_is p) (Iptables.split (Iptables.ProxyUID icfg)) || existsb (gid_is p) (Iptables.split (Iptables.ProxyGID icfg)) ||
  group_excluded p (ParseInterceptFilter (Iptables.OwnerGroupsInclude icfg) (Iptables.OwnerGroupsExclude icfg)) ||
  dst_in p "127.0.0.1/32" || in_range p (IPNets ex4) || negb (included p).

(** the destination a connection was captured with, or what the server falls
    back to when it could not find out *)
Definition captured_to (n : node) (dst : string) : Prop :=
  ∃ p host, (p, host) ∈ nd_captured n ∧ (dst = host ∨ host = "" ∧ dst = "192.168.0.105:28080").

Definition node_ok (n : node) : Prop :=
  Forall (λ p, opens p ∧ kernel_verdict p = VAccept) (nd_direct n) ∧
  Forall (λ ph, opens ph.1 ∧ (∃ port, kernel_verdict ph.1 = VRedirect port ∧ listens_on (nd_agent n) port) ∧
    (ph.2 = "" ∨ ∃ raw, original_dst (sockaddr ph.1) = Some (raw, ph.2))) (nd_captured n) ∧
  (∀ i cn, ag_conns (nd_agent n) !! i = Some cn → cn_inbound cn = false → captured_to n (cn_dst cn)) ∧
  Forall (λ t, tn_inbound t = false → captured_to n (tn_dst t)) (ag_turns (nd_agent n)).

(** ** The kernel *)

Lemma kernel_spec p : opens p → kernel_verdict p = outbound_spec p icfg ex4 in4.
Proof. intros (Ht & Hu & Hl). by apply outbound_verdict. Qed.

Lemma direct_exempt p : opens p → kernel_verdict p = VAccept → exempt p = true.
Proof.
  intros Ho. rewrite kernel_spec by done. unfold outbound_spec, exempt, included.
  destruct (existsb (out_is p) _ || _ || _ || _ || _) eqn:E1; [done|]. cbn [orb].
  destruct (dns_captured p icfg); [done|].
  destruct (dst_in p _ || in_range p (IPNets ex4)) eqn:E2; [done|]. cbn [orb].
  by destruct (existsb (dport_is p) _ || IsWildcard in4 || in_range p (IPNets in4)).
Qed.

Lemma captured_not_exempt p port : opens p → kernel_verdict p = VRedirect port →
  if dns_captured p icfg then port = IstioAgentDNSListenerPort ∨ port = ProxyPort icfg
  else exempt p = false ∧ port = ProxyPort icfg.
Proof.
  intros Ho. rewrite kernel_spec by done. unfold outbound_spec, exempt, included.
  destruct (existsb (out_is p) _ || _ || _ || _ || _) eqn:E1; [done|]. cbn [orb].
  destruct (dns_captured p icfg); [intros [= <-]; by left|].
  destruct (dst_in p _ || in_range p (IPNets ex4)) eqn:E2; [done|]. cbn [orb].
  destruct (existsb (dport_is p) _ || IsWildcard in4 || in_range p (IPNets in4)); [|done]. by intros [= <-].
Qed.

Lemma only_way p : opens p → exempt p = false → dns_captured p icfg = false → kernel_verdict p = VRedirect (ProxyPort icfg).
Proof.
  intros Ho. rewrite kernel_spec by done. unfold outbound_spec, exempt, included.
  destruct (existsb (out_is p) _ || _ || _ || _ || _) eqn:E1; [done|]. cbn [orb].
  destruct (dst_in p _ || in_range p (IPNets ex4)) eqn:E2; [done|]. cbn [orb].
  destruct (existsb (dport_is p) _ || IsWildcard in4 || in_range p (IPNets in4)); [|done]. by intros _ ->.
Qed.

(** ** The agent *)

Lemma agent_step_process a a' : agent_step sm_order ep_order cfg s a a' → ag_process a' = ag_process a.
Proof. by destruct 1. Qed.

Lemma agent_rtc_process a a' : rtc (agent_step sm_order ep_order cfg s) a a' → ag_process a' = ag_process a.
Proof. induction 1 as [|a b c Hs _ IH]; [done|]. by rewrite IH, (agent_step_process _ _ Hs). Qed.

Lemma destination_found faults p : destination faults p = "" ∨ ∃ raw, original_dst (sockaddr p) = Some (raw, destination faults p).
Proof.
  unfold destination, GetOriginalDst. destruct faults as [[[e|] [e2|]] [e3|]]; cbn; try by left.
  destruct (original_dst (sockaddr p)) as [[raw host]|]; [right; by exists raw|by left].
Qed.

Lemma captured_to_more n n' dst : nd_captured n ⊆ nd_captured n' → captured_to n dst → captured_to n' dst.
Proof. intros Hsub (p & host & Hp & Hd). exists p, host. split; [by apply Hsub|done]. Qed.

(** the connections and turns after a step of the agent are those of before, but
    for the destination that a connection falls back to *)
Lemma agent_step_captured n a' : agent_step sm_order ep_order cfg s (nd_agent n) a' → no_new_outbound (nd_agent n) a' →
  (∀ i cn, ag_conns (nd_agent n) !! i = Some cn → cn_inbound cn = false → captured_to n (cn_dst cn)) →
  Forall (λ t, tn_inbound t = false → captured_to n (tn_dst t)) (ag_turns (nd_agent n)) →
  (∀ i cn, ag_conns a' !! i = Some cn → cn_inbound cn = false → captured_to n (cn_dst cn)) ∧
  Forall (λ t, tn_inbound t = false → captured_to n (tn_dst t)) (ag_turns a').
Proof.
  intros Hs Hnew Hc Ht. remember (nd_agent n) as a eqn:Ha.
  assert (∀ dst, captured_to n dst → captured_to n (dst_or dst "192.168.0.105:28080")) as Hor.
  { intros dst (p & host & Hp & Hd). exists p, host. split; [done|]. unfold dst_or.
    destruct (String.eqb_spec dst "") as [->|]; [|done]. right. destruct Hd as [<-|[_ Hd]]; done. }
  destruct Hs as [a r r' _ _ _|a r r' _ _ _|a answer _ _|a leaf _|a i cn _ Hi|a i cn w up t c st lost _ Hi Hin _ _|a i cn w up t c lost _ Hi Hin _];
    try (split; [exact Hc|exact Ht]).
  - split; [|exact Ht]. intros j cn' Hj Hin. destruct (decide (j = i)) as [->|].
    + destruct (Hnew i cn' Hj Hin) as (cn0 & Hcn0 & _). congruence.
    + cbn in Hj. rewrite lookup_insert_ne in Hj by done. by eapply Hc.
  - split.
    + intros j cn' Hj Hin'. cbn in Hj. destruct t; [|apply lookup_delete_Some in Hj as [_ Hj]; by eapply Hc..].
      destruct (decide (j = i)) as [->|]; [|rewrite lookup_insert_ne in Hj by done; by eapply Hc].
      rewrite lookup_insert_eq in Hj. injection Hj as <-. cbn. apply Hor. by eapply Hc.
    + apply Forall_app_2; [exact Ht|]. apply Forall_singleton. intros _. cbn. by eapply Hc.
  - split.
    + intros j cn' Hj Hin'. cbn in Hj. destruct t; [|apply lookup_delete_Some in Hj as [_ Hj]; by eapply Hc..].
      destruct (decide (j = i)) as [->|]; [|rewrite lookup_insert_ne in Hj by done; by eapply Hc].
      rewrite lookup_insert_eq in Hj. injection Hj as <-. cbn in Hin'. congruence.
    + apply Forall_app_2; [exact Ht|]. apply Forall_singleton. cbn. congruence.
Qed.

(** turns bring no connection *)
Lemma end_turn_no_new (a : agent (IS:=IS) (CS:=CS)) i cn before c t st lost :
  ag_conns a !! i = Some cn → no_new_outbound a (end_turn a i cn before c t st lost).
Proof.
  intros Hi j cn' Hj Hin. cbn in Hj. destruct t; [|apply lookup_delete_Some in Hj as [_ Hj]; by exists cn'..].
  destruct (decide (j = i)) as [->|]; [|rewrite lookup_insert_ne in Hj by done; by exists cn'].
  rewrite lookup_insert_eq in Hj. injection Hj as <-. by exists cn.
Qed.

Lemma node_step_agent n n' : node_step n n' → rtc (agent_step sm_order ep_order cfg s) (nd_agent n) (nd_agent n').
Proof.
  destruct 1 as [n p Ho Hv|n p port i io faults remote local Ho Hv Hl Hd Hc Hi|n p port Ho Hv Hl|n a' Hs Hnew]; try apply rtc_refl.
  - apply rtc_once. by apply ag_accept.
  - by apply rtc_once.
Qed.

Lemma node_rtc_agent n n' : rtc node_step n n' → rtc (agent_step sm_order ep_order cfg s) (nd_agent n) (nd_agent n').
Proof. induction 1 as [|a b c Hs _ IH]; [apply rtc_refl|]. by etrans; [apply node_step_agent|]. Qed.

Lemma node_step_ok : invariant node_step node_ok.
Proof.
  intros n n' (Hd & Hk & Hc & Ht) Hs.
  destruct Hs as [n p Ho Hv|n p port i io faults remote local Ho Hv Hl Hsd Hcr Hi|n p port Ho Hv Hl|n a' Hs Hnew].
  - split_and!; [|done..]. apply Forall_app_2; [done|by apply Forall_singleton].
  - set (n' := mk_node _ _ _ _).
    assert (∀ dst, captured_to n dst → captured_to n' dst) as Hmore by (intros dst; apply captured_to_more; set_solver).
    split_and!; [done| | |].
    + apply Forall_app_2; [exact Hk|]. apply Forall_singleton. split; [done|]. split; [by exists port|].
      cbn. apply destination_found.
    + intros j cn Hj Hin. cbn in Hj. destruct (decide (j = i)) as [->|].
      * rewrite lookup_insert_eq in Hj. injection Hj as <-. exists p, (destination faults p). split; [set_solver|by left].
      * rewrite lookup_insert_ne in Hj by done. apply Hmore. by eapply Hc.
    + eapply Forall_impl; [exact Ht|]. intros t Htt Hin. by apply Hmore, Htt.
  - by split_and!.
  - destruct (agent_step_captured n a' Hs Hnew Hc Ht) as [Hc' Ht'].
    split_and!; [done| |exact Hc'|exact Ht'].
    eapply Forall_impl; [exact Hk|]. intros p (Ho & (port & Hv & o & Hl) & Hdst). split; [done|]. split; [|done].
    exists port. split; [done|]. exists o. cbn. by rewrite (agent_step_process _ _ Hs).
Qed.

Definition start_node (p : process) (ids : IS) (creds : CS) : node := mk_node (start_agent p ids creds) [] [] [].

Lemma start_node_ok p ids creds : node_ok (start_node p ids creds).
Proof. split_and!; [constructor|constructor| |constructor]. intros i cn Hi. cbn in Hi. by rewrite lookup_empty in Hi. Qed.
End Node.

(** ** Properties *)


(** the node of the examples: the rules of Netfilter's, the agent of Agent's; a
    workload connects to a host it may reach, the agent's user to another *)
Module NodeExample.
Definition ex4 : NetworkRange := (separateV4V6 (OutboundIPRangesExclude NetExample.cfg)).1.
Definition workload : NetExample.packet := NetExample.out_packet "1000" "140.82.112.5" "443".
Definition own : NetExample.packet := NetExample.out_packet "1337" "93.184.216.34" "80".
Definition sockaddr (p : NetExample.packet) : list Z :=
  ([2; 0; 1; 187] ++ default [] (match ParseIP (NetExample.pk_dst p) with Some ip => To4 ip | None => None end) ++ replicate 8 0)%Z.
Definition step := node_step (H:=RouteExample.urls) (H0:=Concrete.guts) (H1:=RouteExample.unicode) (H2:=RouteExample.regexp)
  (H3:=DispatchExample.ids) (H4:=DispatchExample.creds) (H5:=NetExample.netfilter) RouteExample.order RouteExample.order
  AgentExample.cfg AgentExample.s NetExample.cfg ex4 no_range wildcard wildcard sockaddr.
Definition n0 := start_node (IS:=unit) (CS:=unit) (P:=NetExample.packet) AgentExample.p tt tt.
Definition n1 := mk_node AgentExample.a1 ([] : list NetExample.packet) [] [].
Definition n2 := mk_node AgentExample.a2 [] [(workload, "140.82.112.5:443")] [].
Definition n3 := mk_node AgentExample.a3 [] [(workload, "140.82.112.5:443")] [].
Definition n4 := mk_node AgentExample.a3 [own] [(workload, "140.82.112.5:443")] [].

Lemma started : Startup.Run (H:=RouteExample.unicode) AgentExample.cfg AgentExample.s 5 start_process = (AgentExample.p, inl ()).
Proof. vm_compute. reflexivity. Qed.

Lemma workload_destination : destination sockaddr (None, None, None) workload = "140.82.112.5:443".
Proof. vm_compute. reflexivity. Qed.

Lemma node_reached : rtc step n0 n4.
Proof.
  apply rtc_l with n1; [apply (nd_agent_step _ _ _ _ _ _ _ _ _ _ n0); [exact AgentExample.first_step|intros i cn Hi; cbn in Hi; by rewrite lookup_empty in Hi]|].
  apply rtc_l with n2.
  { pose proof (nd_is_captured (H:=RouteExample.urls) (H0:=Concrete.guts) (H1:=RouteExample.unicode) (H2:=RouteExample.regexp)
      (H3:=DispatchExample.ids) (H4:=DispatchExample.creds) (H5:=NetExample.netfilter) RouteExample.order RouteExample.order
      AgentExample.cfg AgentExample.s NetExample.cfg ex4 no_range wildcard wildcard sockaddr
      n1 workload "15001" 0 AgentExample.client (None, None, None) "" "") as Hs.
    rewrite workload_destination in Hs. apply Hs; clear Hs.
    - by vm_compute.
    - by vm_compute.
    - unfold listens_on. change (ag_process (nd_agent n1)) with AgentExample.p. rewrite (Run_listening _ _ _ _ started).
      eexists. split; [unfold the_servers; do 2 right; by left|reflexivity].
    - by eexists.
    - reflexivity.
    - reflexivity. }
  apply rtc_l with n3; [apply (nd_agent_step _ _ _ _ _ _ _ _ _ _ n2); [apply AgentExample.last_step|by apply end_turn_no_new]|].
  apply rtc_once. apply (nd_leaves _ _ _ _ _ _ _ _ _ _ n3 own); by vm_compute.
Qed.
End NodeExample.

