(* ===== verification/Pool.v ===== *)
(** * The connection pool

    Models pkg/pool/pool.go.  Connections are numbered; the factory, the ping
    and the close function are the environment of a call.  Each method is one
    function here, which other calls do not interrupt; PoolThreads lets them. *)

From S2P Require Export Prelude.

Local Open Scope string_scope.
Local Open Scope nat_scope.
Local Open Scope list_scope.

(** ** State *)

Inductive pool_error :=
  | ErrMaxActiveConnReached
  | ErrClosed
  | ErrNilConn                  (* connection is nil. rejecting *)
  | ErrOther (text : string).

Record channelPool := mk_pool {
  idleConnections : option (list (nat * Z));    (* the channel: connection, time of the Put; nil after Release *)
  maxIdle : Z;                                  (* the channel's capacity *)
  has_functions : bool;                         (* factory and close are set *)
  has_ping : bool;
  idleTimeout : Z;
  maxActive : Z;
  openedCount : Z;
  closed_flags : gset nat;                      (* ClientConn.Closed *)
  live : gset nat                               (* connections made and not closed by the close function *)
}.

Record pool_config := {
  InitialCap : Z;
  MaxCap : Z;
  MaxIdle : Z;
  pc_factory : bool;
  pc_close : bool;
  pc_ping : bool;
  pc_idleTimeout : Z
}.

Definition NewChannelPool (c : pool_config) : result string channelPool :=
  if negb ((InitialCap c <=? MaxIdle c)%Z && (MaxIdle c <=? MaxCap c)%Z && (0 <=? InitialCap c)%Z)
  then Err "invalid capacity settings"
  else if negb (pc_factory c) then Err "invalid factory func settings"
  else if negb (pc_close c) then Err "invalid close func settings"
  else Ok (mk_pool (Some []) (MaxIdle c) true (pc_ping c) (pc_idleTimeout c) (MaxCap c) 0 ∅ ∅).

(** what the environment answers during one call *)
Record pool_env := {
  now : Z;
  ping_ok : nat → bool;
  close_err : nat → option string;
  factory : result string nat                   (* a connection, or an error *)
}.

(** ** Operations *)

Definition set_idle (p : channelPool) (l : option (list (nat * Z))) : channelPool :=
  mk_pool l (maxIdle p) (has_functions p) (has_ping p) (idleTimeout p) (maxActive p) (openedCount p)
    (closed_flags p) (live p).

(** [getConns], under the lock; nil after [Release] *)
Definition getConns (p : channelPool) : option (list (nat * Z)) := idleConnections p.

(** [Ping] calls the function of the pool without asking whether there is one *)
Definition PoolPing (p : channelPool) (env : pool_env) (conn : option nat) : result pool_error unit :=
  match conn with
  | None => Err ErrNilConn
  | Some c =>
      if negb (has_ping p) then Panic NilDeref
      else if ping_ok env c then Ok tt else Err (ErrOther "ping")
  end.

(** [NewConnPool] of cmd/proxy/tcp_conn.go: connections are dialled to one host,
    closed by the connection's own method, and never pinged *)
Definition NewConnPool (port coreSize maxSize maxIdleCount : Z) : result string channelPool :=
  if (port <=? 0)%Z then Err "参数错误" else
  NewChannelPool {| InitialCap := coreSize; MaxCap := maxSize; MaxIdle := maxIdleCount;
                    pc_factory := true; pc_close := true; pc_ping := false; pc_idleTimeout := 60000000000 |}.

(** [Close] of a connection *)
Definition PoolClose (p : channelPool) (env : pool_env) (conn : option nat) : option pool_error * channelPool :=
  match conn with
  | None => (Some ErrNilConn, p)
  | Some c =>
      if negb (has_functions p) then (None, p) else
      (ErrOther <$> close_err env c,
       mk_pool (idleConnections p) (maxIdle p) (has_functions p) (has_ping p) (idleTimeout p) (maxActive p)
         (openedCount p - 1) ({[c]} ∪ closed_flags p) (live p ∖ {[c]}))
  end.

(** [Get] with an empty channel: make a connection *)
Definition get_new (p : channelPool) (env : pool_env) : pool_error + nat * channelPool :=
  if (maxActive p <=? openedCount p)%Z then inl ErrMaxActiveConnReached
  else if negb (has_functions p) then inl ErrClosed
  else match factory env with
  | Ok c => inr (c, mk_pool (idleConnections p) (maxIdle p) (has_functions p) (has_ping p) (idleTimeout p) (maxActive p)
              (openedCount p + 1) (closed_flags p) ({[c]} ∪ live p))
  | Err e => inl (ErrOther e)
  | Panic _ => inl (ErrOther "panic")
  end.

(** the loop of [Get] over the connections in the channel *)
Fixpoint get_loop (p : channelPool) (env : pool_env) (conns : list (nat * Z)) : (pool_error + nat) * channelPool :=
  match conns with
  | [] => match get_new (set_idle p (Some [])) env with
          | inl e => (inl e, set_idle p (Some []))
          | inr (c, p) => (inr c, p)
          end
  | (c, t) :: rest =>
      let discard := get_loop (PoolClose (set_idle p (Some rest)) env (Some c)).2 env rest in
      if (0 <? idleTimeout p)%Z && (t + idleTimeout p <? now env)%Z then discard
      else if has_ping p && negb (ping_ok env c) then discard
      else if bool_decide (c ∈ closed_flags p) then get_loop (set_idle p (Some rest)) env rest
      else (inr c, set_idle p (Some rest))
  end.

Definition PoolGet (p : channelPool) (env : pool_env) : (pool_error + nat) * channelPool :=
  match idleConnections p with
  | None => (inl ErrClosed, p)
  | Some conns => get_loop p env conns
  end.

Definition PoolPut (p : channelPool) (env : pool_env) (conn : option nat) : option pool_error * channelPool :=
  match conn with
  | None => (Some ErrNilConn, p)
  | Some c =>
      match idleConnections p with
      | None => PoolClose p env conn
      | Some l =>
          if (Z.of_nat (length l) <? maxIdle p)%Z then (None, set_idle p (Some (l ++ [(c, now env)])))
          else PoolClose p env conn
      end
  end.

(** [Release] closes the idle connections, without touching the counter *)
Definition Release (p : channelPool) : channelPool :=
  mk_pool None (maxIdle p) false false (idleTimeout p) (maxActive p) (openedCount p) (closed_flags p)
    (match idleConnections p with
     | None => live p
     | Some l => live p ∖ list_to_set l.*1
     end).

Definition PoolLen (p : channelPool) : nat :=
  match idleConnections p with Some l => length l | None => 0 end.

(** ** Disciplined use

    A user gives a connection back, by [Put] or [Close], at most once; the
    factory makes new connections.  [held] are the connections in use. *)

Inductive pool_step : channelPool * gset nat → channelPool * gset nat → Prop :=
  | pool_get p held env c p' :
      (∀ n, factory env = Ok n → n ∉ live p ∪ closed_flags p) →
      PoolGet p env = (inr c, p') → pool_step (p, held) (p', {[c]} ∪ held)
  | pool_get_error p held env e p' :
      (∀ n, factory env = Ok n → n ∉ live p ∪ closed_flags p) →
      PoolGet p env = (inl e, p') → pool_step (p, held) (p', held)
  | pool_put p held env c :
      c ∈ held → pool_step (p, held) ((PoolPut p env (Some c)).2, held ∖ {[c]})
  | pool_close p held env c :
      c ∈ held → pool_step (p, held) ((PoolClose p env (Some c)).2, held ∖ {[c]})
  | pool_release p held : pool_step (p, held) (Release p, held).

(** until [Release], the counter is the number of live connections, which are
    the idle ones and the ones in use *)
Definition pool_ok (s : channelPool * gset nat) : Prop :=
  let '(p, held) := s in
  match idleConnections p with
  | None => True
  | Some l =>
      has_functions p = true ∧ NoDup l.*1 ∧ list_to_set l.*1 ## held ∧ live p = list_to_set l.*1 ∪ held ∧
      live p ## closed_flags p ∧ openedCount p = Z.of_nat (size (live p)) ∧
      (openedCount p ≤ maxActive p)%Z ∧ (Z.of_nat (length l) ≤ maxIdle p)%Z
  end.

(** ** The invariant *)

Lemma ok_close p held env c : pool_ok (p, held) → c ∈ held → pool_ok ((PoolClose p env (Some c)).2, held ∖ {[c]}).
Proof.
  unfold pool_ok, PoolClose. destruct (idleConnections p) as [l|] eqn:El.
  - intros (Hf & Hnd & Hdis & Hlive & Hcl & Hcount & Hmax & Hidle) Hc. rewrite Hf. cbn [negb snd idleConnections].
    cbn [has_functions live closed_flags openedCount maxActive maxIdle].
    assert (c ∉ (list_to_set l.*1 : gset nat)) as Hcl' by set_solver.
    split_and!; [done|done|set_solver|rewrite Hlive; set_solver|set_solver| |lia|done].
    rewrite size_difference by set_solver. rewrite size_singleton.
    assert (size (live p) ≠ 0) by (apply size_non_empty_iff; set_solver). lia.
  - intros _ _. destruct (has_functions p); cbn; by rewrite ?El.
Qed.

Lemma ok_take p held c t rest :
  idleConnections p = Some ((c, t) :: rest) → pool_ok (p, held) →
  pool_ok (set_idle p (Some rest), {[c]} ∪ held) ∧ c ∉ held ∧ c ∉ closed_flags p.
Proof.
  unfold pool_ok. intros ->. cbn. rewrite NoDup_cons.
  intros (Hf & [Hc Hnd] & Hdis & Hlive & Hcl & Hcount & Hmax & Hidle).
  assert (c ∉ (list_to_set rest.*1 : gset nat)) by (by rewrite elem_of_list_to_set).
  split_and!; try done; [set_solver..|lia|set_solver|set_solver].
Qed.

Lemma ok_put p held env c : pool_ok (p, held) → c ∈ held → pool_ok ((PoolPut p env (Some c)).2, held ∖ {[c]}).
Proof.
  intros Hok Hc. unfold PoolPut. destruct (idleConnections p) as [l|] eqn:El; [|by apply ok_close].
  destruct (_ <? _)%Z eqn:Hlt; [|by apply ok_close]. bools. revert Hok. unfold pool_ok. rewrite El. cbn.
  intros (Hf & Hnd & Hdis & Hlive & Hcl & Hcount & Hmax & Hidle).
  assert (c ∉ l.*1) as Hcl' by (intros ?%(elem_of_list_to_set (C:=gset nat)); set_solver).
  rewrite fmap_app. cbn. split_and!; try done.
  - apply NoDup_app. split_and!; [done| |apply NoDup_singleton].
    by intros x Hx ->%list_elem_of_singleton.
  - rewrite list_to_set_app_L. set_solver.
  - rewrite Hlive, list_to_set_app_L. cbn. rewrite union_empty_r_L.
    apply set_eq. intros x. destruct (decide (x = c)); set_solver.
  - rewrite length_app. cbn. lia.
Qed.

Lemma ok_new p held env c p' l :
  pool_ok (p, held) → idleConnections p = Some l → (∀ n, factory env = Ok n → n ∉ live p ∪ closed_flags p) →
  get_new p env = inr (c, p') → pool_ok (p', {[c]} ∪ held) ∧ c ∉ held ∪ list_to_set l.*1.
Proof.
  unfold pool_ok, get_new. intros Hok Hi Hfresh. rewrite Hi in Hok. cbn in Hok.
  destruct Hok as (Hf & Hnd & Hdis & Hlive & Hcl & Hcount & Hmax & Hidle).
  destruct (_ <=? _)%Z eqn:Hle; [done|]. bools. rewrite Hf. cbn [negb].
  destruct (factory env) as [n|?|?]; [|done..]. intros [= <- <-]. cbn. rewrite Hi. cbn.
  specialize (Hfresh n eq_refl). split; [|set_solver].
  split_and!; [done|done|set_solver|set_solver|set_solver| |lia|done].
  rewrite size_union by set_solver. rewrite size_singleton. lia.
Qed.

Lemma ok_get env conns p held r p' :
  pool_ok (p, held) → idleConnections p = Some conns → (∀ n, factory env = Ok n → n ∉ live p ∪ closed_flags p) →
  get_loop p env conns = (r, p') →
  match r with
  | inr c => pool_ok (p', {[c]} ∪ held) ∧ c ∉ held
  | inl _ => pool_ok (p', held)
  end.
Proof.
  revert p held. induction conns as [|[c t] rest IH]; intros p held Hok Hi Hfresh; cbn [get_loop].
  - assert (pool_ok (set_idle p (Some []), held)) as Hok'.
    { revert Hok. unfold pool_ok. by rewrite Hi. }
    destruct (get_new _ _) as [e|[c p1]] eqn:Hn; intros [= <- <-]; [done|].
    destruct (ok_new (set_idle p (Some [])) held env c p1 [] Hok' eq_refl Hfresh Hn). split; [done|set_solver].
  - destruct (ok_take p held c t rest Hi Hok) as (Htake & Hc & Hflag).
    assert (get_loop (PoolClose (set_idle p (Some rest)) env (Some c)).2 env rest = (r, p') →
      match r with inr c => pool_ok (p', {[c]} ∪ held) ∧ c ∉ held | inl _ => pool_ok (p', held) end) as Hdiscard.
    { apply IH.
      - replace held with (({[c]} ∪ held) ∖ {[c]}) by set_solver. apply ok_close; [done|set_solver].
      - unfold PoolClose. by destruct (negb _).
      - intros n Hn. specialize (Hfresh n Hn). unfold PoolClose. destruct (negb _); cbn; [done|].
        assert (n ≠ c) by (revert Hok; unfold pool_ok; rewrite Hi; cbn; set_solver). set_solver. }
    destruct (_ && _); [exact Hdiscard|]. destruct (has_ping p && _); [exact Hdiscard|].
    rewrite bool_decide_false by done. intros [= <- <-]. done.
Qed.

Lemma pool_sizes p env r :
  maxActive (PoolClose p env r).2 = maxActive p ∧ maxIdle (PoolClose p env r).2 = maxIdle p.
Proof. unfold PoolClose. destruct r; [|done]. by destruct (negb _). Qed.

Lemma get_sizes env conns p r p' :
  get_loop p env conns = (r, p') → maxActive p' = maxActive p ∧ maxIdle p' = maxIdle p.
Proof.
  revert p. induction conns as [|[c t] rest IH]; intros p; cbn [get_loop].
  - unfold get_new. repeat case_match; intros; simplify_eq; done.
  - destruct (_ && _); [|destruct (has_ping p && _); [|destruct (bool_decide _)]].
    1, 2: intros Hg; apply IH in Hg as [-> ->]; by destruct (pool_sizes (set_idle p (Some rest)) env (Some c)) as [-> ->].
    + intros Hg. by apply IH in Hg as [-> ->].
    + by intros [= <- <-].
Qed.

Definition pool_inv (cfg : pool_config) (s : channelPool * gset nat) : Prop :=
  pool_ok s ∧ maxActive s.1 = MaxCap cfg ∧ maxIdle s.1 = MaxIdle cfg.

Lemma pool_inv_step cfg : invariant pool_step (pool_inv cfg).
Proof.
  intros s s' (Hok & Ha & Hi) Hst. unfold pool_inv.
  destruct Hst as [p held env c p' Hf Hg|p held env e p' Hf Hg|p held env c Hc|p held env c Hc|p held]; cbn [fst] in *.
  - unfold PoolGet in Hg. destruct (idleConnections p) as [l|] eqn:El; [|done].
    destruct (get_sizes _ _ _ _ _ Hg) as [-> ->]. split; [|done]. by apply (ok_get env l p held _ p' Hok El Hf) in Hg as [? _].
  - unfold PoolGet in Hg. destruct (idleConnections p) as [l|] eqn:El; [|by simplify_eq].
    destruct (get_sizes _ _ _ _ _ Hg) as [-> ->]. split; [|done]. by apply (ok_get env l p held _ p' Hok El Hf) in Hg.
  - split; [by apply ok_put|]. unfold PoolPut. destruct (idleConnections p); [destruct (_ <? _)%Z; [done|]|];
      by destruct (pool_sizes p env (Some c)) as [-> ->].
  - split; [by apply ok_close|]. by destruct (pool_sizes p env (Some c)) as [-> ->].
  - done.
Qed.

(** ** Properties *)

(** Used with discipline, the pool keeps its limits: as long as it is not
    released, the connections that are open are exactly the idle ones and the
    ones in use, they are at most [MaxCap] and the counter counts them, at most
    [MaxIdle] are idle, and no connection is handed out twice. *)
Theorem pool_bounded cfg p0 p held l :
  NewChannelPool cfg = Ok p0 → rtc pool_step (p0, ∅) (p, held) → idleConnections p = Some l →
  live p = list_to_set l.*1 ∪ held ∧ list_to_set l.*1 ## held ∧ NoDup l.*1 ∧
  openedCount p = Z.of_nat (size (live p)) ∧ (openedCount p ≤ MaxCap cfg)%Z ∧ (Z.of_nat (length l) ≤ MaxIdle cfg)%Z.
Proof.
  intros Hnew Hr Hl. assert (pool_inv cfg (p, held)) as (Hok & Ha & Hi).
  { refine (invariant_reachable pool_step (pool_inv cfg) (p0, ∅) (p, held) (pool_inv_step cfg) _ Hr).
    unfold NewChannelPool in Hnew. repeat case_match; simplify_eq. bools.
    unfold pool_inv, pool_ok. cbn. split_and!; try done; try set_solver; try lia. constructor. }
  unfold pool_ok in Hok. rewrite Hl in Hok. cbn in Ha, Hi. rewrite Ha, Hi in Hok. naive_solver.
Qed.

Module PoolExample.
Definition cfg : pool_config := {| InitialCap := 0; MaxCap := 2; MaxIdle := 1; pc_factory := true; pc_close := true;
  pc_ping := false; pc_idleTimeout := 0 |}.
Definition env (n : nat) : pool_env := {| now := 0; ping_ok _ := true; close_err _ := None; factory := Ok n |}.
Definition p0 : channelPool := mk_pool (Some []) 1 true false 0 2 0 ∅ ∅.
Definition p1 : channelPool := (PoolGet p0 (env 7)).2.
Definition p2 : channelPool := (PoolPut p1 (env 7) (Some 7)).2.
End PoolExample.

Lemma pool_bounded_witness :
  idleConnections PoolExample.p2 = Some [(7, 0%Z)] ∧ openedCount PoolExample.p2 = Z.of_nat (size (live PoolExample.p2)).
Proof.
  split; [reflexivity|].
  refine (proj1 (proj2 (proj2 (proj2 (pool_bounded PoolExample.cfg PoolExample.p0 PoolExample.p2 ∅ [(7, 0%Z)] eq_refl _ eq_refl))))).
  apply rtc_l with (PoolExample.p1, {[7]} ∪ ∅).
  - apply (pool_get PoolExample.p0 ∅ (PoolExample.env 7) 7); [|reflexivity].
    intros n [= <-]. apply (bool_decide_unpack _). vm_compute. done.
  - apply rtc_once. replace (∅ : gset nat) with (({[7]} ∪ ∅ : gset nat) ∖ {[7]}) at 2 by (apply (bool_decide_unpack _); vm_compute; done).
    apply (pool_put PoolExample.p1 _ (PoolExample.env 7) 7). set_solver.
Defined.
