(* ===== verification/PoolThreads.v ===== *)
(** * The connection pool under concurrent use

    Pool has every method of pkg/pool/pool.go as one step.  Here [Get], [Put],
    [Close] and [Release] run in goroutines of their own and stop between any two
    critical sections and channel operations: a [Get] takes the channel under the
    lock, receives from it without the lock, looks at the ping function, and takes
    the lock again to close or to make a connection; a [Put] that finds no room
    closes its connection in a second critical section; a [Release] takes the
    channel away, closes it and drains it.

    The channel a [Get] has taken may be the one of a released pool: [orphan] is
    what is left in it. *)

From S2P Require Export Threads Pool.

Local Open Scope string_scope.
Local Open Scope nat_scope.
Local Open Scope list_scope.

(** the pool; the channel after [Release] with whether it is closed; the
    connections in the hands of users *)
Record shared := mk_shared {
  sh_pool : channelPool;
  orphan : list (nat * Z);
  orphan_closed : bool;
  held : gset nat
}.

Inductive phase :=
  | GetLock                                     (* Get is called *)
  | GetSelect                                   (* the select of its loop *)
  | GetTaken (c : nat) (t : Z)                  (* received from the channel *)
  | GetPing (c : nat)                           (* before c.Ping; c.ping was not nil *)
  | GetCheck (c : nat)                          (* before the test of Closed *)
  | GetDiscard (c : nat)                        (* before Close, to go on with the loop *)
  | GetNew                                      (* the default branch, before the lock *)
  | PutLock (c : nat)                           (* Put is called *)
  | CloseLock (c : nat)                         (* Close is called, by a user or by Put *)
  | ReleaseLock                                 (* Release is called *)
  | ReleaseClose (close_func : bool)            (* before close(conns) *)
  | ReleaseDrain (close_func : bool)            (* in the range over the channel *)
  | Crashed (p : panic) (c : option nat).       (* the goroutine panics, over a connection it has *)

Definition set_pool (s : shared) (p : channelPool) : shared := mk_shared p (orphan s) (orphan_closed s) (held s).
Definition set_held (s : shared) (h : gset nat) : shared := mk_shared (sh_pool s) (orphan s) (orphan_closed s) h.

(** what is in the channel, whoever holds it, and the channel without its first *)
Definition channel (s : shared) : list (nat * Z) := default (orphan s) (idleConnections (sh_pool s)).
Definition receive (s : shared) (rest : list (nat * Z)) : shared :=
  match idleConnections (sh_pool s) with
  | Some _ => set_pool s (set_idle (sh_pool s) (Some rest))
  | None => mk_shared (sh_pool s) rest (orphan_closed s) (held s)
  end.

(** [Release] under the lock: the functions and the channel are taken away *)
Definition release_take (s : shared) (l : list (nat * Z)) : shared :=
  let p := sh_pool s in
  mk_shared (mk_pool None (maxIdle p) false false (idleTimeout p) (maxActive p) (openedCount p) (closed_flags p) (live p))
    l false (held s).

(** one connection closed by the function that [Release] kept *)
Definition drained (s : shared) (c : nat) (rest : list (nat * Z)) : shared :=
  let p := sh_pool s in
  mk_shared (mk_pool (idleConnections p) (maxIdle p) (has_functions p) (has_ping p) (idleTimeout p) (maxActive p)
    (openedCount p) (closed_flags p) (live p ∖ {[c]})) rest (orphan_closed s) (held s).

Inductive pool_lstep : shared → phase → shared → option phase → Prop :=
  (** Get *)
  | p_get_closed s : getConns (sh_pool s) = None → pool_lstep s GetLock s None
  | p_get s l : getConns (sh_pool s) = Some l → pool_lstep s GetLock s (Some GetSelect)
  | p_receive s c t rest : channel s = (c, t) :: rest → pool_lstep s GetSelect (receive s rest) (Some (GetTaken c t))
  | p_receive_nil s : idleConnections (sh_pool s) = None → orphan s = [] → orphan_closed s = true →
      pool_lstep s GetSelect s None
  | p_default s : channel s = [] → (idleConnections (sh_pool s) = None → orphan_closed s = false) →
      pool_lstep s GetSelect s (Some GetNew)
  | p_expired s c t now : (0 < idleTimeout (sh_pool s) ∧ t + idleTimeout (sh_pool s) < now)%Z →
      pool_lstep s (GetTaken c t) s (Some (GetDiscard c))
  | p_in_time s c t now : ¬ (0 < idleTimeout (sh_pool s) ∧ t + idleTimeout (sh_pool s) < now)%Z →
      pool_lstep s (GetTaken c t) s (Some (if has_ping (sh_pool s) then GetPing c else GetCheck c))
  | p_ping s c env : pool_lstep s (GetPing c) s
      match PoolPing (sh_pool s) env (Some c) with
      | Ok _ => Some (GetCheck c)
      | Err _ => Some (GetDiscard c)
      | Panic q => Some (Crashed q (Some c))
      end
  | p_check_closed s c : c ∈ closed_flags (sh_pool s) → pool_lstep s (GetCheck c) s (Some GetSelect)
  | p_check s c : c ∉ closed_flags (sh_pool s) → pool_lstep s (GetCheck c) (set_held s ({[c]} ∪ held s)) None
  | p_discard s c env : pool_lstep s (GetDiscard c) (set_pool s (PoolClose (sh_pool s) env (Some c)).2) (Some GetSelect)
  | p_new s env c p : (∀ n, factory env = Ok n → n ∉ live (sh_pool s) ∪ closed_flags (sh_pool s)) →
      get_new (sh_pool s) env = inr (c, p) → pool_lstep s GetNew (set_held (set_pool s p) ({[c]} ∪ held s)) None
  | p_new_error s env e : get_new (sh_pool s) env = inl e → pool_lstep s GetNew s None
  (** Put, which sends under the lock *)
  | p_put s c now l : idleConnections (sh_pool s) = Some l → (Z.of_nat (length l) < maxIdle (sh_pool s))%Z →
      pool_lstep s (PutLock c) (set_pool s (set_idle (sh_pool s) (Some (l ++ [(c, now)])))) None
  | p_put_full s c l : idleConnections (sh_pool s) = Some l → ¬ (Z.of_nat (length l) < maxIdle (sh_pool s))%Z →
      pool_lstep s (PutLock c) s (Some (CloseLock c))
  | p_put_released s c : idleConnections (sh_pool s) = None → pool_lstep s (PutLock c) s (Some (CloseLock c))
  (** Close *)
  | p_close s c env : pool_lstep s (CloseLock c) (set_pool s (PoolClose (sh_pool s) env (Some c)).2) None
  (** Release *)
  | p_release_again s : idleConnections (sh_pool s) = None → pool_lstep s ReleaseLock s None
  | p_release s l : idleConnections (sh_pool s) = Some l →
      pool_lstep s ReleaseLock (release_take s l) (Some (ReleaseClose (has_functions (sh_pool s))))
  | p_release_close s f : orphan_closed s = false →
      pool_lstep s (ReleaseClose f) (mk_shared (sh_pool s) (orphan s) true (held s)) (Some (ReleaseDrain f))
  | p_release_close_twice s f : orphan_closed s = true →
      pool_lstep s (ReleaseClose f) s (Some (Crashed (Explicit "close of closed channel") None))
  | p_drain s f c t rest : orphan s = (c, t) :: rest →
      pool_lstep s (ReleaseDrain f) (if f then drained s c rest else s)
        (Some (if f then ReleaseDrain f else Crashed NilDeref None))
  | p_drained s f : orphan s = [] → pool_lstep s (ReleaseDrain f) s None.

(** what users do: a connection is given back, by [Put] or [Close], by who holds it *)
Inductive pool_starts : shared → phase → shared → Prop :=
  | go_get s : pool_starts s GetLock s
  | go_put s c : c ∈ held s → pool_starts s (PutLock c) (set_held s (held s ∖ {[c]}))
  | go_close s c : c ∈ held s → pool_starts s (CloseLock c) (set_held s (held s ∖ {[c]}))
  | go_release s : pool_starts s ReleaseLock s.

Definition ptstep : shared * gmap nat phase → shared * gmap nat phase → Prop := tstep pool_starts pool_lstep.

Definition new_pool (p : channelPool) : shared := mk_shared p [] false ∅.

(** ** Connections inside methods *)

Definition phase_conn (l : phase) : option nat :=
  match l with
  | GetTaken c _ | GetPing c | GetCheck c | GetDiscard c | PutLock c | CloseLock c => Some c
  | Crashed _ c => c
  | _ => None
  end.

Definition oset (o : option nat) : gset nat := match o with Some c => {[c]} | None => ∅ end.

Definition flight (ths : gmap nat phase) : gset nat := map_img (omap phase_conn ths).

(** no connection is in two methods *)
Definition apart (ths : gmap nat phase) : Prop := ∀ i j li lj c,
  ths !! i = Some li → ths !! j = Some lj → phase_conn li = Some c → phase_conn lj = Some c → i = j.

Lemma elem_of_flight ths c : c ∈ flight ths ↔ ∃ i l, ths !! i = Some l ∧ phase_conn l = Some c.
Proof.
  unfold flight. rewrite elem_of_map_img. setoid_rewrite lookup_omap_Some. naive_solver.
Qed.

Lemma elem_of_oset o c : c ∈ oset o ↔ o = Some c.
Proof. destruct o; cbn; set_solver. Qed.

Lemma flight_set ths i l l' : apart ths → ths !! i = Some l →
  flight (set_thread i l' ths) = (flight ths ∖ oset (phase_conn l)) ∪ oset (l' ≫= phase_conn).
Proof.
  intros Ha Hi. apply set_eq. intros c. rewrite elem_of_union, elem_of_difference, !elem_of_flight, !elem_of_oset.
  split.
  - intros (j & lj & [[-> ->]|[Hne Hj]]%set_thread_Some & Hc); [by right|left].
    split; [by exists j, lj|]. intros Hl. by destruct Hne, (Ha j i lj l c).
  - intros [[(j & lj & Hj & Hc) Hl]|Hc].
    + exists j, lj. split; [|done]. apply set_thread_Some. right. split; [|done]. intros ->. simplify_eq.
    + destruct l' as [l1|]; [|done]. exists i, l1. split; [|done]. apply set_thread_Some. by left.
Qed.

Lemma apart_set ths i l l' : apart ths → ths !! i = Some l →
  (∀ c, l' ≫= phase_conn = Some c → phase_conn l = Some c ∨ c ∉ flight ths) → apart (set_thread i l' ths).
Proof.
  intros Ha Hi Hnew.
  assert (∀ j lj c, j ≠ i → ths !! j = Some lj → phase_conn lj = Some c → l' ≫= phase_conn = Some c → False) as Hno.
  { intros j lj c Hne Hj Hc Hl'. destruct (Hnew c Hl') as [Hl|Hf].
    - by destruct Hne, (Ha j i lj l c).
    - apply Hf, elem_of_flight. eauto. }
  intros j k lj lk c [[-> Hlj]|[Hj Hlj]]%set_thread_Some [[-> Hlk]|[Hk Hlk]]%set_thread_Some Hcj Hck; try done.
  - destruct (Hno k lk c Hk Hlk Hck). by rewrite Hlj.
  - destruct (Hno j lj c Hj Hlj Hcj). by rewrite Hlk.
  - by eapply Ha.
Qed.

(** ** Where the connections are *)

(** [F] are the ones inside methods *)
Definition placed (s : shared) (F : gset nat) : Prop :=
  pool_ok (sh_pool s, held s ∪ F) ∧ NoDup (channel s).*1 ∧ list_to_set (channel s).*1 ## held s ∪ F ∧
  held s ## F ∧ (idleConnections (sh_pool s) = None → has_functions (sh_pool s) = false).

Definition oset_new (o o' : option nat) (F : gset nat) : Prop := ∀ c, o' = Some c → o = Some c ∨ c ∉ F.

Lemma oset_again (F : gset nat) o : oset o ⊆ F → (F ∖ oset o) ∪ oset o = F.
Proof. intros Hs. apply set_eq. intros c. destruct (decide (c ∈ oset o)); set_solver. Qed.

Lemma placed_same s F F' : F' = F → placed s F → placed s F'.
Proof. by intros ->. Qed.

(** once released, a pool forgets connections freely *)
Lemma placed_fewer s s' F F' : idleConnections (sh_pool s') = None → has_functions (sh_pool s') = false →
  channel s' = channel s → held s' = held s → F' ⊆ F → placed s F → placed s' F'.
Proof.
  intros Hi Hf Hc Hh Hs (_ & Hnd & Hdis & Hhf & _). unfold placed. rewrite Hc, Hh.
  split_and!; [|done|set_solver|set_solver|done]. unfold pool_ok. by rewrite Hi.
Qed.

Lemma placed_receive s F c t rest : placed s F → channel s = (c, t) :: rest →
  placed (receive s rest) (F ∪ {[c]}) ∧ c ∉ F.
Proof.
  intros (Hok & Hnd & Hdis & Hhf & Hrel) Hc. rewrite Hc in Hnd, Hdis. cbn in Hnd, Hdis.
  apply NoDup_cons in Hnd as [Hcr Hnd]. assert (c ∉ (list_to_set rest.*1 : gset nat)) by (by rewrite elem_of_list_to_set).
  split; [|set_solver]. unfold placed, receive. unfold channel in Hc.
  destruct (idleConnections (sh_pool s)) as [l|] eqn:Hi; cbn in Hc; subst.
  - destruct (ok_take (sh_pool s) (held s ∪ F) c t rest Hi Hok) as (Htake & Hch & _).
    unfold channel. cbn [sh_pool set_pool set_idle idleConnections default held]. split_and!.
    + by replace (held s ∪ (F ∪ {[c]})) with ({[c]} ∪ (held s ∪ F)) by set_solver.
    + done.
    + set_solver.
    + set_solver.
    + done.
  - unfold channel. cbn [sh_pool held]. rewrite Hi. cbn [default orphan]. split_and!; [|done|set_solver..|by auto].
    unfold pool_ok. by rewrite Hi.
Qed.

(** the pool changes and its channel does not *)
Lemma placed_pool s F p' h' F' : placed s F →
  idleConnections p' = idleConnections (sh_pool s) → has_functions p' = has_functions (sh_pool s) →
  h' ∪ F' ⊆ held s ∪ F ∨ (channel s = [] ∨ idleConnections (sh_pool s) ≠ None ∧ list_to_set (channel s).*1 ## h' ∪ F') →
  h' ## F' → pool_ok (p', h' ∪ F') → placed (set_held (set_pool s p') h') F'.
Proof.
  intros (_ & Hnd & Hdis & _ & Hrel) Hi Hf Hsub Hd Hok. unfold placed, channel in *.
  cbn [sh_pool set_held set_pool held orphan]. rewrite Hi, Hf. split_and!; [done|done| |done|done].
  destruct Hsub as [Hsub|[->|[_ Hsub]]]; set_solver.
Qed.

Lemma set_held_same s : set_held s (held s) = s.
Proof. by destruct s. Qed.

Lemma set_pool_held s p : set_held (set_pool s p) (held s) = set_pool s p.
Proof. done. Qed.

Lemma PoolClose_channel p env r : idleConnections (PoolClose p env r).2 = idleConnections p ∧
  has_functions (PoolClose p env r).2 = has_functions p.
Proof. unfold PoolClose. destruct r; [|done]. by destruct (has_functions p) eqn:Hf; cbn; rewrite ?Hf. Qed.

Lemma placed_close s F c env : placed s F → c ∈ F →
  placed (set_pool s (PoolClose (sh_pool s) env (Some c)).2) (F ∖ {[c]}).
Proof.
  intros Hp Hc. pose proof Hp as (Hok & _ & _ & Hhf & _).
  destruct (PoolClose_channel (sh_pool s) env (Some c)) as [Hi Hf]. rewrite <- set_pool_held.
  apply (placed_pool s F); [done..|left; set_solver|set_solver|].
  replace (held s ∪ F ∖ {[c]}) with ((held s ∪ F) ∖ {[c]}) by set_solver. apply ok_close; [done|set_solver].
Qed.

Lemma get_new_channel p env c p' : get_new p env = inr (c, p') →
  idleConnections p' = idleConnections p ∧ has_functions p' = has_functions p ∧ has_functions p = true.
Proof. unfold get_new. destruct (has_functions p) eqn:Hf; cbn; cases; intros; simplify_eq; done. Qed.

Lemma placed_new s F env c p : placed s F →
  (∀ n, factory env = Ok n → n ∉ live (sh_pool s) ∪ closed_flags (sh_pool s)) →
  get_new (sh_pool s) env = inr (c, p) → placed (set_held (set_pool s p) ({[c]} ∪ held s)) F.
Proof.
  intros Hp Hfresh Hn. pose proof Hp as (Hok & _ & Hdis & Hhf & Hrel).
  destruct (get_new_channel _ _ _ _ Hn) as (Hi & Hf & Hft).
  destruct (idleConnections (sh_pool s)) as [l|] eqn:Hl; [|by rewrite Hrel in Hft].
  destruct (ok_new _ _ _ _ _ _ Hok Hl Hfresh Hn) as [Hok' Hc]. unfold channel in Hdis. rewrite Hl in Hdis. cbn in Hdis.
  apply (placed_pool s F); [done|congruence|done|right; right|set_solver|].
  - unfold channel. rewrite Hl. cbn. split; [done|set_solver].
  - by replace ({[c]} ∪ held s ∪ F) with ({[c]} ∪ (held s ∪ F)) by set_solver.
Qed.

Lemma placed_put s F c now l : placed s F → c ∈ F → idleConnections (sh_pool s) = Some l →
  (Z.of_nat (length l) < maxIdle (sh_pool s))%Z →
  placed (set_pool s (set_idle (sh_pool s) (Some (l ++ [(c, now)])))) (F ∖ {[c]}).
Proof.
  intros (Hok & Hnd & Hdis & Hhf & Hrel) Hc Hl Hlt. unfold channel in *. rewrite Hl in *. cbn [default] in *.
  pose proof (ok_put (sh_pool s) (held s ∪ F) {| now := now; ping_ok _ := true; close_err _ := None; factory := Err "" |}
    c Hok ltac:(set_solver)) as Hput.
  unfold PoolPut in Hput. rewrite Hl in Hput. cbn [Pool.now] in Hput. rewrite (proj2 (Z.ltb_lt _ _) Hlt) in Hput.
  assert (c ∉ (list_to_set l.*1 : gset nat)) as Hcl by set_solver.
  unfold placed, channel. cbn [set_pool sh_pool set_idle idleConnections default held snd id] in *.
  rewrite fmap_app. cbn [fmap list_fmap fst]. split_and!.
  - by replace (held s ∪ F ∖ {[c]}) with ((held s ∪ F) ∖ {[c]}) by set_solver.
  - apply NoDup_app. split_and!; [done| |apply NoDup_singleton]. intros x Hx ->%list_elem_of_singleton.
    by apply Hcl, elem_of_list_to_set.
  - rewrite list_to_set_app_L. set_solver.
  - set_solver.
  - done.
Qed.

Lemma placed_stay s F o : placed s F → oset o ⊆ F → placed s ((F ∖ oset o) ∪ oset o) ∧ oset_new o o F.
Proof. intros Hp Ho. rewrite oset_again by done. split; [done|]. intros c. by left. Qed.

Lemma placed_drop s F c : placed s (F ∖ {[c]}) → placed s ((F ∖ oset (Some c)) ∪ oset None) ∧ oset_new (Some c) None F.
Proof. intros Hp. split; [by eapply placed_same; [|exact Hp]; set_solver|done]. Qed.

Lemma placed_quiet s F : placed s F → placed s ((F ∖ oset None) ∪ oset None) ∧ oset_new None None F.
Proof. intros Hp. split; [by eapply placed_same; [|exact Hp]; set_solver|done]. Qed.

Lemma placed_check s F c : placed s F → c ∈ F → placed (set_held s ({[c]} ∪ held s)) (F ∖ {[c]}).
Proof.
  intros (Hok & Hnd & Hdis & Hhf & Hrel) Hc. unfold placed, channel in *. cbn [sh_pool set_held held orphan].
  assert ({[c]} ∪ held s ∪ F ∖ {[c]} = held s ∪ F) as ->.
  { apply set_eq. intros x. destruct (decide (x = c)); set_solver. }
  split_and!; [done|done|done|set_solver|done].
Qed.

(** a connection that was closed is in no method, unless the pool is released *)
Lemma placed_flagged s F c : placed s F → c ∈ F → c ∈ closed_flags (sh_pool s) → placed s (F ∖ {[c]}).
Proof.
  intros Hp Hc Hcl. destruct (idleConnections (sh_pool s)) as [l|] eqn:Hi.
  - destruct Hp as (Hok & _). unfold pool_ok in Hok. rewrite Hi in Hok. set_solver.
  - apply (placed_fewer s s F); [done|by apply Hp|done..|set_solver|done].
Qed.

Lemma placed_release s F l : placed s F → idleConnections (sh_pool s) = Some l → placed (release_take s l) F.
Proof.
  intros (Hok & Hnd & Hdis & Hhf & _) Hi. unfold placed, channel in *. rewrite Hi in *. by cbn.
Qed.

Lemma placed_drain s F c t rest : placed s F → idleConnections (sh_pool s) = None → orphan s = (c, t) :: rest →
  placed (drained s c rest) F.
Proof.
  intros (_ & Hnd & Hdis & Hhf & Hrel) Hi Ho. unfold placed, channel in *. cbn [drained sh_pool idleConnections].
  rewrite Hi in *. cbn [default id orphan] in *. rewrite Ho in Hnd, Hdis. cbn in Hnd, Hdis. apply NoDup_cons in Hnd as [_ Hnd].
  split_and!; [done|done|set_solver|done|by auto].
Qed.

(** a step puts every connection in one place again *)
Lemma placed_step s l s' l' F : placed s F → oset (phase_conn l) ⊆ F →
  (∀ f, l = ReleaseDrain f ∨ l = ReleaseClose f → idleConnections (sh_pool s) = None) → pool_lstep s l s' l' →
  placed s' ((F ∖ oset (phase_conn l)) ∪ oset (l' ≫= phase_conn)) ∧ oset_new (phase_conn l) (l' ≫= phase_conn) F.
Proof.
  intros Hp Hl Hrel Hst.
  destruct Hst as
    [s Hi|s l Hi|s c t rest Hc|s Hi Ho Hoc|s Hc Ho|s c t now Ht|s c t now Ht|s c env|s c Hc|s c Hc|s c env
    |s env c p Hf Hn|s env e Hn|s c now l Hi Hlt|s c l Hi Hlt|s c Hi|s c env|s Hi|s l Hi|s f Hf|s f Hf|s f c t rest Ho|s f Ho];
    cbn [phase_conn option_bind mbind] in Hl |- *; try by apply placed_quiet.
  - destruct (placed_receive s F c t rest Hp Hc) as [Hr Hcf]. split; [by eapply placed_same; [|exact Hr]; set_solver|].
    intros ? [= <-]. by right.
  - by apply placed_stay.
  - destruct (has_ping (sh_pool s)); by apply placed_stay.
  - destruct (PoolPing (sh_pool s) env (Some c)); by apply placed_stay.
  - apply placed_drop, placed_flagged; [done|set_solver|done].
  - apply placed_drop, placed_check; [done|set_solver].
  - apply placed_drop, placed_close; [done|set_solver].
  - by apply placed_quiet, (placed_new s F env).
  - apply placed_drop, placed_put; [done|set_solver|done..].
  - by apply placed_stay.
  - by apply placed_stay.
  - apply placed_drop, placed_close; [done|set_solver].
  - by apply placed_quiet, placed_release.
  - specialize (Hrel f (or_introl eq_refl)). destruct f; apply placed_quiet; [by eapply placed_drain|done].
Qed.

(** ** Release *)

(** the goroutine that has taken the channel away *)
Definition releasing (l : phase) : bool := match l with ReleaseClose _ | ReleaseDrain _ => true | _ => false end.

(** what it knows; and nobody panics but over a ping that [Release] takes away *)
Definition release_phase (pinged : bool) (s : shared) (l : phase) : Prop :=
  match l with
  | ReleaseClose f => f = true ∧ idleConnections (sh_pool s) = None ∧ orphan_closed s = false
  | ReleaseDrain f => f = true ∧ idleConnections (sh_pool s) = None ∧ orphan_closed s = true
  | GetPing _ => pinged = true
  | Crashed q _ => q = NilDeref ∧ pinged = true ∧ idleConnections (sh_pool s) = None
  | _ => True
  end.

Definition release_ok (pinged : bool) (st : shared * gmap nat phase) : Prop :=
  (∀ i l, st.2 !! i = Some l → release_phase pinged st.1 l) ∧
  (∀ i j li lj, st.2 !! i = Some li → st.2 !! j = Some lj → releasing li = true → releasing lj = true → i = j) ∧
  (idleConnections (sh_pool st.1) = None → orphan st.1 = [] ∨ ∃ i l, st.2 !! i = Some l ∧ releasing l = true) ∧
  match idleConnections (sh_pool st.1) with
  | Some _ => has_functions (sh_pool st.1) = true ∧ has_ping (sh_pool st.1) = pinged
  | None => has_functions (sh_pool st.1) = false ∧ has_ping (sh_pool st.1) = false
  end.

(** the pool is as it was for a [Release] *)
Definition alike (s s' : shared) : Prop :=
  (idleConnections (sh_pool s') = None ↔ idleConnections (sh_pool s) = None) ∧
  has_functions (sh_pool s') = has_functions (sh_pool s) ∧ has_ping (sh_pool s') = has_ping (sh_pool s).

Lemma alike_refl s : alike s s.
Proof. done. Qed.

Lemma alike_receive s rest : alike s (receive s rest).
Proof. unfold alike, receive. destruct (idleConnections (sh_pool s)) eqn:Hi; cbn; by rewrite ?Hi. Qed.

Lemma alike_close s env c : alike s (set_pool s (PoolClose (sh_pool s) env (Some c)).2).
Proof. unfold alike, PoolClose. by destruct (has_functions (sh_pool s)) eqn:Hf; cbn; rewrite ?Hf. Qed.

Lemma alike_new s env c p h : get_new (sh_pool s) env = inr (c, p) → alike s (set_held (set_pool s p) h).
Proof. unfold get_new, alike. cases; intros; simplify_eq; done. Qed.

(** what a step that is not part of a [Release] does to it *)
Lemma release_quiet s l s' l' : releasing l = false → pool_lstep s l s' l' →
  (∃ conns, idleConnections (sh_pool s) = Some conns ∧ s' = release_take s conns ∧
     l' = Some (ReleaseClose (has_functions (sh_pool s)))) ∨
  (alike s s' ∧ orphan_closed s' = orphan_closed s ∧ (orphan s = [] → orphan s' = []) ∧
   ∀ l1, l' = Some l1 → releasing l1 = false).
Proof.
  intros Hl Hst. destruct Hst as
    [s Hi|s l Hi|s c t rest Hc|s Hi Ho Hoc|s Hc Ho|s c t now Ht|s c t now Ht|s c env|s c Hc|s c Hc|s c env
    |s env c p Hf Hn|s env e Hn|s c now l Hi Hlt|s c l Hi Hlt|s c Hi|s c env|s Hi|s l Hi|s f Hf|s f Hf|s f c t rest Ho|s f Ho];
    try done; try (right; split_and!; [done..|by intros ? [= <-]]).
  - right. split; [apply alike_receive|]. unfold receive, channel in *. destruct (idleConnections (sh_pool s)); cbn in *;
      split_and!; try done; try (by intros ? [= <-]). by rewrite Hc.
  - right. split_and!; [done..|]. intros ? [= <-]. by destruct (has_ping _).
  - right. split_and!; [done..|]. intros l1. destruct (PoolPing _ _ _); by intros [= <-].
  - right. split_and!; [apply alike_close..|done|done|by intros ? [= <-]].
  - right. split_and!; [by eapply alike_new..|done|done|done].
  - right. unfold alike. cbn. rewrite Hi. by split_and!.
  - right. split_and!; [apply alike_close..|done|done|done].
  - left. by exists l.
Qed.

(** what the releasing goroutine does *)
Lemma release_loud s l s' l' pinged : releasing l = true → release_phase pinged s l → pool_lstep s l s' l' →
  alike s s' ∧ (∀ l1, l' = Some l1 → releasing l1 = true ∧ release_phase pinged s' l1) ∧ (l' = None → orphan s' = []).
Proof.
  intros Hl Hp Hst. destruct Hst; try done; cbn in Hp.
  - destruct Hp as (-> & ? & ?). split; [done|]. split; [|done]. by intros ? [= <-].
  - destruct Hp as (? & ? & ?). congruence.
  - destruct Hp as (-> & ? & ?). split; [done|]. split; [|done]. by intros ? [= <-].
Qed.

(** phases that are not part of a [Release] know nothing a step can change *)
Lemma release_phase_alike pinged s s' l : releasing l = false → alike s s' → release_phase pinged s l → release_phase pinged s' l.
Proof. intros Hl (Hi & _) Hp. destruct l; try done; cbn in *. by rewrite Hi. Qed.

Lemma release_phase_new pinged s l s' l1 : releasing l = false → releasing l1 = false →
  release_phase pinged s l → (idleConnections (sh_pool s) ≠ None → has_ping (sh_pool s) = pinged) →
  (idleConnections (sh_pool s) = None → has_ping (sh_pool s) = false) →
  pool_lstep s l s' (Some l1) → release_phase pinged s' l1.
Proof.
  intros Hl Hl1 Hp Hping Hnone Hst. remember (Some l1) as l' eqn:El. destruct Hst; simplify_eq; try done.
  - destruct (has_ping (sh_pool s)) eqn:Hh; [|done]. cbn.
    destruct (idleConnections (sh_pool s)) eqn:Hi.
    + specialize (Hping ltac:(done)). congruence.
    + specialize (Hnone eq_refl). congruence.
  - unfold PoolPing in El. destruct (has_ping (sh_pool s)) eqn:Hh; cbn in El.
    + by destruct (ping_ok env c); simplify_eq.
    + simplify_eq. cbn in Hp |- *. split; [done|]. split; [done|].
      destruct (idleConnections (sh_pool s)) eqn:Hi; [|done].
      specialize (Hping ltac:(done)). congruence.
Qed.

Lemma alike_functions (P : bool → bool → Prop) s s' : alike s s' →
  match idleConnections (sh_pool s) with
  | Some _ => has_functions (sh_pool s) = true ∧ P (has_ping (sh_pool s)) true
  | None => has_functions (sh_pool s) = false ∧ P (has_ping (sh_pool s)) false
  end →
  match idleConnections (sh_pool s') with
  | Some _ => has_functions (sh_pool s') = true ∧ P (has_ping (sh_pool s')) true
  | None => has_functions (sh_pool s') = false ∧ P (has_ping (sh_pool s')) false
  end.
Proof.
  intros (Hn & -> & ->).
  destruct (idleConnections (sh_pool s)), (idleConnections (sh_pool s')); try done; naive_solver.
Qed.

Lemma release_ok_loud pinged s ths i l s' l' : ths !! i = Some l → releasing l = true → pool_lstep s l s' l' →
  release_ok pinged (s, ths) → release_ok pinged (s', set_thread i l' ths).
Proof.
  intros Hi Hl Hst (Hph & Huniq & Horph & Hfun). cbn [fst snd] in *.
  destruct (release_loud s l s' l' pinged Hl (Hph i l Hi) Hst) as (Halike & Hnew & Hend).
  assert (∀ j lj, j ≠ i → ths !! j = Some lj → releasing lj = false) as Halone.
  { intros j lj Hne Hj. destruct (releasing lj) eqn:Hlj; [|done]. by destruct Hne, (Huniq j i lj l). }
  split; [|split; [|split]]; cbn [fst snd].
  - intros j lj [[-> Heq]|[Hne Hj]]%set_thread_Some; [by apply Hnew|].
    apply (release_phase_alike pinged s); [by eapply Halone|done|by eapply Hph].
  - intros j k lj lk [[-> _]|[Hnj Hj]]%set_thread_Some [[-> _]|[Hnk Hk]]%set_thread_Some Hrj Hrk; try done.
    + by rewrite (Halone k lk Hnk Hk) in Hrk.
    + by rewrite (Halone j lj Hnj Hj) in Hrj.
    + by eapply Huniq.
  - intros _. destruct l' as [l1|]; [right; exists i, l1|left; by apply Hend].
    split; [apply set_thread_Some; by left|by apply Hnew].
  - by apply (alike_functions (λ p b, p = if b then pinged else false) s).
Qed.

Lemma release_ok_take pinged s ths i conns : idleConnections (sh_pool s) = Some conns →
  release_ok pinged (s, ths) →
  release_ok pinged (release_take s conns, set_thread i (Some (ReleaseClose (has_functions (sh_pool s)))) ths).
Proof.
  intros Hc (Hph & _ & _ & Hfun). cbn [fst snd] in *. rewrite Hc in Hfun. destruct Hfun as [Hf Hping].
  assert (∀ j lj, ths !! j = Some lj → releasing lj = false) as Hnone.
  { intros j lj Hj. specialize (Hph j lj Hj). destruct lj; try done; cbn in Hph; destruct Hph as (_ & Hx & _); congruence. }
  split; [|split; [|split]]; cbn [fst snd].
  - intros j lj [[-> [= <-]]|[Hne Hj]]%set_thread_Some; [by rewrite Hf|].
    specialize (Hnone j lj Hj). specialize (Hph j lj Hj). destruct lj; try done; cbn in *. naive_solver.
  - intros j k lj lk [[-> _]|[Hnj Hj]]%set_thread_Some [[-> _]|[Hnk Hk]]%set_thread_Some Hrj Hrk; try done.
    + by rewrite (Hnone k lk Hk) in Hrk.
    + by rewrite (Hnone j lj Hj) in Hrj.
    + by rewrite (Hnone j lj Hj) in Hrj.
  - intros _. right. eexists i, _. split; [apply set_thread_Some; by left|done].
  - done.
Qed.

Lemma release_ok_quiet pinged s ths i l s' l' : ths !! i = Some l → releasing l = false → pool_lstep s l s' l' →
  alike s s' → orphan_closed s' = orphan_closed s → (orphan s = [] → orphan s' = []) →
  (∀ l1, l' = Some l1 → releasing l1 = false) →
  release_ok pinged (s, ths) → release_ok pinged (s', set_thread i l' ths).
Proof.
  intros Hi Hl Hst Halike Hoc Horph' Hnr (Hph & Huniq & Horph & Hfun). cbn [fst snd] in *.
  split; [|split; [|split]]; cbn [fst snd].
  - intros j lj [[-> ->]|[Hne Hj]]%set_thread_Some.
    + apply (release_phase_new pinged s l s' lj Hl (Hnr lj eq_refl) (Hph i l Hi)); [| |exact Hst].
      * intros Hs. destruct (idleConnections (sh_pool s)); [apply Hfun|done].
      * intros Hs. rewrite Hs in Hfun. apply Hfun.
    + destruct (releasing lj) eqn:Hr; [|by apply (release_phase_alike pinged s); [|done|eapply Hph]].
      specialize (Hph j lj Hj). destruct Halike as [Hn _]. destruct lj; try done; cbn in *; by rewrite Hn, Hoc.
  - intros j k lj lk [[-> Hj]|[Hnj Hj]]%set_thread_Some [[-> Hk]|[Hnk Hk]]%set_thread_Some Hrj Hrk; try done.
    + by rewrite (Hnr lj Hj) in Hrj.
    + by rewrite (Hnr lk Hk) in Hrk.
    + by eapply Huniq.
  - intros Hs%Halike. destruct (Horph Hs) as [Ho|(j & lj & Hj & Hr)]; [left; by apply Horph'|right].
    exists j, lj. split; [|done]. rewrite set_thread_other; [done|]. intros ->. simplify_eq. congruence.
  - by apply (alike_functions (λ p b, p = if b then pinged else false) s).
Qed.

Lemma release_ok_step pinged s ths i l s' l' : ths !! i = Some l → pool_lstep s l s' l' →
  release_ok pinged (s, ths) → release_ok pinged (s', set_thread i l' ths).
Proof.
  intros Hi Hst Hok. destruct (releasing l) eqn:Hl; [by eapply release_ok_loud|].
  destruct (release_quiet s l s' l' Hl Hst) as [(conns & Hc & -> & ->)|(? & ? & ? & ?)].
  - by apply release_ok_take.
  - by eapply release_ok_quiet.
Qed.

(** ** The invariant *)

Definition sizes (cfg : pool_config) (s : shared) : Prop :=
  maxActive (sh_pool s) = MaxCap cfg ∧ maxIdle (sh_pool s) = MaxIdle cfg.

Lemma sizes_step cfg s l s' l' : pool_lstep s l s' l' → sizes cfg s → sizes cfg s'.
Proof.
  unfold sizes. intros Hst. destruct Hst; try done.
  - unfold receive. by destruct (idleConnections (sh_pool s)).
  - cbn [set_pool sh_pool]. by destruct (pool_sizes (sh_pool s) env (Some c)) as [-> ->].
  - cbn. unfold get_new in *. repeat case_match; simplify_eq; done.
  - cbn [set_pool sh_pool]. by destruct (pool_sizes (sh_pool s) env (Some c)) as [-> ->].
  - by destruct f.
Qed.

Definition pool_threads_ok (cfg : pool_config) (st : shared * gmap nat phase) : Prop :=
  placed st.1 (flight st.2) ∧ apart st.2 ∧ release_ok (pc_ping cfg) st ∧ sizes cfg st.1.

Lemma flight_go ths i l : ths !! i = None → flight (<[i := l]> ths) = flight ths ∪ oset (phase_conn l).
Proof.
  intros Hi. apply set_eq. intros c. rewrite elem_of_union, !elem_of_flight, elem_of_oset. split.
  - intros (j & lj & [[<- <-]|[_ Hj]]%lookup_insert_Some & Hc); [by right|left; eauto].
  - intros [(j & lj & Hj & Hc)|Hc]; [|exists i, l; by rewrite lookup_insert_eq].
    exists j, lj. rewrite lookup_insert_ne; [done|]. intros ->. congruence.
Qed.

Lemma apart_go ths i l : ths !! i = None → apart ths → (∀ c, phase_conn l = Some c → c ∉ flight ths) → apart (<[i := l]> ths).
Proof.
  intros Hi Ha Hnew j k lj lk c Hj Hk Hcj Hck.
  apply lookup_insert_Some in Hj as [[<- <-]|[? Hj]], Hk as [[<- <-]|[? Hk]]; try done.
  - destruct (Hnew c Hcj). apply elem_of_flight. eauto.
  - destruct (Hnew c Hck). apply elem_of_flight. eauto.
  - by eapply Ha.
Qed.

Lemma release_ok_go pinged s s' ths i l : ths !! i = None → pool_starts s l s' →
  release_ok pinged (s, ths) → release_ok pinged (s', <[i := l]> ths).
Proof.
  intros Hi Hs (Hph & Huniq & Horph & Hfun). cbn [fst snd] in *.
  assert (releasing l = false ∧ sh_pool s' = sh_pool s ∧ orphan s' = orphan s ∧ orphan_closed s' = orphan_closed s ∧
    ∀ s1, release_phase pinged s1 l) as (Hr & Hp & Ho & Hoc & Hl) by (by destruct Hs).
  assert (∀ l1, release_phase pinged s l1 → release_phase pinged s' l1) as Hsame.
  { intros l1. destruct l1; cbn; by rewrite ?Hp, ?Hoc. }
  split; [|split; [|split]]; cbn [fst snd].
  - intros j lj [[<- <-]|[_ Hj]]%lookup_insert_Some; [done|by eapply Hsame, Hph].
  - intros j k lj lk [[<- <-]|[_ Hj]]%lookup_insert_Some [[<- <-]|[_ Hk]]%lookup_insert_Some; try congruence.
    by eapply Huniq.
  - rewrite Hp, Ho. intros [?|(j & lj & Hj & ?)]%Horph; [by left|right]. exists j, lj.
    rewrite lookup_insert_ne; [done|]. intros ->. congruence.
  - by rewrite Hp.
Qed.

Lemma placed_go s l s' F : pool_starts s l s' → placed s F →
  placed s' (F ∪ oset (phase_conn l)) ∧ ∀ c, phase_conn l = Some c → c ∉ F.
Proof.
  intros Hs Hp. destruct Hs as [s|s c Hc|s c Hc|s]; cbn [phase_conn oset].
  1, 4: split; [by eapply placed_same; [|exact Hp]; set_solver|done].
  all: destruct Hp as (Hok & Hnd & Hdis & Hhf & Hrel); (split; [|intros ? [= <-]; set_solver]);
    unfold placed, channel in *; cbn [set_held sh_pool orphan held];
    assert (held s ∖ {[c]} ∪ (F ∪ {[c]}) = held s ∪ F) as ->
      by (apply set_eq; intros x; destruct (decide (x = c)); set_solver);
    split_and!; [done|done|done|set_solver|done].
Qed.

Lemma pool_threads_step cfg : invariant ptstep (pool_threads_ok cfg).
Proof.
  intros st st' (Hp & Ha & Hr & Hz) Hst. destruct Hst as [s ths i l s' Hi Hs|s ths i l s' l' Hi Hs]; cbn [fst snd] in *.
  - destruct (placed_go s l s' _ Hs Hp) as [Hp' Hnew]. split_and!; cbn [fst snd].
    + by rewrite flight_go.
    + by apply apart_go.
    + by eapply release_ok_go.
    + by destruct Hs.
  - destruct (placed_step s l s' l' (flight ths)) as [Hp' Hnew]; [done| | |done|].
    + intros c Hc%elem_of_oset. apply elem_of_flight. eauto.
    + intros f Hf. destruct Hr as (Hph & _). specialize (Hph i l Hi). by destruct Hf as [-> | ->]; apply Hph.
    + split_and!; cbn [fst snd]; [by rewrite (flight_set ths i l)|by apply (apart_set ths i l)|by eapply release_ok_step|by eapply sizes_step].
Qed.

Lemma pool_threads_start cfg p0 : NewChannelPool cfg = Ok p0 → pool_threads_ok cfg (new_pool p0, ∅).
Proof.
  intros Hnew. unfold NewChannelPool in Hnew. repeat case_match; simplify_eq. bools.
  assert (flight ∅ = ∅) as Hf.
  { apply set_eq. intros c. rewrite elem_of_flight. set_solver. }
  unfold pool_threads_ok, placed, apart, release_ok, sizes, channel. cbn [fst snd]. rewrite Hf. cbn.
  rewrite union_empty_l_L. split_and!; try done; try set_solver; try lia; constructor.
Qed.

Lemma pool_threads_reachable cfg p0 st : NewChannelPool cfg = Ok p0 → rtc ptstep (new_pool p0, ∅) st → pool_threads_ok cfg st.
Proof. intros Hnew Hr. eapply invariant_reachable; [apply pool_threads_step|by apply pool_threads_start|exact Hr]. Qed.

(** ** One goroutine by itself *)

Definition taken (h : gset nat) (r : pool_error + nat) : gset nat := match r with inr c => {[c]} ∪ h | inl _ => h end.

Lemma receive_alone p c t rest : idleConnections p = Some ((c, t) :: rest) → ∀ h,
  pool_lstep (mk_shared p [] false h) GetSelect (mk_shared (set_idle p (Some rest)) [] false h) (Some (GetTaken c t)).
Proof.
  intros Hi h. pose proof (p_receive (mk_shared p [] false h) c t rest) as Hr.
  unfold channel, receive in Hr. cbn [sh_pool] in Hr. rewrite Hi in Hr. by apply Hr.
Qed.

(** closing a connection the pool knows adds none to those it knows *)
Lemma close_known p env c : c ∈ live p ∪ closed_flags p →
  live (PoolClose p env (Some c)).2 ∪ closed_flags (PoolClose p env (Some c)).2 = live p ∪ closed_flags p.
Proof.
  intros Hc. unfold PoolClose. destruct (has_functions p); cbn; [|done].
  apply set_eq. intros x. destruct (decide (x = c)); set_solver.
Qed.

(** from a connection received to the end of this turn of the loop *)
Lemma taken_alone p env h c t s' : (* what discarding, keeping and skipping it lead to *)
  (alone pool_lstep (mk_shared p [] false h) (GetDiscard c) s' None ∨
     (0 <? idleTimeout p)%Z && (t + idleTimeout p <? now env)%Z = false ∧ has_ping p && negb (ping_ok env c) = false) →
  (alone pool_lstep (mk_shared p [] false h) (GetCheck c) s' None ∨
     (0 <? idleTimeout p)%Z && (t + idleTimeout p <? now env)%Z || has_ping p && negb (ping_ok env c) = true) →
  alone pool_lstep (mk_shared p [] false h) (GetTaken c t) s' None.
Proof.
  intros Hdiscard Hcheck. destruct ((0 <? idleTimeout p)%Z && (t + idleTimeout p <? now env)%Z) eqn:Hexp.
  { eapply alone_more; [apply (p_expired (mk_shared p [] false h) c t (now env)); bools; by split|]. naive_solver. }
  eapply alone_more; [apply (p_in_time (mk_shared p [] false h) c t (now env))|].
  { cbn. intros [H1%Z.ltb_lt H2%Z.ltb_lt]. by rewrite H1, H2 in Hexp. }
  pose proof (p_ping (mk_shared p [] false h) c env) as Hping. unfold PoolPing in Hping. cbn [sh_pool orb] in *.
  destruct (has_ping p); cbn [negb andb] in *; [|naive_solver].
  destruct (ping_ok env c); cbn [negb] in *; (eapply alone_more; [exact Hping|]); naive_solver.
Qed.

(** what [PoolGet] does is one of the runs of a goroutine the others leave alone *)
Lemma get_loop_alone env h conns p r p' :
  idleConnections p = Some conns → (∀ c, c ∈ conns.*1 → c ∈ live p ∪ closed_flags p) →
  (∀ n, factory env = Ok n → n ∉ live p ∪ closed_flags p) → get_loop p env conns = (r, p') →
  alone pool_lstep (mk_shared p [] false h) GetSelect (mk_shared p' [] false (taken h r)) None.
Proof.
  revert p. induction conns as [|[c t] rest IH]; intros p Hi Hin Hfresh; cbn [get_loop].
  - intros Hg. eapply alone_more; [apply p_default; [unfold channel; cbn [sh_pool]; by rewrite Hi|done]|]. apply alone_one.
    assert (set_idle p (Some []) = p) as Hp by (destruct p; cbn in Hi; by subst). rewrite Hp in Hg.
    destruct (get_new p env) as [e|[c p1]] eqn:Hn; injection Hg as <- <-.
    + by apply (p_new_error _ env e).
    + exact (p_new (mk_shared p [] false h) env c p1 Hfresh Hn).
  - set (p1 := set_idle p (Some rest)). intros Hg. eapply alone_more; [by eapply receive_alone|]. fold p1.
    assert (c ∈ live p1 ∪ closed_flags p1) as Hc by (apply Hin; set_solver).
    assert (∀ c', c' ∈ rest.*1 → c' ∈ live p1 ∪ closed_flags p1) as Hin' by (intros; apply Hin; set_solver).
    assert (get_loop (PoolClose p1 env (Some c)).2 env rest = (r, p') →
      alone pool_lstep (mk_shared p1 [] false h) (GetDiscard c) (mk_shared p' [] false (taken h r)) None) as Hdiscard.
    { intros Hd. eapply alone_more; [apply (p_discard (mk_shared p1 [] false h) c env)|].
      apply IH; [apply PoolClose_channel|by rewrite close_known..|exact Hd]. }
    apply (taken_alone p1 env).
    + destruct (_ && _)%bool; [by left; apply Hdiscard|]. destruct (has_ping p && _)%bool eqn:Hping; [by left; apply Hdiscard|by right].
    + destruct (_ && _)%bool; [by right|]. destruct (has_ping p && _)%bool eqn:Hping; [by right|left].
      destruct (bool_decide_reflect (c ∈ closed_flags p)).
      * eapply alone_more; [by apply (p_check_closed (mk_shared p1 [] false h))|]. by apply IH.
      * injection Hg as <- <-. by apply alone_one, (p_check (mk_shared p1 [] false h)).
Qed.

(** ** Properties *)

(** C29: The pool under concurrent use: however the goroutines in its methods
    interleave, as long as it is not released, every open connection is in exactly
    one place: idle, in the hands of a user, or in one method, and the three
    together are the open ones; the counter counts them, at most [MaxCap] are open
    and at most [MaxIdle] idle.  Also while it is released, no connection is
    handed out that another user or method has. *)
Theorem pool_bounded_threads cfg p0 s ths :
  NewChannelPool cfg = Ok p0 → rtc ptstep (new_pool p0, ∅) (s, ths) →
  held s ## flight ths ∧ apart ths ∧ NoDup (channel s).*1 ∧ list_to_set (channel s).*1 ## held s ∪ flight ths ∧
  ∀ l, idleConnections (sh_pool s) = Some l →
    live (sh_pool s) = list_to_set l.*1 ∪ (held s ∪ flight ths) ∧
    openedCount (sh_pool s) = Z.of_nat (size (live (sh_pool s))) ∧
    (openedCount (sh_pool s) ≤ MaxCap cfg)%Z ∧ (Z.of_nat (length l) ≤ MaxIdle cfg)%Z.
Proof.
  intros Hnew Hr. destruct (pool_threads_reachable cfg p0 _ Hnew Hr) as ((Hok & Hnd & Hdis & Hhf & _) & Ha & _ & [Hact Hidle]).
  cbn [fst snd] in *. split_and!; [done..|]. intros l Hl. unfold pool_ok in Hok. rewrite Hl in Hok.
  rewrite Hact, Hidle in Hok. naive_solver.
Qed.

(** Releasing a pool that is in use: the channel is closed at most once and never
    sent to afterwards, when the goroutine that releases has returned the channel
    is empty, and the only panic there can be is that of a [Get] whose ping function
    the release took away; a pool without one never panics. *)
Theorem release_is_safe cfg p0 s ths :
  NewChannelPool cfg = Ok p0 → rtc ptstep (new_pool p0, ∅) (s, ths) →
  (∀ i q c, ths !! i = Some (Crashed q c) → q = NilDeref ∧ pc_ping cfg = true ∧ idleConnections (sh_pool s) = None) ∧
  (idleConnections (sh_pool s) = None → (∀ i l, ths !! i = Some l → releasing l = false) → orphan s = []).
Proof.
  intros Hnew Hr. destruct (pool_threads_reachable cfg p0 _ Hnew Hr) as (_ & _ & (Hph & _ & Horph & _) & _). cbn [fst snd] in *.
  split; [intros i q c Hi; exact (Hph i _ Hi)|]. intros [?|(i & l & Hi & Hl)]%Horph Hno; [done|].
  specialize (Hno i l Hi). congruence.
Qed.

(** a pool with a ping function: a connection is made, given back and asked for
    again; while that [Get] is about to ping it, the pool is released *)
Module PoolThreadsExample.
Definition cfg : pool_config := {| InitialCap := 0; MaxCap := 2; MaxIdle := 1; pc_factory := true; pc_close := true;
  pc_ping := true; pc_idleTimeout := 0 |}.
Definition p0 : channelPool := mk_pool (Some []) 1 true true 0 2 0 ∅ ∅.
Definition env : pool_env := {| now := 0; ping_ok _ := true; close_err _ := None; factory := Ok 7 |}.
Definition s0 : shared := new_pool p0.
Definition made : shared := set_held (set_pool s0 (mk_pool (Some []) 1 true true 0 2 1 ∅ ({[7]} ∪ ∅))) ({[7]} ∪ ∅).
Definition given : shared := set_held made (held made ∖ {[7]}).
Definition idle : shared := set_pool given (set_idle (sh_pool given) (Some ([] ++ [(7, 0%Z)]))).
Definition out : shared := receive idle [].
Definition gone : shared := release_take out [].

Lemma one s l s' l' : pool_lstep s l s' (Some l') → ptstep (s, {[0 := l]}) (s', {[0 := l']}).
Proof.
  intros Hs. replace {[0 := l']} with (set_thread 0 (Some l') {[0 := l]}) by (cbn; apply insert_singleton_eq).
  eapply t_run; [by rewrite lookup_singleton_eq|done].
Qed.

Lemma last s l s' : pool_lstep s l s' None → ptstep (s, {[0 := l]}) (s', ∅).
Proof.
  intros Hs. replace (∅ : gmap nat phase) with (set_thread 0 None {[0 := l]}) by (cbn; apply delete_singleton_eq).
  eapply t_run; [by rewrite lookup_singleton_eq|done].
Qed.

Lemma go s l s' : pool_starts s l s' → ptstep (s, ∅) (s', {[0 := l]}).
Proof. intros Hs. by apply t_go. Qed.

Lemma made_reached : rtc ptstep (s0, ∅) (made, ∅).
Proof.
  eapply rtc_l; [apply go, go_get|]. eapply rtc_l; [by apply one, (p_get s0 [])|].
  eapply rtc_l; [by apply one, p_default|].
  apply rtc_once, last. apply (p_new s0 env 7 (mk_pool (Some []) 1 true true 0 2 1 ∅ ({[7]} ∪ ∅))); [|reflexivity].
  intros n [= <-]. apply (bool_decide_unpack _). by vm_compute.
Qed.

Lemma idle_reached : rtc ptstep (made, ∅) (idle, ∅).
Proof.
  eapply rtc_l; [apply go, (go_put made 7); apply (bool_decide_unpack _); by vm_compute|].
  apply rtc_once, last. apply (p_put given 7 0 []); [reflexivity|by vm_compute].
Qed.

Lemma pinging : rtc ptstep (s0, ∅) (out, {[0 := GetPing 7]}).
Proof.
  etrans; [exact made_reached|]. etrans; [exact idle_reached|].
  eapply rtc_l; [apply go, go_get|]. eapply rtc_l; [by apply one, (p_get idle [(7, 0%Z)])|].
  eapply rtc_l; [by apply one, (p_receive idle 7 0 [])|].
  apply rtc_once, one, (p_in_time out 7 0 0). by intros [? _].
Qed.

Definition both (l : phase) : gmap nat phase := <[1 := l]> {[0 := GetPing 7]}.

Lemma crashed : rtc ptstep (s0, ∅)
  (gone, set_thread 0 (Some (Crashed NilDeref (Some 7))) (set_thread 1 (Some (ReleaseClose true)) (both ReleaseLock))).
Proof.
  etrans; [exact pinging|].
  eapply rtc_l; [apply (t_go _ _ out {[0 := GetPing 7]} 1 ReleaseLock out); [reflexivity|apply go_release]|].
  eapply rtc_l; [eapply (t_run _ _ out (both ReleaseLock) 1); [reflexivity|by apply (p_release out [])]|].
  apply rtc_once. eapply t_run; [reflexivity|]. exact (p_ping gone 7 env).
Qed.
End PoolThreadsExample.

(** The race of a [Get] with a [Release]: the [Get] finds a ping function, the
    [Release] takes it away, and the call of it is one of nil. *)
Theorem ping_race : ∃ s ths, NewChannelPool PoolThreadsExample.cfg = Ok PoolThreadsExample.p0 ∧
  rtc ptstep (new_pool PoolThreadsExample.p0, ∅) (s, ths) ∧ ths !! 0 = Some (Crashed NilDeref (Some 7)).
Proof. eexists _, _. split; [reflexivity|]. split; [exact PoolThreadsExample.crashed|]. reflexivity. Qed.

Lemma pool_bounded_threads_witness :
  openedCount (sh_pool PoolThreadsExample.out) = Z.of_nat (size (live (sh_pool PoolThreadsExample.out))) ∧
  live (sh_pool PoolThreadsExample.out) = list_to_set (@nil (nat * Z)).*1 ∪ (held PoolThreadsExample.out ∪ flight {[0 := GetPing 7]}).
Proof.
  destruct (pool_bounded_threads PoolThreadsExample.cfg PoolThreadsExample.p0 PoolThreadsExample.out _ eq_refl
    PoolThreadsExample.pinging) as (_ & _ & _ & _ & Hl).
  destruct (Hl [] eq_refl) as (Hlive & Hcount & _). split; [exact Hcount|exact Hlive].
Defined.

Lemma release_is_safe_witness : idleConnections (sh_pool PoolThreadsExample.gone) = None ∧ pc_ping PoolThreadsExample.cfg = true.
Proof.
  destruct (release_is_safe PoolThreadsExample.cfg PoolThreadsExample.p0 PoolThreadsExample.gone _ eq_refl
    PoolThreadsExample.crashed) as [Hc _].
  destruct (Hc 0 NilDeref (Some 7)) as (_ & Hp & Hi); [reflexivity|]. split; [exact Hi|exact Hp].
Defined.
