(* ===== verification/Udp.v ===== *)
(** * The UDP proxy

    Models cmd/proxy/udp.go: the table of sessions, the goroutine that serves
    datagrams and the ones that carry replies.

    Sockets are numbered.  Dialling, listening, the outcome of reads and writes
    and the parser of control messages (golang.org/x/sys) are the environment;
    the lock of the server makes each table operation one step. *)

From S2P Require Export Socket.

Local Open Scope string_scope.
Local Open Scope nat_scope.
Local Open Scope list_scope.

(** ** The server *)

Record udpSession := { s_key : string; s_client : UDPAddr; s_original : UDPAddr; s_upstream : nat }.

Record UDPServer := mk_udp {
  sessions : gmap string udpSession;
  replyConn : gmap string UDPAddr;              (* the reply sockets and what they are bound to *)
  readers : list udpSession;                    (* the running [proxyReplies] *)
  open_upstreams : gset nat;
  dialled : gmap nat (UDPAddr * UDPAddr);       (* for whom, and where to, a socket was dialled *)
  delivered : list (UDPAddr * UDPAddr * nat)    (* replies: from, to, read from *)
}.

Definition NewUDPServer : UDPServer := mk_udp ∅ ∅ [] ∅ ∅ [].

(** [Startup]: the option is set while the socket is made; [RawControl] is the
    error of the access to it *)
Definition udp_Startup (port : Z) (RawControl : option string) (setsockopt : Z → Z → option string)
    (bind : string → string → option string) (is_UDPConn : bool) (type_name : string) : option string :=
  let control := match RawControl with Some e => Some e | None => EnableUDPSocketOptions setsockopt end in
  match control with
  | Some e => Some e
  | None =>
      match bind "udp4" (":" +:+ Itoa port) with
      | Some e => Some e
      | None => if is_UDPConn then None else Some ("expected UDPConn, got " +:+ type_name)
      end
  end.

(** [cloneUDPAddr], whose copy of the bytes is a value here *)
Definition cloneUDPAddr (addr : option UDPAddr) : option UDPAddr :=
  (λ a, {| ua_IP := ua_IP a; ua_Port := ua_Port a |}) <$> addr.

Definition session_key (client original : UDPAddr) : string := addr_string client +:+ "|" +:+ addr_string original.

(** [dial]: a new socket, or an error *)
Definition getOrCreateSession (u : UDPServer) (dial : result string nat) (client original : UDPAddr)
  : result string udpSession * UDPServer :=
  let key := session_key client original in
  match sessions u !! key with
  | Some session => (Ok session, u)
  | None =>
      match dial with
      | Ok n =>
          let session := {| s_key := key; s_client := client; s_original := original; s_upstream := n |} in
          (Ok session, mk_udp (<[key := session]> (sessions u)) (replyConn u) (readers u ++ [session])
             ({[n]} ∪ open_upstreams u) (<[n := (client, original)]> (dialled u)) (delivered u))
      | Err e => (Err e, u)
      | Panic p => (Panic p, u)
      end
  end.

Definition closeSession (u : UDPServer) (key : string) : UDPServer :=
  match sessions u !! key with
  | None => u
  | Some session =>
      mk_udp (delete key (sessions u)) (replyConn u) (readers u) (open_upstreams u ∖ {[s_upstream session]})
        (dialled u) (delivered u)
  end.

(** one datagram in [serve]: a failed write closes the session *)
Definition serve_datagram (u : UDPServer) (original : result string UDPAddr) (dial : result string nat)
    (client : UDPAddr) (write_err : option string) : UDPServer :=
  match original with
  | Ok original =>
      match getOrCreateSession u dial client original with
      | (Ok session, u) => match write_err with None => u | Some _ => closeSession u (s_key session) end
      | (_, u) => u
      end
  | _ => u
  end.

Definition getReplyConn (u : UDPServer) (listen_err : option string) (original : UDPAddr)
  : result string UDPAddr * UDPServer :=
  let key := addr_string original in
  match replyConn u !! key with
  | Some conn => (Ok conn, u)
  | None =>
      match listen_err with
      | Some e => (Err e, u)
      | None => (Ok original, mk_udp (sessions u) (<[key := original]> (replyConn u)) (readers u) (open_upstreams u)
                                (dialled u) (delivered u))
      end
  end.

(** the i-th reader ends *)
Definition reader_exit (u : UDPServer) (i : nat) : UDPServer :=
  mk_udp (sessions u) (replyConn u) (delete i (readers u)) (open_upstreams u) (dialled u) (delivered u).

Definition deliver (u : UDPServer) (from to : UDPAddr) (n : nat) : UDPServer :=
  mk_udp (sessions u) (replyConn u) (readers u) (open_upstreams u) (dialled u) (delivered u ++ [(from, to, n)]).

(** one turn of [proxyReplies] of the i-th reader: [read_err] is the error of
    the read, which is certain once the socket is closed *)
Definition proxy_reply (u : UDPServer) (i : nat) (read_err listen_err write_err : option string) : UDPServer :=
  match readers u !! i with
  | None => u
  | Some session =>
      match read_err with
      | Some _ => reader_exit (closeSession u (s_key session)) i
      | None =>
          match getReplyConn u listen_err (s_original session) with
          | (Ok conn, u) =>
              match write_err with
              | None => deliver u conn (s_client session) (s_upstream session)
              | Some _ => reader_exit (closeSession u (s_key session)) i
              end
          | (_, u) => reader_exit (closeSession u (s_key session)) i
          end
      end
  end.

(** [Shutdown] closes the sockets and keeps the tables *)
Definition UDPShutdown (u : UDPServer) : UDPServer :=
  mk_udp (sessions u) (replyConn u) (readers u)
    (open_upstreams u ∖ list_to_set ((λ '(_, s), s_upstream s) <$> map_to_list (sessions u)))
    (dialled u) (delivered u).

Inductive udp_step : UDPServer → UDPServer → Prop :=
  | udp_datagram u original dial client write_err :
      (∀ n, dial = Ok n → dialled u !! n = None) →
      udp_step u (serve_datagram u original dial client write_err)
  | udp_reply u i session listen_err write_err :
      readers u !! i = Some session → s_upstream session ∈ open_upstreams u →
      udp_step u (proxy_reply u i None listen_err write_err)
  | udp_read_error u i err : udp_step u (proxy_reply u i (Some err) None None).

(** ** Invariants *)

(** the open sockets are those of the sessions in the table; each session is
    under its own key, has a running reader, and every socket was dialled for
    its session; replies come from where the client sent to *)
Definition udp_ok (u : UDPServer) : Prop :=
  (∀ k s, sessions u !! k = Some s →
     s_key s = k ∧ s ∈ readers u ∧ s_upstream s ∈ open_upstreams u) ∧
  (∀ n, n ∈ open_upstreams u → ∃ k s, sessions u !! k = Some s ∧ s_upstream s = n) ∧
  (∀ s, s ∈ readers u → dialled u !! s_upstream s = Some (s_client s, s_original s) ∧
     s_key s = session_key (s_client s) (s_original s)) ∧
  (∀ n, n ∈ open_upstreams u → is_Some (dialled u !! n)) ∧
  NoDup (s_upstream <$> readers u) ∧
  (∀ k a, replyConn u !! k = Some a → addr_string a = k) ∧
  (∀ from to n, (from, to, n) ∈ delivered u →
     ∃ original, dialled u !! n = Some (to, original) ∧ addr_string from = addr_string original).

Lemma readers_unique u s s' :
  NoDup (s_upstream <$> readers u) → s ∈ readers u → s' ∈ readers u → s_upstream s = s_upstream s' → s = s'.
Proof.
  intros Hnd (i & Hi)%list_elem_of_lookup (j & Hj)%list_elem_of_lookup E.
  assert (i = j) as ->; [|congruence].
  apply (NoDup_lookup (s_upstream <$> readers u) i j (s_upstream s)); [done|by rewrite list_lookup_fmap, Hi|].
  rewrite list_lookup_fmap, Hj. cbn. congruence.
Qed.

Lemma closeSession_readers u key : readers (closeSession u key) = readers u.
Proof. unfold closeSession. by destruct (sessions u !! key). Qed.

Lemma closeSession_gone u key : sessions (closeSession u key) !! key = None.
Proof. unfold closeSession. destruct (sessions u !! key) eqn:E; [apply lookup_delete_eq|done]. Qed.

Lemma udp_ok_close u key : udp_ok u → udp_ok (closeSession u key).
Proof.
  intros (Htab & Hopen & Hread & Hdial & Hnd & Hreply & Hdel). unfold closeSession.
  destruct (sessions u !! key) as [session|] eqn:Ek; [|by split_and!].
  destruct (Htab _ _ Ek) as (Hk & Hin & Hup). split_and!; cbn; try done.
  - intros k s (Hne & Hs)%lookup_delete_Some. destruct (Htab _ _ Hs) as (? & Hs' & ?).
    split_and!; [done..|]. apply elem_of_difference. split; [done|]. intros ?%elem_of_singleton.
    assert (s = session) as -> by (by apply (readers_unique u)). congruence.
  - intros n (Hn & Hne)%elem_of_difference. destruct (Hopen n Hn) as (k & s & Hs & <-).
    exists k, s. split; [|done]. apply lookup_delete_Some. split; [|done]. intros <-. set_solver.
  - intros n (Hn & _)%elem_of_difference. by apply Hdial.
Qed.

Lemma udp_ok_exit u i s :
  udp_ok u → readers u !! i = Some s → sessions u !! s_key s = None → udp_ok (reader_exit u i).
Proof.
  intros (Htab & Hopen & Hread & Hdial & Hnd & Hreply & Hdel) Hi Hs.
  split_and!; cbn; try done.
  - intros k s' Hs'. destruct (Htab _ _ Hs') as (Hk & Hin & ?). split_and!; [done| |done].
    apply list_elem_of_lookup in Hin as (j & Hj). destruct (decide (j = i)) as [->|Hne]; [congruence|].
    apply list_elem_of_lookup. destruct (decide (j < i)).
    + exists j. by rewrite list_lookup_delete_lt.
    + exists (j - 1). rewrite list_lookup_delete_ge by lia. by replace (S (j - 1)) with j by lia.
  - intros s' Hs'. apply Hread. rewrite <-(take_drop i (readers u)).
    rewrite delete_take_drop in Hs'. apply elem_of_app in Hs' as [?|Hs']; apply elem_of_app; [by left|right].
    rewrite (drop_S _ _ _ Hi). by right.
  - rewrite delete_take_drop, fmap_app. rewrite <-(take_drop i (readers u)), (drop_S _ _ _ Hi), fmap_app in Hnd.
    cbn in Hnd. apply NoDup_app in Hnd as (H1 & H2 & H3). apply NoDup_cons in H3 as [_ H3].
    apply NoDup_app. split_and!; [done| |done]. intros x Hx Hx'. apply (H2 x Hx). by right.
Qed.

Lemma udp_ok_create u dial client original r u' :
  udp_ok u → (∀ n, dial = Ok n → dialled u !! n = None) →
  getOrCreateSession u dial client original = (r, u') → udp_ok u'.
Proof.
  intros Hok Hfresh. unfold getOrCreateSession. destruct (sessions u !! _) as [s|] eqn:Ek; [by intros [= <- <-]|].
  destruct dial as [n|?|?]; [|by intros [= <- <-]..]. intros [= <- <-]. specialize (Hfresh n eq_refl).
  destruct Hok as (Htab & Hopen & Hread & Hdial & Hnd & Hreply & Hdel).
  assert (n ∉ open_upstreams u) as Hno by (intros Hn; destruct (Hdial n Hn); congruence).
  assert (∀ s, s ∈ readers u → s_upstream s ≠ n) as Hnr.
  { intros s Hs Hn. destruct (Hread s Hs) as [Hd _]. rewrite Hn in Hd. congruence. }
  split_and!; cbn.
  - intros k s [[<- <-]|[Hne Hs]]%lookup_insert_Some; [split_and!; [done|apply elem_of_app; right; left|set_solver]|].
    destruct (Htab _ _ Hs) as (? & ? & ?). split_and!; [done|apply elem_of_app; by left|set_solver].
  - intros m [Hm|Hm]%elem_of_union; [apply elem_of_singleton in Hm as ->; eexists _, _; split; [apply lookup_insert_eq|done]|].
    destruct (Hopen m Hm) as (k & s & Hs & <-). exists k, s. split; [|done]. rewrite lookup_insert_ne; [done|congruence].
  - intros s [Hs|Hs]%elem_of_app.
    + destruct (Hread s Hs) as [? ?]. split; [|done]. rewrite lookup_insert_ne; [done|]. symmetry. by apply Hnr.
    + apply list_elem_of_singleton in Hs as ->. cbn. by rewrite lookup_insert_eq.
  - intros m [Hm|Hm]%elem_of_union; [apply elem_of_singleton in Hm as ->; rewrite lookup_insert_eq; by eexists|].
    rewrite lookup_insert_ne; [by apply Hdial|]. intros <-. done.
  - rewrite fmap_app. cbn. apply NoDup_app. split_and!; [done| |apply NoDup_singleton].
    intros x (s & -> & Hs)%list_elem_of_fmap Hx. apply list_elem_of_singleton in Hx. by apply (Hnr s Hs).
  - done.
  - intros from to m Hm. destruct (Hdel _ _ _ Hm) as (o & Ho & ?). exists o. split; [|done].
    rewrite lookup_insert_ne; [done|]. intros <-. congruence.
Qed.

Lemma udp_ok_reply_conn u listen_err original r u' :
  udp_ok u → getReplyConn u listen_err original = (r, u') →
  udp_ok u' ∧ readers u' = readers u ∧ dialled u' = dialled u ∧
  match r with Ok conn => addr_string conn = addr_string original | _ => True end.
Proof.
  intros Hok. unfold getReplyConn. destruct (replyConn u !! _) as [a|] eqn:Ek.
  { intros [= <- <-]. split_and!; [done..|]. destruct Hok as (_ & _ & _ & _ & _ & Hreply & _). by apply Hreply in Ek. }
  destruct listen_err; intros [= <- <-]; [done|].
  destruct Hok as (Htab & Hopen & Hread & Hdial & Hnd & Hreply & Hdel).
  split_and!; try done. split_and!; cbn; try done.
  intros k a [[<- <-]|[_ Ha]]%lookup_insert_Some; [done|by apply Hreply].
Qed.

Lemma udp_ok_end u i session : udp_ok u → readers u !! i = Some session →
  udp_ok (reader_exit (closeSession u (s_key session)) i).
Proof.
  intros Hok Hi. apply udp_ok_exit with session; [by apply udp_ok_close|by rewrite closeSession_readers|apply closeSession_gone].
Qed.

Lemma udp_ok_reply u i read_err listen_err write_err : udp_ok u → udp_ok (proxy_reply u i read_err listen_err write_err).
Proof.
  intros Hok. unfold proxy_reply. destruct (readers u !! i) as [session|] eqn:Hi; [|done].
  destruct read_err; [by apply udp_ok_end|].
  destruct (getReplyConn u listen_err (s_original session)) as [r u1] eqn:Hg.
  apply udp_ok_reply_conn in Hg as (Hok1 & Hr & Hd & Hconn); [|done]. rewrite <-Hr in Hi.
  destruct r as [conn|e|p]; [|by apply udp_ok_end..]. destruct write_err; [by apply udp_ok_end|].
  pose proof Hok1 as (Htab & Hopen & Hread & Hdial & Hnd & Hreply & Hdel).
  split_and!; cbn; try done. intros from to n [Hn|Hn]%elem_of_app; [by apply Hdel|].
  apply list_elem_of_singleton in Hn as [= -> -> ->]. exists (s_original session). split; [|done].
  by destruct (Hread session (list_elem_of_lookup_2 _ _ _ Hi)) as [? _].
Qed.

Lemma udp_ok_step : invariant udp_step udp_ok.
Proof.
  intros u u' Hok Hst. destruct Hst as [u original dial client write_err Hf|u i session l w _ _|u i err]; [|by apply udp_ok_reply..].
  unfold serve_datagram. destruct original as [original|?|?]; [|done..].
  destruct (getOrCreateSession u dial client original) as [r u1] eqn:Hg.
  apply udp_ok_create in Hg; [|done..]. destruct r as [s|?|?]; [|done..]. destruct write_err; [by apply udp_ok_close|done].
Qed.

(** ** Properties *)

(** C28: In every state the server reaches, no socket is lost: the open upstream
    sockets are those of the sessions in the table, and each of these has a
    goroutine that carries its replies and closes it; and every reply went to
    the client whose datagram opened the socket it was read from, from the
    address that client had sent to. *)
Theorem udp_sessions_sound u :
  rtc udp_step NewUDPServer u →
  (∀ n, n ∈ open_upstreams u ↔ ∃ k s, sessions u !! k = Some s ∧ s_upstream s = n) ∧
  (∀ k s, sessions u !! k = Some s → k = session_key (s_client s) (s_original s) ∧ s ∈ readers u) ∧
  (∀ from to n, (from, to, n) ∈ delivered u →
     ∃ original, dialled u !! n = Some (to, original) ∧ addr_string from = addr_string original).
Proof.
  intros Hr. assert (udp_ok u) as (Htab & Hopen & Hread & Hdial & Hnd & Hreply & Hdel).
  { refine (invariant_reachable udp_step udp_ok NewUDPServer u udp_ok_step _ Hr).
    split_and!; cbn; try done; try set_solver. constructor. }
  split_and!; [|intros k s Hs|done].
  - intros n. split; [apply Hopen|]. intros (k & s & Hs & <-). by destruct (Htab _ _ Hs) as (_ & _ & ?).
  - destruct (Htab _ _ Hs) as (<- & Hin & _). by destruct (Hread s Hin).
Qed.

Module UdpExample.
Definition client : UDPAddr := {| ua_IP := IPv4 10 0 0 7; ua_Port := 5353 |}.
Definition original : UDPAddr := {| ua_IP := IPv4 8 8 8 8; ua_Port := 53 |}.
Definition u1 : UDPServer := serve_datagram NewUDPServer (Ok original) (Ok 0) client None.
End UdpExample.

Lemma udp_sessions_sound_witness :
  ∃ k s, sessions UdpExample.u1 !! k = Some s ∧ s_upstream s = 0.
Proof.
  apply (proj1 (udp_sessions_sound UdpExample.u1 (rtc_once _ _ (udp_datagram NewUDPServer (Ok UdpExample.original) (Ok 0)
    UdpExample.client None (λ n Hn, eq_refl))))).
  apply (bool_decide_unpack _). vm_compute. done.
Defined.

(** A goroutine of a dead session can close a newer one: when a write
    fails, the session is closed and its reader is still to notice; a datagram
    that arrives in between opens a new session under the same key, which the
    old reader then closes and removes. *)
Theorem stale_reader_closes_session client original err :
  ∃ u u' session, rtc udp_step NewUDPServer u ∧ udp_step u u' ∧
    sessions u !! session_key client original = Some session ∧ s_upstream session ∈ open_upstreams u ∧
    (∃ old, readers u !! 0 = Some old ∧ s_upstream old ≠ s_upstream session) ∧
    u' = proxy_reply u 0 (Some err) None None ∧
    sessions u' !! session_key client original = None ∧ s_upstream session ∉ open_upstreams u'.
Proof.
  set (key := session_key client original).
  set (s0 := {| s_key := key; s_client := client; s_original := original; s_upstream := 0 |}).
  set (s1 := {| s_key := key; s_client := client; s_original := original; s_upstream := 1 |}).
  set (a := serve_datagram NewUDPServer (Ok original) (Ok 0) client (Some err)).
  set (b := serve_datagram a (Ok original) (Ok 1) client None).
  assert (a = mk_udp ∅ ∅ [s0] ∅ {[0 := (client, original)]} []) as Ea.
  { unfold a, serve_datagram, getOrCreateSession. fold key.
    assert (sessions NewUDPServer !! key = None) as -> by apply lookup_empty. unfold closeSession. cbn.
    rewrite lookup_insert_eq, delete_insert_eq. cbn. reflexivity. }
  assert (b = mk_udp {[key := s1]} ∅ [s0; s1] {[1]} {[1 := (client, original); 0 := (client, original)]} []) as Eb.
  { unfold b, serve_datagram, getOrCreateSession. fold key. rewrite Ea. cbn. rewrite lookup_empty. cbn. reflexivity. }
  exists b, (proxy_reply b 0 (Some err) None None), s1. split_and!.
  - apply rtc_l with a.
    + apply udp_datagram. intros n _. apply lookup_empty.
    + apply rtc_once. apply udp_datagram. intros n [= <-]. rewrite Ea. cbn. by apply lookup_singleton_ne.
  - apply udp_read_error.
  - rewrite Eb. apply lookup_singleton_eq.
  - rewrite Eb. cbn. set_solver.
  - exists s0. by rewrite Eb.
  - done.
  - rewrite Eb. unfold proxy_reply, closeSession. cbn. rewrite lookup_singleton_eq. cbn. apply lookup_delete_eq.
  - rewrite Eb. unfold proxy_reply, closeSession. cbn. rewrite lookup_singleton_eq. cbn. set_solver.
Qed.
